(* ===== verification/_CoqProject ===== *)
-Q . S2P
Prelude.v
GoLib.v
GoTime.v
Json.v
JsonProofs.v
Interfaces.v
LedgerData.v
Ledger.v
LedgerSpec.v
LedgerOps.v
LedgerReplay.v
LedgerTotal.v
LedgerAdmission.v
LedgerHistory.v
LedgerCodec.v
LedgerExamples.v
LedgerTheorems.v
Store.v
StoreHistory.v
StoreTheorems.v
AdminPolicy.v
AdminPolicyOps.v
AdminPolicySpec.v
AdminPolicyProofs.v
AdminPolicyHash.v
AdminPolicyHashProofs.v
Bootstrap.v
BootstrapProofs.v
PolicyExamples.v
AdminPolicyTheorems.v
BootstrapTheorems.v
Identity.v
Labels.v
Health.v
HealthTheorems.v
Graph.v
GraphProofs.v
GraphEdges.v
GraphBuild.v
GraphTheorems.v
GraphText.v
GraphOrder.v
SortKeys.v
Lease.v
LeaseTheorems.v
LeaseName.v
LeaseExamples.v
Quarantine.v
QuarantineTheorems.v
LockProtocol.v
TopologyLock.v
TopologyLockProofs.v
TopologyLockTheorems.v
TopologyLockExamples.v
Leaf.v
LeafClaim.v
LeafMarks.v
LeafProofs.v
LeafTheorems.v
LeafExamples.v
JsonFields.v
GraphDoc.v
GraphDocProofs.v
Receipt.v
Lifecycle.v
ReceiptProofs.v
ReceiptTheorems.v
ReceiptExamples.v
