(* ===== verification/Prelude.v ===== *)
(** * Verification of the topology rollout safety core of Cisco Virtual Kubelet

    The program is a Kubernetes manager and its workers for Cisco devices.  What it may
    never get wrong is the coordination of disruptive work: how many devices are taken
    out of service at a time, which evidence allows it, and who may write the record of
    it.  This library models that core from the Go sources under src/ and proves what
    makes it correct.

    ** The parts and how they interact

    - The rollout ledger, src/internal/topologyrollout/ledger.go: a JSON document in one
      ConfigMap with a reservation per device under maintenance, a life cycle of
      reservations and the fence of the last release.  LedgerData.v has its types,
      validation and JSON, Ledger.v the operations ([Reserve] to [FenceUnboundAcquisition];
      an operation is a [LedgerOp], a function from a ledger to a ledger and an error).
      LedgerSpec.v states well-formedness, LedgerOps.v the effect of every operation,
      LedgerReplay.v idempotence, LedgerTotal.v the absence of panics, LedgerAdmission.v
      the budgets, LedgerHistory.v histories as a step relation, LedgerCodec.v the round
      trip, LedgerExamples.v and LedgerTheorems.v the properties C1 to C6,
      C10, C11 and C13.
    - The ledger store, src/internal/topologyrollout/store.go: [Read] and the
      compare-and-swap [Mutate], with other writers between any two calls.  Store.v,
      StoreHistory.v, StoreTheorems.v (C16 to C18).
    - The administrator policy, src/internal/topologyrollout/policy.go: AdminPolicy.v
      (types, validation), AdminPolicyOps.v (admission policy, risk groups, transfer rate,
      drain caps, protections), AdminPolicyHash.v (hashes), AdminPolicySpec.v,
      AdminPolicyProofs.v, AdminPolicyHashProofs.v, AdminPolicyTheorems.v (C19, C21 to C23,
      C25, C27).
      Its admission policy is an argument of [Reserve]; C22 composes the two.
    - Policy bootstrap, [BootstrapAdminPolicy] of the same file: Bootstrap.v,
      BootstrapProofs.v, PolicyExamples.v, BootstrapTheorems.v (C28, C30).  It creates
      the ledger that the store mutates.
    - Physical identities, src/internal/topologyidentity/physical_identity.go: Identity.v
      (C31).  They key the members and reservations of the ledger and the nodes of
      the graph.
    - Node labels, src/internal/topology/labels.go: Labels.v (C33).
    - The network health gate, src/internal/topologyhealth/gate.go: Health.v,
      HealthTheorems.v (C34).
    - The observed topology graph, src/internal/topologygraph: Graph.v ([BuildGraph]),
      GraphProofs.v (the loops), GraphEdges.v (edges), GraphBuild.v (the whole
      function), GraphTheorems.v (C35), GraphText.v (sort keys), GraphOrder.v (C36).
      Its policy document, graph_policy.go: GraphDoc.v and GraphDocProofs.v (C7).
    - Family leases, src/internal/drivers/iosxe/configdriver/engine/lease.go with the keys
      of src/internal/devicecoordination/mutation.go: a Kubernetes Lease serialises the
      writers of one device.  Lease.v ([Acquire], [AcquireIfFree], [Release], names),
      LeaseTheorems.v (C37, C38), LeaseName.v (C39), LeaseExamples.v (a reference server).
    - The mutation quarantine, src/internal/provider/mutationguard/guard.go: which upgrades
      and actions may still act on a device, and the Lease taken in their name.
      SortKeys.v (sorting by several keys), Quarantine.v, QuarantineTheorems.v (C9, C40).
    - Topology locks, src/internal/controller/topology_lock.go and the parts of
      src/internal/controller/iosxesoftwarerollout_execution.go that reserve, give up and
      settle under a lock: the lock is on the device, the reservation in the ledger, and no
      transaction spans them.  LockProtocol.v states the order of the writes as a step
      relation and proves its invariant, TopologyLock.v has the operations,
      TopologyLockProofs.v that they follow the protocol, TopologyLockTheorems.v the
      properties (C12, C32), TopologyLockExamples.v a reference server.
    - Managed upgrade leaves, src/internal/provider/softwareupgrade/managed.go and the claim
      and status functions of reconciler.go: the upgrade of one device, on which the manager
      grants and cancels and the worker claims each device mutation before it asks the
      device for it.  Leaf.v (the record, markers, claims, the compare-and-swap token),
      LeafClaim.v (binding checks, decision, claims, status updates, in a state monad over
      the API server), LeafMarks.v and LeafProofs.v (what the writes do), LeafTheorems.v
      (C20, C26, C29), LeafExamples.v a reference server.
    - Staged preparations, prepared_receipt.go, prepared_invalidation.go and the activation
      functions of managed.go in the same package, with the evidence of a drained Pod,
      src/internal/workloaddrain/evidence.go: a leaf may install an image and stop; its
      receipt authorises one activation later, or is retired.  Receipt.v has the hashes and
      checks, ReceiptProofs.v what the hashed texts determine, ReceiptTheorems.v the
      properties (C14, C15, C24), ReceiptExamples.v a preparation, its activation and its
      retirement.  The claims that a receipt lists are those of the leaf above.
    - Versions, [ValidateTargetVersion] of src/internal/softwarelifecycle/backend.go and
      [versionMatches] of reconciler.go: Lifecycle.v (C8).

    Shared by all: this file (notation, errors, automation, counting), GoLib.v (strings,
    hex, sort), GoTime.v (time and its RFC 3339 text), Json.v and JsonProofs.v
    (encoding/json, both directions), JsonFields.v (objects by field, hashes of texts),
    Interfaces.v (libraries outside the repository).

    ** How the code is modelled

    Go strings are byte strings ([string]); ints are [Z] with their bounds stated, and
    int32 addition wraps; time.Time is nanoseconds since year 1 and time.Duration a count
    of nanoseconds, with the saturation of [Sub]; float64 is SpecFloat's binary64.  Maps
    are [gmap]; where a range over a map could be observed its order is a parameter.  A
    function that returns an error returns a sum or an option of [goerror]; a panic is the
    value [EPanic], so that the absence of panics is a theorem.  Error texts leave out the
    interpolated values.

    Code outside the repository is a class with its laws apart: [K8sValidation], [UuidLib],
    [LabelLib], [HashLib], [KubeAPI] (an API server with optimistic concurrency that may
    fail after a write), [RetryLib] (retry.RetryOnConflict), [LeaseAPI] and [LeaseRetry]
    (the same for Leases), [DeviceAPI] (the same for devices), [LeafAPI] (the same for
    upgrade leaves, with reads of the objects they are bound to), [ConditionLib] (condition
    lists), [UrlLib] (net/url), [FloatText] and [MapRange] (Go's map order).  Every theorem
    that uses a law has a witness on a reference instance.

    ** What the theorems show

    - Budgets hold after every admission, in every history and under any interleaving of
      controllers (C1, C2, C17, C18), under every policy that validation accepts, which
      it does exactly within the limits of each field (C19), down to the byte rate of a
      risk group, none of whose transfers runs unpaced (C22).
    - A reservation follows the life cycle, keeps its identities and leaves only on the
      required evidence (C4, C5, C11); failed operations change nothing, repeated
      ones are harmless and none panics (C6).
    - What is stored is well formed and survives the round trip (C3, C13, C16).
    - Bootstrap never replaces a ledger or a binding, and completes (C28, C30).
    - The gate, the drain caps, the protections, identities and labels are exactly what
      their comments promise (C21, C23, C31, C33, C34), and the hashes depend on
      meaning only (C25, C27).
    - The graph is bounded, is complete exactly on complete evidence, and does not depend
      on any order (C35, C36); its policy has one canonical text and hash (C7).
    - A Lease has one holder at a time, whatever the writers' interleaving, and every
      device and family has a valid Lease name (C37 to C39); while an operation is in doubt
      the Lease is taken in its name and no other may go on, and a Lease that another still
      holds is left to it (C9, C40).
    - No reservation stands without the lock of its device, in any history of the two
      objects (C12), and the operations extend histories only by allowed steps, whatever
      happens between their calls (C32).
    - A device mutation is claimed in one write, under the grant it was checked against, at
      most once, and never after a cancellation (C20, C26); what a worker may do follows
      from the grant exactly, and it gives its lease back only when nothing was claimed
      (C29).
    - The hashes of receipts, Pod evidence, image sources and trust inputs bind every field
      of them, for ASCII text, numbers that are not negative and times of years 1 to 9999,
      which is what JSON keeps apart (C14); an activation has the authority of one
      preparation, never of a retired one (C15), and a preparation is retired only when
      nothing was activated (C24); a target version means the versions that it is a prefix
      of, segment by segment (C8).

    ** Fuel

    [trim_front] and [enc_chars] get the length of their input, of which every round
    consumes a byte; [search_loop] the length of the interval, which shrinks; [dec_digits]
    the binary logarithm; [runes] the length of the message, of which every round consumes a
    byte; [parse_value] twice the length of the document plus two, since
    between two consumed bytes there are at most two calls ([need_le]).  No theorem is
    conditional on fuel.

    ** Not modelled

    Metrics, logging and messages' interpolated values; [CanonicalPolicyJSON] (a helper of
    rendering tests); the mutation guard that a Go context carries
    (src/internal/devicecoordination/mutation.go).  Of the software upgrade worker: the
    phase functions and the handler of a retirement ([reconcilePreparedInvalidation]), which
    talk to the device over gNOI, and the pacing of transfers, which is timers around a
    floating-point rate.  The controllers, the provider and the device drivers are client
    I/O around these components or generated bindings; the configuration engine works on
    those bindings. *)

From stdpp Require Export gmap strings list fin_maps sorting.
From Stdlib Require Export ZArith.

(** The development's own notation scope: Go's comparison operators and the
    early-return shape of a Go function body. *)
Declare Scope go_scope.
Delimit Scope go_scope with go.

Notation "x == y" := (bool_decide (x = y))
  (at level 70, no associativity) : go_scope.
Notation "x != y" := (negb (bool_decide (x = y)))
  (at level 70, no associativity) : go_scope.

(** [return_if c r ;; k] is [if c { return r }] followed by [k]. *)
Notation "'return_if' c r ';;' k" := (if c then r else k)
  (at level 10, c at level 9, r at level 9, k at level 200, only parsing) : go_scope.

(** [propagate v ;; k] is [if err := v; err != nil { return err }] then [k]. *)
Notation "'propagate' v ';;' k" :=
  (match v with Some e => Some e | None => k end)
  (at level 10, v at level 9, k at level 200, only parsing) : go_scope.

Open Scope go_scope.
Open Scope Z_scope.

(** ** Errors *)

(** The sentinel errors of package topologyrollout. *)
Inductive sentinel :=
  | ErrLedgerIdentity
  | ErrLedgerFull
  | ErrAlreadyReserved
  | ErrBudgetExceeded
  | ErrTargetUnavailable
  | ErrInvalidTransition
  | ErrStaleControlRevision.

(** A non-nil Go [error].  [EIs s msg] is the sentinel [s], possibly wrapped
    with [fmt.Errorf("%w: msg")]; [EPlain msg] wraps no sentinel.  Interpolated
    values are left out of the text.  [EPanic] is a run-time panic, which is
    not an error value but ends the call without a result. *)
Inductive goerror :=
  | EIs (s : sentinel) (msg : string)
  | EPlain (msg : string)
  | EPanic (msg : string).

#[export] Instance sentinel_eq_dec : EqDecision sentinel.
Proof. solve_decision. Defined.
#[export] Instance goerror_eq_dec : EqDecision goerror.
Proof. solve_decision. Defined.

(** [errors.Is(err, s)]. *)
Definition errors_is (err : option goerror) (s : sentinel) : bool :=
  match err with
  | Some (EIs s' _) => s' == s
  | _ => false
  end.

Definition panics (err : option goerror) : bool :=
  match err with Some (EPanic _) => true | _ => false end.

(** ** Loops that return the first error *)

Fixpoint first_error {A} (f : A → option goerror) (l : list A) : option goerror :=
  match l with
  | [] => None
  | x :: l => propagate (f x) ;; first_error f l
  end.

(** [for k, v := range m { if err := f k v; err != nil { return err } }]: Go's
    order is unspecified, the model takes the order of [map_to_list]; whether
    the loop fails does not depend on it ([range_check_None]). *)
Definition range_check {V} (f : string → V → option goerror) (m : gmap string V)
  : option goerror :=
  first_error (λ kv, f kv.1 kv.2) (map_to_list m).

(** [m[k]] on a [map[string]string]: the zero value when the key is absent. *)
Definition mget (m : gmap string string) (k : string) : string := default "" (m !! k).

(** [m[k]] on a [map[string]int]. *)
Definition mgetZ (m : gmap string Z) (k : string) : Z := default 0 (m !! k).

(** [len(s)] and [len(l)] as Go ints. *)
Definition slen (s : string) : Z := Z.of_nat (String.length s).
Definition llen {A} (l : list A) : Z := Z.of_nat (length l).
Definition mlen {V} (m : gmap string V) : Z := Z.of_nat (size m).

(** Number of entries of a map that satisfy a predicate: the counting loops. *)
Definition mcount {V} (P : V → bool) (m : gmap string V) : Z :=
  Z.of_nat (size (filter (λ kv, P kv.2 = true) m)).

(** [time.Time] is the instant in nanoseconds since 0001-01-01T00:00:00Z, so that
    the zero [Time] is 0; [time.Duration] is a count of nanoseconds. *)
Abbreviation Time := Z (only parsing).
Abbreviation Duration := Z (only parsing).

Definition maxInt64 : Z := 2 ^ 63 - 1.

(** ** Automation *)

Create HintDb go.

Create Rewrite HintDb go_bool.
#[export] Hint Rewrite bool_decide_eq_true bool_decide_eq_false
  andb_true_iff andb_false_iff orb_true_iff orb_false_iff negb_true_iff negb_false_iff
  Z.ltb_lt Z.ltb_ge Z.leb_le Z.leb_gt Z.eqb_eq Z.eqb_neq Z.gtb_lt Z.geb_le : go_bool.

(** Turn boolean tests of the code into propositions. *)
Ltac go_bool := autorewrite with go_bool in *.

(** Walk through the early returns of a function whose result is known. *)
Ltac go_cases :=
  repeat (case_match; simplify_eq/=); simplify_eq/=.

(** [go_step H]: peel the outermost [if]/[match] of hypothesis [H]. *)
Ltac go_step H :=
  match type of H with
  | context [if ?c then _ else _] => destruct c eqn:?; simplify_eq/=
  | context [match ?c with _ => _ end] => destruct c eqn:?; simplify_eq/=
  end.

(** ** Lemmas on loops *)

Lemma first_error_None {A} (f : A → option goerror) l :
  first_error f l = None ↔ ∀ x, x ∈ l → f x = None.
Proof.
  induction l as [|x l IH]; simpl.
  - split; [intros _ y Hy; by apply not_elem_of_nil in Hy | done].
  - destruct (f x) eqn:Hx.
    + split; [done|]. intros H. rewrite (H x) in Hx; [done|set_solver].
    + rewrite IH. split.
      * intros H y [->|Hy]%elem_of_cons; auto.
      * intros H y Hy. apply H. set_solver.
Qed.

Lemma range_check_None {V} (f : string → V → option goerror) (m : gmap string V) :
  range_check f m = None ↔ ∀ k v, m !! k = Some v → f k v = None.
Proof.
  unfold range_check. rewrite first_error_None. split.
  - intros H k v Hk. by apply (H (k, v)), elem_of_map_to_list.
  - intros H [k v] Hk. by apply H, elem_of_map_to_list.
Qed.

(** A body of guards returns nil exactly when every guard lets it through. *)
Lemma ret_if_None (c : bool) (e : goerror) k :
  (if c then Some e else k) = None ↔ c = false ∧ k = None.
Proof. destruct c; naive_solver. Qed.

Lemma ret_ok_None (c : bool) (e : goerror) : (if c then None else Some e) = None ↔ c = true.
Proof. destruct c; naive_solver. Qed.

Lemma propagate_None (v k : option goerror) :
  (match v with Some e => Some e | None => k end) = None ↔ v = None ∧ k = None.
Proof. destruct v; naive_solver. Qed.

Create Rewrite HintDb go_none.
#[export] Hint Rewrite ret_if_None ret_ok_None propagate_None @first_error_None
  @range_check_None : go_none.

(** Turn "this body of guards returned nil" into the conjunction of its guards. *)
Ltac go_none := autorewrite with go_none in *.

Lemma mget_nonempty m k : mget m k ≠ "" → ∃ v, m !! k = Some v ∧ v = mget m k.
Proof. unfold mget. destruct (m !! k); naive_solver. Qed.

(** ** Lemmas on counting *)

Section mcount.
Context {V : Type} (P : V → bool).
Implicit Types m : gmap string V.

Lemma mcount_nonneg m : 0 ≤ mcount P m.
Proof. unfold mcount. lia. Qed.

Lemma mcount_empty : mcount P ∅ = 0.
Proof. unfold mcount. by rewrite map_filter_empty. Qed.

Lemma mcount_insert m k v :
  m !! k = None → mcount P (<[k:=v]> m) = mcount P m + (if P v then 1 else 0).
Proof.
  intros Hk. unfold mcount. rewrite map_filter_insert; simpl.
  case_decide as HP.
  - rewrite HP, map_size_insert_None; [lia|].
    apply map_lookup_filter_None. by left.
  - rewrite delete_id by done. destruct (P v); [done|lia].
Qed.

Lemma mcount_delete m k v :
  m !! k = Some v → mcount P m = mcount P (delete k m) + (if P v then 1 else 0).
Proof.
  intros Hk. rewrite <- (insert_delete_id m k v Hk) at 1.
  by rewrite mcount_insert by apply lookup_delete_eq.
Qed.

Lemma mcount_update m k v v' :
  m !! k = Some v → P v' = P v → mcount P (<[k:=v']> m) = mcount P m.
Proof.
  intros Hk HP. rewrite (mcount_delete m k v Hk).
  rewrite <- insert_delete_eq, mcount_insert, HP by apply lookup_delete_eq. done.
Qed.

Lemma mcount_delete_le m k : mcount P (delete k m) ≤ mcount P m.
Proof.
  destruct (m !! k) as [v|] eqn:Hk; [|by rewrite delete_id].
  rewrite (mcount_delete m k v Hk). case_match; lia.
Qed.

Lemma mcount_mlen m : mcount P m ≤ mlen m.
Proof.
  unfold mcount, mlen. apply Nat2Z.inj_le.
  rewrite <- !size_dom. apply subseteq_size, dom_filter_subseteq.
Qed.
End mcount.

Lemma mcount_ext {V} (P Q : V → bool) (m : gmap string V) :
  (∀ v, P v = Q v) → mcount P m = mcount Q m.
Proof.
  intros H. unfold mcount. do 2 f_equal. apply map_filter_ext. intros k v _. simpl. by rewrite H.
Qed.

(** ** String order *)

(** Go's [a < b] and [a >= b] on strings: bytewise lexicographic. *)
Definition str_lt (a b : string) : Prop := String.ltb a b = true.

#[export] Instance str_lt_dec : RelDecision str_lt.
Proof. intros a b. unfold str_lt. apply _. Defined.
