(* ===== verification/GoLib.v ===== *)
(** * The parts of Go's standard library the program relies on

    [strings.TrimSpace], [strings.ToLower], [strings.HasPrefix],
    [hex.DecodeString], [sort.Strings], [sort.Search]/[sort.SearchStrings], on
    Go strings, which are byte sequences and are modelled by [string]. *)

From S2P Require Import Prelude.

Definition bytes_of (s : string) : list Ascii.ascii := String.list_ascii_of_string s.
Definition of_bytes (l : list Ascii.ascii) : string := String.string_of_list_ascii l.
Definition byte_val (c : Ascii.ascii) : Z := Z.of_N (Ascii.N_of_ascii c).
Definition byte_of (n : nat) : Ascii.ascii := Ascii.ascii_of_nat n.

Definition all_bytes (p : Z → bool) (s : string) : bool :=
  forallb (λ c, p (byte_val c)) (bytes_of s).

(** ** strings.TrimSpace *)

(** The UTF-8 encodings of the runes with [unicode.IsSpace]. *)
Definition space_runes : list (list Ascii.ascii) :=
  map (map byte_of)
    ([[9]; [10]; [11]; [12]; [13]; [32]; [194; 133]; [194; 160]; [225; 154; 128];
      [226; 128; 128]; [226; 128; 129]; [226; 128; 130]; [226; 128; 131]; [226; 128; 132];
      [226; 128; 133]; [226; 128; 134]; [226; 128; 135]; [226; 128; 136]; [226; 128; 137];
      [226; 128; 138]; [226; 128; 168]; [226; 128; 169]; [226; 128; 175]; [226; 129; 159];
      [227; 128; 128]])%nat.

Fixpoint strip_prefix (p l : list Ascii.ascii) : option (list Ascii.ascii) :=
  match p, l with
  | [], _ => Some l
  | a :: p, b :: l => if a == b then strip_prefix p l else None
  | _ :: _, [] => None
  end.

Fixpoint strip_any (ps : list (list Ascii.ascii)) (l : list Ascii.ascii)
  : option (list Ascii.ascii) :=
  match ps with
  | [] => None
  | p :: ps => match strip_prefix p l with Some l' => Some l' | None => strip_any ps l end
  end.

(** Every strip removes at least one byte, so the length of the input is enough
    fuel. *)
Fixpoint trim_front (fuel : nat) (ps : list (list Ascii.ascii)) (l : list Ascii.ascii)
  : list Ascii.ascii :=
  match fuel with
  | O => l
  | S n => match strip_any ps l with Some l' => trim_front n ps l' | None => l end
  end.

Definition TrimSpace (s : string) : string :=
  let l := bytes_of s in
  let l := trim_front (length l) space_runes l in
  let r := rev l in
  of_bytes (rev (trim_front (length r) (map (@rev _) space_runes) r)).

(** ** strings.ToLower, strings.HasPrefix *)

(** ASCII case mapping.  The callers reject every string with a byte outside
    ASCII whatever [ToLower] makes of it ([hex.DecodeString] fails on it). *)
Definition lower_byte (c : Ascii.ascii) : Ascii.ascii :=
  let n := Ascii.nat_of_ascii c in
  if ((65 <=? n) && (n <=? 90))%nat then Ascii.ascii_of_nat (n + 32) else c.

Definition ToLower (s : string) : string := of_bytes (map lower_byte (bytes_of s)).

Definition HasPrefix (s p : string) : bool := String.prefix p s.

(** ** encoding/hex *)

Definition fromHexChar (c : Ascii.ascii) : option Z :=
  let b := byte_val c in
  if (48 <=? b) && (b <=? 57) then Some (b - 48)
  else if (97 <=? b) && (b <=? 102) then Some (b - 97 + 10)
  else if (65 <=? b) && (b <=? 70) then Some (b - 65 + 10)
  else None.

Fixpoint hex_decode (l : list Ascii.ascii) : option (list Z) :=
  match l with
  | [] => Some []
  | [_] => None
  | a :: b :: l =>
      match fromHexChar a, fromHexChar b, hex_decode l with
      | Some x, Some y, Some r => Some (x * 16 + y :: r)
      | _, _, _ => None
      end
  end.

Definition hex_DecodeString (s : string) : option (list Z) := hex_decode (bytes_of s).

(** ** sort *)

Definition sort_Strings (l : list string) : list string := merge_sort String.le l.

(** [sort.Search(n, f)]: the binary search loop
    [for i < j { h := int(uint(i+j) >> 1); if !f(h) { i = h + 1 } else { j = h } }]. *)
Fixpoint search_loop (fuel : nat) (f : nat → bool) (i j : nat) : nat :=
  match fuel with
  | O => i
  | S n =>
      if (i <? j)%nat then
        let h := Nat.div2 (i + j) in
        if f h then search_loop n f i h else search_loop n f (S h) j
      else i
  end.

(** The interval shrinks in every round, so [n] rounds are enough
    ([search_loop_spec]). *)
Definition sort_Search (n : nat) (f : nat → bool) : nat := search_loop n f 0 n.

(** [sort.SearchStrings(a, x)]: least index with [a[i] >= x]. *)
Definition sort_SearchStrings (a : list string) (x : string) : nat :=
  sort_Search (length a)
    (λ i, match a !! i with Some v => String.leb x v | None => true end).

(** ** Lemmas: printable strings *)

Definition printable (b : Z) : bool := (33 <=? b) && (b <=? 126).

Lemma bytes_of_length s : length (bytes_of s) = String.length s.
Proof. induction s; simpl; auto. Qed.

Lemma of_bytes_of s : of_bytes (bytes_of s) = s.
Proof. apply String.string_of_list_ascii_of_string. Qed.

Lemma bytes_of_of l : bytes_of (of_bytes l) = l.
Proof. apply String.list_ascii_of_string_of_list_ascii. Qed.

Lemma all_bytes_spec p s :
  all_bytes p s = true ↔ ∀ c, c ∈ bytes_of s → p (byte_val c) = true.
Proof.
  unfold all_bytes. rewrite forallb_forall.
  split; intros H c Hc; apply H; by apply list_elem_of_In.
Qed.

Lemma strip_any_None ps l :
  (∀ p, p ∈ ps → strip_prefix p l = None) → strip_any ps l = None.
Proof.
  induction ps as [|p ps IH]; simpl; intros H; [done|].
  rewrite (H p) by set_solver. apply IH. set_solver.
Qed.

Lemma trim_front_id fuel ps l : strip_any ps l = None → trim_front fuel ps l = l.
Proof. destruct fuel; simpl; [done|]. by intros ->. Qed.

Lemma strip_prefix_head_ne p a l b :
  head p = Some b → b ≠ a → strip_prefix p (a :: l) = None.
Proof. destruct p; simpl; intros; simplify_eq. by rewrite bool_decide_eq_false_2. Qed.

(** No rune of the table starts or ends with a printable ASCII byte. *)
Lemma space_runes_heads :
  forallb (λ p, match head p with Some b => negb (printable (byte_val b)) | None => false end)
    (space_runes ++ map (@rev _) space_runes) = true.
Proof. vm_compute. reflexivity. Qed.

Lemma strip_any_printable ps a l :
  (∀ p, p ∈ ps → p ∈ space_runes ++ map (@rev _) space_runes) →
  printable (byte_val a) = true → strip_any ps (a :: l) = None.
Proof.
  intros Hps Ha. apply strip_any_None. intros p Hp.
  pose proof space_runes_heads as H. rewrite forallb_forall in H.
  specialize (H p (proj1 (list_elem_of_In _ _) (Hps p Hp))).
  destruct (head p) as [b|] eqn:Hb; [|done].
  apply (strip_prefix_head_ne p a l b); [done|].
  intros ->. by rewrite Ha in H.
Qed.

Lemma trim_front_printable ps l :
  (∀ p, p ∈ ps → p ∈ space_runes ++ map (@rev _) space_runes) →
  (∀ a, a ∈ l → printable (byte_val a) = true) →
  trim_front (length l) ps l = l.
Proof.
  intros Hps Hl. destruct l as [|a l]; [done|].
  apply trim_front_id, strip_any_printable; [done|]. apply Hl. set_solver.
Qed.

Lemma TrimSpace_printable s : all_bytes printable s = true → TrimSpace s = s.
Proof.
  rewrite all_bytes_spec. intros H. unfold TrimSpace.
  rewrite (trim_front_printable space_runes (bytes_of s));
    [|intros p Hp; apply elem_of_app; by left|done].
  rewrite trim_front_printable;
    [by rewrite rev_involutive, of_bytes_of|intros p Hp; apply elem_of_app; by right|].
  intros a Ha. apply H. by rewrite list_elem_of_In, <- in_rev, <- list_elem_of_In in Ha.
Qed.

Lemma TrimSpace_empty : TrimSpace "" = "".
Proof. reflexivity. Qed.

(** ** Lemmas: sort.Strings *)

Lemma sort_Strings_Permutation l : sort_Strings l ≡ₚ l.
Proof. apply merge_sort_Permutation. Qed.

Lemma sort_Strings_elem x l : x ∈ sort_Strings l ↔ x ∈ l.
Proof. unfold sort_Strings. by rewrite merge_sort_Permutation. Qed.

Lemma sort_Strings_sorted l : StronglySorted String.le (sort_Strings l).
Proof. apply StronglySorted_merge_sort; apply _. Qed.

Lemma sort_Strings_perm_eq l1 l2 : l1 ≡ₚ l2 → sort_Strings l1 = sort_Strings l2.
Proof.
  intros H. apply (StronglySorted_unique String.le); [apply sort_Strings_sorted..|].
  by rewrite !sort_Strings_Permutation.
Qed.

(** ** Lemmas: binary search *)

(** If [f] is monotone on [[i, j)] the loop returns the least index at which it
    holds, or [j]; with [fuel >= j - i] rounds it has always finished. *)
Lemma search_loop_spec fuel f i j :
  (j - i ≤ fuel)%nat → (i ≤ j)%nat →
  (∀ a b, (i ≤ a)%nat → (a ≤ b)%nat → (b < j)%nat → f a = true → f b = true) →
  let r := search_loop fuel f i j in
  (i ≤ r ≤ j)%nat ∧
  (∀ a, (i ≤ a < r)%nat → f a = false) ∧ (∀ a, (r ≤ a < j)%nat → f a = true).
Proof.
  revert i j. induction fuel as [|n IH]; intros i j Hfuel Hij Hmono; simpl.
  { split_and!; [lia|lia|..]; intros; lia. }
  destruct (Nat.ltb_spec i j) as [Hlt|Hge].
  2: { split_and!; [lia|lia|..]; intros; lia. }
  set (h := Nat.div2 (i + j)).
  assert (i ≤ h < j)%nat as [Hih Hhj].
  { unfold h. rewrite Nat.div2_div.
    split; [apply Nat.div_le_lower_bound|apply Nat.Div0.div_lt_upper_bound]; lia. }
  destruct (f h) eqn:Hf.
  - destruct (IH i h) as (H1 & H2 & H3); [lia|lia| |].
    { intros a b ? ? ? ?. apply (Hmono a b); lia || done. }
    split_and!; [lia|lia|done|].
    intros a Ha. destruct (decide (a < h)%nat); [apply H3; lia|].
    apply (Hmono h a); lia || done.
  - destruct (IH (S h) j) as (H1 & H2 & H3); [lia|lia| |].
    { intros a b ? ? ? ?. apply (Hmono a b); lia || done. }
    split_and!; [lia|lia| |done].
    intros a Ha. destruct (decide (a ≤ h)%nat); [|apply H2; lia].
    destruct (f a) eqn:Hfa; [|done].
    rewrite (Hmono a h) in Hf; lia || done.
Qed.
