(* ===== verification/GoTime.v ===== *)
(** * Package time: RFC 3339 timestamps with nanoseconds

    [t.UTC().Format(time.RFC3339Nano)] and [time.Parse(time.RFC3339Nano, s)] on
    instants counted in nanoseconds since 0001-01-01T00:00:00Z, with the
    proleptic Gregorian calendar, and the round trip between them. *)

From S2P Require Import Prelude GoLib.

(** ** Calendar *)

Definition nsPerSecond : Z := 1000000000.
Definition nsPerDay : Z := 86400 * nsPerSecond.

(** Days from 0000-03-01 to 0001-01-01: years are counted from March inside. *)
Definition marchOffset : Z := 306.

(** Day of the 400-year era at which year [y] of the era (from March) begins. *)
Definition era_year_start (y : Z) : Z := 365 * y + y / 4 - y / 100.

Definition era_year (doe : Z) : Z :=
  (doe - doe / 1460 + doe / 36524 - doe / 146096) / 365.

(** Day of the (March-based) year at which month [mp] begins. *)
Definition month_start (mp : Z) : Z := (153 * mp + 2) / 5.

Definition civil_of_days (z : Z) : Z * Z * Z :=
  let era := z / 146097 in
  let doe := z mod 146097 in
  let yoe := era_year doe in
  let doy := doe - era_year_start yoe in
  let mp := (5 * doy + 2) / 153 in
  let d := doy - month_start mp + 1 in
  let m := if mp <? 10 then mp + 3 else mp - 9 in
  (yoe + era * 400 + (if m <=? 2 then 1 else 0), m, d).

Definition days_of_civil (y m d : Z) : Z :=
  let y' := if m <=? 2 then y - 1 else y in
  let mp := if 2 <? m then m - 3 else m + 9 in
  (y' / 400) * 146097 + era_year_start (y' mod 400) + month_start mp + d - 1.

Definition isLeap (y : Z) : bool :=
  (y mod 4 =? 0) && ((negb (y mod 100 =? 0)) || (y mod 400 =? 0)).

Definition daysIn (m y : Z) : Z :=
  if m =? 2 then (if isLeap y then 29 else 28)
  else if (m =? 4) || (m =? 6) || (m =? 9) || (m =? 11) then 30 else 31.

(** ** Decimal numbers *)

Definition digit (n : Z) : Ascii.ascii := Ascii.ascii_of_N (Z.to_N (48 + n)).
Definition isDigit (c : Ascii.ascii) : bool := (48 <=? byte_val c) && (byte_val c <=? 57).

(** [n] in exactly [w] digits (the low ones). *)
Fixpoint fixed (w : nat) (n : Z) : list Ascii.ascii :=
  match w with
  | O => []
  | S w => fixed w (n / 10) ++ [digit (n mod 10)]
  end.

Definition digits_val (l : list Ascii.ascii) : Z :=
  fold_left (λ a c, a * 10 + (byte_val c - 48)) l 0.

(** All digits of [n >= 0], most significant first. *)
Fixpoint dec_digits (fuel : nat) (n : Z) (acc : list Ascii.ascii) : list Ascii.ascii :=
  match fuel with
  | O => acc
  | S f =>
      let acc := digit (n mod 10) :: acc in
      if n <? 10 then acc else dec_digits f (n / 10) acc
  end.

(** [strconv.FormatInt(n, 10)]; a number has at most [log2 n + 1] digits. *)
Definition FormatInt (n : Z) : list Ascii.ascii :=
  let a := Z.abs n in
  let ds := dec_digits (S (Z.to_nat (Z.log2 a))) a [] in
  if n <? 0 then byte_of 45 :: ds else ds.

(** ** Format *)

Fixpoint drop_trailing_zeros (l : list Ascii.ascii) : list Ascii.ascii :=
  match l with
  | [] => []
  | c :: l =>
      match drop_trailing_zeros l with
      | [] => if c == byte_of 48 then [] else [c]
      | l' => c :: l'
      end
  end.

Definition format_year (y : Z) : list Ascii.ascii :=
  if (0 <=? y) && (y <=? 9999) then fixed 4 y else FormatInt y.

(** [t.UTC().Format("2006-01-02T15:04:05.999999999Z07:00")]. *)
Definition format_bytes (t : Time) : list Ascii.ascii :=
  let '(y, m, d) := civil_of_days (t / nsPerDay + marchOffset) in
  let ns := t mod nsPerDay in
  let s := ns / nsPerSecond in
  let frac := drop_trailing_zeros (fixed 9 (ns mod nsPerSecond)) in
  format_year y ++ [byte_of 45] ++ fixed 2 m ++ [byte_of 45] ++ fixed 2 d ++ [byte_of 84]
  ++ fixed 2 (s / 3600) ++ [byte_of 58] ++ fixed 2 (s / 60 mod 60) ++ [byte_of 58]
  ++ fixed 2 (s mod 60)
  ++ (match frac with [] => [] | _ => byte_of 46 :: frac end) ++ [byte_of 90].

Definition FormatRFC3339Nano (t : Time) : string := of_bytes (format_bytes t).

(** ** Parse *)

(** Exactly [w] decimal digits. *)
Definition take_num (w : nat) (l : list Ascii.ascii) : option (Z * list Ascii.ascii) :=
  let h := take w l in
  if ((length h =? w)%nat && forallb isDigit h) then Some (digits_val h, drop w l) else None.

Definition expect (c : nat) (l : list Ascii.ascii) : option (list Ascii.ascii) :=
  match l with
  | b :: l => if b == byte_of c then Some l else None
  | [] => None
  end.

Fixpoint span_digits (l : list Ascii.ascii) : list Ascii.ascii * list Ascii.ascii :=
  match l with
  | c :: l' => if isDigit c then let '(a, b) := span_digits l' in (c :: a, b) else ([], l)
  | [] => ([], [])
  end.

(** Nanoseconds of a fraction: its first nine digits, padded with zeros. *)
Definition frac_ns (ds : list Ascii.ascii) : Z :=
  digits_val (take 9 (ds ++ replicate 9 (byte_of 48))).

Definition parse_frac (l : list Ascii.ascii) : Z * list Ascii.ascii :=
  match l with
  | c :: d :: l' =>
      if (c == byte_of 46) && isDigit d
      then let '(ds, r) := span_digits (d :: l') in (frac_ns ds, r) else (0, l)
  | _ => (0, l)
  end.

(** Seconds east of UTC. *)
Definition parse_zone (l : list Ascii.ascii) : option Z :=
  if l == [byte_of 90] then Some 0 else
  match l with
  | sg :: l =>
      '(hr, l) ← take_num 2 l; l ← expect 58 l; '(mm, l) ← take_num 2 l;
      if (l == []) && (hr <=? 23) && (mm <=? 59)
         && ((sg == byte_of 43) || (sg == byte_of 45))
      then Some ((if sg == byte_of 45 then -1 else 1) * ((hr * 60 + mm) * 60)) else None
  | [] => None
  end.

(** [time.parseRFC3339], the strict path of [time.Parse] for this layout.  The
    lenient fall-back of [time.Parse] also takes spellings such as a one-digit
    hour; no such spelling is what [Format] prints, and the only caller compares
    the parsed instant's [Format] with its input. *)
Definition parse_bytes (l : list Ascii.ascii) : option Time :=
  '(y, l) ← take_num 4 l; l ← expect 45 l;
  '(mo, l) ← take_num 2 l; l ← expect 45 l;
  '(d, l) ← take_num 2 l; l ← expect 84 l;
  '(h, l) ← take_num 2 l; l ← expect 58 l;
  '(mi, l) ← take_num 2 l; l ← expect 58 l;
  '(s, l) ← take_num 2 l;
  let '(ns, l) := parse_frac l in
  off ← parse_zone l;
  if (1 <=? mo) && (mo <=? 12) && (1 <=? d) && (d <=? daysIn mo y)
     && (h <=? 23) && (mi <=? 59) && (s <=? 59)
  then Some (((days_of_civil y mo d - marchOffset) * 86400
              + h * 3600 + mi * 60 + s - off) * nsPerSecond + ns)
  else None.

Definition ParseRFC3339Nano (s : string) : option Time := parse_bytes (bytes_of s).

(** ** Calendar lemmas *)

Ltac divmod a b :=
  pose proof (Z.div_mod a b ltac:(lia)); pose proof (Z.mod_pos_bound a b ltac:(lia)).

Lemma era_year_spec doe :
  0 ≤ doe < 146097 →
  let y := era_year doe in
  0 ≤ y ≤ 399 ∧ era_year_start y ≤ doe ∧
  (doe < era_year_start (y + 1) ∨ (y = 399 ∧ doe ≤ era_year_start 399 + 365)).
Proof.
  intros H y. unfold era_year_start, y, era_year.
  change (399 / 4) with 99. change (399 / 100) with 3.
  divmod doe 1460. divmod doe 36524. divmod doe 146096.
  set (a := doe / 1460) in *. set (b := doe / 36524) in *. set (c := doe / 146096) in *.
  assert (0 ≤ c ≤ 1) by lia. assert (0 ≤ b ≤ 4) by lia. assert (0 ≤ a ≤ 100) by lia.
  set (N := doe - a + b - c) in *. divmod N 365. set (q := N / 365) in *.
  assert (0 ≤ q ≤ 399) by lia.
  divmod q 4. divmod q 100. divmod (q + 1) 4. divmod (q + 1) 100.
  assert (b = 0 ∨ b = 1 ∨ b = 2 ∨ b = 3 ∨ b = 4) as Hb by lia.
  assert (c = 0 ∨ c = 1) as Hc by lia.
  destruct Hb as [?|[?|[?|[?|?]]]]; destruct Hc; split; try lia; split; lia.
Qed.

Lemma month_of_doy doy :
  0 ≤ doy ≤ 365 →
  let mp := (5 * doy + 2) / 153 in
  0 ≤ mp ≤ 11 ∧ month_start mp ≤ doy ∧ doy < month_start (mp + 1).
Proof.
  intros H mp. unfold month_start, mp.
  divmod (5 * doy + 2) 153. set (q := (5 * doy + 2) / 153) in *.
  divmod (153 * q + 2) 5. divmod (153 * (q + 1) + 2) 5. lia.
Qed.

(** Days of the era year [y] (from March): 366 when the following February has
    29 days. *)
Lemma era_year_length y e :
  0 ≤ y ≤ 399 →
  era_year_start (y + 1) - era_year_start y =
    (if isLeap (y + e * 400 + 1) then 366 else 365) - (if y =? 399 then 1 else 0).
Proof.
  intros Hy. unfold era_year_start, isLeap.
  divmod y 4. divmod y 100. divmod (y + 1) 4. divmod (y + 1) 100.
  divmod (y + e * 400 + 1) 4. divmod (y + e * 400 + 1) 100. divmod (y + e * 400 + 1) 400.
  destruct (Z.eqb_spec y 399), (Z.eqb_spec ((y + e * 400 + 1) mod 4) 0),
    (Z.eqb_spec ((y + e * 400 + 1) mod 100) 0), (Z.eqb_spec ((y + e * 400 + 1) mod 400) 0);
    simpl; lia.
Qed.

Lemma doy_bounds doe e :
  0 ≤ doe < 146097 →
  let y := era_year doe in
  0 ≤ doe - era_year_start y < (if isLeap (y + e * 400 + 1) then 366 else 365).
Proof.
  intros H y. destruct (era_year_spec doe H) as (Hy & Hlo & Hhi). fold y in Hy, Hlo, Hhi.
  pose proof (era_year_length y e Hy) as Hlen.
  destruct Hhi as [Hhi|[Hy' Hhi]].
  - destruct (Z.eqb_spec y 399); destruct (isLeap _); lia.
  - rewrite Hy' in *. assert (isLeap (399 + e * 400 + 1) = true) as ->; [|lia].
    unfold isLeap. replace (399 + e * 400 + 1) with ((e + 1) * 400) by lia.
    rewrite Z.mod_mul by lia. replace ((e + 1) * 400) with ((e + 1) * 100 * 4) by lia.
    rewrite Z.mod_mul by lia. simpl. by rewrite orb_true_r.
Qed.

Ltac eval_months :=
  repeat match goal with
  | H : context [(153 * ?n + 2) / 5] |- _ =>
      let v := eval vm_compute in ((153 * n + 2) / 5) in change ((153 * n + 2) / 5) with v in H
  | |- context [(153 * ?n + 2) / 5] =>
      let v := eval vm_compute in ((153 * n + 2) / 5) in change ((153 * n + 2) / 5) with v
  end.

Lemma civil_of_days_spec z :
  let '(y, m, d) := civil_of_days z in
  days_of_civil y m d = z ∧ 1 ≤ m ≤ 12 ∧ 1 ≤ d ≤ daysIn m y.
Proof.
  unfold civil_of_days, days_of_civil.
  pose proof (Z.mod_pos_bound z 146097 ltac:(lia)) as Hdoe.
  pose proof (Z.div_mod z 146097 ltac:(lia)) as Hz.
  set (e := z / 146097) in *. set (doe := z mod 146097) in *.
  pose proof (doy_bounds doe e Hdoe) as Hdoy.
  destruct (era_year_spec doe Hdoe) as (Hy & _ & _).
  set (y := era_year doe) in *. set (doy := doe - era_year_start y) in *.
  assert (0 ≤ doy ≤ 365) as Hdoy'
    by (cbv zeta in Hdoy; destruct (isLeap (y + e * 400 + 1)); lia).
  destruct (month_of_doy doy Hdoy') as (Hmp & Hms & Hms').
  set (mp := (5 * doy + 2) / 153) in *.
  assert (doe = era_year_start y + doy) as Hde by (unfold doy; lia).
  assert ((y + e * 400) / 400 = e ∧ (y + e * 400) mod 400 = y) as [Hq Hr].
  { rewrite Z.div_add, Z.mod_add, Z.div_small, Z.mod_small by lia. lia. }
  assert (mp = 0 ∨ mp = 1 ∨ mp = 2 ∨ mp = 3 ∨ mp = 4 ∨ mp = 5 ∨ mp = 6 ∨ mp = 7 ∨ mp = 8
          ∨ mp = 9 ∨ mp = 10 ∨ mp = 11) as Hcases by lia.
  clearbody mp doy y e doe. unfold month_start, daysIn in *.
  destruct Hcases as [->|[->|[->|[->|[->|[->|[->|[->|[->|[->|[->| ->]]]]]]]]]]]; simpl in *;
    eval_months; rewrite ?Z.add_0_r, ?Z.add_simpl_r, ?Hq, ?Hr; split_and!; try lia;
    cbv zeta in Hdoy; destruct (isLeap (y + e * 400 + 1)); lia.
Qed.

Lemma era_year_start_bound y : 0 ≤ y ≤ 399 → 0 ≤ era_year_start y ≤ 145731.
Proof. intros. unfold era_year_start. divmod y 4. divmod y 100. lia. Qed.

(** The years between 1 and 9999 are exactly the days before 10000-01-01. *)
Lemma civil_year_bound z :
  marchOffset ≤ z < 3652059 + marchOffset →
  let '(y, m, d) := civil_of_days z in 1 ≤ y ≤ 9999.
Proof.
  intros Hz. pose proof (civil_of_days_spec z) as Hs.
  destruct (civil_of_days z) as [[y m] d]. destruct Hs as (Hd & Hm & Hd').
  assert (d ≤ 31) by (unfold daysIn in Hd'; repeat case_match; lia).
  unfold days_of_civil, marchOffset in *.
  set (y' := if m <=? 2 then y - 1 else y) in *.
  pose proof (era_year_start_bound (y' mod 400)) as Hb.
  divmod y' 400. specialize (Hb ltac:(lia)).
  set (q := y' / 400) in *. set (r := y' mod 400) in *.
  unfold era_year_start, month_start in *. divmod r 4. divmod r 100.
  destruct (Z.leb_spec m 2); destruct (Z.ltb_spec 2 m); try lia; subst y';
    [divmod (153 * (m + 9) + 2) 5 | divmod (153 * (m - 3) + 2) 5]; lia.
Qed.

(** ** Decimal lemmas *)

Lemma byte_val_digit n : 0 ≤ n ≤ 9 → byte_val (digit n) = 48 + n.
Proof.
  intros H. unfold byte_val, digit. rewrite Ascii.N_ascii_embedding; lia.
Qed.

Lemma isDigit_digit n : 0 ≤ n ≤ 9 → isDigit (digit n) = true.
Proof. intros H. unfold isDigit. rewrite byte_val_digit by done. go_bool. lia. Qed.

Lemma fixed_length w n : length (fixed w n) = w.
Proof.
  revert n. induction w as [|w IH]; intros n; simpl; [done|].
  rewrite length_app, IH. simpl. lia.
Qed.

Lemma fixed_digits w n : forallb isDigit (fixed w n) = true.
Proof.
  revert n. induction w as [|w IH]; intros n; simpl; [done|].
  rewrite forallb_app, IH. simpl. rewrite isDigit_digit; [done|].
  pose proof (Z.mod_pos_bound n 10). lia.
Qed.

Lemma digits_val_snoc l c : digits_val (l ++ [c]) = digits_val l * 10 + (byte_val c - 48).
Proof. unfold digits_val. by rewrite fold_left_app. Qed.

Lemma digits_val_fixed w n : 0 ≤ n < 10 ^ Z.of_nat w → digits_val (fixed w n) = n.
Proof.
  revert n. induction w as [|w IH]; intros n Hn; [simpl in *; cbn; lia|].
  cbn [fixed]. rewrite digits_val_snoc, IH.
  - rewrite byte_val_digit by (pose proof (Z.mod_pos_bound n 10); lia).
    divmod n 10. lia.
  - rewrite Nat2Z.inj_succ, Z.pow_succ_r in Hn by lia.
    split; [apply Z.div_pos; lia|apply Z.div_lt_upper_bound; lia].
Qed.

Lemma take_num_fixed w n r :
  0 ≤ n < 10 ^ Z.of_nat w → take_num w (fixed w n ++ r) = Some (n, r).
Proof.
  intros Hn. unfold take_num.
  rewrite take_app_length', drop_app_length' by (by rewrite fixed_length).
  by rewrite fixed_length, Nat.eqb_refl, fixed_digits, digits_val_fixed.
Qed.

Lemma expect_cons c l : expect c (byte_of c :: l) = Some l.
Proof. simpl. by rewrite bool_decide_eq_true_2. Qed.

Lemma drop_trailing_zeros_spec l :
  ∃ k, l = drop_trailing_zeros l ++ replicate k (byte_of 48).
Proof.
  induction l as [|c l [k IH]]; [by exists 0%nat|]. cbn [drop_trailing_zeros].
  destruct (drop_trailing_zeros l) as [|d l'] eqn:Hd.
  - case_bool_decide as Hc; [exists (S k)|exists k]; rewrite IH at 1; simpl; by subst.
  - exists k. simpl. f_equal. done.
Qed.

Lemma frac_ns_trailing l :
  length l = 9%nat → frac_ns (drop_trailing_zeros l) = digits_val l.
Proof.
  intros Hl. unfold frac_ns. destruct (drop_trailing_zeros_spec l) as [k Hk].
  set (z := drop_trailing_zeros l) in *. assert (length z + k = 9)%nat as Hzk.
  { rewrite Hk, length_app, length_replicate in Hl. done. }
  replace 9%nat with (k + (9 - k))%nat at 2 by lia.
  by rewrite replicate_add, (assoc_L (++)), <- Hk, take_app_length' by lia.
Qed.

Lemma drop_trailing_zeros_digits l :
  forallb isDigit l = true → forallb isDigit (drop_trailing_zeros l) = true.
Proof.
  destruct (drop_trailing_zeros_spec l) as [k Hk]. intros H.
  rewrite Hk, forallb_app in H. by apply andb_true_iff in H as [? _].
Qed.

Lemma span_digits_app ds c r :
  forallb isDigit ds = true → isDigit c = false → span_digits (ds ++ c :: r) = (ds, c :: r).
Proof.
  intros Hds Hc. induction ds as [|d ds IH]; simpl in *; [by rewrite Hc|].
  apply andb_true_iff in Hds as [-> Hds]. by rewrite IH.
Qed.

Lemma parse_frac_format n :
  0 ≤ n < nsPerSecond →
  let f := drop_trailing_zeros (fixed 9 n) in
  parse_frac ((match f with [] => [] | _ => byte_of 46 :: f end) ++ [byte_of 90])
  = (n, [byte_of 90]).
Proof.
  intros Hn f.
  assert (frac_ns f = n) as Hf.
  { unfold f. rewrite frac_ns_trailing by apply fixed_length.
    apply digits_val_fixed. unfold nsPerSecond in Hn. simpl. lia. }
  assert (forallb isDigit f = true) as Hd by apply drop_trailing_zeros_digits, fixed_digits.
  destruct f as [|d f]; [by rewrite <- Hf|].
  cbn [app parse_frac]. rewrite bool_decide_eq_true_2 by done.
  pose proof Hd as Hd'. simpl in Hd'. apply andb_true_iff in Hd' as [-> _].
  simpl andb. cbv iota.
  change (d :: f ++ [byte_of 90]) with ((d :: f) ++ byte_of 90 :: []).
  rewrite span_digits_app by done. by rewrite Hf.
Qed.

(** ** The round trip *)

(** One past the last instant of year 9999. *)
Definition endOfYear9999 : Time := 3652059 * nsPerDay.

Ltac step_num := rewrite take_num_fixed by (simpl; lia); cbn [mbind option_bind].
Ltac step_chr := rewrite expect_cons; cbn [mbind option_bind].

Lemma parse_format_bytes t :
  0 ≤ t < endOfYear9999 → parse_bytes (format_bytes t) = Some t.
Proof.
  intros Ht. unfold format_bytes.
  pose proof (civil_of_days_spec (t / nsPerDay + marchOffset)) as Hs.
  pose proof (civil_year_bound (t / nsPerDay + marchOffset)) as Hy.
  unfold endOfYear9999, nsPerDay, nsPerSecond in *. divmod t (86400 * 1000000000).
  set (days := t / (86400 * 1000000000)) in *. set (ns := t mod (86400 * 1000000000)) in *.
  destruct (civil_of_days (days + marchOffset)) as [[y m] d].
  destruct Hs as (Hd & Hm & Hdd). specialize (Hy ltac:(lia)).
  assert (d ≤ 31) by (unfold daysIn in Hdd; repeat case_match; lia).
  unfold format_year. rewrite (proj2 (Z.leb_le 0 y)), (proj2 (Z.leb_le y 9999)) by lia.
  divmod ns 1000000000. set (s := ns / 1000000000) in *. set (n := ns mod 1000000000) in *.
  divmod s 3600. divmod s 60. divmod (s / 60) 60. simpl andb. cbv iota.
  unfold parse_bytes. cbn [app]. rewrite <- ?(assoc_L (++)).
  step_num. step_chr. step_num. step_chr. step_num. step_chr.
  step_num. step_chr. step_num. step_chr. step_num.
  rewrite parse_frac_format by (unfold nsPerSecond; lia).
  change (parse_zone [byte_of 90]) with (Some 0). cbn [mbind option_bind].
  rewrite Hd. set (dd := (_ && _)%bool).
  assert (dd = true) as ->.
  { unfold dd. go_bool. repeat split; lia. }
  f_equal. unfold nsPerSecond. lia.
Qed.

Lemma ParseRFC3339Nano_Format t :
  0 ≤ t < endOfYear9999 → ParseRFC3339Nano (FormatRFC3339Nano t) = Some t.
Proof.
  intros Ht. unfold ParseRFC3339Nano, FormatRFC3339Nano. rewrite bytes_of_of.
  by apply parse_format_bytes.
Qed.

Lemma FormatRFC3339Nano_nonempty t : FormatRFC3339Nano t ≠ "".
Proof.
  unfold FormatRFC3339Nano, format_bytes. destruct (civil_of_days _) as [[y m] d].
  intros H. apply (f_equal bytes_of) in H. rewrite bytes_of_of in H.
  change (bytes_of "") with (@nil Ascii.ascii) in H. by apply app_nil in H as [_ ?].
Qed.
