(* ===== verification/Json.v ===== *)
(** * Package encoding/json

    JSON texts as trees, [json.Marshal]'s compact printer with its HTML-safe
    string escaping, and the decoder: the scanner's grammar, string unquoting
    with surrogate pairs, and UTF-8 repair.  Numbers keep their literal text, as
    the decoder does until it knows the field's type. *)

From S2P Require Import Prelude GoLib GoTime.

Set Warnings "-register-all".

Inductive json :=
  | JNull
  | JBool (b : bool)
  | JNum (lit : list Ascii.ascii)
  | JStr (s : string)
  | JArr (l : list json)
  | JObj (l : list (string * json)).

(** ** UTF-8 *)

Definition cont_byte (c : Ascii.ascii) : bool := (128 <=? byte_val c) && (byte_val c <=? 191).
Definition byte_in (c : Ascii.ascii) (lo hi : Z) : bool :=
  (lo <=? byte_val c) && (byte_val c <=? hi).

(** Size of the valid multi-byte rune at the head of [l]; [None] when
    [utf8.DecodeRune] reports an error there. *)
Definition rune_size (l : list Ascii.ascii) : option nat :=
  match l with
  | a :: b :: l' =>
      if byte_in a 194 223 && cont_byte b then Some 2%nat else
      match l' with
      | c :: l'' =>
          if ((byte_in a 224 224 && byte_in b 160 191)
              || (byte_in a 225 236 && cont_byte b)
              || (byte_in a 237 237 && byte_in b 128 159)
              || (byte_in a 238 239 && cont_byte b)) && cont_byte c then Some 3%nat else
          match l'' with
          | d :: _ =>
              if ((byte_in a 240 240 && byte_in b 144 191)
                  || (byte_in a 241 243 && cont_byte b)
                  || (byte_in a 244 244 && byte_in b 128 143)) && cont_byte c && cont_byte d
              then Some 4%nat else None
          | [] => None
          end
      | [] => None
      end
  | _ => None
  end.

(** [utf8.AppendRune]. *)
Definition rune_bytes (r : Z) : list Ascii.ascii :=
  let b n := Ascii.ascii_of_N (Z.to_N n) in
  if r <? 128 then [b r]
  else if r <? 2048 then [b (192 + r / 64); b (128 + r mod 64)]
  else if r <? 65536 then [b (224 + r / 4096); b (128 + r / 64 mod 64); b (128 + r mod 64)]
  else [b (240 + r / 262144); b (128 + r / 4096 mod 64); b (128 + r / 64 mod 64);
        b (128 + r mod 64)].

Definition runeError : Z := 65533.

(** ** Marshal *)

Definition quote : Ascii.ascii := byte_of 34.
Definition bslash : Ascii.ascii := byte_of 92.

Definition hex_digit (n : Z) : Ascii.ascii :=
  if n <? 10 then digit n else Ascii.ascii_of_N (Z.to_N (87 + n)).

Definition u_escape (n : Z) : list Ascii.ascii :=
  [bslash; byte_of 117; hex_digit (n / 4096); hex_digit (n / 256 mod 16);
   hex_digit (n / 16 mod 16); hex_digit (n mod 16)].

(** One ASCII byte: [htmlSafeSet] bytes stand for themselves. *)
Definition enc_ascii (c : Ascii.ascii) : list Ascii.ascii :=
  let b := byte_val c in
  if (b =? 34) || (b =? 92) then [bslash; c]
  else if (b <? 32) || (b =? 60) || (b =? 62) || (b =? 38) then
    if b =? 8 then [bslash; byte_of 98]
    else if b =? 12 then [bslash; byte_of 102]
    else if b =? 10 then [bslash; byte_of 110]
    else if b =? 13 then [bslash; byte_of 114]
    else if b =? 9 then [bslash; byte_of 116]
    else u_escape b
  else [c].

Definition line_sep (l : list Ascii.ascii) : option Z :=
  if take 3 l == [byte_of 226; byte_of 128; byte_of 168] then Some 8232
  else if take 3 l == [byte_of 226; byte_of 128; byte_of 169] then Some 8233
  else None.

(** Every round consumes at least one byte: the length of the string is enough
    fuel. *)
Fixpoint enc_chars (fuel : nat) (l : list Ascii.ascii) : list Ascii.ascii :=
  match fuel, l with
  | S n, c :: l' =>
      if byte_val c <? 128 then enc_ascii c ++ enc_chars n l'
      else match rune_size l with
           | None => u_escape runeError ++ enc_chars n l'
           | Some k =>
               match line_sep l with
               | Some r => u_escape r ++ enc_chars n (drop k l)
               | None => take k l ++ enc_chars n (drop k l)
               end
           end
  | _, _ => []
  end.

Definition enc_string (s : string) : list Ascii.ascii :=
  quote :: enc_chars (String.length s) (bytes_of s) ++ [quote].

Fixpoint sep_by (sep : Ascii.ascii) (ls : list (list Ascii.ascii)) : list Ascii.ascii :=
  match ls with
  | [] => []
  | [l] => l
  | l :: ls => l ++ sep :: sep_by sep ls
  end.

Fixpoint enc (j : json) : list Ascii.ascii :=
  match j with
  | JNull => bytes_of "null"
  | JBool true => bytes_of "true"
  | JBool false => bytes_of "false"
  | JNum lit => lit
  | JStr s => enc_string s
  | JArr l => byte_of 91 :: sep_by (byte_of 44) (map enc l) ++ [byte_of 93]
  | JObj l =>
      byte_of 123
      :: sep_by (byte_of 44) (map (λ kv, enc_string kv.1 ++ byte_of 58 :: enc kv.2) l)
      ++ [byte_of 125]
  end.

(** Maps are encoded with their keys in order. *)
Definition sorted_entries {V} (m : gmap string V) : list (string * V) :=
  omap (λ k, pair k <$> m !! k) (sort_Strings (map fst (map_to_list m))).

(** ** Scanner *)

Definition is_ws (c : Ascii.ascii) : bool :=
  (c == byte_of 32) || (c == byte_of 9) || (c == byte_of 10) || (c == byte_of 13).

Fixpoint skip_ws (l : list Ascii.ascii) : list Ascii.ascii :=
  match l with c :: l' => if is_ws c then skip_ws l' else l | [] => [] end.

(** Four hexadecimal digits. *)
Definition getu4 (l : list Ascii.ascii) : option (Z * list Ascii.ascii) :=
  match l with
  | a :: b :: c :: d :: r =>
      x ← fromHexChar a; y ← fromHexChar b; z ← fromHexChar c; w ← fromHexChar d;
      Some (((x * 16 + y) * 16 + z) * 16 + w, r)
  | _ => None
  end.

(** A [\u] escape past its [u], with [utf16.DecodeRune] on a following one. *)
Definition parse_u (l : list Ascii.ascii) : option (Z * list Ascii.ascii) :=
  '(r, l) ← getu4 l;
  if (55296 <=? r) && (r <? 57344) then
    match l with
    | b :: u :: l' =>
        if (b == bslash) && (u == byte_of 117) then
          '(r2, l'') ← getu4 l';
          if (r <? 56320) && (56320 <=? r2) && (r2 <? 57344)
          then Some (65536 + (r - 55296) * 1024 + (r2 - 56320), l'')
          else Some (runeError, l)
        else Some (runeError, l)
    | _ => Some (runeError, l)
    end
  else Some (r, l).

Definition simple_escape (c : Ascii.ascii) : option Ascii.ascii :=
  let b := byte_val c in
  if (b =? 34) || (b =? 92) || (b =? 47) then Some c
  else if b =? 98 then Some (byte_of 8)
  else if b =? 102 then Some (byte_of 12)
  else if b =? 110 then Some (byte_of 10)
  else if b =? 114 then Some (byte_of 13)
  else if b =? 116 then Some (byte_of 9)
  else None.

(** A string past its opening quote: its value and the rest of the input. *)
Fixpoint parse_chars (fuel : nat) (l : list Ascii.ascii)
  : option (list Ascii.ascii * list Ascii.ascii) :=
  match fuel, l with
  | S n, c :: l' =>
      if c == quote then Some ([], l')
      else if c == bslash then
        match l' with
        | e :: l'' =>
            if e == byte_of 117 then
              '(r, l3) ← parse_u l''; '(v, k) ← parse_chars n l3; Some (rune_bytes r ++ v, k)
            else
              x ← simple_escape e; '(v, k) ← parse_chars n l''; Some (x :: v, k)
        | [] => None
        end
      else if byte_val c <? 32 then None
      else if byte_val c <? 128 then '(v, k) ← parse_chars n l'; Some (c :: v, k)
      else match rune_size l with
           | Some s => '(v, k) ← parse_chars n (drop s l); Some (take s l ++ v, k)
           | None => '(v, k) ← parse_chars n l'; Some (rune_bytes runeError ++ v, k)
           end
  | _, _ => None
  end.

Definition parse_string (l : list Ascii.ascii) : option (string * list Ascii.ascii) :=
  match l with
  | c :: l =>
      if c == quote then '(v, k) ← parse_chars (S (length l)) l; Some (of_bytes v, k) else None
  | [] => None
  end.

(** A number literal: an optional minus sign, [0] or digits without a leading
    zero, an optional fraction and an optional exponent. *)
Definition parse_exp (l : list Ascii.ascii) : option (list Ascii.ascii * list Ascii.ascii) :=
  match l with
  | e :: l' =>
      if (e == byte_of 101) || (e == byte_of 69) then
        let '(sg, l'') := match l' with
          | s :: r => if (s == byte_of 43) || (s == byte_of 45) then ([s], r) else ([], l')
          | [] => ([], [])
          end in
        match span_digits l'' with
        | ([], _) => None
        | (ds, r) => Some (e :: sg ++ ds, r)
        end
      else Some ([], l)
  | [] => Some ([], [])
  end.

Definition parse_fraction (l : list Ascii.ascii)
  : option (list Ascii.ascii * list Ascii.ascii) :=
  match l with
  | p :: l' =>
      if p == byte_of 46 then
        match span_digits l' with
        | ([], _) => None
        | (ds, r) => Some (p :: ds, r)
        end
      else Some ([], l)
  | [] => Some ([], [])
  end.

Definition parse_number (l : list Ascii.ascii) : option (list Ascii.ascii * list Ascii.ascii) :=
  let '(sg, l) := match l with
    | c :: r => if c == byte_of 45 then ([c], r) else ([], l)
    | [] => ([], [])
    end in
  '(ip, l) ← (match span_digits l with
              | ([], _) => None
              | (d :: ds, r) =>
                  if d == byte_of 48 then Some ([d], ds ++ r) else Some (d :: ds, r)
              end);
  '(fr, l) ← parse_fraction l;
  '(ex, l) ← parse_exp l;
  Some (sg ++ ip ++ fr ++ ex, l).

Definition parse_lit (lit : string) (j : json) (l : list Ascii.ascii)
  : option (json * list Ascii.ascii) :=
  r ← strip_prefix (bytes_of lit) l; Some (j, r).

(** Values, the elements of a non-empty array and the members of a non-empty
    object.  A call uses one unit of fuel; between two bytes consumed there are
    at most two calls. *)
Fixpoint parse_value (fuel : nat) (l : list Ascii.ascii) : option (json * list Ascii.ascii) :=
  match fuel with
  | O => None
  | S n =>
      match skip_ws l with
      | [] => None
      | c :: r =>
          if c == quote then '(s, r) ← parse_string (c :: r); Some (JStr s, r)
          else if c == byte_of 123 then
            match skip_ws r with
            | d :: r' =>
                if d == byte_of 125 then Some (JObj [], r')
                else '(ms, r) ← parse_members n r; Some (JObj ms, r)
            | [] => None
            end
          else if c == byte_of 91 then
            match skip_ws r with
            | d :: r' =>
                if d == byte_of 93 then Some (JArr [], r')
                else '(es, r) ← parse_elems n r; Some (JArr es, r)
            | [] => None
            end
          else if c == byte_of 110 then parse_lit "null" JNull (c :: r)
          else if c == byte_of 116 then parse_lit "true" (JBool true) (c :: r)
          else if c == byte_of 102 then parse_lit "false" (JBool false) (c :: r)
          else '(lit, r) ← parse_number (c :: r); Some (JNum lit, r)
      end
  end
with parse_elems (fuel : nat) (l : list Ascii.ascii) : option (list json * list Ascii.ascii) :=
  match fuel with
  | O => None
  | S n =>
      '(j, r) ← parse_value n l;
      match skip_ws r with
      | c :: r =>
          if c == byte_of 44 then '(es, r) ← parse_elems n r; Some (j :: es, r)
          else if c == byte_of 93 then Some ([j], r) else None
      | [] => None
      end
  end
with parse_members (fuel : nat) (l : list Ascii.ascii)
  : option (list (string * json) * list Ascii.ascii) :=
  match fuel with
  | O => None
  | S n =>
      '(k, r) ← parse_string (skip_ws l);
      r ← expect 58 (skip_ws r);
      '(j, r) ← parse_value n r;
      match skip_ws r with
      | c :: r =>
          if c == byte_of 44 then '(ms, r) ← parse_members n r; Some ((k, j) :: ms, r)
          else if c == byte_of 125 then Some ([(k, j)], r) else None
      | [] => None
      end
  end.

(** [json.NewDecoder(r).Decode(&v)] followed by a second [Decode] that must
    return [io.EOF]: one value, then only white space. *)
Definition parse_document (s : string) : option json :=
  let l := bytes_of s in
  '(j, r) ← parse_value (2 * length l + 2) l;
  if skip_ws r == [] then Some j else None.

Definition Marshal (j : json) : string := of_bytes (enc j).

(** ** Decoding into Go values

    A value of the wrong kind makes [Decode] fail; [null] leaves a scalar as it
    is and makes a map, slice or pointer nil. *)

(** [strconv.ParseInt(lit, 10, 64)] and [strconv.ParseUint(lit, 10, 64)] on a
    number literal. *)
Definition ParseInt64 (lit : list Ascii.ascii) : option Z :=
  let '(sg, ds) := match lit with
    | c :: r => if c == byte_of 45 then (-1, r) else (1, lit)
    | [] => (1, [])
    end in
  if forallb isDigit ds && negb (length ds =? 0)%nat then
    let n := sg * digits_val ds in
    if (- 2 ^ 63 <=? n) && (n <=? maxInt64) then Some n else None
  else None.

Definition ParseUint64 (lit : list Ascii.ascii) : option Z :=
  if forallb isDigit lit && negb (length lit =? 0)%nat then
    let n := digits_val lit in
    if n <? 2 ^ 64 then Some n else None
  else None.

Definition dec_string (cur : string) (j : json) : option string :=
  match j with JStr s => Some s | JNull => Some cur | _ => None end.
Definition dec_int64 (cur : Z) (j : json) : option Z :=
  match j with JNum lit => ParseInt64 lit | JNull => Some cur | _ => None end.
Definition dec_uint64 (cur : Z) (j : json) : option Z :=
  match j with JNum lit => ParseUint64 lit | JNull => Some cur | _ => None end.

(** A map keeps its entries; each value is decoded into a zero element. *)
Fixpoint dec_entries {V} (dec : V → json → option V) (zero : V) (cur : gmap string V)
    (ms : list (string * json)) : option (gmap string V) :=
  match ms with
  | [] => Some cur
  | (k, j) :: ms => v ← dec zero j; dec_entries dec zero (<[k := v]> cur) ms
  end.

Definition dec_map {V} (dec : V → json → option V) (zero : V) (cur : option (gmap string V))
    (j : json) : option (option (gmap string V)) :=
  match j with
  | JNull => Some None
  | JObj ms => Some <$> dec_entries dec zero (default ∅ cur) ms
  | _ => None
  end.

(** A slice: its backing array and its length.  An element is decoded into the
    array's slot, which may hold an element of an earlier array. *)
Fixpoint dec_slots {A} (dec : A → json → option A) (zero : A) (backing : list A) (es : list json)
  : option (list A) :=
  match es with
  | [] => Some backing
  | e :: es =>
      x ← dec (default zero (head backing)) e; rest ← dec_slots dec zero (tail backing) es;
      Some (x :: rest)
  end.

Definition dec_slice {A} (dec : A → json → option A) (zero : A) (cur : list A * nat) (j : json)
  : option (list A * nat) :=
  match j with
  | JNull | JArr [] => Some ([], 0%nat)
  | JArr es => backing ← dec_slots dec zero cur.1 es; Some (backing, length es)
  | _ => None
  end.

Definition dec_strings : list string * nat → json → option (list string * nat) :=
  dec_slice dec_string "".

Definition dec_bool (cur : bool) (j : json) : option bool :=
  match j with JBool b => Some b | JNull => Some cur | _ => None end.

(** [foldName]: case folding of a member's name; U+017F folds to [s] and U+212A
    to [k]. *)
Fixpoint fold_name (l : list Ascii.ascii) : list Ascii.ascii :=
  match l with
  | [] => []
  | a :: r =>
      match r with
      | b :: r' =>
          if (a == byte_of 197) && (b == byte_of 191) then byte_of 115 :: fold_name r'
          else match r' with
               | c :: r'' =>
                   if (a == byte_of 226) && (b == byte_of 132) && (c == byte_of 170)
                   then byte_of 107 :: fold_name r'' else lower_byte a :: fold_name r
               | [] => lower_byte a :: fold_name r
               end
      | [] => [lower_byte a]
      end
  end.

(** A member goes to the field whose name it has up to case. *)
Definition matches (name key : string) : bool :=
  fold_name (bytes_of name) == fold_name (bytes_of key).

(** The members of one field, in order. *)
Fixpoint dec_field {A} (dec : A → json → option A) (name : string) (cur : A)
    (ms : list (string * json)) : option A :=
  match ms with
  | [] => Some cur
  | (k, j) :: ms =>
      if matches name k then cur' ← dec cur j; dec_field dec name cur' ms
      else dec_field dec name cur ms
  end.

(** [DisallowUnknownFields] *)
Definition known_fields (names : list string) (ms : list (string * json)) : bool :=
  forallb (λ kv, existsb (λ name, matches name kv.1) names) ms.
