(* ===== verification/JsonProofs.v ===== *)
(** * Package encoding/json: reading back what Marshal printed

    The decoder's parser returns the tree [json.Marshal] printed, for trees whose
    strings are ASCII and whose numbers are integers: everything a ledger or a
    policy holds. *)

From S2P Require Import Prelude GoLib GoTime Json.

(** ** Integers *)

(** The number literals the decoder is given: digits without a leading zero. *)
Definition plain_digits (ds : list Ascii.ascii) : Prop :=
  forallb isDigit ds = true ∧ ∃ d ds', ds = d :: ds' ∧ (d = byte_of 48 → ds' = []).

Lemma digit_nonzero n : 0 < n ≤ 9 → digit n ≠ byte_of 48.
Proof.
  intros Hn Hd. assert (byte_val (digit n) = 48) as Hv by (by rewrite Hd).
  rewrite byte_val_digit in Hv; lia.
Qed.

Lemma digits_val_cons_acc c l a :
  fold_left (λ a c, a * 10 + (byte_val c - 48)) (c :: l) a
  = fold_left (λ a c, a * 10 + (byte_val c - 48)) l (a * 10 + (byte_val c - 48)).
Proof. done. Qed.

Lemma dec_digits_spec fuel n acc :
  (0 < fuel)%nat → 0 ≤ n < 2 ^ Z.of_nat fuel →
  ∃ ds, dec_digits fuel n acc = ds ++ acc ∧ forallb isDigit ds = true ∧ digits_val ds = n
    ∧ ∃ d ds', ds = d :: ds' ∧ (d = byte_of 48 → n = 0 ∧ ds' = []).
Proof.
  revert n acc. induction fuel as [|f IH]; intros n acc Hf Hn; [lia|]. simpl.
  pose proof (Z.mod_pos_bound n 10 ltac:(lia)) as Hm.
  destruct (Z.ltb_spec n 10) as [Hlt|Hge].
  - exists [digit n]. rewrite Z.mod_small by lia. split_and!; [done|..].
    + simpl. by rewrite isDigit_digit by lia.
    + unfold digits_val. simpl. rewrite byte_val_digit; lia.
    + exists (digit n), []. split; [done|]. intros Hd. split; [|done].
      destruct (decide (n = 0)); [done|]. destruct (digit_nonzero n); [lia|done].
  - assert (0 < f)%nat as Hf'.
    { destruct f; [simpl in Hn; lia|lia]. }
    pose proof (Z.div_mod n 10 ltac:(lia)).
    destruct (IH (n / 10) (digit (n mod 10) :: acc)) as (ds & -> & Hds & Hv & d & ds' & -> & Hz);
      [done| |].
    { replace (Z.of_nat (S f)) with (Z.succ (Z.of_nat f)) in Hn by lia.
      rewrite Z.pow_succ_r in Hn by lia. lia. }
    exists ((d :: ds') ++ [digit (n mod 10)]). split_and!.
    + by rewrite <- app_assoc.
    + rewrite forallb_app, Hds. simpl. by rewrite isDigit_digit by lia.
    + rewrite digits_val_snoc, Hv, byte_val_digit by lia. lia.
    + exists d, (ds' ++ [digit (n mod 10)]). split; [done|]. intros [? _]%Hz. lia.
Qed.

Lemma FormatInt_spec n :
  0 ≤ n → plain_digits (FormatInt n) ∧ digits_val (FormatInt n) = n.
Proof.
  intros Hn. unfold FormatInt. rewrite (proj2 (Z.ltb_ge n 0)), Z.abs_eq by lia.
  destruct (dec_digits_spec (S (Z.to_nat (Z.log2 n))) n []) as (ds & -> & Hd & Hv & d & ds' & -> & Hz).
  - lia.
  - split; [done|]. destruct (decide (n = 0)) as [->|Hne]; [done|].
    pose proof (Z.log2_nonneg n). rewrite Nat2Z.inj_succ, Z2Nat.id by lia.
    apply Z.log2_spec. lia.
  - rewrite app_nil_r. split; [|done]. split; [done|]. exists d, ds'. split; [done|]. tauto.
Qed.

(** What may follow a number: not another piece of it. *)
Definition ends_number (r : list Ascii.ascii) : Prop :=
  match r with
  | [] => True
  | c :: _ => isDigit c = false ∧ c ≠ byte_of 46 ∧ c ≠ byte_of 101 ∧ c ≠ byte_of 69
  end.

Lemma span_digits_end ds r :
  forallb isDigit ds = true → ends_number r → span_digits (ds ++ r) = (ds, r).
Proof.
  intros Hd Hr. induction ds as [|d ds IH]; simpl in *.
  - destruct r as [|c r]; [done|]. simpl. by destruct Hr as [-> _].
  - apply andb_true_iff in Hd as [-> Hd]. by rewrite IH.
Qed.

Lemma parse_number_digits ds r :
  plain_digits ds → ends_number r → parse_number (ds ++ r) = Some (ds, r).
Proof.
  intros [Hd (d & ds' & -> & Hz)] Hr. unfold parse_number. simpl.
  assert (isDigit d = true) as Hdd by (simpl in Hd; by apply andb_true_iff in Hd as [? _]).
  rewrite (bool_decide_eq_false_2 (d = byte_of 45)) by (intros ->; done).
  change (span_digits (d :: ds' ++ r)) with (span_digits ((d :: ds') ++ r)).
  rewrite span_digits_end by done. simpl.
  assert (parse_fraction r = Some ([], r) ∧ parse_exp r = Some ([], r)) as [Hf He].
  { destruct r as [|c r]; [done|]. destruct Hr as (_ & H1 & H2 & H3). simpl.
    by rewrite !bool_decide_eq_false_2. }
  destruct (bool_decide_reflect (d = byte_of 48)) as [->|Hne].
  - rewrite (Hz eq_refl). simpl. by rewrite Hf; simpl; rewrite He.
  - simpl. rewrite Hf. simpl. rewrite He. simpl. by rewrite app_nil_r.
Qed.

(** ** Strings *)

Definition ascii_byte (c : Ascii.ascii) : Prop := byte_val c < 128.
Definition ascii_string (s : string) : Prop := Forall ascii_byte (bytes_of s).

(** One escaped byte is one round of the string scanner. *)
Lemma parse_chars_step n c r :
  ascii_byte c →
  parse_chars (S n) (enc_ascii c ++ r) = ('(v, k) ← parse_chars n r; Some (c :: v, k)).
Proof.
  unfold ascii_byte. destruct c as [[] [] [] [] [] [] [] []]; intros H;
    first [done | by (exfalso; vm_compute in H)].
Qed.

Lemma enc_ascii_length c : (1 ≤ length (enc_ascii c))%nat.
Proof. unfold enc_ascii. repeat case_match; simpl; lia. Qed.

Lemma enc_chars_ascii fuel l :
  Forall ascii_byte l → (length l ≤ fuel)%nat → enc_chars fuel l = concat (map enc_ascii l).
Proof.
  revert l. induction fuel as [|n IH]; intros [|c l] Ha Hl; simpl in *; try done; try lia.
  apply Forall_cons in Ha as [Hc Ha]. unfold ascii_byte in Hc.
  rewrite (proj2 (Z.ltb_lt _ _) Hc). by rewrite IH by (done || lia).
Qed.

Lemma parse_chars_enc l fuel r :
  Forall ascii_byte l → (length l < fuel)%nat →
  parse_chars fuel (concat (map enc_ascii l) ++ quote :: r) = Some (l, r).
Proof.
  revert fuel. induction l as [|c l IH]; intros [|n] Ha Hl; simpl in Hl; try lia; [done|].
  apply Forall_cons in Ha as [Hc Ha]. cbn [map concat]. rewrite <- app_assoc.
  rewrite parse_chars_step by done. by rewrite IH by (done || lia).
Qed.

Lemma concat_enc_length l : (length l ≤ length (concat (map enc_ascii l)))%nat.
Proof.
  induction l as [|c l IH]; simpl; [lia|]. rewrite length_app. pose proof (enc_ascii_length c). lia.
Qed.

Lemma enc_string_ascii s :
  ascii_string s → enc_string s = quote :: concat (map enc_ascii (bytes_of s)) ++ [quote].
Proof. intros Ha. unfold enc_string. rewrite enc_chars_ascii; [done|done|]. by rewrite bytes_of_length. Qed.

Lemma parse_string_enc s r :
  ascii_string s → parse_string (enc_string s ++ r) = Some (s, r).
Proof.
  intros Ha. rewrite enc_string_ascii by done. unfold parse_string.
  cbn [app]. rewrite bool_decide_eq_true_2 by done. rewrite <- app_assoc. cbn [app].
  rewrite parse_chars_enc; [simpl; by rewrite of_bytes_of|done|].
  rewrite length_app. pose proof (concat_enc_length (bytes_of s)). lia.
Qed.

(** ** Values *)

(** Trees of ASCII strings and plain integers. *)
Fixpoint clean (j : json) : Prop :=
  match j with
  | JNull | JBool _ => True
  | JNum lit => plain_digits lit
  | JStr s => ascii_string s
  | JArr l => fold_right (λ x P, clean x ∧ P) True l
  | JObj l => fold_right (λ kv P, (ascii_string kv.1 ∧ clean kv.2) ∧ P) True l
  end.

(** The fuel a tree needs: its depth, with lists read as right-nested. *)
Fixpoint need (j : json) : nat :=
  match j with
  | JArr l => S (fold_right (λ x n, S (need x `max` n)) 0%nat l)
  | JObj l => S (fold_right (λ kv n, S (need kv.2 `max` n)) 0%nat l)
  | _ => 1%nat
  end.

Definition need_elems (l : list json) : nat := fold_right (λ x n, S (need x `max` n)) 0%nat l.
Definition need_members (l : list (string * json)) : nat :=
  fold_right (λ kv n, S (need kv.2 `max` n)) 0%nat l.

Definition enc_member (kv : string * json) : list Ascii.ascii :=
  enc_string kv.1 ++ byte_of 58 :: enc kv.2.

Lemma isDigit_head d : isDigit d = true →
  is_ws d = false ∧ d ≠ quote ∧ d ≠ byte_of 123 ∧ d ≠ byte_of 91 ∧ d ≠ byte_of 110
  ∧ d ≠ byte_of 116 ∧ d ≠ byte_of 102 ∧ d ≠ byte_of 93 ∧ d ≠ byte_of 125.
Proof.
  intros Hd. split_and!; try (intros ->; by vm_compute in Hd).
  destruct (is_ws d) eqn:Hw; [|done]. unfold is_ws in Hw. go_bool.
  destruct Hw as [[[->| ->]| ->]| ->]; by vm_compute in Hd.
Qed.

(** A printed value starts with a byte that is neither white space nor a closing
    bracket. *)
Lemma enc_head j : clean j →
  ∃ c t, enc j = c :: t ∧ is_ws c = false ∧ c ≠ byte_of 93 ∧ c ≠ byte_of 125.
Proof.
  destruct j as [|[]|lit|s|l|l]; intros Hc; simpl; try by eexists _, _; split_and!.
  - destruct Hc as [Hd (d & ds & -> & _)]. simpl in Hd. apply andb_true_iff in Hd as [Hd _].
    apply isDigit_head in Hd. eexists _, _. split; [done|]. tauto.
Qed.

Lemma skip_ws_head c l : is_ws c = false → skip_ws (c :: l) = c :: l.
Proof. simpl. by intros ->. Qed.

Lemma ends_number_punct r :
  ends_number (byte_of 44 :: r) ∧ ends_number (byte_of 93 :: r) ∧ ends_number (byte_of 125 :: r).
Proof. by split_and!. Qed.

Lemma sep_by_cons sep x y ls : sep_by sep (x :: y :: ls) = x ++ sep :: sep_by sep (y :: ls).
Proof. done. Qed.

Definition parses_value (fuel : nat) : Prop := ∀ j r,
  clean j → (need j ≤ fuel)%nat → ends_number r → parse_value fuel (enc j ++ r) = Some (j, r).

Definition parses_elems (fuel : nat) : Prop := ∀ x l r,
  clean (JArr (x :: l)) → (need_elems (x :: l) ≤ fuel)%nat →
  parse_elems fuel (sep_by (byte_of 44) (map enc (x :: l)) ++ byte_of 93 :: r) = Some (x :: l, r).

Definition parses_members (fuel : nat) : Prop := ∀ x l r,
  clean (JObj (x :: l)) → (need_members (x :: l) ≤ fuel)%nat →
  parse_members fuel (sep_by (byte_of 44) (map enc_member (x :: l)) ++ byte_of 125 :: r)
  = Some (x :: l, r).

Lemma parses_elems_step n : parses_value n → parses_elems n → parses_elems (S n).
Proof.
  intros Hv He x l r [Hx Hl] Hn. unfold need_elems in Hn. simpl in Hn. cbn [parse_elems].
  destruct l as [|y l].
  - cbn [map sep_by]. by rewrite Hv by (apply ends_number_punct || done || lia).
  - cbn [map]. rewrite sep_by_cons, <- app_assoc. cbn [app].
    rewrite Hv by (apply ends_number_punct || done || lia). cbn [mbind option_bind]. rewrite skip_ws_head by done.
    rewrite bool_decide_eq_true_2 by done.
    change (enc y :: map enc l) with (map enc (y :: l)).
    rewrite He; [done|done|]. unfold need_elems. simpl in *. lia.
Qed.

Lemma parses_members_step n : parses_value n → parses_members n → parses_members (S n).
Proof.
  intros Hv He [k x] l r [[Hk Hx] Hl] Hn. unfold need_members in Hn. simpl in Hn, Hk, Hx. cbn [parse_members].
  assert (∀ rest, skip_ws (enc_string k ++ rest) = enc_string k ++ rest) as Hws by done.
  destruct l as [|y l].
  - cbn [map sep_by]. unfold enc_member. cbn [fst snd]. rewrite <- app_assoc, Hws.
    rewrite parse_string_enc by done. cbn [mbind option_bind app]. rewrite skip_ws_head by done.
    rewrite expect_cons. cbn [mbind option_bind]. by rewrite Hv by (apply ends_number_punct || done || lia).
  - cbn [map]. rewrite sep_by_cons. unfold enc_member at 1. cbn [fst snd].
    rewrite <- !app_assoc, Hws, parse_string_enc by done. cbn [mbind option_bind app].
    rewrite skip_ws_head by done. rewrite expect_cons. cbn [mbind option_bind].
    rewrite Hv by (apply ends_number_punct || done || lia). cbn [mbind option_bind].
    rewrite skip_ws_head by done. rewrite bool_decide_eq_true_2 by done.
    change (enc_member y :: map enc_member l) with (map enc_member (y :: l)).
    rewrite He; [done|done|]. unfold need_members. simpl in *. lia.
Qed.

Lemma parses_value_step n : parses_elems n → parses_members n → parses_value (S n).
Proof.
  intros He Hm j r Hc Hn Hr. destruct (enc_head j Hc) as (c & t & Ht & Hws & _).
  cbn [parse_value]. rewrite Ht. cbn [app]. rewrite skip_ws_head by done.
  destruct j as [|[]|lit|s|l|l]; simpl in Ht.
  1-3: injection Ht as <- <-; done.
  - destruct Hc as [Hd (d & ds & -> & Hz)]. injection Ht as <- <-.
    assert (isDigit d = true) as Hdd by (simpl in Hd; by apply andb_true_iff in Hd as [? _]).
    destruct (isDigit_head d Hdd) as (_ & ? & ? & ? & ? & ? & ? & _).
    rewrite !bool_decide_eq_false_2 by done.
    change (d :: ds ++ r) with ((d :: ds) ++ r). rewrite parse_number_digits; [done| |done].
    split; [done|eauto].
  - change (c :: t ++ r) with ((c :: t) ++ r). rewrite <- Ht.
    injection Ht as <- Ht. rewrite bool_decide_eq_true_2 by done.
    by rewrite parse_string_enc.
  - injection Ht as <- <-. change (byte_of 91 == quote) with false.
    change (byte_of 91 == byte_of 123) with false. rewrite bool_decide_eq_true_2 by done.
    destruct l as [|x l]; [done|]. destruct (enc_head x) as (c & t & Hx & Hxw & Hxb & _); [apply Hc|].
    assert (∃ t', sep_by (byte_of 44) (map enc (x :: l)) = c :: t') as [t' Ht'].
    { cbn [map]. rewrite Hx. destruct l; cbn [map]; [by eexists|]. rewrite sep_by_cons. by eexists. }
    rewrite <- app_assoc. rewrite Ht'. cbn [app]. rewrite skip_ws_head by done.
    rewrite bool_decide_eq_false_2 by done.
    change (c :: t' ++ byte_of 93 :: r) with ((c :: t') ++ byte_of 93 :: r). rewrite <- Ht'.
    rewrite He; [done|done|]. simpl in Hn. unfold need_elems. simpl. lia.
  - injection Ht as <- <-. change (byte_of 123 == quote) with false.
    rewrite bool_decide_eq_true_2 by done.
    destruct l as [|x l]; [done|].
    change (map _ (x :: l)) with (map enc_member (x :: l)).
    assert (∃ t', sep_by (byte_of 44) (map enc_member (x :: l)) = quote :: t') as [t' Ht'].
    { cbn [map]. unfold enc_member at 1, enc_string.
      destruct l; cbn [map]; [by eexists|]. rewrite sep_by_cons. by eexists. }
    rewrite <- app_assoc. rewrite Ht'. cbn [app]. rewrite skip_ws_head by done.
    rewrite bool_decide_eq_false_2 by done.
    change (quote :: t' ++ byte_of 125 :: r) with ((quote :: t') ++ byte_of 125 :: r). rewrite <- Ht'.
    rewrite Hm; [done|done|]. simpl in Hn. unfold need_members. simpl. lia.
Qed.

Lemma parses_all n : parses_value n ∧ parses_elems n ∧ parses_members n.
Proof.
  induction n as [|n (IHv & IHe & IHm)].
  - split_and!; [intros j r _ Hn|intros x l r _ Hn|intros x l r _ Hn]; exfalso.
    + destruct j; simpl in Hn; lia.
    + unfold need_elems in Hn. simpl in Hn. lia.
    + unfold need_members in Hn. simpl in Hn. lia.
  - auto using parses_value_step, parses_elems_step, parses_members_step.
Qed.

(** Induction on trees, through the lists of elements and members. *)
Lemma json_nested_ind (P : json → Prop) :
  P JNull → (∀ b, P (JBool b)) → (∀ n, P (JNum n)) → (∀ s, P (JStr s)) →
  (∀ l, Forall P l → P (JArr l)) →
  (∀ l, Forall (λ kv, P kv.2) l → P (JObj l)) →
  ∀ j, P j.
Proof.
  intros Hnull Hbool Hnum Hstr Harr Hobj. fix IH 1. intros [|b|n|s|l|l].
  - done.
  - apply Hbool.
  - apply Hnum.
  - apply Hstr.
  - apply Harr. induction l as [|x l IHl]; constructor; auto.
  - apply Hobj. induction l as [|[k x] l IHl]; constructor; [apply IH|done].
Qed.

(** The printed text is long enough to pay for the parser's fuel. *)
Lemma sep_by_fuel {A} (f : A → list Ascii.ascii) (g : A → nat) l :
  Forall (λ x, g x ≤ 2 * length (f x))%nat l →
  (fold_right (λ x n, S (g x `max` n)) 0 l ≤ 2 * length (sep_by (byte_of 44) (map f l)) + 1)%nat.
Proof.
  induction 1 as [|x l Hx Hl IH]; [simpl; lia|]. destruct l as [|y l]; [simpl; lia|].
  set (rest := y :: l) in *. cbn [fold_right map].
  assert (sep_by (byte_of 44) (f x :: map f rest) = f x ++ byte_of 44 :: sep_by (byte_of 44) (map f rest))
    as -> by done.
  rewrite length_app. cbn [length]. lia.
Qed.

Lemma need_le j : clean j → (need j ≤ 2 * length (enc j))%nat.
Proof.
  induction j as [|[]|lit|s|l IH|l IH] using json_nested_ind; intros Hc; simpl; try lia.
  - destruct Hc as [_ (d & ds & -> & _)]. simpl. lia.
  - assert (Forall (λ x, need x ≤ 2 * length (enc x))%nat l) as Hl%sep_by_fuel.
    { simpl in Hc. clear -IH Hc. induction IH; constructor; simpl in Hc; naive_solver. }
    rewrite length_app. simpl. lia.
  - assert (Forall (λ kv, need kv.2 ≤ 2 * length (enc_member kv))%nat l) as Hl%sep_by_fuel.
    { simpl in Hc. clear -IH Hc. induction IH as [|[k x] l Hx Hl IHl]; constructor; [|naive_solver].
      unfold enc_member. simpl in *. rewrite length_app. simpl. destruct Hc as [[_ Hc] _].
      specialize (Hx Hc). lia. }
    unfold enc_member, enc_string in Hl. rewrite length_app. simpl in *. lia.
Qed.

(** Decoding the text [json.Marshal] printed gives the tree back. *)
Lemma parse_document_Marshal j : clean j → parse_document (Marshal j) = Some j.
Proof.
  intros Hc. unfold parse_document, Marshal. rewrite bytes_of_of.
  destruct (parses_all (2 * length (enc j) + 2)) as (Hv & _).
  specialize (Hv j [] Hc). rewrite app_nil_r in Hv.
  rewrite Hv; [done| |done]. pose proof (need_le j Hc). lia.
Qed.

Lemma ParseInt64_Format n : 0 ≤ n ≤ maxInt64 → ParseInt64 (FormatInt n) = Some n.
Proof.
  intros Hn. destruct (FormatInt_spec n) as [[Hd (d & ds & E & _)] Hv]; [lia|].
  unfold ParseInt64. rewrite E in *. assert (isDigit d = true) as Hdd.
  { simpl in Hd. by apply andb_true_iff in Hd as [? _]. }
  rewrite (bool_decide_eq_false_2 (d = byte_of 45)) by (intros ->; done).
  rewrite Hd, Z.mul_1_l, Hv. simpl. unfold maxInt64 in *.
  rewrite (proj2 (Z.leb_le _ _)), (proj2 (Z.leb_le _ _)) by lia. done.
Qed.

Lemma ParseUint64_Format n : 0 ≤ n < 2 ^ 64 → ParseUint64 (FormatInt n) = Some n.
Proof.
  intros Hn. destruct (FormatInt_spec n) as [[Hd (d & ds & E & _)] Hv]; [lia|].
  unfold ParseUint64. rewrite E in *. rewrite Hd, Hv. simpl.
  by rewrite (proj2 (Z.ltb_lt _ _)) by lia.
Qed.
