(* ===== verification/Interfaces.v ===== *)
(** * Third-party packages, as interfaces

    Code outside the repository enters the model as the operations of a type
    class; a second class states the documented behaviour the theorems rely on.
    The reference instances at the end are concrete functions with that
    behaviour, used to evaluate the model on examples. *)

From S2P Require Import Prelude GoLib GoTime Json.

(** ** k8s.io/apimachinery/pkg/util/validation

    Each function returns a list of problems; the boolean is "no problem". *)
Class K8sValidation := {
  IsDNS1123Label : string → bool;
  IsDNS1123Subdomain : string → bool;
  IsQualifiedName : string → bool;
  IsValidLabelValue : string → bool;
}.

Definition lower_alnum (b : Z) : bool :=
  ((97 <=? b) && (b <=? 122)) || ((48 <=? b) && (b <=? 57)).
Definition alnum (b : Z) : bool := lower_alnum b || ((65 <=? b) && (b <=? 90)).

(** A label is lower-case alphanumerics and dashes, at most 63 of them; a
    subdomain has dots as well, at most 253 bytes; a qualified name may have an
    optional [prefix/]; a label value may be empty. *)
Class K8sValidationSpec (K : K8sValidation) : Prop := {
  dns_label_spec s :
    IsDNS1123Label s = true →
    s ≠ "" ∧ slen s ≤ 63 ∧ all_bytes (λ b, lower_alnum b || (b =? 45)) s = true;
  dns_subdomain_spec s :
    IsDNS1123Subdomain s = true →
    s ≠ "" ∧ slen s ≤ 253 ∧ all_bytes (λ b, lower_alnum b || (b =? 45) || (b =? 46)) s = true;
  qualified_name_spec s :
    IsQualifiedName s = true →
    s ≠ "" ∧
    all_bytes (λ b, alnum b || (b =? 45) || (b =? 95) || (b =? 46) || (b =? 47)) s = true;
  label_value_spec s :
    IsValidLabelValue s = true →
    slen s ≤ 63 ∧ all_bytes (λ b, alnum b || (b =? 45) || (b =? 95) || (b =? 46)) s = true;
}.

(** ** github.com/google/uuid *)
Class UuidLib := {
  UUID : Type;
  uuid_Parse : string → option UUID;
  uuid_Version : UUID → Z;
  uuid_String : UUID → string;
}.

(** [Parse] rejects the empty string; [String] prints the 36-byte canonical
    form. *)
Class UuidLibSpec (U : UuidLib) : Prop := {
  uuid_Parse_empty : uuid_Parse "" = None;
  uuid_String_spec u : slen (uuid_String u) = 36 ∧ all_bytes printable (uuid_String u) = true;
}.

(** ** Label selectors: k8s.io/apimachinery/pkg/apis/meta/v1 and labels *)

Record LabelSelectorRequirement := {
  lsr_Key : string;
  lsr_Operator : string;
  lsr_Values : list string;
}.

Record LabelSelector := {
  ls_MatchLabels : gmap string string;
  ls_MatchExpressions : list LabelSelectorRequirement;
}.

Class LabelLib := {
  Selector : Type;
  (** [metav1.LabelSelectorAsSelector]; [None] is its error. *)
  LabelSelectorAsSelector : LabelSelector → option Selector;
  (** [selector.Matches(labels.Set(m))]. *)
  Matches : Selector → gmap string string → bool;
  (** The JSON forms of the two types, and decoding into a selector. *)
  LabelSelector_json : LabelSelector → json;
  LabelSelectorRequirement_json : LabelSelectorRequirement → json;
  LabelSelector_dec : LabelSelector → json → option LabelSelector;
}.

(** The struct tags of the two types: empty fields are left out, the keys of the
    map are in order. *)
Class LabelJsonSpec (L : LabelLib) : Prop := {
  label_selector_json s :
    LabelSelector_json s =
    JObj ((if ls_MatchLabels s == ∅ then [] else
             [("matchLabels",
               JObj (map (λ kv, (kv.1, JStr kv.2)) (sorted_entries (ls_MatchLabels s))))])
          ++ match ls_MatchExpressions s with
             | [] => []
             | es => [("matchExpressions", JArr (map LabelSelectorRequirement_json es))]
             end);
}.

(** ** crypto/sha256 *)

Class HashLib := { Sum256 : string → list Z }.

(** [sha256.Sum256] returns a [[32]byte]. *)
Class HashLibSpec (H : HashLib) : Prop := {
  Sum256_bytes s : Forall (λ b, 0 ≤ b < 256) (Sum256 s);
  Sum256_length s : length (Sum256 s) = 32%nat;
}.

(** ** Reference instances *)

Definition first_byte_ok (p : Z → bool) (s : string) : bool :=
  match bytes_of s with c :: _ => p (byte_val c) | [] => false end.
Definition last_byte_ok (p : Z → bool) (s : string) : bool :=
  match rev (bytes_of s) with c :: _ => p (byte_val c) | [] => false end.

Definition ref_label_shape (s : string) : bool :=
  first_byte_ok lower_alnum s && last_byte_ok lower_alnum s
  && all_bytes (λ b, lower_alnum b || (b =? 45)) s.

Definition ref_DNS1123Label (s : string) : bool := (slen s <=? 63) && ref_label_shape s.

(** Split at every byte [sep]. *)
Fixpoint split_bytes (sep : Ascii.ascii) (cur l : list Ascii.ascii) : list (list Ascii.ascii) :=
  match l with
  | [] => [rev cur]
  | c :: l => if c == sep then rev cur :: split_bytes sep [] l else split_bytes sep (c :: cur) l
  end.

Definition ref_DNS1123Subdomain (s : string) : bool :=
  (slen s <=? 253)
  && forallb (λ p, ref_label_shape (of_bytes p)) (split_bytes (byte_of 46) [] (bytes_of s))
  && all_bytes (λ b, lower_alnum b || (b =? 45) || (b =? 46)) s && (s != "").

Definition ref_name_shape (s : string) : bool :=
  first_byte_ok alnum s && last_byte_ok alnum s
  && all_bytes (λ b, alnum b || (b =? 45) || (b =? 95) || (b =? 46)) s && (slen s <=? 63).

Definition ref_QualifiedName (s : string) : bool :=
  match split_bytes (byte_of 47) [] (bytes_of s) with
  | [n] => ref_name_shape (of_bytes n)
  | [p; n] => ref_DNS1123Subdomain (of_bytes p) && ref_name_shape (of_bytes n)
  | _ => false
  end && (s != "")
  && all_bytes (λ b, alnum b || (b =? 45) || (b =? 95) || (b =? 46) || (b =? 47)) s.

Definition ref_LabelValue (s : string) : bool := (s == "") || ref_name_shape s.

Definition k8s_reference : K8sValidation := {|
  IsDNS1123Label := ref_DNS1123Label;
  IsDNS1123Subdomain := ref_DNS1123Subdomain;
  IsQualifiedName := ref_QualifiedName;
  IsValidLabelValue := ref_LabelValue;
|}.

(** Canonical UUID texts, with their version digit. *)
Definition ref_uuid_shape (s : string) : bool :=
  (slen s =? 36)
  && forallb (λ ic, if ((ic.1 =? 8) || (ic.1 =? 13) || (ic.1 =? 18) || (ic.1 =? 23))%nat
                    then ic.2 == byte_of 45
                    else match fromHexChar ic.2 with Some _ => true | None => false end)
       (imap pair (bytes_of s))
  && all_bytes printable s.

Record ref_uuid := { ref_text : string; ref_ok : ref_uuid_shape ref_text = true }.

Definition ref_uuid_Parse (s : string) : option ref_uuid :=
  match bool_dec (ref_uuid_shape s) true with
  | left H => Some {| ref_text := s; ref_ok := H |}
  | right _ => None
  end.

Definition ref_uuid_Version (u : ref_uuid) : Z :=
  match bytes_of (ref_text u) !! 14%nat with
  | Some c => default 0 (fromHexChar c)
  | None => 0
  end.

Definition uuid_reference : UuidLib := {|
  UUID := ref_uuid;
  uuid_Parse := ref_uuid_Parse;
  uuid_Version := ref_uuid_Version;
  uuid_String := ref_text;
|}.

#[export] Instance k8s_reference_spec : K8sValidationSpec k8s_reference.
Proof.
  split; intros s; simpl;
    unfold ref_DNS1123Label, ref_DNS1123Subdomain, ref_QualifiedName, ref_LabelValue,
      ref_label_shape, ref_name_shape, first_byte_ok; intros H.
  - split_and!; [intros ->; by vm_compute in H|go_bool; lia|go_bool; tauto].
  - go_bool. split_and!; tauto || lia.
  - go_bool. split_and!; tauto || lia.
  - apply orb_true_iff in H as [H|H]; go_bool; [by subst; vm_compute|]. split; tauto || lia.
Qed.

#[export] Instance uuid_reference_spec : UuidLibSpec uuid_reference.
Proof.
  split; [done|]. intros [s Hs]. simpl. unfold ref_uuid_shape in Hs. go_bool.
  split; tauto || lia.
Qed.

Definition ref_requirement_json (r : LabelSelectorRequirement) : json :=
  JObj ([("key", JStr (lsr_Key r)); ("operator", JStr (lsr_Operator r))]
        ++ match lsr_Values r with [] => [] | vs => [("values", JArr (map JStr vs))] end).

(** Selectors of [matchLabels] and [In] expressions. *)
Definition labels_reference : LabelLib := {|
  Selector := LabelSelector;
  LabelSelectorAsSelector s :=
    if forallb (λ r, (lsr_Operator r == "In") && negb (llen (lsr_Values r) =? 0))
         (ls_MatchExpressions s) then Some s else None;
  Matches s have :=
    forallb (λ kv, have !! kv.1 == Some kv.2) (map_to_list (ls_MatchLabels s))
    && forallb (λ r, match have !! lsr_Key r with
                     | Some v => bool_decide (v ∈ lsr_Values r)
                     | None => false
                     end) (ls_MatchExpressions s);
  LabelSelector_json s :=
    JObj ((if ls_MatchLabels s == ∅ then [] else
             [("matchLabels",
               JObj (map (λ kv, (kv.1, JStr kv.2)) (sorted_entries (ls_MatchLabels s))))])
          ++ match ls_MatchExpressions s with
             | [] => []
             | es => [("matchExpressions", JArr (map ref_requirement_json es))]
             end);
  LabelSelectorRequirement_json := ref_requirement_json;
  LabelSelector_dec cur j :=
    match j with
    | JNull => Some cur
    | JObj ms =>
        if known_fields ["matchLabels"] ms then
          m ← dec_field (dec_map dec_string "") "matchLabels" (Some (ls_MatchLabels cur)) ms;
          Some {| ls_MatchLabels := default ∅ m; ls_MatchExpressions := [] |}
        else None
    | _ => None
    end;
|}.

#[export] Instance labels_reference_json : LabelJsonSpec labels_reference.
Proof. by split. Qed.
