(* ===== verification/LedgerData.v ===== *)
(** * The rollout ledger: data, persisted-record validation and encoding

    src/internal/topologyrollout/ledger.go: the types, [NewLedger],
    [validatePersistedLedger], [validatePersistedReservation] and the identity
    predicates, [canonicalLedgerTime]/[parseCanonicalLedgerTime] and [Encode].
    A nil pointer to a ledger is not a value of the model; a nil reservation map
    is [None]. *)

From S2P Require Import Prelude GoLib GoTime Json Interfaces.

Definition LedgerVersion : string := "v1".
Definition DefaultMaxActiveRecords : Z := 256.
Definition DefaultMaxSerializedBytes : Z := 256 * 1024.

(** [type ReservationState string]: the five constants, and any other text a
    persisted record may carry. *)
Inductive ReservationState :=
  | ReservationReserved
  | ReservationBound
  | ReservationDraining
  | ReservationGranted
  | ReservationRevoked
  | ReservationOther (raw : string).

#[export] Instance ReservationState_eq_dec : EqDecision ReservationState.
Proof. solve_decision. Defined.

Definition state_string (s : ReservationState) : string :=
  match s with
  | ReservationReserved => "Reserved"
  | ReservationBound => "Bound"
  | ReservationDraining => "Draining"
  | ReservationGranted => "Granted"
  | ReservationRevoked => "Revoked"
  | ReservationOther raw => raw
  end.

Record RiskGroupBudget := {
  rgb_MaxConcurrentTransfers : Z;
  rgb_MaxUnavailable : Z;
}.

Record Policy := {
  pol_UID : string;
  pol_Version : string;
  pol_Epoch : Z;
  pol_GlobalMaxConcurrentTransfers : Z;
  pol_GlobalMaxUnavailable : Z;
  pol_DomainTransferBudgets : gmap string Z;
  pol_DomainBudgets : gmap string Z;
  pol_RiskGroupBudgets : gmap string RiskGroupBudget;
  pol_MaxActiveRecords : Z;
  pol_MaxSerializedBytes : Z;
  pol_RequiredHealthFreshBy : Time;
}.

Record Member := {
  mem_PhysicalID : string;
  mem_DeviceUID : string;
  mem_NodeUID : string;
  mem_Domains : gmap string string;
  mem_RiskGroups : list string;
  mem_HealthKnown : bool;
  mem_Healthy : bool;
  mem_Maintenance : bool;
  mem_HealthObserved : Time;
}.

Definition unavailable (m : Member) (policy : Policy) : bool :=
  negb (mem_HealthKnown m) || negb (mem_Healthy m) || mem_Maintenance m
  || ((pol_RequiredHealthFreshBy policy != 0)
      && (mem_HealthObserved m <? pol_RequiredHealthFreshBy policy)).

Record ReservationRequest := {
  req_ID : string;
  req_CampaignUID : string;
  req_PlanHash : string;
  req_PolicyUID : string;
  req_PolicyVersion : string;
  req_PolicyEpoch : Z;
  req_TopologyLockID : string;
  req_PhysicalID : string;
  req_DeviceUID : string;
  req_NodeUID : string;
  req_ChildNamespace : string;
  req_ChildName : string;
  req_Domains : gmap string string;
  req_RiskGroups : list string;
  req_CampaignMaxConcurrentTransfers : Z;
  req_CampaignMaxUnavailable : Z;
  req_CampaignTransferLimits : gmap string Z;
  req_CampaignLimits : gmap string Z;
  req_ControlRevision : Z;
}.

Record Reservation := {
  rsv_Request : ReservationRequest;
  rsv_ChildUID : string;
  rsv_State : ReservationState;
  rsv_DrainSessionToken : string;
  rsv_DrainStartedAt : string;
  rsv_DrainCompletedAt : string;
}.

Record ReleaseFence := {
  fence_ReservationID : string;
  fence_PolicyEpoch : Z;
  fence_TopologyLockID : string;
  fence_DrainSessionToken : string;
  fence_DrainChildUID : string;
}.

Record Ledger := {
  led_Version : string;
  led_UID : string;
  led_Reservations : option (gmap string Reservation);
  led_LastReleaseFence : option ReleaseFence;
}.

#[export] Instance ReservationRequest_eq_dec : EqDecision ReservationRequest.
Proof. solve_decision. Defined.
#[export] Instance Reservation_eq_dec : EqDecision Reservation.
Proof. solve_decision. Defined.
#[export] Instance ReleaseFence_eq_dec : EqDecision ReleaseFence.
Proof. solve_decision. Defined.
#[export] Instance Ledger_eq_dec : EqDecision Ledger.
Proof. solve_decision. Defined.

(** Reading [ledger.Reservations]: a nil map has no entries. *)
Definition reservations (l : Ledger) : gmap string Reservation :=
  default ∅ (led_Reservations l).

(** [ledger.Reservations[id] = r] and [delete(ledger.Reservations, id)] on a
    non-nil map. *)
Definition set_reservations (l : Ledger) (m : gmap string Reservation) : Ledger :=
  {| led_Version := led_Version l; led_UID := led_UID l;
     led_Reservations := Some m; led_LastReleaseFence := led_LastReleaseFence l |}.

Definition put (l : Ledger) (id : string) (r : Reservation) : Ledger :=
  set_reservations l (<[id := r]> (reservations l)).

Definition remove (l : Ledger) (id : string) : Ledger :=
  match led_Reservations l with
  | Some m => set_reservations l (delete id m)
  | None => l
  end.

Definition set_fence (l : Ledger) (f : ReleaseFence) : Ledger :=
  {| led_Version := led_Version l; led_UID := led_UID l;
     led_Reservations := led_Reservations l; led_LastReleaseFence := Some f |}.

(** Field assignments on a copy of a request or reservation. *)
Definition with_revision (q : ReservationRequest) (rev : Z) : ReservationRequest :=
  {| req_ID := req_ID q; req_CampaignUID := req_CampaignUID q; req_PlanHash := req_PlanHash q;
     req_PolicyUID := req_PolicyUID q; req_PolicyVersion := req_PolicyVersion q;
     req_PolicyEpoch := req_PolicyEpoch q; req_TopologyLockID := req_TopologyLockID q;
     req_PhysicalID := req_PhysicalID q; req_DeviceUID := req_DeviceUID q;
     req_NodeUID := req_NodeUID q; req_ChildNamespace := req_ChildNamespace q;
     req_ChildName := req_ChildName q; req_Domains := req_Domains q;
     req_RiskGroups := req_RiskGroups q;
     req_CampaignMaxConcurrentTransfers := req_CampaignMaxConcurrentTransfers q;
     req_CampaignMaxUnavailable := req_CampaignMaxUnavailable q;
     req_CampaignTransferLimits := req_CampaignTransferLimits q;
     req_CampaignLimits := req_CampaignLimits q; req_ControlRevision := rev |}.

(** The request with every [Campaign*] limit at its zero value. *)
Definition clearCampaignLimits (q : ReservationRequest) : ReservationRequest :=
  {| req_ID := req_ID q; req_CampaignUID := req_CampaignUID q; req_PlanHash := req_PlanHash q;
     req_PolicyUID := req_PolicyUID q; req_PolicyVersion := req_PolicyVersion q;
     req_PolicyEpoch := req_PolicyEpoch q; req_TopologyLockID := req_TopologyLockID q;
     req_PhysicalID := req_PhysicalID q; req_DeviceUID := req_DeviceUID q;
     req_NodeUID := req_NodeUID q; req_ChildNamespace := req_ChildNamespace q;
     req_ChildName := req_ChildName q; req_Domains := req_Domains q;
     req_RiskGroups := req_RiskGroups q; req_CampaignMaxConcurrentTransfers := 0;
     req_CampaignMaxUnavailable := 0; req_CampaignTransferLimits := ∅;
     req_CampaignLimits := ∅; req_ControlRevision := req_ControlRevision q |}.

Definition set_state (r : Reservation) (rev : Z) (st : ReservationState) : Reservation :=
  {| rsv_Request := with_revision (rsv_Request r) rev; rsv_ChildUID := rsv_ChildUID r;
     rsv_State := st; rsv_DrainSessionToken := rsv_DrainSessionToken r;
     rsv_DrainStartedAt := rsv_DrainStartedAt r;
     rsv_DrainCompletedAt := rsv_DrainCompletedAt r |}.

Definition set_child (r : Reservation) (uid : string) : Reservation :=
  {| rsv_Request := rsv_Request r; rsv_ChildUID := uid; rsv_State := rsv_State r;
     rsv_DrainSessionToken := rsv_DrainSessionToken r;
     rsv_DrainStartedAt := rsv_DrainStartedAt r;
     rsv_DrainCompletedAt := rsv_DrainCompletedAt r |}.

Definition set_drain (r : Reservation) (token started completed : string) : Reservation :=
  {| rsv_Request := rsv_Request r; rsv_ChildUID := rsv_ChildUID r; rsv_State := rsv_State r;
     rsv_DrainSessionToken := token; rsv_DrainStartedAt := started;
     rsv_DrainCompletedAt := completed |}.

Definition rsv_ControlRevision (r : Reservation) : Z := req_ControlRevision (rsv_Request r).

(** ** Identity predicates *)

(** The loop over the runes of [value] rejects every rune outside ['!'..'~'],
    hence every byte outside that range: the bytes of a longer rune, or of
    malformed UTF-8, are all above 127. *)
Definition validBoundedIdentity (value : string) (maxLength : Z) : bool :=
  return_if ((value == "") || (maxLength <? slen value) || (TrimSpace value != value)) false ;;
  all_bytes printable value.

Definition validSHA256PlanHash (value : string) : bool :=
  return_if ((slen value != (slen "sha256:" + 32 * 2)) || negb (HasPrefix value "sha256:")) false ;;
  let encoded := of_bytes (drop 7 (bytes_of value)) in
  return_if (encoded != ToLower encoded) false ;;
  match hex_DecodeString encoded with Some _ => true | None => false end.

Definition validTopologyLockID (value : string) : bool :=
  return_if ((slen value != 32) || (value != ToLower value)) false ;;
  match hex_DecodeString value with Some decoded => llen decoded == 16 | None => false end.

Definition validDrainSessionToken `{UuidLib} (value : string) : bool :=
  match uuid_Parse value with
  | Some parsed => (uuid_Version parsed == 4) && (uuid_String parsed == value)
  | None => false
  end.

(** ** Canonical times *)

Definition canonicalLedgerTime (value : Time) : option string :=
  return_if (value == 0) None ;;
  Some (FormatRFC3339Nano value).

Definition parseCanonicalLedgerTime (value : string) : option Time :=
  match ParseRFC3339Nano value with
  | None => None
  | Some parsed =>
      return_if (value != default "" (canonicalLedgerTime parsed)) None ;;
      Some parsed
  end.

(** ** Persisted-record validation *)

(** The comparison [groups[i-1] >= group] at position [i > 0]. *)
Fixpoint unsorted_from (prev : option string) (groups : list string) : bool :=
  match groups with
  | [] => false
  | g :: groups =>
      match prev with
      | Some p => String.leb g p || unsorted_from (Some g) groups
      | None => unsorted_from (Some g) groups
      end
  end.

(** The loop checks a name and then its order against the previous name; both
    failures are plain errors, so the two checks are written one after the
    other. *)
Definition validateRiskGroupNames `{K8sValidation} (groups : list string) : option goerror :=
  return_if (16 <? llen groups) (Some (EPlain "risk groups may contain at most 16 entries")) ;;
  propagate (first_error (λ g, return_if (IsDNS1123Label g) None ;;
                               Some (EPlain "risk group is invalid")) groups) ;;
  return_if (unsorted_from None groups)
    (Some (EPlain "risk groups must be strictly sorted and unique")) ;;
  None.

Definition hasDrainProvenance (r : Reservation) : bool :=
  (rsv_DrainSessionToken r != "") || (rsv_DrainStartedAt r != "")
  || (rsv_DrainCompletedAt r != "").

Definition boundedFields (r : Reservation) : list (string * Z) :=
  let q := rsv_Request r in
  [(req_ID q, 64); (req_CampaignUID q, 128); (req_PlanHash q, 71); (req_PolicyUID q, 128);
   (req_PolicyVersion q, 128); (req_TopologyLockID q, 64); (req_PhysicalID q, 128);
   (req_DeviceUID q, 128); (req_NodeUID q, 128); (req_ChildNamespace q, 63);
   (req_ChildName q, 253)].

Definition validDomainEntry `{K8sValidation} (key value : string) : option goerror :=
  return_if ((96 <? slen key) || (63 <? slen value) || (TrimSpace value == ""))
    (Some (EPlain "domain key/value exceeds the 96/63 character limit")) ;;
  return_if (negb (IsQualifiedName key)) (Some (EPlain "domain key is invalid")) ;;
  return_if (negb (IsValidLabelValue value)) (Some (EPlain "domain value is invalid")) ;;
  None.

(** The drain-provenance block. *)
Definition validDrainProvenance `{UuidLib} (r : Reservation) : option goerror :=
  return_if (negb (hasDrainProvenance r)) None ;;
  return_if (negb (validDrainSessionToken (rsv_DrainSessionToken r)))
    (Some (EPlain "drain session token must be a canonical UUIDv4")) ;;
  match parseCanonicalLedgerTime (rsv_DrainStartedAt r) with
  | None => Some (EPlain "drain start time is invalid")
  | Some startedAt =>
      return_if (rsv_DrainCompletedAt r == "") None ;;
      match parseCanonicalLedgerTime (rsv_DrainCompletedAt r) with
      | None => Some (EPlain "drain completion time is invalid")
      | Some completedAt =>
          return_if (completedAt <? startedAt)
            (Some (EPlain "drain completion time precedes its start")) ;;
          None
      end
  end.

(** The [switch reservation.State] block. *)
Definition validStateShape (r : Reservation) : option goerror :=
  match rsv_State r with
  | ReservationReserved =>
      return_if ((rsv_ChildUID r != "") || hasDrainProvenance r)
        (Some (EPlain "Reserved state must not have a child UID or drain provenance")) ;;
      None
  | ReservationBound =>
      return_if (negb (validBoundedIdentity (rsv_ChildUID r) 128))
        (Some (EPlain "state requires a bounded child UID")) ;;
      return_if (hasDrainProvenance r)
        (Some (EPlain "Bound state must not have drain provenance")) ;;
      None
  | ReservationDraining =>
      return_if (negb (validBoundedIdentity (rsv_ChildUID r) 128)
                 || negb (hasDrainProvenance r) || (rsv_DrainCompletedAt r != ""))
        (Some (EPlain "Draining state requires a child UID and incomplete drain provenance")) ;;
      None
  | ReservationGranted =>
      return_if (negb (validBoundedIdentity (rsv_ChildUID r) 128))
        (Some (EPlain "state requires a bounded child UID")) ;;
      return_if (hasDrainProvenance r && (rsv_DrainCompletedAt r == ""))
        (Some (EPlain "drain-provenance Granted state requires completion evidence")) ;;
      None
  | ReservationRevoked =>
      return_if (negb (validBoundedIdentity (rsv_ChildUID r) 128))
        (Some (EPlain "state requires a bounded child UID")) ;;
      None
  | ReservationOther _ => Some (EPlain "unknown state")
  end.

Definition validatePersistedReservation `{K8sValidation, UuidLib} (r : Reservation)
  : option goerror :=
  let q := rsv_Request r in
  propagate (first_error (λ f, return_if (validBoundedIdentity f.1 f.2) None ;;
                               Some (EPlain "field must contain 1-max characters"))
               (boundedFields r)) ;;
  return_if (negb (validSHA256PlanHash (req_PlanHash q)))
    (Some (EPlain "plan hash is not a canonical SHA-256 value")) ;;
  return_if (req_PolicyEpoch q <? 1) (Some (EPlain "policy epoch must be positive")) ;;
  return_if (negb (validTopologyLockID (req_TopologyLockID q)))
    (Some (EPlain "topology lock acquisition ID must be a 128-bit lowercase hexadecimal value")) ;;
  return_if (negb (IsDNS1123Label (req_ChildNamespace q)))
    (Some (EPlain "child namespace is invalid")) ;;
  return_if (negb (IsDNS1123Subdomain (req_ChildName q)))
    (Some (EPlain "child name is invalid")) ;;
  return_if ((mlen (req_Domains q) == 0) || (16 <? mlen (req_Domains q)))
    (Some (EPlain "domains must contain 1-16 entries")) ;;
  propagate (range_check validDomainEntry (req_Domains q)) ;;
  propagate (validateRiskGroupNames (req_RiskGroups q)) ;;
  propagate (validDrainProvenance r) ;;
  propagate (validStateShape r) ;;
  return_if (maxInt64 <? req_ControlRevision q)
    (Some (EPlain "control revision exceeds the signed campaign revision range")) ;;
  None.

(** The maps of identities met so far, each to the reservation that has it. *)
Record SeenIdentities := {
  seen_physicalIDs : gmap string string;
  seen_deviceUIDs : gmap string string;
  seen_nodeUIDs : gmap string string;
  seen_children : gmap string string;
  seen_childUIDs : gmap string string;
}.

Definition no_identities : SeenIdentities := Build_SeenIdentities ∅ ∅ ∅ ∅ ∅.

(** [prior, duplicate := seen[value]; duplicate && prior != key] *)
Definition reused (seen : gmap string string) (value key : string) : bool :=
  match seen !! value with Some prior => prior != key | None => false end.

Definition childKey (q : ReservationRequest) : string :=
  req_ChildNamespace q +:+ "/" +:+ req_ChildName q.

Definition reuses_identity (seen : SeenIdentities) (key : string) (r : Reservation) : bool :=
  let q := rsv_Request r in
  reused (seen_physicalIDs seen) (req_PhysicalID q) key
  || reused (seen_deviceUIDs seen) (req_DeviceUID q) key
  || reused (seen_nodeUIDs seen) (req_NodeUID q) key
  || reused (seen_children seen) (childKey q) key
  || ((rsv_ChildUID r != "") && reused (seen_childUIDs seen) (rsv_ChildUID r) key).

Definition record_identities (seen : SeenIdentities) (key : string) (r : Reservation)
  : SeenIdentities :=
  let q := rsv_Request r in
  {| seen_physicalIDs := <[req_PhysicalID q := key]> (seen_physicalIDs seen);
     seen_deviceUIDs := <[req_DeviceUID q := key]> (seen_deviceUIDs seen);
     seen_nodeUIDs := <[req_NodeUID q := key]> (seen_nodeUIDs seen);
     seen_children := <[childKey q := key]> (seen_children seen);
     seen_childUIDs := if rsv_ChildUID r != "" then <[rsv_ChildUID r := key]> (seen_childUIDs seen)
                       else seen_childUIDs seen |}.

(** The loop over the reservations. *)
Fixpoint validateEntries `{K8sValidation, UuidLib} (seen : SeenIdentities)
    (entries : list (string * Reservation)) : option goerror :=
  match entries with
  | [] => None
  | (key, r) :: entries =>
      return_if ((key == "") || (key != req_ID (rsv_Request r)))
        (Some (EIs ErrLedgerIdentity "reservation map key does not match id")) ;;
      return_if (bool_decide (validatePersistedReservation r ≠ None))
        (Some (EIs ErrLedgerIdentity "reservation is invalid")) ;;
      return_if (reuses_identity seen key r)
        (Some (EIs ErrLedgerIdentity "reservations reuse an identity")) ;;
      validateEntries (record_identities seen key r) entries
  end.

Definition validFence `{UuidLib} (fence : ReleaseFence) : option goerror :=
  return_if (negb (validBoundedIdentity (fence_ReservationID fence) 64)
             || (fence_PolicyEpoch fence <? 1)
             || negb (validTopologyLockID (fence_TopologyLockID fence)))
    (Some (EIs ErrLedgerIdentity "last release fence is invalid")) ;;
  return_if ((bool_decide (fence_DrainSessionToken fence = "")
              != bool_decide (fence_DrainChildUID fence = ""))
             || ((fence_DrainSessionToken fence != "")
                 && (negb (validDrainSessionToken (fence_DrainSessionToken fence))
                     || negb (validBoundedIdentity (fence_DrainChildUID fence) 128))))
    (Some (EIs ErrLedgerIdentity "last release fence has invalid drain provenance")) ;;
  None.

Definition validatePersistedLedger `{K8sValidation, UuidLib} (l : Ledger) : option goerror :=
  return_if ((led_Version l != LedgerVersion) || negb (validBoundedIdentity (led_UID l) 128))
    (Some (EIs ErrLedgerIdentity "ledger version or UID is invalid")) ;;
  match led_Reservations l with
  | None => Some (EIs ErrLedgerIdentity "reservations must be an object")
  | Some m =>
      return_if (DefaultMaxActiveRecords <? mlen m)
        (Some (EIs ErrLedgerIdentity "reservations exceed the absolute limit")) ;;
      propagate (match led_LastReleaseFence l with Some f => validFence f | None => None end) ;;
      validateEntries no_identities (map_to_list m)
  end.

Definition NewLedger (uid : string) : Ledger + goerror :=
  return_if (TrimSpace uid == "") (inr (EIs ErrLedgerIdentity "empty UID")) ;;
  inl {| led_Version := LedgerVersion; led_UID := uid; led_Reservations := Some ∅;
         led_LastReleaseFence := None |}.

(** ** Encoding *)

Definition jint (n : Z) : json := JNum (FormatInt n).

Definition omitempty (k v : string) : list (string * json) :=
  if v == "" then [] else [(k, JStr v)].

(** [json:"..."] fields of [ReservationRequest], in order; a nil [Domains] map
    (encoded as null) is not a value of the model. *)
Definition request_fields (q : ReservationRequest) : list (string * json) :=
  [("id", JStr (req_ID q)); ("campaignUID", JStr (req_CampaignUID q));
   ("planHash", JStr (req_PlanHash q)); ("policyUID", JStr (req_PolicyUID q));
   ("policyVersion", JStr (req_PolicyVersion q)); ("policyEpoch", jint (req_PolicyEpoch q));
   ("topologyLockID", JStr (req_TopologyLockID q)); ("physicalID", JStr (req_PhysicalID q));
   ("deviceUID", JStr (req_DeviceUID q)); ("nodeUID", JStr (req_NodeUID q));
   ("childNamespace", JStr (req_ChildNamespace q)); ("childName", JStr (req_ChildName q));
   ("domains", JObj (map (λ kv, (kv.1, JStr kv.2)) (sorted_entries (req_Domains q))))]
  ++ (if req_RiskGroups q == [] then []
      else [("riskGroups", JArr (map JStr (req_RiskGroups q)))])
  ++ [("controlRevision", jint (req_ControlRevision q))].

Definition reservation_json (r : Reservation) : json :=
  JObj (request_fields (rsv_Request r)
        ++ omitempty "childUID" (rsv_ChildUID r)
        ++ [("state", JStr (state_string (rsv_State r)))]
        ++ omitempty "drainSessionToken" (rsv_DrainSessionToken r)
        ++ omitempty "drainStartedAt" (rsv_DrainStartedAt r)
        ++ omitempty "drainCompletedAt" (rsv_DrainCompletedAt r)).

Definition fence_json (f : ReleaseFence) : json :=
  JObj ([("reservationID", JStr (fence_ReservationID f));
         ("policyEpoch", jint (fence_PolicyEpoch f));
         ("topologyLockID", JStr (fence_TopologyLockID f))]
        ++ omitempty "drainSessionToken" (fence_DrainSessionToken f)
        ++ omitempty "drainChildUID" (fence_DrainChildUID f)).

Definition ledger_json (l : Ledger) : json :=
  JObj ([("version", JStr (led_Version l)); ("uid", JStr (led_UID l));
         ("reservations",
            match led_Reservations l with
            | None => JNull
            | Some m => JObj (map (λ kv, (kv.1, reservation_json kv.2)) (sorted_entries m))
            end)]
        ++ match led_LastReleaseFence l with
           | Some f => [("lastReleaseFence", fence_json f)]
           | None => []
           end).

(** [json.Marshal] does not fail on these types. *)
Definition Encode (l : Ledger) (maxBytes : Z) : string + goerror :=
  return_if ((led_Version l != LedgerVersion) || (TrimSpace (led_UID l) == ""))
    (inr (EIs ErrLedgerIdentity "incomplete ledger")) ;;
  let maxBytes := if (maxBytes <=? 0) || (DefaultMaxSerializedBytes <? maxBytes)
                  then DefaultMaxSerializedBytes else maxBytes in
  let data := Marshal (ledger_json l) in
  return_if (maxBytes <? slen data)
    (inr (EIs ErrLedgerFull "encoded ledger exceeds the limit")) ;;
  inl data.
