(* ===== verification/Ledger.v ===== *)
(** * The rollout ledger: operations

    src/internal/topologyrollout/ledger.go: [Reserve] and the admission
    arithmetic it uses, and the reservation state machine ([BindChild],
    [BeginDrain], [PromoteDrain], [Grant], [Revoke], [RevokeDrain], [Settle],
    [SettleDrainedReservation], the unclaimed release and revocation, and the
    release fences).

    An operation on [*Ledger] is a function from the ledger to the ledger it
    leaves behind and the error it returns; an assignment made before an error
    return stays visible, as in the code. *)

From S2P Require Import Prelude GoLib GoTime Json Interfaces LedgerData.

Definition LedgerOp : Type := Ledger → Ledger * option goerror.

(** ** Sets and counts over members and reservations *)

Definition containsSorted (values : list string) (value : string) : bool :=
  let index := sort_SearchStrings values value in
  match values !! index with Some v => v == value | None => false end.

Definition equalStrings (left right : list string) : bool :=
  return_if (llen left != llen right) false ;;
  forallb (λ p, p.1 == p.2) (zip left right).

(** [b[key] != value] reads a missing key of [b] as the empty string. *)
Definition equalStringMap (a b : gmap string string) : bool :=
  return_if (mlen a != mlen b) false ;;
  forallb (λ kv, mget b kv.1 == kv.2) (map_to_list a).

Definition activeReservationsInRiskGroup (l : Ledger) (group : string) : Z :=
  mcount (λ r, containsSorted (req_RiskGroups (rsv_Request r)) group) (reservations l).

Definition activeReservationsInDomain (l : Ledger) (key value : string) : Z :=
  mcount (λ r, mget (req_Domains (rsv_Request r)) key == value) (reservations l).

Definition activeReservationsForCampaign (l : Ledger) (campaignUID : string) : Z :=
  mcount (λ r, req_CampaignUID (rsv_Request r) == campaignUID) (reservations l).

Definition activeReservationsForCampaignInDomain (l : Ledger) (campaignUID key value : string)
  : Z :=
  mcount (λ r, (req_CampaignUID (rsv_Request r) == campaignUID)
               && (mget (req_Domains (rsv_Request r)) key == value)) (reservations l).

(** The physical IDs of the reservations that satisfy [P]. *)
Definition reservedIDs (P : Reservation → bool) (m : gmap string Reservation) : gset string :=
  list_to_set (map (λ kv, req_PhysicalID (rsv_Request kv.2))
                 (map_to_list (filter (λ kv, P kv.2 = true) m))).

(** The keys of the members that satisfy [P]. *)
Definition memberIDs (P : Member → bool) (m : gmap string Member) : gset string :=
  dom (filter (λ kv, P kv.2 = true) m).

Definition unavailablePhysicalIDs (members : gmap string Member) (l : Ledger) (policy : Policy)
    (domainKey domainValue : string) : gset string :=
  let inDomain (domains : gmap string string) :=
    negb ((domainKey != "") && (mget domains domainKey != domainValue)) in
  memberIDs (λ m, inDomain (mem_Domains m) && unavailable m policy) members
  ∪ reservedIDs (λ r, inDomain (req_Domains (rsv_Request r))) (reservations l).

Definition unavailablePhysicalIDsInRiskGroup (members : gmap string Member) (l : Ledger)
    (policy : Policy) (group : string) : gset string :=
  memberIDs (λ m, containsSorted (mem_RiskGroups m) group && unavailable m policy) members
  ∪ reservedIDs (λ r, containsSorted (req_RiskGroups (rsv_Request r)) group) (reservations l).

Definition effectiveLimit (admin campaign : Z) : Z :=
  if (0 <? campaign) && (campaign <? admin) then campaign else admin.

(** The requests compared as JSON, without the campaign limits. *)
Definition sameRequest (a b : ReservationRequest) : bool :=
  Marshal (JObj (request_fields (clearCampaignLimits a)))
  == Marshal (JObj (request_fields (clearCampaignLimits b))).

(** ** Release fences *)

Definition releaseFenceMatches (fence : option ReleaseFence) (reservationID : string)
    (policyEpoch : Z) (topologyLockID : string) : bool :=
  match fence with
  | Some f => (fence_ReservationID f == reservationID) && (fence_PolicyEpoch f == policyEpoch)
              && (fence_TopologyLockID f == topologyLockID)
  | None => false
  end.

Definition HasReleaseFence (l : Ledger) (reservationID : string) (policyEpoch : Z)
    (topologyLockID : string) : bool :=
  releaseFenceMatches (led_LastReleaseFence l) reservationID policyEpoch topologyLockID.

(** [ledger.LastReleaseFence.DrainSessionToken]; read only behind a match. *)
Definition fenceToken (l : Ledger) : string :=
  match led_LastReleaseFence l with Some f => fence_DrainSessionToken f | None => "" end.
Definition fenceChild (l : Ledger) : string :=
  match led_LastReleaseFence l with Some f => fence_DrainChildUID f | None => "" end.

Definition recordReleaseFence (reservationID : string) (policyEpoch : Z)
    (topologyLockID : string) : LedgerOp := λ l,
  return_if (negb (validBoundedIdentity reservationID 64) || (policyEpoch <? 1)
             || negb (validTopologyLockID topologyLockID))
    (l, Some (EIs ErrLedgerIdentity "release-fence identity is invalid")) ;;
  return_if (releaseFenceMatches (led_LastReleaseFence l) reservationID policyEpoch topologyLockID
             && (fenceToken l != ""))
    (l, Some (EIs ErrInvalidTransition "drain release fence cannot be replaced by generic cleanup")) ;;
  (set_fence l {| fence_ReservationID := reservationID; fence_PolicyEpoch := policyEpoch;
                  fence_TopologyLockID := topologyLockID; fence_DrainSessionToken := "";
                  fence_DrainChildUID := "" |}, None).

Definition recordDrainReleaseFence `{UuidLib} (reservationID : string) (policyEpoch : Z)
    (topologyLockID childUID sessionToken : string) : LedgerOp := λ l,
  return_if (negb (validBoundedIdentity reservationID 64) || (policyEpoch <? 1)
             || negb (validTopologyLockID topologyLockID) || negb (validBoundedIdentity childUID 128)
             || negb (validDrainSessionToken sessionToken))
    (l, Some (EIs ErrLedgerIdentity "drain release-fence identity is invalid")) ;;
  return_if (releaseFenceMatches (led_LastReleaseFence l) reservationID policyEpoch topologyLockID)
    (return_if ((fenceToken l == sessionToken) && (fenceChild l == childUID)) (l, None) ;;
     (l, Some (EIs ErrInvalidTransition "release fence belongs to a different settlement protocol"))) ;;
  (set_fence l {| fence_ReservationID := reservationID; fence_PolicyEpoch := policyEpoch;
                  fence_TopologyLockID := topologyLockID; fence_DrainSessionToken := sessionToken;
                  fence_DrainChildUID := childUID |}, None).

(** [if err := record(...); err != nil { return err }; delete(...); return nil] *)
Definition fenceAndDelete (record : LedgerOp) (reservationID : string) : LedgerOp := λ l,
  match record l with
  | (l', Some e) => (l', Some e)
  | (l', None) => (remove l' reservationID, None)
  end.

(** ** Members *)

Definition mergeMember (previous member : Member) : Member :=
  {| mem_PhysicalID := mem_PhysicalID previous; mem_DeviceUID := mem_DeviceUID previous;
     mem_NodeUID := mem_NodeUID previous; mem_Domains := mem_Domains previous;
     mem_RiskGroups := mem_RiskGroups previous;
     mem_HealthKnown := mem_HealthKnown previous && mem_HealthKnown member;
     mem_Healthy := mem_Healthy previous && mem_Healthy member;
     mem_Maintenance := mem_Maintenance previous || mem_Maintenance member;
     mem_HealthObserved := if mem_HealthObserved member <? mem_HealthObserved previous
                           then mem_HealthObserved member else mem_HealthObserved previous |}.

Fixpoint canonicalizeLoop `{K8sValidation} (out : gmap string Member) (members : list Member)
  : gmap string Member + goerror :=
  match members with
  | [] => inl out
  | member :: members =>
      return_if ((mem_PhysicalID member == "") || (mem_DeviceUID member == "")
                 || (mem_NodeUID member == ""))
        (inr (EPlain "fleet member has incomplete identity")) ;;
      match validateRiskGroupNames (mem_RiskGroups member) with
      | Some e => inr e
      | None =>
          match out !! mem_PhysicalID member with
          | Some previous =>
              return_if ((mem_DeviceUID previous != mem_DeviceUID member)
                         || (mem_NodeUID previous != mem_NodeUID member)
                         || negb (equalStringMap (mem_Domains previous) (mem_Domains member))
                         || negb (equalStrings (mem_RiskGroups previous) (mem_RiskGroups member)))
                (inr (EPlain "duplicate physical identity has conflicting membership")) ;;
              canonicalizeLoop
                (<[mem_PhysicalID member := mergeMember previous member]> out) members
          | None => canonicalizeLoop (<[mem_PhysicalID member := member]> out) members
          end
      end
  end.

Definition canonicalizeMembers `{K8sValidation} (members : list Member)
  : gmap string Member + goerror :=
  canonicalizeLoop ∅ members.

(** ** Admission *)

Definition validateInputs `{K8sValidation} (l : Ledger) (policy : Policy)
    (request : ReservationRequest) : option goerror :=
  return_if ((led_Version l != LedgerVersion) || (led_UID l == ""))
    (Some (EIs ErrLedgerIdentity "")) ;;
  return_if ((pol_UID policy == "") || (pol_Version policy == "") || (pol_Epoch policy <? 1)
             || (req_PolicyUID request != pol_UID policy)
             || (req_PolicyVersion request != pol_Version policy)
             || (req_PolicyEpoch request != pol_Epoch policy))
    (Some (EIs ErrLedgerIdentity "policy identity changed")) ;;
  return_if (negb (validTopologyLockID (req_TopologyLockID request)))
    (Some (EIs ErrLedgerIdentity "topology lock acquisition identity is invalid")) ;;
  return_if ((pol_GlobalMaxConcurrentTransfers policy <? 1) || (pol_GlobalMaxUnavailable policy <? 1))
    (Some (EPlain "administrator global transfer and unavailable budgets must be positive")) ;;
  propagate (validateRiskGroupNames (req_RiskGroups request)) ;;
  return_if (16 <? mlen (pol_RiskGroupBudgets policy))
    (Some (EPlain "administrator risk-group budgets exceed 16 entries")) ;;
  propagate (range_check (λ name budget,
      return_if (negb (IsDNS1123Label name))
        (Some (EPlain "administrator risk group is invalid")) ;;
      return_if ((rgb_MaxConcurrentTransfers budget <? 1) || (rgb_MaxUnavailable budget <? 1))
        (Some (EPlain "administrator risk group budgets must be positive")) ;;
      None) (pol_RiskGroupBudgets policy)) ;;
  propagate (first_error (λ value,
      return_if (TrimSpace value == "") (Some (EPlain "field is required")) ;; None)
      [req_ID request; req_CampaignUID request; req_PlanHash request; req_PhysicalID request;
       req_DeviceUID request; req_NodeUID request; req_ChildNamespace request;
       req_ChildName request]) ;;
  propagate (range_check (λ key _,
      return_if (mget (req_Domains request) key == "")
        (Some (EPlain "reservation domain is required")) ;; None) (pol_DomainBudgets policy)) ;;
  range_check (λ key _,
      return_if (mget (req_Domains request) key == "")
        (Some (EPlain "reservation transfer domain is required")) ;; None)
    (pol_DomainTransferBudgets policy).

(** The checks of [Reserve] against the target's current observation. *)
Definition reserveTargetChecks (l : Ledger) (policy : Policy) (target : Member)
    (request : ReservationRequest) : option goerror :=
  return_if (unavailable target policy) (Some (EIs ErrTargetUnavailable "")) ;;
  propagate (first_error (λ key,
      return_if ((mget (req_Domains request) key == "")
                 || (mget (req_Domains request) key != mget (mem_Domains target) key))
        (Some (EPlain "invalid or stale domain for target")) ;; None)
      (elements (dom (pol_DomainBudgets policy) ∪ dom (pol_DomainTransferBudgets policy)))) ;;
  return_if (negb (equalStrings (req_RiskGroups request) (mem_RiskGroups target)))
    (Some (EPlain "invalid or stale risk-group membership for target")) ;;
  propagate (range_check (λ _ reservation,
      return_if (req_PhysicalID (rsv_Request reservation) == req_PhysicalID request)
        (Some (EIs ErrAlreadyReserved "physical device is held")) ;; None) (reservations l)) ;;
  let activeLimit := if pol_MaxActiveRecords policy <=? 0
                     then DefaultMaxActiveRecords else pol_MaxActiveRecords policy in
  return_if (activeLimit <=? mlen (reservations l))
    (Some (EIs ErrLedgerFull "active records reached the limit")) ;;
  None.

Definition setLen (s : gset string) : Z := Z.of_nat (size s).

(** The global and campaign-wide budgets. *)
Definition reserveGlobalBudgets (members : gmap string Member) (l : Ledger) (policy : Policy)
    (request : ReservationRequest) : option goerror :=
  let global := {[req_PhysicalID request]} ∪ unavailablePhysicalIDs members l policy "" "" in
  return_if (pol_GlobalMaxUnavailable policy <? setLen global)
    (Some (EIs ErrBudgetExceeded "administrator global unavailable")) ;;
  let campaignActive := activeReservationsForCampaign l (req_CampaignUID request) + 1 in
  return_if (effectiveLimit (pol_GlobalMaxUnavailable policy) (req_CampaignMaxUnavailable request)
             <? campaignActive)
    (Some (EIs ErrBudgetExceeded "campaign unavailable")) ;;
  return_if (pol_GlobalMaxConcurrentTransfers policy <? mlen (reservations l) + 1)
    (Some (EIs ErrBudgetExceeded "administrator global transfers")) ;;
  return_if (effectiveLimit (pol_GlobalMaxConcurrentTransfers policy)
               (req_CampaignMaxConcurrentTransfers request) <? campaignActive)
    (Some (EIs ErrBudgetExceeded "campaign transfers")) ;;
  None.

(** One iteration of the loop over the sorted domain keys. *)
Definition reserveDomainBudget (members : gmap string Member) (l : Ledger) (policy : Policy)
    (request : ReservationRequest) (key : string) : option goerror :=
  let value := mget (req_Domains request) key in
  propagate (match pol_DomainBudgets policy !! key with
    | Some unavailableCeiling =>
        let unavailable := {[req_PhysicalID request]}
                           ∪ unavailablePhysicalIDs members l policy key value in
        return_if (unavailableCeiling <? setLen unavailable)
          (Some (EIs ErrBudgetExceeded "administrator domain unavailable")) ;;
        return_if (effectiveLimit unavailableCeiling (mgetZ (req_CampaignLimits request) key)
                   <? activeReservationsForCampaignInDomain l (req_CampaignUID request) key value + 1)
          (Some (EIs ErrBudgetExceeded "campaign domain unavailable")) ;;
        None
    | None => None
    end) ;;
  match pol_DomainTransferBudgets policy !! key with
  | Some transferCeiling =>
      return_if (transferCeiling <? activeReservationsInDomain l key value + 1)
        (Some (EIs ErrBudgetExceeded "administrator domain transfers")) ;;
      return_if (effectiveLimit transferCeiling (mgetZ (req_CampaignTransferLimits request) key)
                 <? activeReservationsForCampaignInDomain l (req_CampaignUID request) key value + 1)
        (Some (EIs ErrBudgetExceeded "campaign domain transfers")) ;;
      None
  | None => None
  end.

Definition domainBudgetKeys (policy : Policy) : list string :=
  sort_Strings (elements (dom (pol_DomainBudgets policy) ∪ dom (pol_DomainTransferBudgets policy))).

(** One iteration of the loop over the request's risk groups. *)
Definition reserveRiskGroupBudget (members : gmap string Member) (l : Ledger) (policy : Policy)
    (request : ReservationRequest) (group : string) : option goerror :=
  match pol_RiskGroupBudgets policy !! group with
  | None => Some (EPlain "target references unknown risk group")
  | Some budget =>
      let unavailable := {[req_PhysicalID request]}
                         ∪ unavailablePhysicalIDsInRiskGroup members l policy group in
      return_if (rgb_MaxUnavailable budget <? setLen unavailable)
        (Some (EIs ErrBudgetExceeded "administrator risk group unavailable")) ;;
      return_if (rgb_MaxConcurrentTransfers budget <? activeReservationsInRiskGroup l group + 1)
        (Some (EIs ErrBudgetExceeded "administrator risk group transfers")) ;;
      None
  end.

Definition freshReservation (request : ReservationRequest) : Reservation :=
  {| rsv_Request := clearCampaignLimits request; rsv_ChildUID := "";
     rsv_State := ReservationReserved; rsv_DrainSessionToken := "";
     rsv_DrainStartedAt := ""; rsv_DrainCompletedAt := "" |}.

(** The insertion and the checks after it, which take it back. *)
Definition reserveCommit `{K8sValidation, UuidLib} (policy : Policy)
    (request : ReservationRequest) : LedgerOp := λ l,
  match led_Reservations l with
  | None => (l, Some (EPanic "assignment to entry in nil map"))
  | Some _ =>
      let l' := put l (req_ID request) (freshReservation request) in
      match validatePersistedLedger l' with
      | Some e => (remove l' (req_ID request), Some e)
      | None =>
          match Encode l' (pol_MaxSerializedBytes policy) with
          | inr e => (remove l' (req_ID request), Some e)
          | inl _ => (l', None)
          end
      end
  end.

Definition Reserve `{K8sValidation, UuidLib} (policy : Policy) (members : list Member)
    (request : ReservationRequest) : LedgerOp := λ l,
  match validateInputs l policy request with
  | Some e => (l, Some e)
  | None =>
  return_if (releaseFenceMatches (led_LastReleaseFence l) (req_ID request)
               (req_PolicyEpoch request) (req_TopologyLockID request))
    (l, Some (EIs ErrStaleControlRevision "topology-lock acquisition was durably released")) ;;
  match reservations l !! req_ID request with
  | Some existing =>
      return_if (sameRequest (rsv_Request existing) request) (l, None) ;;
      (l, Some (EIs ErrAlreadyReserved "reservation ID has different identity"))
  | None =>
  match canonicalizeMembers members with
  | inr e => (l, Some e)
  | inl canonicalMembers =>
  match canonicalMembers !! req_PhysicalID request with
  | None => (l, Some (EIs ErrTargetUnavailable "target identity is absent or changed"))
  | Some target =>
  return_if ((mem_DeviceUID target != req_DeviceUID request)
             || (mem_NodeUID target != req_NodeUID request))
    (l, Some (EIs ErrTargetUnavailable "target identity is absent or changed")) ;;
  match (propagate (reserveTargetChecks l policy target request) ;;
         propagate (reserveGlobalBudgets canonicalMembers l policy request) ;;
         propagate (first_error (reserveDomainBudget canonicalMembers l policy request)
                      (domainBudgetKeys policy)) ;;
         first_error (reserveRiskGroupBudget canonicalMembers l policy request)
           (req_RiskGroups request)) with
  | Some e => (l, Some e)
  | None => reserveCommit policy request l
  end end end end end.

(** ** The reservation state machine *)

Definition BindChild (reservationID childUID : string) : LedgerOp := λ l,
  match reservations l !! reservationID with
  | None => (l, Some (EIs ErrInvalidTransition "reservation or child UID missing"))
  | Some r =>
      return_if (TrimSpace childUID == "")
        (l, Some (EIs ErrInvalidTransition "reservation or child UID missing")) ;;
      return_if ((rsv_ChildUID r == childUID)
                 && ((rsv_State r == ReservationBound) || (rsv_State r == ReservationDraining)
                     || (rsv_State r == ReservationGranted) || (rsv_State r == ReservationRevoked)))
        (l, None) ;;
      return_if ((rsv_State r != ReservationReserved) || (rsv_ChildUID r != ""))
        (l, Some (EIs ErrInvalidTransition "cannot bind child in state")) ;;
      (put l reservationID
         (set_state (set_child r childUID) (rsv_ControlRevision r) ReservationBound), None)
  end.

Definition BeginDrain `{UuidLib} (reservationID ledgerUID childUID sessionToken : string)
    (controlRevision : Z) (startedAt : Time) : LedgerOp := λ l,
  return_if (led_UID l != ledgerUID) (l, Some (EIs ErrLedgerIdentity "")) ;;
  return_if (negb (validDrainSessionToken sessionToken))
    (l, Some (EIs ErrInvalidTransition "drain session token is not a canonical UUIDv4")) ;;
  match canonicalLedgerTime startedAt with
  | None => (l, Some (EIs ErrInvalidTransition "drain start time is invalid"))
  | Some canonicalStart =>
  match reservations l !! reservationID with
  | None => (l, Some (EIs ErrInvalidTransition "reservation is not bound to child"))
  | Some r =>
      return_if ((rsv_ChildUID r == "") || (rsv_ChildUID r != childUID))
        (l, Some (EIs ErrInvalidTransition "reservation is not bound to child")) ;;
      return_if ((rsv_State r == ReservationDraining) && (rsv_DrainSessionToken r == sessionToken)
                 && (rsv_DrainStartedAt r == canonicalStart) && (rsv_DrainCompletedAt r == ""))
        (return_if (controlRevision <? rsv_ControlRevision r)
           (l, Some (EIs ErrStaleControlRevision "")) ;;
         (put l reservationID (set_state r controlRevision (rsv_State r)), None)) ;;
      return_if ((rsv_State r != ReservationBound) || (rsv_DrainSessionToken r != "")
                 || (rsv_DrainStartedAt r != "") || (rsv_DrainCompletedAt r != ""))
        (l, Some (EIs ErrInvalidTransition "reservation is not an unclaimed bound drain candidate")) ;;
      return_if (controlRevision <? rsv_ControlRevision r)
        (l, Some (EIs ErrStaleControlRevision "")) ;;
      (put l reservationID
         (set_drain (set_state r controlRevision ReservationDraining)
            sessionToken canonicalStart (rsv_DrainCompletedAt r)), None)
  end end.

Definition PromoteDrain `{UuidLib} (reservationID ledgerUID childUID sessionToken : string)
    (controlRevision : Z) (completedAt : Time) : LedgerOp := λ l,
  return_if (led_UID l != ledgerUID) (l, Some (EIs ErrLedgerIdentity "")) ;;
  return_if (negb (validDrainSessionToken sessionToken))
    (l, Some (EIs ErrInvalidTransition "drain session token is not a canonical UUIDv4")) ;;
  match canonicalLedgerTime completedAt with
  | None => (l, Some (EIs ErrInvalidTransition "drain completion time is invalid"))
  | Some canonicalCompletion =>
  match reservations l !! reservationID with
  | None => (l, Some (EIs ErrInvalidTransition "reservation is not bound to the drain session"))
  | Some r =>
      return_if ((rsv_ChildUID r == "") || (rsv_ChildUID r != childUID)
                 || (rsv_DrainSessionToken r != sessionToken))
        (l, Some (EIs ErrInvalidTransition "reservation is not bound to the drain session")) ;;
      return_if ((rsv_State r == ReservationGranted)
                 && (rsv_DrainCompletedAt r == canonicalCompletion))
        (return_if (controlRevision <? rsv_ControlRevision r)
           (l, Some (EIs ErrStaleControlRevision "")) ;;
         (put l reservationID (set_state r controlRevision (rsv_State r)), None)) ;;
      return_if ((rsv_State r != ReservationDraining) || (rsv_DrainCompletedAt r != ""))
        (l, Some (EIs ErrInvalidTransition "reservation is not draining")) ;;
      return_if (match parseCanonicalLedgerTime (rsv_DrainStartedAt r) with
                 | None => true
                 | Some startedAt => completedAt <? startedAt
                 end)
        (l, Some (EIs ErrInvalidTransition "drain completion precedes its start")) ;;
      return_if (controlRevision <? rsv_ControlRevision r)
        (l, Some (EIs ErrStaleControlRevision "")) ;;
      (put l reservationID
         (set_drain (set_state r controlRevision ReservationGranted)
            (rsv_DrainSessionToken r) (rsv_DrainStartedAt r) canonicalCompletion), None)
  end end.

(** [reservation.DrainSessionToken != "" || ... || State == Draining] *)
Definition drainClaimed (r : Reservation) : bool :=
  (rsv_DrainSessionToken r != "") || (rsv_DrainStartedAt r != "")
  || (rsv_DrainCompletedAt r != "") || (rsv_State r == ReservationDraining).

Definition Grant (reservationID ledgerUID childUID : string) (controlRevision : Z)
  : LedgerOp := λ l,
  return_if (led_UID l != ledgerUID) (l, Some (EIs ErrLedgerIdentity "")) ;;
  match reservations l !! reservationID with
  | None => (l, Some (EIs ErrInvalidTransition "reservation is not bound to child"))
  | Some r =>
      return_if (drainClaimed r)
        (l, Some (EIs ErrInvalidTransition "drain reservation requires session-bound promotion")) ;;
      return_if ((rsv_State r == ReservationGranted) && (rsv_ChildUID r == childUID))
        (return_if (controlRevision <? rsv_ControlRevision r)
           (l, Some (EIs ErrStaleControlRevision "")) ;;
         (put l reservationID (set_state r controlRevision (rsv_State r)), None)) ;;
      return_if ((rsv_ChildUID r == "") || (rsv_ChildUID r != childUID)
                 || (rsv_State r != ReservationBound))
        (l, Some (EIs ErrInvalidTransition "reservation is not bound to child")) ;;
      return_if (controlRevision <? rsv_ControlRevision r)
        (l, Some (EIs ErrStaleControlRevision "")) ;;
      (put l reservationID (set_state r controlRevision ReservationGranted), None)
  end.

Definition Revoke (reservationID : string) (controlRevision : Z) : LedgerOp := λ l,
  match reservations l !! reservationID with
  | None => (l, Some (EIs ErrInvalidTransition "reservation missing"))
  | Some r =>
      return_if (drainClaimed r)
        (l, Some (EIs ErrInvalidTransition "drain reservation requires session-bound revocation")) ;;
      return_if ((rsv_State r == ReservationRevoked) && (controlRevision == rsv_ControlRevision r))
        (l, None) ;;
      return_if (controlRevision <=? rsv_ControlRevision r)
        (l, Some (EIs ErrStaleControlRevision "")) ;;
      match rsv_State r with
      | ReservationReserved | ReservationBound | ReservationGranted | ReservationRevoked =>
          (put l reservationID (set_state r controlRevision ReservationRevoked), None)
      | _ => (l, Some (EIs ErrInvalidTransition "cannot revoke state"))
      end
  end.

Definition RevokeDrain `{UuidLib} (reservationID ledgerUID childUID sessionToken : string)
    (controlRevision : Z) : LedgerOp := λ l,
  return_if (led_UID l != ledgerUID) (l, Some (EIs ErrLedgerIdentity "")) ;;
  return_if (negb (validDrainSessionToken sessionToken))
    (l, Some (EIs ErrInvalidTransition "drain session token is not a canonical UUIDv4")) ;;
  match reservations l !! reservationID with
  | None => (l, Some (EIs ErrInvalidTransition "reservation is not bound to the drain session"))
  | Some r =>
      return_if ((rsv_ChildUID r != childUID) || (rsv_DrainSessionToken r != sessionToken)
                 || (rsv_DrainStartedAt r == ""))
        (l, Some (EIs ErrInvalidTransition "reservation is not bound to the drain session")) ;;
      return_if ((rsv_State r == ReservationRevoked) && (controlRevision == rsv_ControlRevision r))
        (l, None) ;;
      return_if (controlRevision <? rsv_ControlRevision r)
        (l, Some (EIs ErrStaleControlRevision "")) ;;
      match rsv_State r with
      | ReservationDraining | ReservationGranted | ReservationRevoked =>
          (put l reservationID (set_state r controlRevision ReservationRevoked), None)
      | _ => (l, Some (EIs ErrInvalidTransition "cannot revoke drain state"))
      end
  end.

Definition staleAcquisition (r : Reservation) (policyEpoch : Z) (topologyLockID : string) : bool :=
  (req_PolicyEpoch (rsv_Request r) != policyEpoch)
  || (req_TopologyLockID (rsv_Request r) != topologyLockID).

Definition Settle (reservationID topologyLockID childUID : string) (policyEpoch : Z)
    (outcomeResolved healthGatePassed : bool) : LedgerOp := λ l,
  match reservations l !! reservationID with
  | None =>
      return_if (releaseFenceMatches (led_LastReleaseFence l) reservationID policyEpoch topologyLockID
                 && (fenceToken l != ""))
        (l, Some (EIs ErrInvalidTransition "drain reservation requires session-bound settlement")) ;;
      recordReleaseFence reservationID policyEpoch topologyLockID l
  | Some r =>
      return_if (staleAcquisition r policyEpoch topologyLockID)
        (l, Some (EIs ErrStaleControlRevision "")) ;;
      return_if (rsv_DrainSessionToken r != "")
        (l, Some (EIs ErrInvalidTransition "drain reservation requires session-bound settlement")) ;;
      return_if ((rsv_ChildUID r != childUID) || negb outcomeResolved || negb healthGatePassed)
        (l, Some (EIs ErrInvalidTransition "settlement evidence incomplete")) ;;
      return_if ((rsv_State r != ReservationGranted) && (rsv_State r != ReservationRevoked))
        (l, Some (EIs ErrInvalidTransition "cannot settle state")) ;;
      fenceAndDelete (recordReleaseFence reservationID policyEpoch topologyLockID) reservationID l
  end.

Definition SettleDrainedReservation `{UuidLib}
    (reservationID ledgerUID topologyLockID childUID sessionToken : string) (policyEpoch : Z)
    (outcomeResolved healthGatePassed workloadRecoveryPassed : bool) : LedgerOp := λ l,
  return_if (led_UID l != ledgerUID) (l, Some (EIs ErrLedgerIdentity "")) ;;
  return_if (negb (validDrainSessionToken sessionToken))
    (l, Some (EIs ErrInvalidTransition "drain session token is not a canonical UUIDv4")) ;;
  return_if (negb (validBoundedIdentity childUID 128) || negb outcomeResolved
             || negb healthGatePassed || negb workloadRecoveryPassed)
    (l, Some (EIs ErrInvalidTransition "drain settlement evidence incomplete")) ;;
  let record := recordDrainReleaseFence reservationID policyEpoch topologyLockID childUID sessionToken in
  match reservations l !! reservationID with
  | None => record l
  | Some r =>
      return_if (staleAcquisition r policyEpoch topologyLockID)
        (l, Some (EIs ErrStaleControlRevision "")) ;;
      return_if (rsv_ChildUID r != childUID)
        (l, Some (EIs ErrInvalidTransition "drain settlement evidence incomplete")) ;;
      return_if (rsv_State r == ReservationBound)
        (return_if (hasDrainProvenance r)
           (l, Some (EIs ErrInvalidTransition "bound drain intent carries partial ledger provenance")) ;;
         fenceAndDelete record reservationID l) ;;
      return_if (rsv_DrainSessionToken r != sessionToken)
        (l, Some (EIs ErrInvalidTransition "drain settlement evidence incomplete")) ;;
      match rsv_State r with
      | ReservationDraining | ReservationGranted | ReservationRevoked =>
          fenceAndDelete record reservationID l
      | _ => (l, Some (EIs ErrInvalidTransition "cannot settle drain state"))
      end
  end.

Definition releaseUnclaimed (reservationID topologyLockID childUID : string)
    (controlRevision policyEpoch : Z) : LedgerOp := λ l,
  match reservations l !! reservationID with
  | None =>
      return_if (releaseFenceMatches (led_LastReleaseFence l) reservationID policyEpoch topologyLockID
                 && (fenceToken l != ""))
        (l, Some (EIs ErrInvalidTransition "drain reservation cannot use unclaimed release")) ;;
      recordReleaseFence reservationID policyEpoch topologyLockID l
  | Some r =>
      return_if (staleAcquisition r policyEpoch topologyLockID)
        (l, Some (EIs ErrStaleControlRevision "")) ;;
      return_if (controlRevision <? rsv_ControlRevision r)
        (l, Some (EIs ErrStaleControlRevision "")) ;;
      return_if (rsv_DrainSessionToken r != "")
        (l, Some (EIs ErrInvalidTransition "drain reservation cannot use unclaimed release")) ;;
      match rsv_State r with
      | ReservationReserved =>
          return_if (rsv_ChildUID r != "")
            (l, Some (EIs ErrInvalidTransition "reserved entry has an unexpected child binding")) ;;
          fenceAndDelete (recordReleaseFence reservationID policyEpoch topologyLockID) reservationID l
      | ReservationRevoked =>
          return_if ((TrimSpace childUID == "") || (rsv_ChildUID r != childUID))
            (l, Some (EIs ErrInvalidTransition "reservation is not bound to the proven child")) ;;
          fenceAndDelete (recordReleaseFence reservationID policyEpoch topologyLockID) reservationID l
      | _ => (l, Some (EIs ErrInvalidTransition
                         "cannot release state before an exact unclaimed revocation"))
      end
  end.

Definition ReleaseUnclaimedAtEpoch (reservationID topologyLockID childUID : string)
    (controlRevision policyEpoch : Z) : LedgerOp := λ l,
  return_if (policyEpoch <? 1) (l, Some (EIs ErrStaleControlRevision "")) ;;
  releaseUnclaimed reservationID topologyLockID childUID controlRevision policyEpoch l.

Definition RevokeUnclaimedAtEpoch (reservationID topologyLockID childUID : string)
    (controlRevision policyEpoch : Z) : LedgerOp := λ l,
  return_if (policyEpoch <? 1) (l, Some (EIs ErrStaleControlRevision "")) ;;
  match reservations l !! reservationID with
  | None => (l, Some (EIs ErrInvalidTransition "reservation missing"))
  | Some r =>
      return_if (staleAcquisition r policyEpoch topologyLockID)
        (l, Some (EIs ErrStaleControlRevision "")) ;;
      return_if (rsv_DrainSessionToken r != "")
        (l, Some (EIs ErrInvalidTransition "drain reservation cannot use unclaimed revocation")) ;;
      return_if ((TrimSpace childUID == "") || (rsv_ChildUID r != childUID))
        (l, Some (EIs ErrInvalidTransition "reservation is not bound to the proven child")) ;;
      return_if (controlRevision <? rsv_ControlRevision r)
        (l, Some (EIs ErrStaleControlRevision "")) ;;
      match rsv_State r with
      | ReservationBound | ReservationGranted | ReservationRevoked =>
          (put l reservationID (set_state r controlRevision ReservationRevoked), None)
      | _ => (l, Some (EIs ErrInvalidTransition "cannot revoke unclaimed state"))
      end
  end.

Definition FenceUnboundAcquisition (reservationID : string) (policyEpoch : Z)
    (topologyLockID : string) : LedgerOp := λ l,
  let release :=
    fenceAndDelete (recordReleaseFence reservationID policyEpoch topologyLockID) reservationID in
  match reservations l !! reservationID with
  | Some r =>
      return_if (staleAcquisition r policyEpoch topologyLockID)
        (l, Some (EIs ErrStaleControlRevision "")) ;;
      return_if ((rsv_State r != ReservationReserved) || (rsv_ChildUID r != ""))
        (l, Some (EIs ErrInvalidTransition "topology-lock acquisition is already bound")) ;;
      release l
  | None => release l
  end.
