(* ===== verification/LedgerSpec.v ===== *)
(** * The rollout ledger: what a well-formed ledger is

    The declarative reading of [validatePersistedLedger] ([ledger_wf]) and the
    proof that the validation loop decides it. *)

From S2P Require Import Prelude GoLib GoTime Json Interfaces LedgerData.

(** ** Well-formed records *)

Definition bounded_identity (s : string) (n : Z) : Prop :=
  s ≠ "" ∧ slen s ≤ n ∧ all_bytes printable s = true.

(** How far the drain of a reservation has come, from its three fields. *)
Inductive drain_progress `{UuidLib} (r : Reservation) : Prop :=
  | DrainNone :
      rsv_DrainSessionToken r = "" → rsv_DrainStartedAt r = "" → rsv_DrainCompletedAt r = "" →
      drain_progress r
  | DrainStarted t0 :
      validDrainSessionToken (rsv_DrainSessionToken r) = true →
      parseCanonicalLedgerTime (rsv_DrainStartedAt r) = Some t0 →
      rsv_DrainCompletedAt r = "" → drain_progress r
  | DrainCompleted t0 t1 :
      validDrainSessionToken (rsv_DrainSessionToken r) = true →
      parseCanonicalLedgerTime (rsv_DrainStartedAt r) = Some t0 →
      parseCanonicalLedgerTime (rsv_DrainCompletedAt r) = Some t1 → t0 ≤ t1 →
      drain_progress r.

(** What each state may carry. *)
Definition state_shape (r : Reservation) : Prop :=
  match rsv_State r with
  | ReservationReserved => rsv_ChildUID r = "" ∧ hasDrainProvenance r = false
  | ReservationBound => bounded_identity (rsv_ChildUID r) 128 ∧ hasDrainProvenance r = false
  | ReservationDraining =>
      bounded_identity (rsv_ChildUID r) 128 ∧ hasDrainProvenance r = true
      ∧ rsv_DrainCompletedAt r = ""
  | ReservationGranted =>
      bounded_identity (rsv_ChildUID r) 128
      ∧ (hasDrainProvenance r = true → rsv_DrainCompletedAt r ≠ "")
  | ReservationRevoked => bounded_identity (rsv_ChildUID r) 128
  | ReservationOther _ => False
  end.

Record request_wf `{K8sValidation} (q : ReservationRequest) : Prop := {
  rw_id : bounded_identity (req_ID q) 64;
  rw_campaign : bounded_identity (req_CampaignUID q) 128;
  rw_planhash : bounded_identity (req_PlanHash q) 71 ∧ validSHA256PlanHash (req_PlanHash q) = true;
  rw_policy : bounded_identity (req_PolicyUID q) 128 ∧ bounded_identity (req_PolicyVersion q) 128;
  rw_epoch : 1 ≤ req_PolicyEpoch q;
  rw_lock : bounded_identity (req_TopologyLockID q) 64
            ∧ validTopologyLockID (req_TopologyLockID q) = true;
  rw_physical : bounded_identity (req_PhysicalID q) 128;
  rw_device : bounded_identity (req_DeviceUID q) 128;
  rw_node : bounded_identity (req_NodeUID q) 128;
  rw_childns : bounded_identity (req_ChildNamespace q) 63 ∧ IsDNS1123Label (req_ChildNamespace q) = true;
  rw_childname : bounded_identity (req_ChildName q) 253 ∧ IsDNS1123Subdomain (req_ChildName q) = true;
  rw_domains : 1 ≤ mlen (req_Domains q) ≤ 16;
  rw_domain_entries : ∀ k v, req_Domains q !! k = Some v → validDomainEntry k v = None;
  rw_groups : llen (req_RiskGroups q) ≤ 16
              ∧ (∀ g, g ∈ req_RiskGroups q → IsDNS1123Label g = true)
              ∧ StronglySorted str_lt (req_RiskGroups q);
  rw_revision : req_ControlRevision q ≤ maxInt64;
}.

Record reservation_wf `{K8sValidation, UuidLib} (r : Reservation) : Prop := {
  rsw_request : request_wf (rsv_Request r);
  rsw_drain : drain_progress r;
  rsw_state : state_shape r;
}.

(** ** Well-formed ledgers *)

(** [proj] tells two reservations of the map apart. *)
Definition identifies (proj : Reservation → option string) (m : gmap string Reservation) : Prop :=
  ∀ k1 k2 r1 r2 v, m !! k1 = Some r1 → m !! k2 = Some r2 →
    proj r1 = Some v → proj r2 = Some v → k1 = k2.

Definition physicalOf (r : Reservation) : option string := Some (req_PhysicalID (rsv_Request r)).
Definition deviceOf (r : Reservation) : option string := Some (req_DeviceUID (rsv_Request r)).
Definition nodeOf (r : Reservation) : option string := Some (req_NodeUID (rsv_Request r)).
Definition childOf (r : Reservation) : option string := Some (childKey (rsv_Request r)).
Definition childUIDOf (r : Reservation) : option string :=
  if rsv_ChildUID r != "" then Some (rsv_ChildUID r) else None.

Record entries_wf `{K8sValidation, UuidLib} (m : gmap string Reservation) : Prop := {
  ew_entry : ∀ k r, m !! k = Some r → k ≠ "" ∧ k = req_ID (rsv_Request r) ∧ reservation_wf r;
  ew_physical : identifies physicalOf m;
  ew_device : identifies deviceOf m;
  ew_node : identifies nodeOf m;
  ew_child : identifies childOf m;
  ew_childUID : identifies childUIDOf m;
}.

Definition fence_wf `{UuidLib} (f : ReleaseFence) : Prop :=
  bounded_identity (fence_ReservationID f) 64 ∧ 1 ≤ fence_PolicyEpoch f
  ∧ validTopologyLockID (fence_TopologyLockID f) = true
  ∧ ((fence_DrainSessionToken f = "" ∧ fence_DrainChildUID f = "")
     ∨ (validDrainSessionToken (fence_DrainSessionToken f) = true
        ∧ bounded_identity (fence_DrainChildUID f) 128)).

Record ledger_wf `{K8sValidation, UuidLib} (l : Ledger) : Prop := {
  lw_version : led_Version l = LedgerVersion;
  lw_uid : bounded_identity (led_UID l) 128;
  lw_map : led_Reservations l = Some (reservations l);
  lw_size : mlen (reservations l) ≤ DefaultMaxActiveRecords;
  lw_fence : ∀ f, led_LastReleaseFence l = Some f → fence_wf f;
  lw_entries : entries_wf (reservations l);
}.

(** ** The predicates of the code decide the propositions *)

Lemma validBoundedIdentity_spec s n :
  validBoundedIdentity s n = true ↔ bounded_identity s n.
Proof.
  unfold validBoundedIdentity, bounded_identity. split.
  - intros H. case_match eqn:Hc; [done|].
    apply orb_false_iff in Hc as [[H1 H2]%orb_false_iff _].
    go_bool. by split_and!.
  - intros (Hne & Hlen & Hp). rewrite (TrimSpace_printable s Hp).
    rewrite (bool_decide_eq_false_2 (s = "")), (proj2 (Z.ltb_ge _ _) Hlen) by done.
    by rewrite bool_decide_eq_true_2.
Qed.

Lemma bounded_identity_ne s n : bounded_identity s n → s ≠ "".
Proof. by intros [? _]. Qed.

(** [groups[i-1] >= group] nowhere: strictly sorted. *)
Lemma str_lt_leb a b : str_lt a b ↔ String.leb b a = false.
Proof.
  unfold str_lt, String.ltb, String.leb. rewrite (String.compare_antisym b a).
  destruct (String.compare a b); simpl; split; done.
Qed.

Lemma str_le_lt a b : String.le a b ∧ a ≠ b ↔ str_lt a b.
Proof.
  rewrite str_lt_leb. unfold String.le. split.
  - intros [Hle Hne]. destruct (String.leb b a) eqn:H; [|done].
    destruct Hne. apply String.leb_antisym; [by apply Is_true_true|done].
  - intros H. split.
    + destruct (String.leb_total a b) as [->|H']; [done|congruence].
    + intros ->. assert (String.le b b) as Hb%Is_true_true by done. congruence.
Qed.

#[export] Instance str_lt_trans : Transitive str_lt.
Proof.
  intros a b c. rewrite <- !str_le_lt. intros [Hab Nab] [Hbc Nbc]. split; [by etrans|].
  intros ->. destruct Nab. by apply (anti_symm String.le).
Qed.

#[export] Instance str_lt_irrefl : Irreflexive str_lt.
Proof. intros a [_ H]%str_le_lt. done. Qed.

Lemma unsorted_from_spec prev groups :
  unsorted_from prev groups = false ↔
  StronglySorted str_lt (option_list prev ++ groups).
Proof.
  revert prev. induction groups as [|g groups IH]; intros prev; simpl.
  - destruct prev; simpl; split; try done; intros _; repeat constructor.
  - destruct prev as [p|]; simpl; [|by rewrite IH].
    rewrite orb_false_iff, IH, <- str_lt_leb. simpl. split.
    + intros [Hpg Hs]. constructor; [done|]. constructor; [done|].
      apply StronglySorted_inv in Hs as [_ Hall].
      eapply Forall_impl; [exact Hall|]. simpl. intros x ?. by etrans.
    + intros [Hs Hall]%StronglySorted_inv. split; [|done]. by apply Forall_inv in Hall.
Qed.

Lemma validateRiskGroupNames_spec `{K8sValidation} groups :
  validateRiskGroupNames groups = None ↔
  llen groups ≤ 16 ∧ (∀ g, g ∈ groups → IsDNS1123Label g = true)
  ∧ StronglySorted str_lt groups.
Proof.
  unfold validateRiskGroupNames. split.
  - intros Hv. case_match eqn:H1; [done|]. case_match eqn:H2; [done|].
    case_match eqn:H3; [done|]. go_bool. split_and!; [lia| |by apply unsorted_from_spec in H3].
    rewrite first_error_None in H2. intros g Hg. specialize (H2 g Hg). by case_match.
  - intros (Hl & Hg & Hs). rewrite (proj2 (Z.ltb_ge _ _) Hl).
    rewrite (proj2 (first_error_None _ _)), (proj2 (unsorted_from_spec None groups)); [done..|].
    intros g Hin. by rewrite (Hg g Hin).
Qed.

Lemma parse_empty : parseCanonicalLedgerTime "" = None.
Proof. reflexivity. Qed.

Lemma parse_nonempty s t : parseCanonicalLedgerTime s = Some t → s ≠ "".
Proof. intros H ->. by rewrite parse_empty in H. Qed.

Lemma hasDrainProvenance_false r :
  hasDrainProvenance r = false ↔
  rsv_DrainSessionToken r = "" ∧ rsv_DrainStartedAt r = "" ∧ rsv_DrainCompletedAt r = "".
Proof. unfold hasDrainProvenance. go_bool. tauto. Qed.

Lemma validDrainProvenance_spec `{UuidLib} r :
  validDrainProvenance r = None ↔ drain_progress r.
Proof.
  unfold validDrainProvenance. split.
  - destruct (hasDrainProvenance r) eqn:Hp; simpl.
    2: { intros _. apply hasDrainProvenance_false in Hp as (?&?&?). by apply DrainNone. }
    intros Hv. case_match eqn:Ht; [done|]. apply negb_false_iff in Ht.
    case_match eqn:Hs; [|done]. case_match eqn:Hc.
    + go_bool. eapply DrainStarted; eauto.
    + case_match eqn:He; [|done]. case_match eqn:Hlt; [done|]. go_bool.
      eapply DrainCompleted; eauto.
  - assert (∀ t, parseCanonicalLedgerTime (rsv_DrainStartedAt r) = Some t →
                 hasDrainProvenance r = true) as Hp.
    { intros t Ht%parse_nonempty. unfold hasDrainProvenance.
      by rewrite (bool_decide_eq_false_2 (rsv_DrainStartedAt r = "")), orb_true_r. }
    destruct 1 as [H1 H2 H3|t0 Ht Hs Hc|t0 t1 Ht Hs Hc Hle].
    + by rewrite (proj2 (hasDrainProvenance_false r)).
    + by rewrite (Hp t0 Hs), Ht, Hs, Hc.
    + rewrite (Hp t0 Hs), Ht, Hs, Hc. simpl.
      rewrite bool_decide_eq_false_2 by (by eapply parse_nonempty).
      by rewrite (proj2 (Z.ltb_ge _ _) Hle).
Qed.

Lemma validStateShape_spec r : validStateShape r = None ↔ state_shape r.
Proof.
  unfold validStateShape, state_shape.
  destruct (rsv_State r); go_none; rewrite ?negb_false_iff, ?validBoundedIdentity_spec;
    go_bool; rewrite ?validBoundedIdentity_spec; try tauto; [|done].
  destruct (hasDrainProvenance r), (decide (rsv_DrainCompletedAt r = "")); naive_solver.
Qed.

Lemma boundedFields_spec r :
  (∀ f, f ∈ boundedFields r → validBoundedIdentity f.1 f.2 = true) ↔
  Forall (λ f, bounded_identity f.1 f.2) (boundedFields r).
Proof.
  rewrite Forall_forall. split; intros H f Hf; apply validBoundedIdentity_spec; auto.
Qed.

Lemma validatePersistedReservation_spec `{K8sValidation, UuidLib} r :
  validatePersistedReservation r = None ↔ reservation_wf r.
Proof.
  unfold validatePersistedReservation.
  rewrite !propagate_None, !ret_if_None, !propagate_None, first_error_None, range_check_None.
  rewrite ret_if_None, !negb_false_iff, orb_false_iff, bool_decide_eq_false, !Z.ltb_ge.
  rewrite validateRiskGroupNames_spec, validDrainProvenance_spec, validStateShape_spec.
  setoid_rewrite ret_ok_None. rewrite boundedFields_spec.
  unfold boundedFields. rewrite !Forall_cons. simpl. split.
  - intros ((?&?&?&?&?&?&?&?&?&?&?&_)&?&?&?&?&?&[? ?]&?&?&?&?&?&_).
    split; [split|..]; try done; try tauto; unfold mlen in *; lia.
  - intros [[] ? ?]. unfold mlen in *. split_and!; try done; try tauto; try lia.
Qed.

(** ** The duplicate-identity loop *)

(** The part of the loop that watches one identity. *)
Fixpoint distinct_loop (proj : Reservation → option string) (seen : gmap string string)
    (entries : list (string * Reservation)) : bool :=
  match entries with
  | [] => true
  | (k, r) :: entries =>
      match proj r with
      | None => distinct_loop proj seen entries
      | Some v => negb (reused seen v k) && distinct_loop proj (<[v := k]> seen) entries
      end
  end.

Lemma distinct_loop_spec proj seen entries :
  distinct_loop proj seen entries = true ↔
  (∀ k r v p, (k, r) ∈ entries → proj r = Some v → seen !! v = Some p → p = k) ∧
  (∀ k1 k2 r1 r2 v, (k1, r1) ∈ entries → (k2, r2) ∈ entries →
     proj r1 = Some v → proj r2 = Some v → k1 = k2).
Proof.
  revert seen. induction entries as [|[k r] entries IH]; intros seen; simpl.
  { split; [|done]. intros _. split; intros *; rewrite elem_of_nil; done. }
  destruct (proj r) as [v|] eqn:Hv.
  - rewrite andb_true_iff, IH, negb_true_iff. unfold reused. setoid_rewrite elem_of_cons. split.
    + intros (Hr & H1 & H2). split.
      * intros k' r' v' p [?|Hin] Hv' Hs; simplify_eq.
        { rewrite Hs in Hr. by go_bool. }
        destruct (decide (v = v')) as [->|Hne].
        { assert (k = k') as <- by (apply (H1 k' r' v' k); by simplify_map_eq).
          rewrite Hs in Hr. by go_bool. }
        apply (H1 k' r' v' p); [done|done|by rewrite lookup_insert_ne].
      * intros k1 k2 r1 r2 v' [?|Hin1] [?|Hin2] Hv1 Hv2; simplify_eq; try done.
        -- eapply H1; [done|done|]. by simplify_map_eq.
        -- symmetry. eapply H1; [done|done|]. by simplify_map_eq.
        -- by eapply (H2 k1 k2 r1 r2 v').
    + intros (H1 & H2). split_and!.
      * destruct (seen !! v) as [p|] eqn:Hs; [|done]. go_bool. by apply (H1 k r v p); [left|..].
      * intros k' r' v' p Hin Hv' Hs. destruct (decide (v = v')) as [->|Hne].
        { simplify_map_eq. apply (H2 p k' r r' v'); auto. }
        rewrite lookup_insert_ne in Hs by done. apply (H1 k' r' v' p); auto.
      * intros k1 k2 r1 r2 v' Hin1 Hin2. apply H2; auto.
  - rewrite IH. setoid_rewrite elem_of_cons. naive_solver.
Qed.

Lemma distinct_loop_map proj m :
  distinct_loop proj ∅ (map_to_list m) = true ↔ identifies proj m.
Proof.
  rewrite distinct_loop_spec. unfold identifies. setoid_rewrite elem_of_map_to_list. split.
  - intros [_ H] k1 k2 r1 r2 v ????. by eapply H.
  - intros H. split; [|naive_solver]. intros k r v p _ _ Hs. by rewrite lookup_empty in Hs.
Qed.

Definition entry_wf `{K8sValidation, UuidLib} (kr : string * Reservation) : Prop :=
  kr.1 ≠ "" ∧ kr.1 = req_ID (rsv_Request kr.2) ∧ reservation_wf kr.2.

(** The loop is the conjunction of the per-entry check and the five watches. *)
Lemma validateEntries_split `{K8sValidation, UuidLib} seen entries :
  validateEntries seen entries = None ↔
  (∀ kr, kr ∈ entries → entry_wf kr) ∧
  distinct_loop physicalOf (seen_physicalIDs seen) entries = true ∧
  distinct_loop deviceOf (seen_deviceUIDs seen) entries = true ∧
  distinct_loop nodeOf (seen_nodeUIDs seen) entries = true ∧
  distinct_loop childOf (seen_children seen) entries = true ∧
  distinct_loop childUIDOf (seen_childUIDs seen) entries = true.
Proof.
  revert seen. induction entries as [|[k r] entries IH]; intros seen; simpl.
  { split; [|done]. intros _. split_and!; try done. intros kr. by rewrite elem_of_nil. }
  rewrite !ret_if_None, IH. simpl. setoid_rewrite elem_of_cons.
  assert ((∀ kr, kr = (k, r) ∨ kr ∈ entries → entry_wf kr) ↔
          entry_wf (k, r) ∧ (∀ kr, kr ∈ entries → entry_wf kr)) as ->.
  { split; [intros Hw; split; [apply Hw; by left|intros; apply Hw; by right]|].
    intros [Hk Hw] kr [->|?]; auto. }
  unfold entry_wf at 2. simpl. rewrite <- validatePersistedReservation_spec.
  unfold reuses_identity, childUIDOf.
  rewrite !orb_false_iff, !bool_decide_eq_false, !negb_false_iff, bool_decide_eq_true.
  destruct (bool_decide_reflect (rsv_ChildUID r = "")) as [Hc|Hc]; simpl;
    rewrite !andb_true_iff, !negb_true_iff;
    destruct (validatePersistedReservation r); naive_solver.
Qed.

Lemma validateEntries_spec `{K8sValidation, UuidLib} m :
  validateEntries no_identities (map_to_list m) = None ↔ entries_wf m.
Proof.
  rewrite validateEntries_split. simpl. rewrite !distinct_loop_map. unfold entry_wf. split.
  - intros (He & H1 & H2 & H3 & H4 & H5). split; try done.
    intros k r Hk. by apply (He (k, r)), elem_of_map_to_list.
  - intros [He ?????]. split_and!; try done.
    intros [k r] Hk%elem_of_map_to_list. by apply He.
Qed.

Lemma validFence_spec `{UuidLib, !UuidLibSpec H} f : validFence f = None ↔ fence_wf f.
Proof.
  unfold validFence, fence_wf. go_none. rewrite !orb_false_iff, !negb_false_iff, Z.ltb_ge.
  rewrite validBoundedIdentity_spec. split.
  - intros (((H1 & H2) & H3) & (H4 & H5) & _). split_and!; try done.
    destruct (bool_decide_reflect (fence_DrainSessionToken f = "")),
      (bool_decide_reflect (fence_DrainChildUID f = "")); simplify_eq/=; [by left|right].
    apply orb_false_iff in H5 as [?%negb_false_iff ?%negb_false_iff].
    split; [done|by apply validBoundedIdentity_spec].
  - intros (H1 & H2 & H3 & [[-> ->]|[H4 H5]]); [by split_and!|].
    assert (fence_DrainSessionToken f ≠ "") as Ht.
    { intros Ht. unfold validDrainSessionToken in H4. by rewrite Ht, uuid_Parse_empty in H4. }
    rewrite (bool_decide_eq_false_2 _ Ht).
    rewrite (bool_decide_eq_false_2 (fence_DrainChildUID f = "")) by (by eapply bounded_identity_ne).
    rewrite H4, (proj2 (validBoundedIdentity_spec _ _) H5). by split_and!.
Qed.

Lemma validatePersistedLedger_iff `{K8sValidation, UuidLib, !UuidLibSpec H0} l :
  validatePersistedLedger l = None ↔ ledger_wf l.
Proof.
  unfold validatePersistedLedger. rewrite ret_if_None, orb_false_iff.
  rewrite !negb_false_iff, validBoundedIdentity_spec, bool_decide_eq_true.
  destruct (led_Reservations l) as [m|] eqn:Hm.
  2: { split; [by intros [_ ?]|]. intros []. congruence. }
  assert (reservations l = m) as Hr by (unfold reservations; by rewrite Hm).
  rewrite ret_if_None, propagate_None, validateEntries_spec, Z.ltb_ge. split.
  - intros ((Hv & Hu) & Hs & Hf & He). split; rewrite ?Hr; try done.
    intros f Hf'. rewrite Hf' in Hf. by apply validFence_spec.
  - intros [Hv Hu _ Hs Hf He]. rewrite Hr in *. split_and!; try done.
    destruct (led_LastReleaseFence l); [|done]. by apply validFence_spec, Hf.
Qed.

(** Every rejection wraps [ErrLedgerIdentity]. *)
Lemma validateEntries_error `{K8sValidation, UuidLib} seen entries :
  validateEntries seen entries ≠ None →
  errors_is (validateEntries seen entries) ErrLedgerIdentity = true.
Proof.
  revert seen. induction entries as [|[k r] entries IH]; intros seen; simpl; [done|].
  repeat (case_match; [done|]). apply IH.
Qed.

Lemma validFence_error `{UuidLib} f :
  validFence f ≠ None → errors_is (validFence f) ErrLedgerIdentity = true.
Proof. unfold validFence. repeat (case_match; [done|]). done. Qed.

Lemma validatePersistedLedger_error `{K8sValidation, UuidLib} l :
  validatePersistedLedger l ≠ None →
  errors_is (validatePersistedLedger l) ErrLedgerIdentity = true.
Proof.
  unfold validatePersistedLedger. case_match; [done|]. case_match; [|done]. case_match; [done|].
  destruct (led_LastReleaseFence l) as [f|]; simpl; [|apply validateEntries_error].
  pose proof (validFence_error f) as Hf. destruct (validFence f); [by intros; apply Hf|].
  apply validateEntries_error.
Qed.
