(* ===== verification/LedgerOps.v ===== *)
(** * The rollout ledger: every operation as one step

    The operations of Ledger.v as the constructors of one type, the laws that
    hold for all of them (an error leaves the ledger alone, a step touches one
    reservation, a replayed step changes nothing), and the abstract life cycle
    of a reservation they implement. *)

From S2P Require Import Prelude GoLib GoTime Json Interfaces LedgerData Ledger LedgerSpec.

(** ** Operations as data *)

Inductive ledger_op :=
  | OpReserve (policy : Policy) (members : list Member) (request : ReservationRequest)
  | OpBindChild (id childUID : string)
  | OpBeginDrain (id ledgerUID childUID token : string) (rev : Z) (startedAt : Time)
  | OpPromoteDrain (id ledgerUID childUID token : string) (rev : Z) (completedAt : Time)
  | OpGrant (id ledgerUID childUID : string) (rev : Z)
  | OpRevoke (id : string) (rev : Z)
  | OpRevokeDrain (id ledgerUID childUID token : string) (rev : Z)
  | OpSettle (id lockID childUID : string) (epoch : Z) (outcome health : bool)
  | OpSettleDrained (id ledgerUID lockID childUID token : string) (epoch : Z)
      (outcome health recovery : bool)
  | OpReleaseUnclaimed (id lockID childUID : string) (rev epoch : Z)
  | OpRevokeUnclaimed (id lockID childUID : string) (rev epoch : Z)
  | OpFenceUnbound (id : string) (epoch : Z) (lockID : string).

Definition run_op `{K8sValidation, UuidLib} (op : ledger_op) : LedgerOp :=
  match op with
  | OpReserve policy members request => Reserve policy members request
  | OpBindChild id c => BindChild id c
  | OpBeginDrain id u c t rev at_ => BeginDrain id u c t rev at_
  | OpPromoteDrain id u c t rev at_ => PromoteDrain id u c t rev at_
  | OpGrant id u c rev => Grant id u c rev
  | OpRevoke id rev => Revoke id rev
  | OpRevokeDrain id u c t rev => RevokeDrain id u c t rev
  | OpSettle id lock c ep o h => Settle id lock c ep o h
  | OpSettleDrained id u lock c t ep o h w => SettleDrainedReservation id u lock c t ep o h w
  | OpReleaseUnclaimed id lock c rev ep => ReleaseUnclaimedAtEpoch id lock c rev ep
  | OpRevokeUnclaimed id lock c rev ep => RevokeUnclaimedAtEpoch id lock c rev ep
  | OpFenceUnbound id ep lock => FenceUnboundAcquisition id ep lock
  end.

(** The reservation an operation is about. *)
Definition op_id (op : ledger_op) : string :=
  match op with
  | OpReserve _ _ q => req_ID q
  | OpBindChild id _ | OpBeginDrain id _ _ _ _ _ | OpPromoteDrain id _ _ _ _ _
  | OpGrant id _ _ _ | OpRevoke id _ | OpRevokeDrain id _ _ _ _ | OpSettle id _ _ _ _ _
  | OpSettleDrained id _ _ _ _ _ _ _ _ | OpReleaseUnclaimed id _ _ _ _
  | OpRevokeUnclaimed id _ _ _ _ | OpFenceUnbound id _ _ => id
  end.

(** The control revision an operation writes. *)
Definition op_revision (op : ledger_op) : option Z :=
  match op with
  | OpBeginDrain _ _ _ _ rev _ | OpPromoteDrain _ _ _ _ rev _ | OpGrant _ _ _ rev
  | OpRevoke _ rev | OpRevokeDrain _ _ _ _ rev | OpRevokeUnclaimed _ _ _ rev _ => Some rev
  | _ => None
  end.

(** The policy epoch of the release fence an operation records. *)
Definition op_epoch (op : ledger_op) : option Z :=
  match op with
  | OpSettle _ _ _ ep _ _ | OpSettleDrained _ _ _ _ _ ep _ _ _
  | OpReleaseUnclaimed _ _ _ _ ep | OpFenceUnbound _ ep _ => Some ep
  | _ => None
  end.

(** ** The life cycle of a reservation *)

(** [r'] is [r] with a control revision that did not go back: every identity a
    reservation was admitted with stays. *)
Definition same_identity (r r' : Reservation) : Prop :=
  rsv_Request r' = with_revision (rsv_Request r) (rsv_ControlRevision r')
  ∧ rsv_ControlRevision r ≤ rsv_ControlRevision r'.

Definition same_drain (r r' : Reservation) : Prop :=
  rsv_DrainSessionToken r' = rsv_DrainSessionToken r
  ∧ rsv_DrainStartedAt r' = rsv_DrainStartedAt r
  ∧ rsv_DrainCompletedAt r' = rsv_DrainCompletedAt r.

(** The abstract transitions of a reservation that stays in the ledger, each
    labelled with the operation that may take it. *)
Inductive lifecycle `{UuidLib} (r r' : Reservation) : ledger_op → Prop :=
  | LcRefresh op :
      rsv_State r' = rsv_State r → rsv_ChildUID r' = rsv_ChildUID r → same_drain r r' →
      lifecycle r r' op
  | LcBind id c :
      rsv_State r = ReservationReserved → rsv_State r' = ReservationBound →
      rsv_ChildUID r = "" → rsv_ChildUID r' = c → TrimSpace c ≠ "" → same_drain r r' →
      lifecycle r r' (OpBindChild id c)
  | LcBeginDrain id u c t rev startedAt :
      rsv_State r = ReservationBound → rsv_State r' = ReservationDraining →
      rsv_ChildUID r = c → rsv_ChildUID r' = c → c ≠ "" → hasDrainProvenance r = false →
      rsv_DrainSessionToken r' = t → validDrainSessionToken t = true →
      canonicalLedgerTime startedAt = Some (rsv_DrainStartedAt r') → rsv_DrainCompletedAt r' = "" →
      lifecycle r r' (OpBeginDrain id u c t rev startedAt)
  | LcPromote id u c t rev startedAt completedAt :
      rsv_State r = ReservationDraining → rsv_State r' = ReservationGranted →
      rsv_ChildUID r = c → rsv_ChildUID r' = c → c ≠ "" →
      rsv_DrainSessionToken r = t → rsv_DrainSessionToken r' = t →
      rsv_DrainStartedAt r' = rsv_DrainStartedAt r →
      parseCanonicalLedgerTime (rsv_DrainStartedAt r) = Some startedAt →
      rsv_DrainCompletedAt r = "" →
      canonicalLedgerTime completedAt = Some (rsv_DrainCompletedAt r') →
      startedAt ≤ completedAt →
      lifecycle r r' (OpPromoteDrain id u c t rev completedAt)
  | LcGrant id u c rev :
      rsv_State r = ReservationBound → rsv_State r' = ReservationGranted →
      rsv_ChildUID r = c → rsv_ChildUID r' = c → c ≠ "" → hasDrainProvenance r = false →
      same_drain r r' → lifecycle r r' (OpGrant id u c rev)
  | LcRevoke id rev :
      rsv_State r = ReservationReserved ∨ rsv_State r = ReservationBound
      ∨ rsv_State r = ReservationGranted →
      rsv_State r' = ReservationRevoked → rsv_ChildUID r' = rsv_ChildUID r →
      hasDrainProvenance r = false → rsv_ControlRevision r < rev → same_drain r r' →
      lifecycle r r' (OpRevoke id rev)
  | LcRevokeDrain id u c t rev :
      rsv_State r = ReservationDraining ∨ rsv_State r = ReservationGranted →
      rsv_State r' = ReservationRevoked → rsv_ChildUID r = c → rsv_ChildUID r' = c →
      rsv_DrainSessionToken r = t → rsv_DrainStartedAt r ≠ "" → same_drain r r' →
      lifecycle r r' (OpRevokeDrain id u c t rev)
  | LcRevokeUnclaimed id lock c rev ep :
      rsv_State r = ReservationBound ∨ rsv_State r = ReservationGranted →
      rsv_State r' = ReservationRevoked → rsv_ChildUID r = c → rsv_ChildUID r' = c →
      TrimSpace c ≠ "" → rsv_DrainSessionToken r = "" → same_drain r r' →
      lifecycle r r' (OpRevokeUnclaimed id lock c rev ep).

(** The evidence with which a reservation may leave the ledger. *)
Inductive discharge (id : string) (r : Reservation) (l' : Ledger) : ledger_op → Prop :=
  | DisSettle lock c ep :
      rsv_DrainSessionToken r = "" → rsv_ChildUID r = c →
      rsv_State r = ReservationGranted ∨ rsv_State r = ReservationRevoked →
      discharge id r l' (OpSettle id lock c ep true true)
  | DisSettleDrained u lock c t ep :
      (rsv_DrainSessionToken r = t ∧ rsv_State r ≠ ReservationReserved)
      ∨ (rsv_State r = ReservationBound ∧ hasDrainProvenance r = false) →
      rsv_ChildUID r = c → fenceToken l' = t → fenceChild l' = c → led_UID l' = u →
      discharge id r l' (OpSettleDrained id u lock c t ep true true true)
  | DisUnclaimed lock c rev ep :
      rsv_DrainSessionToken r = "" → rsv_ControlRevision r ≤ rev →
      (rsv_State r = ReservationReserved ∧ rsv_ChildUID r = "")
      ∨ (rsv_State r = ReservationRevoked ∧ rsv_ChildUID r = c) →
      discharge id r l' (OpReleaseUnclaimed id lock c rev ep)
  | DisFence lock ep :
      rsv_State r = ReservationReserved → rsv_ChildUID r = "" →
      discharge id r l' (OpFenceUnbound id ep lock).

(** ** Ledger updates *)

Lemma reservations_put l id r : reservations (put l id r) = <[id := r]> (reservations l).
Proof. done. Qed.

Lemma reservations_remove l id : reservations (remove l id) = delete id (reservations l).
Proof.
  unfold remove, reservations. destruct (led_Reservations l) eqn:Hm; [done|].
  rewrite Hm. simpl. by rewrite delete_empty.
Qed.

Lemma reservations_set_fence l f : reservations (set_fence l f) = reservations l.
Proof. done. Qed.

Lemma remove_put l id r :
  led_Reservations l ≠ None → reservations l !! id = None → remove (put l id r) id = l.
Proof.
  intros Hm Hid. destruct l as [v u m f]. unfold remove, put, set_reservations, reservations in *.
  simpl in *. destruct m as [m|]; [|done]. simpl in *. by rewrite delete_insert_id.
Qed.

Create Rewrite HintDb ledger.
#[export] Hint Rewrite reservations_put reservations_remove reservations_set_fence : ledger.

Lemma with_revision_same q : with_revision q (req_ControlRevision q) = q.
Proof. by destruct q. Qed.

Lemma put_same l id r :
  led_Reservations l ≠ None → reservations l !! id = Some r → put l id r = l.
Proof.
  intros Hm Hid. destruct l as [v u m f]. unfold put, set_reservations, reservations in *.
  simpl in *. destruct m as [m|]; [|done]. simpl in *. by rewrite insert_id.
Qed.

Lemma lookup_not_nil l id r : reservations l !! id = Some r → led_Reservations l ≠ None.
Proof. unfold reservations. by destruct (led_Reservations l). Qed.

(** Unfold an operation and split a hypothesis on its result into its paths. *)
Ltac unfold_op H :=
  unfold BindChild, BeginDrain, PromoteDrain, Grant, Revoke, RevokeDrain, Settle,
    SettleDrainedReservation, ReleaseUnclaimedAtEpoch, releaseUnclaimed,
    RevokeUnclaimedAtEpoch, FenceUnboundAcquisition, fenceAndDelete, recordReleaseFence,
    recordDrainReleaseFence in H.

Ltac split_paths H :=
  repeat match type of H with
  | (_, _) = (_, _) => fail 1
  | context [if ?c then _ else _] => destruct c eqn:?
  | context [match ?c with _ => _ end] => destruct c eqn:?
  end; simplify_eq/=.

(** ** An error leaves the ledger as it was *)

Lemma reserveCommit_error `{K8sValidation, UuidLib} policy request l l' e :
  reservations l !! req_ID request = None →
  reserveCommit policy request l = (l', Some e) → l' = l.
Proof.
  unfold reserveCommit. intros Hid Hr. destruct (led_Reservations l) eqn:Hm; [|by simplify_eq].
  split_paths Hr; apply remove_put; by rewrite ?Hm.
Qed.

Lemma Reserve_error `{K8sValidation, UuidLib} policy members request l l' e :
  Reserve policy members request l = (l', Some e) → l' = l.
Proof.
  unfold Reserve. intros Hr.
  destruct (validateInputs _ _ _); [by simplify_eq|].
  destruct (releaseFenceMatches _ _ _ _); [by simplify_eq|].
  destruct (reservations l !! _) eqn:Hid; [case_match; by simplify_eq|].
  destruct (canonicalizeMembers _); [|by simplify_eq].
  destruct (_ !! req_PhysicalID request); [|by simplify_eq].
  case_match; [by simplify_eq|]. case_match; [by simplify_eq|].
  by eapply reserveCommit_error.
Qed.

Lemma run_op_error `{K8sValidation, UuidLib} op l l' e :
  run_op op l = (l', Some e) → l' = l.
Proof.
  destruct op; simpl; [apply Reserve_error|..]; intros Hr; unfold_op Hr; by split_paths Hr.
Qed.

(** ** The frame of a step *)

(** What a successful [Reserve] found, and what it did. *)
Inductive reserve_result `{K8sValidation, UuidLib} (policy : Policy) (members : list Member)
    (request : ReservationRequest) (l l' : Ledger) : Prop :=
  | ReserveReplay existing :
      reservations l !! req_ID request = Some existing →
      sameRequest (rsv_Request existing) request = true →
      l' = l → reserve_result policy members request l l'
  | ReserveFresh canonical target :
      reservations l !! req_ID request = None →
      led_Reservations l ≠ None →
      canonicalizeMembers members = inl canonical →
      canonical !! req_PhysicalID request = Some target →
      mem_DeviceUID target = req_DeviceUID request →
      mem_NodeUID target = req_NodeUID request →
      reserveTargetChecks l policy target request = None →
      reserveGlobalBudgets canonical l policy request = None →
      (∀ key, key ∈ domainBudgetKeys policy →
         reserveDomainBudget canonical l policy request key = None) →
      (∀ group, group ∈ req_RiskGroups request →
         reserveRiskGroupBudget canonical l policy request group = None) →
      l' = put l (req_ID request) (freshReservation request) →
      validatePersistedLedger l' = None →
      (∃ data, Encode l' (pol_MaxSerializedBytes policy) = inl data) →
      reserve_result policy members request l l'.

Lemma Reserve_success `{K8sValidation, UuidLib} policy members request l l' :
  Reserve policy members request l = (l', None) →
  validateInputs l policy request = None
  ∧ HasReleaseFence l (req_ID request) (req_PolicyEpoch request) (req_TopologyLockID request) = false
  ∧ reserve_result policy members request l l'.
Proof.
  unfold Reserve, HasReleaseFence. intros Hr.
  destruct (validateInputs _ _ _); [done|].
  destruct (releaseFenceMatches _ _ _ _); [done|]. split_and!; [done|done|].
  destruct (reservations l !! _) eqn:Hid.
  { case_match; simplify_eq. by eapply ReserveReplay. }
  destruct (canonicalizeMembers _) eqn:Hc; [|done].
  destruct (_ !! req_PhysicalID request) eqn:Ht; [|done].
  case_match eqn:Hdev; [done|]. case_match eqn:Hchk; [done|]. go_none.
  apply orb_false_iff in Hdev as [?%negb_false_iff%bool_decide_eq_true
                                  ?%negb_false_iff%bool_decide_eq_true].
  unfold reserveCommit in Hr. destruct (led_Reservations l) eqn:Hm; [|done].
  case_match eqn:Hv; [done|]. case_match eqn:He; [|done]. simplify_eq.
  destruct Hchk as (?&?&?&?).
  eapply ReserveFresh; eauto; try done; by rewrite Hm.
Qed.

(** The guards of the two fence recorders admit well-formed fences only. *)
Lemma generic_fence_wf `{UuidLib} id ep lock :
  validBoundedIdentity id 64 = true → 1 ≤ ep → validTopologyLockID lock = true →
  fence_wf {| fence_ReservationID := id; fence_PolicyEpoch := ep; fence_TopologyLockID := lock;
              fence_DrainSessionToken := ""; fence_DrainChildUID := "" |}.
Proof.
  intros. unfold fence_wf. simpl.
  split_and!; [by apply validBoundedIdentity_spec|done..|auto].
Qed.

Lemma drain_fence_wf `{UuidLib} id ep lock c t :
  validBoundedIdentity id 64 = true → 1 ≤ ep → validTopologyLockID lock = true →
  validBoundedIdentity c 128 = true → validDrainSessionToken t = true →
  fence_wf {| fence_ReservationID := id; fence_PolicyEpoch := ep; fence_TopologyLockID := lock;
              fence_DrainSessionToken := t; fence_DrainChildUID := c |}.
Proof.
  intros. unfold fence_wf. simpl.
  split_and!; [by apply validBoundedIdentity_spec|done..|].
  right. split; [done|by apply validBoundedIdentity_spec].
Qed.

(** The shape of every step: the ledger is [l], or the reservation [id] is
    rewritten, or [id] is removed and a well-formed fence recorded. *)
Inductive step_shape `{UuidLib} (op : ledger_op) (l l' : Ledger) : Prop :=
  | StepNone : l' = l → step_shape op l l'
  | StepPut r : l' = put l (op_id op) r → step_shape op l l'
  | StepFence f :
      op_epoch op = Some (fence_PolicyEpoch f) → fence_wf f → l' = set_fence l f →
      step_shape op l l'
  | StepRemove : l' = remove l (op_id op) → step_shape op l l'
  | StepFenceRemove f :
      op_epoch op = Some (fence_PolicyEpoch f) → fence_wf f →
      l' = remove (set_fence l f) (op_id op) → step_shape op l l'.

Lemma run_op_shape `{K8sValidation, UuidLib} op l l' e :
  run_op op l = (l', e) → step_shape op l l'.
Proof.
  destruct e as [e|]; [intros ->%run_op_error; by apply StepNone|].
  destruct op; simpl.
  { intros (_ & _ & [])%Reserve_success; subst; [by apply StepNone|by eapply StepPut]. }
  all: intros Hr; unfold_op Hr; split_paths Hr;
    try first [by apply StepNone|by eapply StepPut|by apply StepRemove].
  all: go_bool; destruct_and?;
    first [eapply StepFenceRemove; [..|done]|eapply StepFence; [..|done]]; [done|];
    first [by apply generic_fence_wf|by apply drain_fence_wf].
Qed.

(** A step leaves the ledger's identity and every other reservation alone. *)
Lemma run_op_frame `{K8sValidation, UuidLib} op l l' e :
  run_op op l = (l', e) →
  led_Version l' = led_Version l ∧ led_UID l' = led_UID l
  ∧ (∀ id, id ≠ op_id op → reservations l' !! id = reservations l !! id).
Proof.
  intros [Hl|r Hl|f _ _ Hl|Hl|f _ _ Hl]%run_op_shape; subst l'; split_and!; try done;
    try (by unfold remove; destruct (led_Reservations _));
    intros id Hid; autorewrite with ledger; by simplify_map_eq.
Qed.

(** ** Every step is a transition of the life cycle *)

Lemma same_identity_refl r : same_identity r r.
Proof. split; [by rewrite with_revision_same|lia]. Qed.

Lemma lifecycle_refl `{UuidLib} r op : lifecycle r r op.
Proof. by apply LcRefresh. Qed.

#[export] Hint Resolve same_identity_refl lifecycle_refl : go.

Lemma run_op_lifecycle `{K8sValidation, UuidLib} op l l' id r r' :
  run_op op l = (l', None) →
  reservations l !! id = Some r → reservations l' !! id = Some r' →
  same_identity r r' ∧ lifecycle r r' op
  ∧ (rsv_ControlRevision r' = rsv_ControlRevision r ∨ op_revision op = Some (rsv_ControlRevision r')).
Proof.
  intros Hr Hid Hid'. destruct (decide (id = op_id op)) as [->|Hne].
  2: { apply run_op_frame in Hr as (_ & _ & Hf). rewrite Hf in Hid' by done.
       simplify_eq. auto with go. }
  destruct op; simpl in *.
  { apply Reserve_success in Hr as (_ & _ & []); [subst|congruence].
    simplify_eq. auto with go. }
  all: unfold_op Hr; split_paths Hr; autorewrite with ledger in *; simplify_map_eq;
    auto with go.
  all: go_bool; destruct_and?; split_and!;
    [by split; [done|unfold rsv_ControlRevision in *; simpl; lia]| |auto].
  all: unfold drainClaimed, hasDrainProvenance in *; go_bool; destruct_and?; subst.
  all: try match goal with H : (match ?p with _ => _ end) = false |- _ =>
             destruct p eqn:?; [go_bool|done] end.
  all: first
    [ by apply LcRefresh
    | by apply LcBind
    | by eapply LcBeginDrain; eauto; apply hasDrainProvenance_false
    | by eapply LcPromote; eauto; lia
    | by apply LcGrant; try done; apply hasDrainProvenance_false
    | by apply LcRevoke; try done; [tauto|apply hasDrainProvenance_false]
    | by apply LcRevokeDrain; try done; tauto
    | by apply LcRevokeUnclaimed; try done; tauto ].
Qed.

(** Drain provenance, once recorded, is never rewritten or cleared. *)
Lemma lifecycle_provenance `{UuidLib} r r' op :
  lifecycle r r' op → hasDrainProvenance r = true →
  rsv_DrainSessionToken r' = rsv_DrainSessionToken r
  ∧ rsv_DrainStartedAt r' = rsv_DrainStartedAt r
  ∧ (rsv_DrainCompletedAt r ≠ "" → rsv_DrainCompletedAt r' = rsv_DrainCompletedAt r)
  ∧ (rsv_ChildUID r ≠ "" → rsv_ChildUID r' = rsv_ChildUID r).
Proof.
  intros []; unfold same_drain in *; intros Hp; destruct_and?; split_and!; intros; congruence.
Qed.

(** ** How reservations enter and leave *)

Lemma run_op_creates `{K8sValidation, UuidLib} op l l' e id r :
  run_op op l = (l', e) → reservations l !! id = None → reservations l' !! id = Some r →
  ∃ policy members request, op = OpReserve policy members request
    ∧ id = req_ID request ∧ r = freshReservation request.
Proof.
  intros Hr Hid Hid'. destruct e as [e|].
  { apply run_op_error in Hr as ->. congruence. }
  destruct (decide (id = op_id op)) as [->|Hne].
  2: { apply run_op_frame in Hr as (_ & _ & Hf). rewrite Hf in Hid' by done. congruence. }
  destruct op; simpl in *.
  { apply Reserve_success in Hr as (_ & _ & []); subst; [congruence|].
    autorewrite with ledger in *. simplify_map_eq. eauto 10. }
  all: unfold_op Hr; split_paths Hr; autorewrite with ledger in *; by simplify_map_eq.
Qed.

Lemma fence_set_fence l f id ep lock :
  fence_ReservationID f = id → fence_PolicyEpoch f = ep → fence_TopologyLockID f = lock →
  HasReleaseFence (set_fence l f) id ep lock = true.
Proof.
  intros <- <- <-. unfold HasReleaseFence. simpl. by rewrite !bool_decide_eq_true_2.
Qed.

Lemma fence_remove l id : led_LastReleaseFence (remove l id) = led_LastReleaseFence l.
Proof. unfold remove. by destruct (led_Reservations l). Qed.

Lemma HasReleaseFence_remove l id0 id ep lock :
  HasReleaseFence (remove l id0) id ep lock = HasReleaseFence l id ep lock.
Proof. unfold HasReleaseFence. by rewrite fence_remove. Qed.

Lemma uid_remove l id : led_UID (remove l id) = led_UID l.
Proof. unfold remove. by destruct (led_Reservations l). Qed.

(** A reservation leaves the ledger only on the evidence of [discharge], and the
    release fence of its exact acquisition is recorded in the same step. *)
Lemma run_op_discharges `{K8sValidation, UuidLib} op l l' id r :
  run_op op l = (l', None) → reservations l !! id = Some r → reservations l' !! id = None →
  discharge id r l' op
  ∧ HasReleaseFence l' id (req_PolicyEpoch (rsv_Request r)) (req_TopologyLockID (rsv_Request r))
    = true.
Proof.
  intros Hr Hid Hid'. destruct (decide (id = op_id op)) as [->|Hne].
  2: { apply run_op_frame in Hr as (_ & _ & Hf). rewrite Hf in Hid' by done. congruence. }
  destruct op; simpl in *.
  { apply Reserve_success in Hr as (_ & _ & []); subst; congruence. }
  all: unfold_op Hr; split_paths Hr; autorewrite with ledger in *; simplify_map_eq.
  all: unfold staleAcquisition in *; go_bool; destruct_and?; subst.
  all: split; [|rewrite HasReleaseFence_remove; first [done|by apply fence_set_fence]].
  all: first [apply DisSettle|apply DisSettleDrained|apply DisUnclaimed|apply DisFence].
  all: unfold fenceToken, fenceChild in *; rewrite ?fence_remove, ?uid_remove; simpl.
  all: first [done|tauto|left; split; congruence].
Qed.
