(* ===== verification/LedgerReplay.v ===== *)
(** * The rollout ledger: replayed steps

    A controller that crashed after its write repeats the call: a step that
    succeeded, repeated on the ledger it left, succeeds again and changes
    nothing. *)

From S2P Require Import Prelude GoLib GoTime Json Interfaces LedgerData Ledger LedgerSpec.
From S2P Require Import LedgerOps.

Lemma set_state_same r st : rsv_State r = st → set_state r (rsv_ControlRevision r) st = r.
Proof. intros <-. unfold set_state, rsv_ControlRevision. rewrite with_revision_same. by destruct r. Qed.

Lemma put_put l id r r' : put (put l id r) id r' = put l id r'.
Proof.
  unfold put, set_reservations, reservations. simpl. by rewrite insert_insert_eq.
Qed.

Lemma remove_remove l id : remove (remove l id) id = remove l id.
Proof.
  unfold remove. destruct (led_Reservations l) eqn:Hm; simpl; [|by rewrite Hm].
  by rewrite delete_delete_eq.
Qed.

Lemma set_fence_same l f : led_LastReleaseFence l = Some f → set_fence l f = l.
Proof. intros Hf. destruct l. simpl in *. unfold set_fence. simpl. by rewrite Hf. Qed.

Lemma remove_absent l id : reservations l !! id = None → remove l id = l.
Proof.
  unfold remove, reservations, set_reservations. destruct l as [v u [m|] f]; simpl; [|done].
  intros. by rewrite delete_id.
Qed.

Lemma clearCampaignLimits_idem q : clearCampaignLimits (clearCampaignLimits q) = clearCampaignLimits q.
Proof. done. Qed.

Lemma sameRequest_fresh q : sameRequest (rsv_Request (freshReservation q)) q = true.
Proof. unfold sameRequest. simpl. rewrite clearCampaignLimits_idem. by apply bool_decide_eq_true_2. Qed.

Lemma Reserve_replay `{K8sValidation, UuidLib} policy members request l l' :
  Reserve policy members request l = (l', None) →
  Reserve policy members request l' = (l', None).
Proof.
  intros Hr. destruct (Reserve_success _ _ _ _ _ Hr) as (Hv & Hf & [|]); subst; [done|].
  unfold Reserve. change (validateInputs (put _ _ _) ?p ?q) with (validateInputs l p q).
  unfold HasReleaseFence in Hf. simpl. rewrite Hv, Hf. rewrite reservations_put, lookup_insert_eq.
  by rewrite sameRequest_fresh.
Qed.

(** Rewrite with the tests and lookups whose result is known. *)
Ltac known :=
  repeat match goal with
  | H : ?c = true |- context [?c] => rewrite H
  | H : ?c = false |- context [?c] => rewrite H
  | H : ?c = Some _ |- context [?c] => rewrite H
  | H : ?c = None |- context [?c] => rewrite H
  end; simpl.

(** Close a path whose tests contradict each other. *)
Ltac contra :=
  exfalso; unfold drainClaimed, rsv_ControlRevision, staleAcquisition in *; simpl in *;
  go_bool; destruct_and?; destruct_or?; first [lia|congruence|tauto].

Lemma recordReleaseFence_ok id ep lock l l' :
  recordReleaseFence id ep lock l = (l', None) →
  reservations l' = reservations l ∧ fenceToken l' = ""
  ∧ (∀ l2, led_LastReleaseFence l2 = led_LastReleaseFence l' →
       recordReleaseFence id ep lock l2 = (l2, None)).
Proof.
  unfold recordReleaseFence. intros Hr. case_match eqn:Hg; [done|]. case_match; [done|].
  simplify_eq. split_and!; [done..|]. intros l2 Hf. unfold fenceToken. rewrite Hf. simpl.
  rewrite andb_false_r. by rewrite set_fence_same.
Qed.

Lemma recordDrainReleaseFence_ok `{UuidLib} id ep lock c t l l' :
  recordDrainReleaseFence id ep lock c t l = (l', None) →
  reservations l' = reservations l
  ∧ (∀ l2, led_LastReleaseFence l2 = led_LastReleaseFence l' →
       recordDrainReleaseFence id ep lock c t l2 = (l2, None)).
Proof.
  unfold recordDrainReleaseFence. intros Hr. case_match eqn:Hg; [done|].
  assert (fenceToken l' = t ∧ fenceChild l' = c
          ∧ releaseFenceMatches (led_LastReleaseFence l') id ep lock = true
          ∧ reservations l' = reservations l) as (Ht & Hc & Hm & ?).
  { case_match eqn:Hm; [case_match eqn:Hc; [|done]|]; simplify_eq.
    - go_bool. by destruct Hc.
    - split_and!; [done..| |done]. simpl. by rewrite !bool_decide_eq_true_2. }
  split; [done|]. intros l2 Hf. unfold fenceToken, fenceChild in *. rewrite Hf, Ht, Hc, Hm.
  by rewrite !bool_decide_eq_true_2.
Qed.

Lemma fenceAndDelete_ok record id l l' :
  fenceAndDelete record id l = (l', None) → ∃ l1, record l = (l1, None) ∧ l' = remove l1 id.
Proof. unfold fenceAndDelete. intros Hr. split_paths Hr. eauto. Qed.

(** After a release, a repeated release finds nothing to remove and the same
    fence to record. *)
Lemma generic_release_replay id ep lock l l1 l' :
  recordReleaseFence id ep lock l = (l1, None) →
  (l' = l1 ∧ reservations l !! id = None ∨ l' = remove l1 id) →
  reservations l' !! id = None ∧ fenceToken l' = ""
  ∧ recordReleaseFence id ep lock l' = (l', None).
Proof.
  intros (Hr & Ht & Hrep)%recordReleaseFence_ok [[-> Hid]| ->].
  - rewrite Hr. auto.
  - rewrite reservations_remove, lookup_delete_eq. unfold fenceToken in *.
    rewrite fence_remove. auto using fence_remove.
Qed.

Lemma Settle_replay id lock c ep o h l l' :
  Settle id lock c ep o h l = (l', None) → Settle id lock c ep o h l' = (l', None).
Proof.
  intros Hr.
  assert (∃ l1, recordReleaseFence id ep lock l = (l1, None)
    ∧ (l' = l1 ∧ reservations l !! id = None ∨ l' = remove l1 id)) as (l1 & Hf & Hl').
  { unfold Settle in Hr. destruct (reservations l !! id) eqn:Hid.
    - repeat (case_match; [done|]). apply fenceAndDelete_ok in Hr as (l1 & ? & ?). eauto.
    - case_match; [done|]. eauto. }
  destruct (generic_release_replay _ _ _ _ _ _ Hf Hl') as (Hid & Ht & Hrec).
  unfold Settle. rewrite Hid, Ht, andb_false_r. done.
Qed.

Lemma releaseUnclaimed_replay id lock c rev ep l l' :
  releaseUnclaimed id lock c rev ep l = (l', None) →
  releaseUnclaimed id lock c rev ep l' = (l', None).
Proof.
  intros Hr.
  assert (∃ l1, recordReleaseFence id ep lock l = (l1, None)
    ∧ (l' = l1 ∧ reservations l !! id = None ∨ l' = remove l1 id)) as (l1 & Hf & Hl').
  { unfold releaseUnclaimed in Hr. destruct (reservations l !! id) as [r|] eqn:Hid.
    - do 3 (case_match; [done|]). destruct (rsv_State r); try done;
        (case_match; [done|]); apply fenceAndDelete_ok in Hr as (l1 & ? & ?); eauto.
    - case_match; [done|]. eauto. }
  destruct (generic_release_replay _ _ _ _ _ _ Hf Hl') as (Hid & Ht & Hrec).
  unfold releaseUnclaimed. rewrite Hid, Ht, andb_false_r. done.
Qed.

Lemma FenceUnbound_replay id lock ep l l' :
  FenceUnboundAcquisition id ep lock l = (l', None) →
  FenceUnboundAcquisition id ep lock l' = (l', None).
Proof.
  intros Hr.
  assert (∃ l1, recordReleaseFence id ep lock l = (l1, None) ∧ l' = remove l1 id)
    as (l1 & Hf & Hl').
  { unfold FenceUnboundAcquisition in Hr. destruct (reservations l !! id) eqn:Hid;
      [do 2 (case_match; [done|])|]; by apply fenceAndDelete_ok. }
  destruct (generic_release_replay _ _ _ _ _ _ Hf (or_intror Hl')) as (Hid & Ht & Hrec).
  unfold FenceUnboundAcquisition, fenceAndDelete. rewrite Hid, Hrec.
  by rewrite remove_absent.
Qed.

Lemma SettleDrained_replay `{K8sValidation, UuidLib} id u lock c t ep o h w l l' :
  SettleDrainedReservation id u lock c t ep o h w l = (l', None) →
  SettleDrainedReservation id u lock c t ep o h w l' = (l', None).
Proof.
  intros Hr.
  assert (∃ l1, recordDrainReleaseFence id ep lock c t l = (l1, None)
    ∧ (l' = l1 ∧ reservations l !! id = None ∨ l' = remove l1 id)) as (l1 & Hf & Hl').
  { unfold SettleDrainedReservation in Hr. do 3 (case_match; [done|]).
    destruct (reservations l !! id) as [r|] eqn:Hid; [|eauto].
    do 2 (case_match; [done|]). case_match; [case_match; [done|]|].
    - apply fenceAndDelete_ok in Hr as (l1 & ? & ?). eauto.
    - case_match; [done|]. destruct (rsv_State r); try done;
        apply fenceAndDelete_ok in Hr as (l1 & ? & ?); eauto. }
  destruct (recordDrainReleaseFence_ok _ _ _ _ _ _ _ Hf) as (Hres & Hrep).
  assert (reservations l' !! id = None ∧ led_LastReleaseFence l' = led_LastReleaseFence l1)
    as [Hid Hfl].
  { destruct Hl' as [[-> ?]| ->]; [by rewrite Hres|].
    by rewrite reservations_remove, lookup_delete_eq, fence_remove. }
  assert (led_UID l' = led_UID l) as Hu.
  { by apply (run_op_frame (OpSettleDrained id u lock c t ep o h w)) in Hr as (_ & ? & _). }
  unfold SettleDrainedReservation in *. rewrite Hu. do 3 (case_match; [done|]).
  rewrite Hid. auto.
Qed.

Lemma run_op_replay `{K8sValidation, UuidLib} op l l' :
  run_op op l = (l', None) → run_op op l' = (l', None).
Proof.
  destruct op; simpl; [apply Reserve_replay|..|apply FenceUnbound_replay]; intros Hr.
  all: try by apply Settle_replay in Hr.
  all: try by apply SettleDrained_replay in Hr.
  all: try by unfold ReleaseUnclaimedAtEpoch in *; case_match; [|apply releaseUnclaimed_replay in Hr].
  all: unfold_op Hr; split_paths Hr.
  all: unfold BindChild, BeginDrain, PromoteDrain, Grant, Revoke, RevokeDrain,
    RevokeUnclaimedAtEpoch.
  all: autorewrite with ledger; rewrite ?lookup_insert_eq; known; try done.
  all: repeat (case_match; try (by contra)); rewrite ?put_put; done.
Qed.
