(* ===== verification/LedgerTotal.v ===== *)
(** * The rollout ledger: no operation panics

    The only run-time panic of the ledger operations is the insertion into a nil
    map in [Reserve]; every other path returns an error value.  A ledger that
    passed [validatePersistedLedger] has a map. *)

From S2P Require Import Prelude GoLib GoTime Json Interfaces LedgerData Ledger LedgerSpec.
From S2P Require Import LedgerOps.

Lemma panics_first_error {A} (f : A → option goerror) l :
  (∀ x, panics (f x) = false) → panics (first_error f l) = false.
Proof.
  intros Hf. induction l as [|x l IH]; simpl; [done|]. specialize (Hf x). by destruct (f x).
Qed.

Lemma panics_propagate v k :
  panics v = false → panics k = false →
  panics (match v with Some e => Some e | None => k end) = false.
Proof. by destruct v. Qed.

Lemma panics_if (c : bool) (a b : option goerror) :
  panics a = false → panics b = false → panics (if c then a else b) = false.
Proof. by destruct c. Qed.

Create HintDb no_panic.
#[export] Hint Resolve panics_first_error panics_propagate panics_if : no_panic.
#[export] Hint Extern 1 (panics (Some _) = false) => reflexivity : no_panic.
#[export] Hint Extern 1 (panics None = false) => reflexivity : no_panic.

(** Walk a body of guards and loops none of whose errors is a panic. *)
Ltac no_panic :=
  intros; unfold range_check;
  repeat first [ reflexivity | assumption
               | apply panics_if | apply panics_propagate
               | apply panics_first_error; intros
               | match goal with |- context [match ?x with _ => _ end] => destruct x end ].

Lemma panics_validateRiskGroupNames `{K8sValidation} groups :
  panics (validateRiskGroupNames groups) = false.
Proof. unfold validateRiskGroupNames. no_panic. Qed.

Lemma panics_validateInputs `{K8sValidation} l policy q : panics (validateInputs l policy q) = false.
Proof.
  unfold validateInputs. pose proof (panics_validateRiskGroupNames (req_RiskGroups q)). no_panic.
Qed.

Lemma panics_validatePersistedLedger `{K8sValidation, UuidLib} l :
  panics (validatePersistedLedger l) = false.
Proof.
  destruct (decide (validatePersistedLedger l = None)) as [->|Hne]; [done|].
  apply validatePersistedLedger_error in Hne. by destruct (validatePersistedLedger l) as [[]|].
Qed.

Lemma panics_canonicalizeLoop `{K8sValidation} out members e :
  canonicalizeLoop out members = inr e → panics (Some e) = false.
Proof.
  revert out. induction members as [|m members IH]; intros out; simpl; [done|]. intros Hc.
  pose proof (panics_validateRiskGroupNames (mem_RiskGroups m)) as Hg.
  case_match; [by simplify_eq|]. destruct (validateRiskGroupNames _); [by simplify_eq|].
  case_match; [case_match; [by simplify_eq|]|]; eauto.
Qed.

Lemma panics_budgets cm l policy q target key group :
  panics (reserveTargetChecks l policy target q) = false
  ∧ panics (reserveGlobalBudgets cm l policy q) = false
  ∧ panics (reserveDomainBudget cm l policy q key) = false
  ∧ panics (reserveRiskGroupBudget cm l policy q group) = false.
Proof.
  unfold reserveTargetChecks, reserveGlobalBudgets, reserveDomainBudget, reserveRiskGroupBudget.
  split_and!; cbv zeta; no_panic.
Qed.

Lemma Reserve_panics `{K8sValidation, UuidLib} policy members q l :
  led_Reservations l ≠ None → panics (Reserve policy members q l).2 = false.
Proof.
  intros Hm. unfold Reserve. pose proof (panics_validateInputs l policy q).
  destruct (validateInputs l policy q); [done|]. case_match; [done|]. case_match; [by case_match|].
  destruct (canonicalizeMembers members) as [cm|e] eqn:Hc; [|by eapply panics_canonicalizeLoop].
  case_match; [|done]. case_match; [done|].
  match goal with |- context [match ?v with Some e => (l, Some e) | None => _ end] =>
    assert (panics v = false) as Hv; [|destruct v; [done|]] end.
  { pose proof (panics_budgets cm l policy q) as Hb.
    repeat apply panics_propagate; try apply panics_first_error; intros;
      first [apply (Hb m "" "")|eapply (Hb m _ "")|eapply (Hb m "" _)]. }
  unfold reserveCommit. destruct (led_Reservations l); [|done].
  pose proof (panics_validatePersistedLedger (put l (req_ID q) (freshReservation q))).
  destruct (validatePersistedLedger _); [done|]. destruct (Encode _ _) as [data|e] eqn:He; [done|].
  unfold Encode in He. repeat case_match; by simplify_eq.
Qed.

Lemma run_op_panics `{K8sValidation, UuidLib} op l :
  led_Reservations l ≠ None → panics (run_op op l).2 = false.
Proof.
  intros Hm. destruct op; simpl; [by apply Reserve_panics|..];
    unfold BindChild, BeginDrain, PromoteDrain, Grant, Revoke, RevokeDrain, Settle,
    SettleDrainedReservation, ReleaseUnclaimedAtEpoch, releaseUnclaimed,
    RevokeUnclaimedAtEpoch, FenceUnboundAcquisition, fenceAndDelete, recordReleaseFence,
    recordDrainReleaseFence; by repeat case_match; simplify_eq.
Qed.
