(* ===== verification/LedgerAdmission.v ===== *)
(** * The rollout ledger: what an admission guarantees

    The binary search of [containsSorted], the conservative merge of duplicate
    observations, and the budgets that hold in the ledger a successful [Reserve]
    leaves. *)

From S2P Require Import Prelude GoLib GoTime Json Interfaces LedgerData Ledger LedgerSpec.
From S2P Require Import LedgerOps.

(** ** Binary search *)

Lemma StronglySorted_lookup_lt (l : list string) i j x y :
  StronglySorted str_lt l → l !! i = Some x → l !! j = Some y → (i < j)%nat → str_lt x y.
Proof.
  intros Hs Hi Hj Hij. rewrite <- (take_drop j l) in Hs.
  eapply StronglySorted_app_1_elem_of; [exact Hs|..].
  - apply (list_elem_of_lookup_2 _ i). by rewrite lookup_take_lt.
  - apply (list_elem_of_lookup_2 _ 0%nat). by rewrite lookup_drop, Nat.add_0_r.
Qed.

(** [values[i] >= value], the predicate [sort.SearchStrings] searches with. *)
Lemma search_predicate_monotone values value a b :
  StronglySorted str_lt values → (a ≤ b)%nat → (b < length values)%nat →
  (match values !! a with Some v => String.leb value v | None => true end) = true →
  (match values !! b with Some v => String.leb value v | None => true end) = true.
Proof.
  intros Hs Hab Hb. destruct (decide (a = b)) as [->|Hne]; [done|].
  destruct (lookup_lt_is_Some_2 values b Hb) as [y Hy].
  destruct (lookup_lt_is_Some_2 values a) as [x Hx]; [lia|]. rewrite Hx, Hy. intros Hle.
  destruct (String.leb value y) eqn:Hv; [done|]. apply str_lt_leb in Hv.
  assert (str_lt x y) as Hxy by (eapply StronglySorted_lookup_lt; eauto; lia).
  assert (str_lt x value) as Hlt%str_lt_leb by (by etrans). congruence.
Qed.

Lemma containsSorted_iff values value :
  StronglySorted str_lt values → containsSorted values value = true ↔ value ∈ values.
Proof.
  intros Hs. unfold containsSorted. split.
  { case_match eqn:Hl; [|done]. intros ->%bool_decide_eq_true. by eapply list_elem_of_lookup_2. }
  intros [k Hk]%list_elem_of_lookup_1. pose proof (lookup_lt_Some _ _ _ Hk) as Hlen.
  unfold sort_SearchStrings, sort_Search.
  edestruct (search_loop_spec (length values)
    (λ i, match values !! i with Some v => String.leb value v | None => true end) 0
    (length values)) as (Hr & Hlo & Hhi); [lia|lia| |].
  { intros a b _ Hab Hb. by apply search_predicate_monotone. }
  set (r := search_loop _ _ _ _) in *.
  assert (String.leb value value = true) as Hrefl.
  { destruct (String.leb_total value value); done. }
  destruct (decide (r < k)%nat) as [Hlt|Hge].
  - destruct (lookup_lt_is_Some_2 values r) as [x Hx]; [lia|].
    assert (str_lt x value) as Hxv%str_lt_leb by (by eapply StronglySorted_lookup_lt).
    specialize (Hhi r). rewrite Hx in Hhi. rewrite Hhi in Hxv by lia. done.
  - destruct (decide (k < r)%nat) as [Hlt|Hge'].
    + specialize (Hlo k). rewrite Hk in Hlo. rewrite Hlo in Hrefl by lia. done.
    + replace r with k by lia. rewrite Hk. by apply bool_decide_eq_true_2.
Qed.

(** ** Conservative merge of duplicate observations *)

Lemma mergeMember_unavailable policy previous member :
  unavailable (mergeMember previous member) policy
  = unavailable previous policy || unavailable member policy.
Proof.
  unfold unavailable, mergeMember. simpl.
  destruct (mem_HealthKnown previous), (mem_HealthKnown member), (mem_Healthy previous),
    (mem_Healthy member), (mem_Maintenance previous), (mem_Maintenance member); simpl;
    rewrite ?orb_true_r; try done.
  destruct (pol_RequiredHealthFreshBy policy != 0); simpl; [|done].
  destruct (Z.ltb_spec (mem_HealthObserved member) (mem_HealthObserved previous)),
    (Z.ltb_spec (mem_HealthObserved previous) (pol_RequiredHealthFreshBy policy)),
    (Z.ltb_spec (mem_HealthObserved member) (pol_RequiredHealthFreshBy policy)); simpl; lia || done.
Qed.

(** Some observation of physical device [id] among [members] is unavailable. *)
Definition someUnavailable (policy : Policy) (members : list Member) (id : string) : bool :=
  existsb (λ m, (mem_PhysicalID m == id) && unavailable m policy) members.

Definition observed (members : list Member) (id : string) : bool :=
  existsb (λ m, mem_PhysicalID m == id) members.

Lemma canonicalizeLoop_unavailable `{K8sValidation} policy out members result id :
  canonicalizeLoop out members = inl result →
  match result !! id with
  | Some m =>
      unavailable m policy =
        match out !! id with Some m0 => unavailable m0 policy | None => false end
        || someUnavailable policy members id
      ∧ (out !! id = None → observed members id = true)
  | None => out !! id = None ∧ observed members id = false
  end.
Proof.
  revert out. induction members as [|member members IH]; intros out; simpl.
  { intros ?; simplify_eq. destruct (result !! id); [|done]. by rewrite orb_false_r. }
  intros Hl. repeat (case_match; [done|]). case_match eqn:Hp; [case_match; [done|]|];
    specialize (IH _ Hl); destruct (result !! id); unfold someUnavailable, observed in *; simpl;
    destruct (decide (mem_PhysicalID member = id)) as [<-|Hne]; rewrite ?lookup_insert_eq in IH.
  all: rewrite ?(lookup_insert_ne out) in IH by done.
  all: rewrite ?(bool_decide_eq_true_2 (mem_PhysicalID member = mem_PhysicalID member)) by done.
  all: rewrite ?(bool_decide_eq_false_2 (mem_PhysicalID member = id)) by done.
  all: simpl; rewrite ?Hp, ?mergeMember_unavailable in *; try done.
  all: destruct IH as [IH1 IH2]; rewrite ?IH1; simpl; rewrite ?orb_assoc; split; auto; done.
Qed.

(** ** Counting after the insertion *)

Lemma reservedIDs_insert P m id r :
  m !! id = None →
  reservedIDs P (<[id := r]> m)
  = (if P r then {[req_PhysicalID (rsv_Request r)]} else ∅) ∪ reservedIDs P m.
Proof.
  intros Hid. unfold reservedIDs. rewrite map_filter_insert. simpl. case_decide as HP.
  - rewrite HP, map_to_list_insert by (apply map_lookup_filter_None; by left). done.
  - rewrite delete_id by done. destruct (P r); [done|]. set_solver.
Qed.

(** The sets the budgets are checked against, with the target added, are the
    unavailable sets of the ledger that holds the new reservation. *)
Lemma unavailablePhysicalIDs_put members l policy request key :
  reservations l !! req_ID request = None →
  unavailablePhysicalIDs members (put l (req_ID request) (freshReservation request)) policy key
    (mget (req_Domains request) key)
  = {[req_PhysicalID request]}
    ∪ unavailablePhysicalIDs members l policy key (mget (req_Domains request) key).
Proof.
  intros Hid. unfold unavailablePhysicalIDs.
  rewrite reservations_put, reservedIDs_insert by done. simpl.
  rewrite (bool_decide_eq_true_2 (mget (req_Domains request) key = _)) by done.
  rewrite andb_false_r. simpl. set_solver.
Qed.

Lemma unavailablePhysicalIDs_global members l policy key value :
  unavailablePhysicalIDs members l policy "" value = unavailablePhysicalIDs members l policy "" key.
Proof. done. Qed.

Lemma unavailableInRiskGroup_put members l policy request group :
  reservations l !! req_ID request = None →
  containsSorted (req_RiskGroups request) group = true →
  unavailablePhysicalIDsInRiskGroup members
    (put l (req_ID request) (freshReservation request)) policy group
  = {[req_PhysicalID request]} ∪ unavailablePhysicalIDsInRiskGroup members l policy group.
Proof.
  intros Hid Hg. unfold unavailablePhysicalIDsInRiskGroup.
  rewrite reservations_put, reservedIDs_insert by done. simpl. rewrite Hg. set_solver.
Qed.

(** ** The budgets *)

(** Every limit of the administrator and of the campaign, in ledger [l], for the
    domains and risk groups of [request]. *)
Record budgets_hold (members : gmap string Member) (policy : Policy)
    (request : ReservationRequest) (l : Ledger) : Prop := {
  bh_unavailable :
    setLen (unavailablePhysicalIDs members l policy "" "") ≤ pol_GlobalMaxUnavailable policy;
  bh_transfers : mlen (reservations l) ≤ pol_GlobalMaxConcurrentTransfers policy;
  bh_campaign :
    activeReservationsForCampaign l (req_CampaignUID request)
    ≤ effectiveLimit (pol_GlobalMaxUnavailable policy) (req_CampaignMaxUnavailable request)
    ∧ activeReservationsForCampaign l (req_CampaignUID request)
      ≤ effectiveLimit (pol_GlobalMaxConcurrentTransfers policy)
          (req_CampaignMaxConcurrentTransfers request);
  bh_domain key ceiling :
    pol_DomainBudgets policy !! key = Some ceiling →
    setLen (unavailablePhysicalIDs members l policy key (mget (req_Domains request) key)) ≤ ceiling
    ∧ activeReservationsForCampaignInDomain l (req_CampaignUID request) key
        (mget (req_Domains request) key)
      ≤ effectiveLimit ceiling (mgetZ (req_CampaignLimits request) key);
  bh_domain_transfers key ceiling :
    pol_DomainTransferBudgets policy !! key = Some ceiling →
    activeReservationsInDomain l key (mget (req_Domains request) key) ≤ ceiling
    ∧ activeReservationsForCampaignInDomain l (req_CampaignUID request) key
        (mget (req_Domains request) key)
      ≤ effectiveLimit ceiling (mgetZ (req_CampaignTransferLimits request) key);
  bh_risk_group group :
    group ∈ req_RiskGroups request →
    ∃ budget, pol_RiskGroupBudgets policy !! group = Some budget
      ∧ setLen (unavailablePhysicalIDsInRiskGroup members l policy group)
        ≤ rgb_MaxUnavailable budget
      ∧ activeReservationsInRiskGroup l group ≤ rgb_MaxConcurrentTransfers budget;
}.

Lemma effectiveLimit_le admin campaign : effectiveLimit admin campaign ≤ admin.
Proof. unfold effectiveLimit. case_match; go_bool; lia. Qed.

Lemma effectiveLimit_campaign admin campaign :
  0 < campaign → effectiveLimit admin campaign ≤ campaign.
Proof. unfold effectiveLimit. case_match; go_bool; lia. Qed.

Lemma domainBudgetKeys_elem policy key :
  key ∈ domainBudgetKeys policy ↔
  is_Some (pol_DomainBudgets policy !! key) ∨ is_Some (pol_DomainTransferBudgets policy !! key).
Proof.
  unfold domainBudgetKeys. by rewrite sort_Strings_elem, elem_of_elements, elem_of_union, !elem_of_dom.
Qed.

Lemma validateInputs_groups `{K8sValidation} l policy request :
  validateInputs l policy request = None → StronglySorted str_lt (req_RiskGroups request).
Proof.
  unfold validateInputs. rewrite !ret_if_None, propagate_None, validateRiskGroupNames_spec.
  intros (_ & _ & _ & _ & (_ & _ & Hs) & _). done.
Qed.

Section admitted.
Context `{K8sValidation, UuidLib}.
Context (policy : Policy) (members : list Member) (canonical : gmap string Member).
Context (request : ReservationRequest) (target : Member) (l : Ledger).
Context (Hid : reservations l !! req_ID request = None).

Let l' := put l (req_ID request) (freshReservation request).

Lemma mcount_put P :
  mcount P (reservations l') = mcount P (reservations l) + (if P (freshReservation request) then 1 else 0).
Proof using Hid. unfold l'. by rewrite reservations_put, mcount_insert. Qed.

Lemma global_budgets_put :
  reserveGlobalBudgets canonical l policy request = None →
  setLen (unavailablePhysicalIDs canonical l' policy "" "") ≤ pol_GlobalMaxUnavailable policy
  ∧ mlen (reservations l') ≤ pol_GlobalMaxConcurrentTransfers policy
  ∧ activeReservationsForCampaign l' (req_CampaignUID request)
    ≤ effectiveLimit (pol_GlobalMaxUnavailable policy) (req_CampaignMaxUnavailable request)
  ∧ activeReservationsForCampaign l' (req_CampaignUID request)
    ≤ effectiveLimit (pol_GlobalMaxConcurrentTransfers policy)
        (req_CampaignMaxConcurrentTransfers request).
Proof using Hid.
  unfold reserveGlobalBudgets. go_none. rewrite !Z.ltb_ge. intros (Hu & Hc & Ht & Hct & _).
  unfold activeReservationsForCampaign in *. rewrite mcount_put. simpl.
  rewrite bool_decide_eq_true_2 by done. split_and!; try done.
  - rewrite (unavailablePhysicalIDs_global _ _ _ (mget (req_Domains request) "") "").
    unfold l'. by rewrite unavailablePhysicalIDs_put.
  - unfold l', mlen. rewrite reservations_put, map_size_insert_None by done.
    unfold mlen in Ht. lia.
Qed.

Lemma domain_budget_put key :
  reserveDomainBudget canonical l policy request key = None →
  (∀ ceiling, pol_DomainBudgets policy !! key = Some ceiling →
     setLen (unavailablePhysicalIDs canonical l' policy key (mget (req_Domains request) key)) ≤ ceiling
     ∧ activeReservationsForCampaignInDomain l' (req_CampaignUID request) key
         (mget (req_Domains request) key)
       ≤ effectiveLimit ceiling (mgetZ (req_CampaignLimits request) key))
  ∧ (∀ ceiling, pol_DomainTransferBudgets policy !! key = Some ceiling →
     activeReservationsInDomain l' key (mget (req_Domains request) key) ≤ ceiling
     ∧ activeReservationsForCampaignInDomain l' (req_CampaignUID request) key
         (mget (req_Domains request) key)
       ≤ effectiveLimit ceiling (mgetZ (req_CampaignTransferLimits request) key)).
Proof using Hid.
  unfold reserveDomainBudget. rewrite propagate_None. intros [Hd Ht].
  unfold activeReservationsForCampaignInDomain, activeReservationsInDomain in *.
  rewrite !mcount_put. simpl. rewrite !bool_decide_eq_true_2 by done. simpl.
  unfold l'. rewrite unavailablePhysicalIDs_put by done. split; intros ceiling Hk.
  - rewrite Hk in Hd. go_none. go_bool. tauto.
  - rewrite Hk in Ht. go_none. go_bool. tauto.
Qed.

Lemma risk_group_budget_put group :
  containsSorted (req_RiskGroups request) group = true →
  reserveRiskGroupBudget canonical l policy request group = None →
  ∃ budget, pol_RiskGroupBudgets policy !! group = Some budget
    ∧ setLen (unavailablePhysicalIDsInRiskGroup canonical l' policy group)
      ≤ rgb_MaxUnavailable budget
    ∧ activeReservationsInRiskGroup l' group ≤ rgb_MaxConcurrentTransfers budget.
Proof using Hid.
  intros Hg Hb. unfold reserveRiskGroupBudget in Hb. case_match; [|done].
  eexists. split; [done|]. go_none. rewrite !Z.ltb_ge in Hb.
  unfold activeReservationsInRiskGroup in *. rewrite mcount_put. simpl. rewrite Hg.
  unfold l'. rewrite unavailableInRiskGroup_put by done. tauto.
Qed.
End admitted.

(** A fresh admission leaves a ledger within every budget it was checked against. *)
Lemma Reserve_budgets `{K8sValidation, UuidLib} policy members request l l' :
  Reserve policy members request l = (l', None) →
  reservations l !! req_ID request = None →
  ∃ canonical, canonicalizeMembers members = inl canonical
    ∧ budgets_hold canonical policy request l'.
Proof.
  intros (Hv & _ & Hr)%Reserve_success Hid. 
  destruct Hr as [?|canonical target _ _ Hc _ _ _ _ Hglobal Hdom Hrg -> _ _]; [congruence|].
  apply validateInputs_groups in Hv. exists canonical. split; [done|].
  destruct (global_budgets_put policy canonical request l) as (?&?&?&?); [done..|].
  split; try done.
  - intros key ceiling Hk. eapply domain_budget_put; [done| |done].
    apply Hdom, domainBudgetKeys_elem. eauto.
  - intros key ceiling Hk. eapply domain_budget_put; [done| |done].
    apply Hdom, domainBudgetKeys_elem. eauto.
  - intros group Hg. apply risk_group_budget_put; auto. by apply containsSorted_iff.
Qed.
