(* ===== verification/LedgerHistory.v ===== *)
(** * The rollout ledger: invariants of its histories

    Every operation keeps a well-formed ledger well formed, given the inputs its
    callers provide ([op_inputs_ok]); and in every history that starts from
    [NewLedger] the number of reservations stays within the administrator's
    budgets, whatever the order of the operations. *)

From S2P Require Import Prelude GoLib GoTime Json Interfaces LedgerData Ledger LedgerSpec.
From S2P Require Import LedgerOps LedgerAdmission.

(** ** Canonical times *)

Definition ledgerTime_ok (t : Time) : Prop := 0 < t < endOfYear9999.

Lemma parseCanonical_canonical t s :
  ledgerTime_ok t → canonicalLedgerTime t = Some s → parseCanonicalLedgerTime s = Some t.
Proof.
  unfold ledgerTime_ok, canonicalLedgerTime. intros Ht Hs. case_match; simplify_eq.
  unfold parseCanonicalLedgerTime. rewrite ParseRFC3339Nano_Format by lia.
  unfold canonicalLedgerTime. rewrite (bool_decide_eq_false_2 (t = 0)) by lia. simpl.
  by rewrite bool_decide_eq_true_2.
Qed.

(** ** Well-formed maps under update *)

Section identifies.
Context (proj : Reservation → option string) (m : gmap string Reservation) (id : string).

Lemma identifies_delete : identifies proj m → identifies proj (delete id m).
Proof.
  intros Hi k1 k2 r1 r2 v [_ H1]%lookup_delete_Some [_ H2]%lookup_delete_Some. by eapply Hi.
Qed.

Lemma identifies_insert r' :
  identifies proj m →
  (∀ k r v, m !! k = Some r → proj r = Some v → proj r' = Some v → k = id) →
  identifies proj (<[id := r']> m).
Proof.
  intros Hi Hn k1 k2 r1 r2 v [[<- <-]|[? H1]]%lookup_insert_Some
    [[<- <-]|[? H2]]%lookup_insert_Some P1 P2; [done|..].
  - symmetry. by eapply Hn.
  - by eapply Hn.
  - by eapply Hi.
Qed.

Lemma identifies_update r r' :
  identifies proj m → m !! id = Some r → proj r' = proj r →
  identifies proj (<[id := r']> m).
Proof.
  intros Hi Hid Hp. apply identifies_insert; [done|].
  intros k r0 v Hk Hv Hv'. rewrite Hp in Hv'. by eapply Hi.
Qed.
End identifies.

Lemma remove_known l id :
  led_Reservations l = Some (reservations l) →
  remove l id = set_reservations l (delete id (reservations l)).
Proof. unfold remove. by intros ->. Qed.

Section wf_updates.
Context `{K8sValidation, UuidLib}.

Lemma entries_wf_delete m id : entries_wf m → entries_wf (delete id m).
Proof.
  intros []. split; auto using identifies_delete.
  intros k r [_ Hk]%lookup_delete_Some. auto.
Qed.

Lemma entries_wf_update m id r r' :
  entries_wf m → m !! id = Some r → same_identity r r' → reservation_wf r' →
  (rsv_ChildUID r' = rsv_ChildUID r
   ∨ ∀ k r0, m !! k = Some r0 → rsv_ChildUID r0 = rsv_ChildUID r' → k = id) →
  entries_wf (<[id := r']> m).
Proof.
  intros [He ?????] Hid [Hq _] Hw Hc. destruct (He id r Hid) as (Hne & Hkey & _).
  split; try (eapply identifies_update; [done..|];
              unfold physicalOf, deviceOf, nodeOf, childOf, childKey; by rewrite Hq).
  - intros k r0 [[<- <-]|[? Hk]]%lookup_insert_Some; [|auto]. by rewrite Hq.
  - unfold childUIDOf in *. destruct Hc as [Hc|Hc].
    + eapply identifies_update; [done..|]. by rewrite Hc.
    + apply identifies_insert; [done|]. intros k r0 v Hk Hv Hv'. repeat case_match; simplify_eq.
      eauto.
Qed.

Lemma ledger_wf_put l id r r' :
  ledger_wf l → reservations l !! id = Some r →
  entries_wf (<[id := r']> (reservations l)) → ledger_wf (put l id r').
Proof.
  intros [] Hid He. split; try done.
  rewrite reservations_put. unfold mlen. by rewrite map_size_insert_Some.
Qed.

Lemma ledger_wf_remove l id : ledger_wf l → ledger_wf (remove l id).
Proof.
  intros []. rewrite (remove_known l id) by done.
  split; try done; unfold reservations at 1; simpl; [|by apply entries_wf_delete].
  unfold mlen in *. rewrite map_size_delete. destruct (_ !! id); simpl; lia.
Qed.

Lemma ledger_wf_set_fence l f : ledger_wf l → fence_wf f → ledger_wf (set_fence l f).
Proof. intros [] Hf. split; try done. intros f' [= <-]. done. Qed.
End wf_updates.

(** ** Every operation keeps the ledger well formed *)

(** What the callers provide: a bounded child UID that no other reservation has,
    control revisions in the signed range, times of this era, and a plain
    revocation only of a reservation that has a child. *)
Definition op_inputs_ok (op : ledger_op) (l : Ledger) : Prop :=
  match op with
  | OpBindChild id c =>
      bounded_identity c 128
      ∧ (∀ k r, reservations l !! k = Some r → rsv_ChildUID r = c → k = id)
  | OpBeginDrain _ _ _ _ rev t | OpPromoteDrain _ _ _ _ rev t => rev ≤ maxInt64 ∧ ledgerTime_ok t
  | OpRevoke id rev =>
      rev ≤ maxInt64 ∧ (∀ r, reservations l !! id = Some r → rsv_State r ≠ ReservationReserved)
  | OpGrant _ _ _ rev | OpRevokeDrain _ _ _ _ rev | OpRevokeUnclaimed _ _ _ rev _ => rev ≤ maxInt64
  | OpReserve _ _ _ | OpSettle _ _ _ _ _ _ | OpSettleDrained _ _ _ _ _ _ _ _ _
  | OpReleaseUnclaimed _ _ _ _ _ | OpFenceUnbound _ _ _ => True
  end.

Section step_wf.
Context `{K8sValidation, UuidLib, !UuidLibSpec H0}.

Lemma op_inputs_revision op l rev :
  op_inputs_ok op l → op_revision op = Some rev → rev ≤ maxInt64.
Proof. destruct op; simpl; intros; simplify_eq; tauto. Qed.

Lemma request_wf_revision q rev : request_wf q → rev ≤ maxInt64 → request_wf (with_revision q rev).
Proof. intros [] Hr. by split. Qed.

(** The drain fields that a transition leaves alone. *)
Lemma same_drain_progress r r' : same_drain r r' → drain_progress r → drain_progress r'.
Proof.
  intros (Ht & Hs & Hc) [?? ?|t0 ???|t0 t1 ????].
  - by apply DrainNone; rewrite ?Ht, ?Hs, ?Hc.
  - by apply (DrainStarted _ t0); rewrite ?Ht, ?Hs, ?Hc.
  - by apply (DrainCompleted _ t0 t1); rewrite ?Ht, ?Hs, ?Hc.
Qed.

Lemma same_drain_provenance r r' :
  same_drain r r' → hasDrainProvenance r' = hasDrainProvenance r.
Proof. intros (Ht & Hs & Hc). unfold hasDrainProvenance. by rewrite Ht, Hs, Hc. Qed.

Lemma lifecycle_wf op l r r' :
  op_inputs_ok op l → reservations l !! op_id op = Some r →
  reservation_wf r → same_identity r r' → lifecycle r r' op →
  rsv_ControlRevision r' ≤ maxInt64 → reservation_wf r'.
Proof.
  intros Hin Hid [Hq Hd Hs] [Hid' _] Hlc Hrev.
  assert (request_wf (rsv_Request r')) as Hq'.
  { rewrite Hid'. by apply request_wf_revision. }
  destruct Hlc as [op HS HC HD|id c HS HS' HC HC' Ht HD|id u c t rev t0 HS HS' HC HC' Hne Hp Ht Hv Hc0 Hc1
    |id u c t rev t0 t1 HS HS' HC HC' Hne Ht Ht' Hst Hps Hc0 Hc1 Hle|id u c rev HS HS' HC HC' Hne Hp HD
    |id rev HS HS' HC Hp Hlt HD|id u c t rev HS HS' HC HC' Ht Hst HD
    |id lock c rev ep HS HS' HC HC' Hne Ht HD]; simpl in *.
  - split; [done|by eapply same_drain_progress|]. unfold state_shape in *.
    rewrite HS, HC, (same_drain_provenance _ _ HD). destruct HD as (_ & _ & ->). done.
  - split; [done|by eapply same_drain_progress|]. unfold state_shape in *.
    rewrite HS', (same_drain_provenance _ _ HD). rewrite HS in Hs. subst c. tauto.
  - assert (parseCanonicalLedgerTime (rsv_DrainStartedAt r') = Some t0) as Hpt.
    { eapply parseCanonical_canonical; tauto. }
    split; [done|by eapply DrainStarted; subst|]. unfold state_shape in *.
    rewrite HS', HC'. rewrite HS, HC in Hs. split_and!; [tauto| |done].
    unfold hasDrainProvenance. apply parse_nonempty in Hpt.
    by rewrite (bool_decide_eq_false_2 (rsv_DrainStartedAt r' = "")), orb_true_r.
  - assert (parseCanonicalLedgerTime (rsv_DrainCompletedAt r') = Some t1) as Hpt.
    { eapply parseCanonical_canonical; tauto. }
    unfold state_shape in Hs. rewrite HS in Hs. destruct Hs as (Hb & Hpv & _).
    split; [done| |].
    + apply (DrainCompleted _ t0 t1); [|by rewrite Hst|done|done].
      rewrite Ht', <- Ht. destruct Hd as [E1 E2 E3| |]; [|done..].
      by rewrite (proj2 (hasDrainProvenance_false r)) in Hpv.
    + unfold state_shape. rewrite HS', HC', <- HC. split; [done|].
      intros _. by eapply parse_nonempty.
  - split; [done|by eapply same_drain_progress|]. unfold state_shape in *.
    rewrite HS', HC', (same_drain_provenance _ _ HD). rewrite HS, HC in Hs.
    split; [tauto|congruence].
  - split; [done|by eapply same_drain_progress|]. unfold state_shape in *.
    rewrite HS', HC. destruct Hin as [_ Hin]. specialize (Hin _ Hid).
    destruct HS as [HS|[HS|HS]]; rewrite HS in Hs; tauto.
  - split; [done|by eapply same_drain_progress|]. unfold state_shape in *.
    rewrite HS', HC', <- HC. destruct HS as [HS|HS]; rewrite HS in Hs; tauto.
  - split; [done|by eapply same_drain_progress|]. unfold state_shape in *.
    rewrite HS', HC', <- HC. destruct HS as [HS|HS]; rewrite HS in Hs; tauto.
Qed.

Lemma run_op_wf op l l' e :
  ledger_wf l → op_inputs_ok op l → run_op op l = (l', e) → ledger_wf l'.
Proof.
  intros Hw Hin Hr. destruct e as [e|]; [by apply run_op_error in Hr as ->|].
  destruct (run_op_shape _ _ _ _ Hr) as [->|r' Hl'|f _ ? ->| ->|f _ ? ->];
    auto using ledger_wf_remove, ledger_wf_set_fence.
  destruct (reservations l !! op_id op) as [r|] eqn:Hid.
  - assert (reservations l' !! op_id op = Some r') as Hid'.
    { subst l'. by rewrite reservations_put, lookup_insert_eq. }
    destruct (run_op_lifecycle _ _ _ _ _ _ Hr Hid Hid') as (Hsame & Hlc & Hrev).
    destruct (ew_entry _ (lw_entries _ Hw) _ _ Hid) as (_ & _ & Hrw).
    subst l'. eapply ledger_wf_put; [done..|].
    apply (entries_wf_update _ _ r r'); [by apply lw_entries|done|done| |].
    + eapply lifecycle_wf; [done..|]. destruct Hrev as [->|Hrev].
      * apply (rw_revision _ (rsw_request _ Hrw)).
      * by eapply op_inputs_revision.
    + destruct Hlc; try (left; congruence). right. subst. by apply Hin.
  - destruct (run_op_creates op l l' None (op_id op) r') as (policy & members & q & -> & _); auto.
    { subst l'. by rewrite reservations_put, lookup_insert_eq. }
    simpl in *. apply Reserve_success in Hr as (_ & _ & [|]); [congruence|]. by apply validatePersistedLedger_iff.
Qed.
End step_wf.

(** ** Counting reservations along a history *)

(** A predicate on what a reservation was admitted with. *)
Definition identity_predicate (P : Reservation → bool) : Prop :=
  ∀ r r', same_identity r r' → P r' = P r.

Lemma identity_predicate_request (Q : ReservationRequest → bool) :
  (∀ q rev, Q (with_revision q rev) = Q q) → identity_predicate (λ r, Q (rsv_Request r)).
Proof. intros HQ r r' [Hq _]. by rewrite Hq, HQ. Qed.

(** A step admits one reservation, or no count grows and no device is taken. *)
Lemma run_op_count `{K8sValidation, UuidLib} op l l' e :
  run_op op l = (l', e) →
  (∃ policy members q, op = OpReserve policy members q ∧ e = None
     ∧ reservations l !! req_ID q = None ∧ l' = put l (req_ID q) (freshReservation q))
  ∨ (∀ P, identity_predicate P → mcount P (reservations l') ≤ mcount P (reservations l))
    ∧ (identifies physicalOf (reservations l) → identifies physicalOf (reservations l')).
Proof.
  intros Hr. destruct e as [e|]; [apply run_op_error in Hr as ->; by right|].
  destruct (run_op_shape _ _ _ _ Hr) as [->|r' Hl'|f _ _ ->| ->|f _ _ ->];
    autorewrite with ledger;
    try (right; split; [intros; apply mcount_delete_le|apply identifies_delete]; done); [by right|..].
  2: by right.
  assert (reservations l' !! op_id op = Some r') as Hid'.
  { subst l'. by rewrite reservations_put, lookup_insert_eq. }
  destruct (reservations l !! op_id op) as [r|] eqn:Hid.
  - right. destruct (run_op_lifecycle _ _ _ _ _ _ Hr Hid Hid') as (Hsame & _).
    subst l'. rewrite reservations_put. split.
    + intros P HP. rewrite (mcount_update _ _ _ r); [done|done|]. by apply HP.
    + intros Hi. eapply identifies_update; [done..|]. destruct Hsame as [Hq _].
      unfold physicalOf. by rewrite Hq.
  - left. destruct (run_op_creates _ _ _ _ _ _ Hr Hid Hid') as (p & ms & q & -> & Hq & ->).
    subst l'. simpl in *. eauto 10.
Qed.

(** Distinct devices: the set of reserved physical IDs is as large as the number
    of reservations. *)
Lemma mcount_reservedIDs P m :
  identifies physicalOf m → mcount P m = setLen (reservedIDs P m).
Proof.
  intros Hi. unfold mcount, setLen, reservedIDs. f_equal.
  rewrite size_list_to_set; [by rewrite length_map, length_map_to_list|].
  change (map ?f) with (fmap (M := list) f). apply NoDup_fmap_2_strong; [|apply NoDup_map_to_list].
  intros [k1 r1] [k2 r2] [H1 _]%elem_of_map_to_list%map_lookup_filter_Some
    [H2 _]%elem_of_map_to_list%map_lookup_filter_Some Heq. simpl in *.
  assert (k1 = k2) as -> by (eapply Hi; unfold physicalOf; eauto; by rewrite Heq). congruence.
Qed.

Lemma mcount_mono {V} (P Q : V → bool) (m : gmap string V) :
  (∀ v, P v = true → Q v = true) → mcount P m ≤ mcount Q m.
Proof.
  intros HPQ. unfold mcount. apply Nat2Z.inj_le, map_subseteq_size.
  apply map_subseteq_spec. intros k v [Hk HP]%map_lookup_filter_Some.
  apply map_lookup_filter_Some. auto.
Qed.

Lemma setLen_mono (A B : gset string) : A ⊆ B → setLen A ≤ setLen B.
Proof. intros. unfold setLen. apply Nat2Z.inj_le. by apply subseteq_size. Qed.

(** ** Budgets along a history *)

(** An admission policy at least as strict as [P] on everything [P] limits. *)
Record tighter (p P : Policy) : Prop := {
  tg_transfers : pol_GlobalMaxConcurrentTransfers p ≤ pol_GlobalMaxConcurrentTransfers P;
  tg_unavailable : pol_GlobalMaxUnavailable p ≤ pol_GlobalMaxUnavailable P;
  tg_domain_transfers key c : pol_DomainTransferBudgets P !! key = Some c →
    ∃ c', pol_DomainTransferBudgets p !! key = Some c' ∧ c' ≤ c;
  tg_domain key c : pol_DomainBudgets P !! key = Some c →
    ∃ c', pol_DomainBudgets p !! key = Some c' ∧ c' ≤ c;
  tg_risk_group g b : pol_RiskGroupBudgets P !! g = Some b →
    ∃ b', pol_RiskGroupBudgets p !! g = Some b'
      ∧ rgb_MaxConcurrentTransfers b' ≤ rgb_MaxConcurrentTransfers b
      ∧ rgb_MaxUnavailable b' ≤ rgb_MaxUnavailable b;
}.

Lemma tighter_refl P : tighter P P.
Proof. split; [lia|lia|..]; intros k v Hk; exists v; split_and?; done || lia. Qed.

Record nonnegative (P : Policy) : Prop := {
  nn_global : 0 ≤ pol_GlobalMaxConcurrentTransfers P ∧ 0 ≤ pol_GlobalMaxUnavailable P;
  nn_domain_transfers key c : pol_DomainTransferBudgets P !! key = Some c → 0 ≤ c;
  nn_domain key c : pol_DomainBudgets P !! key = Some c → 0 ≤ c;
  nn_risk_group g b : pol_RiskGroupBudgets P !! g = Some b →
    0 ≤ rgb_MaxConcurrentTransfers b ∧ 0 ≤ rgb_MaxUnavailable b;
}.

(** How much of the fleet the ledger occupies, in every dimension [P] limits. *)
Record occupancy_bounded (P : Policy) (l : Ledger) : Prop := {
  ob_physical : identifies physicalOf (reservations l);
  ob_transfers : mlen (reservations l) ≤ pol_GlobalMaxConcurrentTransfers P;
  ob_unavailable : mlen (reservations l) ≤ pol_GlobalMaxUnavailable P;
  ob_domain_transfers key c : pol_DomainTransferBudgets P !! key = Some c →
    ∀ value, activeReservationsInDomain l key value ≤ c;
  ob_domain key c : pol_DomainBudgets P !! key = Some c →
    ∀ value, activeReservationsInDomain l key value ≤ c;
  ob_risk_group g b : pol_RiskGroupBudgets P !! g = Some b →
    activeReservationsInRiskGroup l g ≤ rgb_MaxConcurrentTransfers b
    ∧ activeReservationsInRiskGroup l g ≤ rgb_MaxUnavailable b;
}.

(** The ledgers of histories in which every admission used a policy at least as
    strict as [P]: any operations, in any order, failing or not. *)
Inductive reachable `{K8sValidation, UuidLib} (P : Policy) : Ledger → Prop :=
  | ReachNew uid l : NewLedger uid = inl l → reachable P l
  | ReachStep op l l' e :
      reachable P l →
      (∀ p members q, op = OpReserve p members q → tighter p P) →
      run_op op l = (l', e) → reachable P l'.

Lemma mlen_mcount {V} (m : gmap string V) : mlen m = mcount (λ _, true) m.
Proof. unfold mlen, mcount. by rewrite map_filter_id. Qed.

(** The counts the occupancy is about only read what does not change. *)
Lemma identity_predicates key value g :
  identity_predicate (λ _, true)
  ∧ identity_predicate (λ r, mget (req_Domains (rsv_Request r)) key == value)
  ∧ identity_predicate (λ r, containsSorted (req_RiskGroups (rsv_Request r)) g).
Proof. split_and!; by intros r r' [Hq _]; rewrite ?Hq. Qed.

Section occupancy.
Context `{K8sValidation, UuidLib, !UuidLibSpec H0} (P : Policy).

Lemma occupancy_shrink l l' :
  (∀ P, identity_predicate P → mcount P (reservations l') ≤ mcount P (reservations l)) →
  (identifies physicalOf (reservations l) → identifies physicalOf (reservations l')) →
  occupancy_bounded P l → occupancy_bounded P l'.
Proof.
  intros Hc Hi [Hp Ht Hu Hdt Hd Hg]. rewrite mlen_mcount in Ht, Hu.
  pose proof (Hc _ (proj1 (identity_predicates "" "" ""))) as Hall.
  split; [auto|rewrite mlen_mcount; lia|rewrite mlen_mcount; lia|..].
  - intros key c Hk value. specialize (Hdt key c Hk value).
    unfold activeReservationsInDomain in *.
    pose proof (Hc _ (proj1 (proj2 (identity_predicates key value "")))). lia.
  - intros key c Hk value. specialize (Hd key c Hk value).
    unfold activeReservationsInDomain in *.
    pose proof (Hc _ (proj1 (proj2 (identity_predicates key value "")))). lia.
  - intros g b Hb. destruct (Hg g b Hb). unfold activeReservationsInRiskGroup in *.
    pose proof (Hc _ (proj2 (proj2 (identity_predicates "" "" g)))). lia.
Qed.

(** Reserved devices are among the unavailable ones the budgets count. *)
Lemma domain_count_unavailable members policy l key value :
  identifies physicalOf (reservations l) →
  activeReservationsInDomain l key value
  ≤ setLen (unavailablePhysicalIDs members l policy key value).
Proof.
  intros Hi. unfold activeReservationsInDomain, unavailablePhysicalIDs.
  etrans; [|apply setLen_mono, union_subseteq_r].
  rewrite <- mcount_reservedIDs by done. apply mcount_mono.
  intros r ->. by rewrite andb_false_r.
Qed.

Lemma group_count_unavailable members policy l g :
  identifies physicalOf (reservations l) →
  activeReservationsInRiskGroup l g
  ≤ setLen (unavailablePhysicalIDsInRiskGroup members l policy g).
Proof.
  intros Hi. unfold activeReservationsInRiskGroup, unavailablePhysicalIDsInRiskGroup.
  etrans; [|apply setLen_mono, union_subseteq_r]. by rewrite <- mcount_reservedIDs.
Qed.

Lemma global_count_unavailable members policy l :
  identifies physicalOf (reservations l) →
  mlen (reservations l) ≤ setLen (unavailablePhysicalIDs members l policy "" "").
Proof.
  intros Hi. unfold unavailablePhysicalIDs. etrans; [|apply setLen_mono, union_subseteq_r].
  rewrite <- mcount_reservedIDs by done. by rewrite mlen_mcount.
Qed.

Lemma occupancy_reserve p members q l l' :
  tighter p P → Reserve p members q l = (l', None) → reservations l !! req_ID q = None →
  l' = put l (req_ID q) (freshReservation q) →
  occupancy_bounded P l → occupancy_bounded P l'.
Proof.
  intros [T1 T2 T3 T4 T5] Hr Hid Hl' [_ _ _ Hdt Hd Hg].
  destruct (Reserve_budgets _ _ _ _ _ Hr Hid) as (cm & _ & [B1 B2 _ B4 B5 B6]).
  assert (ledger_wf l') as Hw.
  { apply Reserve_success in Hr as (_ & _ & [|]); [congruence|]. by apply validatePersistedLedger_iff. }
  pose proof (ew_physical _ (lw_entries _ Hw)) as Hi.
  pose proof (global_count_unavailable cm p l' Hi).
  assert (∀ key value, activeReservationsInDomain l' key value =
            activeReservationsInDomain l key value
            + (if mget (req_Domains q) key == value then 1 else 0)) as Hcount.
  { intros key value. subst l'. apply (mcount_put q l Hid). }
  split; [done|lia|lia|..].
  - intros key c Hk value. destruct (decide (mget (req_Domains q) key = value)) as [<-|Hne].
    + destruct (T3 _ _ Hk) as (c' & Hc' & ?). destruct (B5 _ _ Hc'). lia.
    + rewrite Hcount, bool_decide_eq_false_2, Z.add_0_r by done. by apply (Hdt key).
  - intros key c Hk value. destruct (decide (mget (req_Domains q) key = value)) as [<-|Hne].
    + destruct (T4 _ _ Hk) as (c' & Hc' & ?). destruct (B4 _ _ Hc').
      pose proof (domain_count_unavailable cm p l' key (mget (req_Domains q) key) Hi). lia.
    + rewrite Hcount, bool_decide_eq_false_2, Z.add_0_r by done. by apply (Hd key).
  - intros g b Hb. destruct (containsSorted (req_RiskGroups q) g) eqn:Hcs.
    + destruct (T5 _ _ Hb) as (b' & Hb' & ? & ?).
      assert (g ∈ req_RiskGroups q) as Hin.
      { apply Reserve_success in Hr as (Hv%validateInputs_groups & _ & _).
        by apply containsSorted_iff. }
      destruct (B6 g Hin) as (b'' & Hb'' & ? & ?). simplify_eq.
      pose proof (group_count_unavailable cm p (put l (req_ID q) (freshReservation q)) g Hi). lia.
    + assert (activeReservationsInRiskGroup l' g = activeReservationsInRiskGroup l g) as ->;
        [|by apply Hg].
      subst l'. unfold activeReservationsInRiskGroup. rewrite (mcount_put q l Hid). simpl.
      rewrite Hcs. lia.
Qed.

Lemma occupancy_new uid l : nonnegative P → NewLedger uid = inl l → occupancy_bounded P l.
Proof.
  intros [[N1 N2] N3 N4 N5] Hn. unfold NewLedger in Hn. case_match; [done|]. simplify_eq.
  set (l := Build_Ledger _ _ _ _). assert (reservations l = ∅) as He by done.
  split; unfold activeReservationsInDomain, activeReservationsInRiskGroup; rewrite ?He; try done;
    intros; rewrite ?mcount_empty; eauto.
Qed.

Lemma reachable_occupancy l : nonnegative P → reachable P l → occupancy_bounded P l.
Proof.
  intros Hn. induction 1 as [uid l Hnew|op l l' e Hreach IH Ht Hr]; [by eapply occupancy_new|].
  destruct (run_op_count _ _ _ _ Hr) as [(p & ms & q & -> & -> & Hid & Hl')|[Hc Hi]].
  - eapply occupancy_reserve; eauto.
  - by eapply occupancy_shrink.
Qed.
End occupancy.
