(* ===== verification/LedgerCodec.v ===== *)
(** * The rollout ledger: decoding

    src/internal/topologyrollout/ledger.go: [Decode], with the struct decoding
    of encoding/json written out for the ledger's types, and the round trip with
    [Encode]. *)

From S2P Require Import Prelude GoLib GoTime Json JsonProofs Interfaces LedgerData LedgerSpec.

(** ** Decoding the ledger's types *)

Definition state_of_string (s : string) : ReservationState :=
  if s == "Reserved" then ReservationReserved
  else if s == "Bound" then ReservationBound
  else if s == "Draining" then ReservationDraining
  else if s == "Granted" then ReservationGranted
  else if s == "Revoked" then ReservationRevoked
  else ReservationOther s.

Definition reservation_field_names : list string :=
  ["id"; "campaignUID"; "planHash"; "policyUID"; "policyVersion"; "policyEpoch"; "topologyLockID";
   "physicalID"; "deviceUID"; "nodeUID"; "childNamespace"; "childName"; "domains"; "riskGroups";
   "controlRevision"; "childUID"; "state"; "drainSessionToken"; "drainStartedAt";
   "drainCompletedAt"].

(** The embedded request's fields, from their zero values: a map element is
    always decoded into a zero [Reservation]. *)
Definition dec_request (ms : list (string * json)) : option ReservationRequest :=
  let str name := dec_field dec_string name "" ms in
  id ← str "id"; campaign ← str "campaignUID"; plan ← str "planHash";
  policy ← str "policyUID"; version ← str "policyVersion";
  epoch ← dec_field dec_int64 "policyEpoch" 0 ms;
  lock ← str "topologyLockID"; physical ← str "physicalID"; device ← str "deviceUID";
  node ← str "nodeUID"; namespace ← str "childNamespace"; name ← str "childName";
  domains ← dec_field (dec_map dec_string "") "domains" None ms;
  groups ← dec_field dec_strings "riskGroups" ([], 0%nat) ms;
  revision ← dec_field dec_uint64 "controlRevision" 0 ms;
  Some {| req_ID := id; req_CampaignUID := campaign; req_PlanHash := plan; req_PolicyUID := policy;
          req_PolicyVersion := version; req_PolicyEpoch := epoch; req_TopologyLockID := lock;
          req_PhysicalID := physical; req_DeviceUID := device; req_NodeUID := node;
          req_ChildNamespace := namespace; req_ChildName := name;
          req_Domains := default ∅ domains; req_RiskGroups := take groups.2 groups.1;
          req_CampaignMaxConcurrentTransfers := 0; req_CampaignMaxUnavailable := 0;
          req_CampaignTransferLimits := ∅; req_CampaignLimits := ∅;
          req_ControlRevision := revision |}.

Definition dec_reservation_members (ms : list (string * json)) : option Reservation :=
  return_if (negb (known_fields reservation_field_names ms)) None ;;
  request ← dec_request ms;
  child ← dec_field dec_string "childUID" "" ms;
  state ← dec_field dec_string "state" "" ms;
  token ← dec_field dec_string "drainSessionToken" "" ms;
  started ← dec_field dec_string "drainStartedAt" "" ms;
  completed ← dec_field dec_string "drainCompletedAt" "" ms;
  Some {| rsv_Request := request; rsv_ChildUID := child; rsv_State := state_of_string state;
          rsv_DrainSessionToken := token; rsv_DrainStartedAt := started;
          rsv_DrainCompletedAt := completed |}.

Definition zeroReservation : Reservation :=
  {| rsv_Request := {| req_ID := ""; req_CampaignUID := ""; req_PlanHash := "";
       req_PolicyUID := ""; req_PolicyVersion := ""; req_PolicyEpoch := 0;
       req_TopologyLockID := ""; req_PhysicalID := ""; req_DeviceUID := ""; req_NodeUID := "";
       req_ChildNamespace := ""; req_ChildName := ""; req_Domains := ∅; req_RiskGroups := [];
       req_CampaignMaxConcurrentTransfers := 0; req_CampaignMaxUnavailable := 0;
       req_CampaignTransferLimits := ∅; req_CampaignLimits := ∅; req_ControlRevision := 0 |};
     rsv_ChildUID := ""; rsv_State := ReservationOther ""; rsv_DrainSessionToken := "";
     rsv_DrainStartedAt := ""; rsv_DrainCompletedAt := "" |}.

Definition dec_reservation (cur : Reservation) (j : json) : option Reservation :=
  match j with
  | JNull => Some cur
  | JObj ms => dec_reservation_members ms
  | _ => None
  end.

(** A pointer: [null] makes it nil, an object fills the struct it points to. *)
Definition dec_fence (cur : option ReleaseFence) (j : json) : option (option ReleaseFence) :=
  match j with
  | JNull => Some None
  | JObj ms =>
      return_if (negb (known_fields ["reservationID"; "policyEpoch"; "topologyLockID";
                                     "drainSessionToken"; "drainChildUID"] ms)) None ;;
      let cur := default (Build_ReleaseFence "" 0 "" "" "") cur in
      id ← dec_field dec_string "reservationID" (fence_ReservationID cur) ms;
      epoch ← dec_field dec_int64 "policyEpoch" (fence_PolicyEpoch cur) ms;
      lock ← dec_field dec_string "topologyLockID" (fence_TopologyLockID cur) ms;
      token ← dec_field dec_string "drainSessionToken" (fence_DrainSessionToken cur) ms;
      child ← dec_field dec_string "drainChildUID" (fence_DrainChildUID cur) ms;
      Some (Some (Build_ReleaseFence id epoch lock token child))
  | _ => None
  end.

Definition dec_ledger (j : json) : option Ledger :=
  match j with
  | JNull => Some (Build_Ledger "" "" None None)
  | JObj ms =>
      return_if (negb (known_fields ["version"; "uid"; "reservations"; "lastReleaseFence"] ms))
        None ;;
      version ← dec_field dec_string "version" "" ms;
      uid ← dec_field dec_string "uid" "" ms;
      reservations ← dec_field (dec_map dec_reservation zeroReservation) "reservations" None ms;
      fence ← dec_field dec_fence "lastReleaseFence" None ms;
      Some (Build_Ledger version uid reservations fence)
  | _ => None
  end.

Definition Decode `{K8sValidation, UuidLib} (data expectedUID : string) : Ledger + goerror :=
  return_if (TrimSpace expectedUID == "")
    (inr (EIs ErrLedgerIdentity "expected UID is empty")) ;;
  return_if (DefaultMaxSerializedBytes <? slen data)
    (inr (EIs ErrLedgerIdentity "encoded ledger exceeds the absolute limit")) ;;
  match parse_document data ≫= dec_ledger with
  | None => inr (EIs ErrLedgerIdentity "decode rollout ledger")
  | Some ledger =>
      return_if ((led_Version ledger != LedgerVersion) || (led_UID ledger != expectedUID))
        (inr (EIs ErrLedgerIdentity "unexpected version or UID")) ;;
      match validatePersistedLedger ledger with
      | Some e => inr e
      | None => inl ledger
      end
  end.

(** ** Objects with optional members *)

(** The members an [omitempty] object prints: those that have a value. *)
Fixpoint members (fs : list (string * option json)) : list (string * json) :=
  match fs with
  | [] => []
  | (k, Some j) :: fs => (k, j) :: members fs
  | (k, None) :: fs => members fs
  end.

Fixpoint member_value (name : string) (fs : list (string * option json)) : option json :=
  match fs with
  | [] => None
  | (k, o) :: fs => if String.eqb name k then o else member_value name fs
  end.

(** Among [keys], only [name] itself is read as field [name], and it is there at
    most once. *)
Fixpoint sharp (name : string) (keys : list string) : bool :=
  match keys with
  | [] => true
  | k :: keys => (if String.eqb name k then forallb (λ k, negb (matches name k)) keys && matches name k
                  else negb (matches name k) && sharp name keys)
  end.

Lemma members_app fs1 fs2 : members (fs1 ++ fs2) = members fs1 ++ members fs2.
Proof. induction fs1 as [|[k [j|]] fs1 IH]; simpl; [done|by rewrite IH|done]. Qed.

Lemma members_omitempty k v : omitempty k v = members [(k, if v == "" then None else Some (JStr v))].
Proof. unfold omitempty. by destruct (v == ""). Qed.

Section dec_members.
Context {A : Type} (dec : A → json → option A) (name : string).

Lemma dec_members_absent cur fs :
  forallb (λ k, negb (matches name k)) (map fst fs) = true →
  dec_field dec name cur (members fs) = Some cur.
Proof.
  induction fs as [|[k o] fs IH]; simpl; [done|].
  intros [Hk%negb_true_iff Hf]%andb_true_iff. destruct o; simpl; rewrite ?Hk; auto.
Qed.

Lemma dec_members cur fs :
  sharp name (map fst fs) = true →
  dec_field dec name cur (members fs)
  = match member_value name fs with Some j => dec cur j | None => Some cur end.
Proof.
  induction fs as [|[k o] fs IH]; simpl; [done|].
  destruct (String.eqb name k); intros [H1 H2]%andb_true_iff.
  - destruct o; simpl; [rewrite H2|by apply dec_members_absent].
    destruct (dec cur j); simpl; [by apply dec_members_absent|done].
  - apply negb_true_iff in H1. destruct o; simpl; rewrite ?H1; auto.
Qed.
End dec_members.

Lemma known_members names fs :
  forallb (λ k, existsb (λ name, matches name k) names) (map fst fs) = true →
  known_fields names (members fs) = true.
Proof.
  unfold known_fields. induction fs as [|[k [j|]] fs IH]; simpl; [done|..];
    intros [H1 H2]%andb_true_iff; [rewrite H1|]; auto.
Qed.

(** ** The printed objects, by field *)

Definition optstr (v : string) : option json := if v == "" then None else Some (JStr v).

Definition reservation_members (r : Reservation) : list (string * option json) :=
  let q := rsv_Request r in
  [("id", Some (JStr (req_ID q))); ("campaignUID", Some (JStr (req_CampaignUID q)));
   ("planHash", Some (JStr (req_PlanHash q))); ("policyUID", Some (JStr (req_PolicyUID q)));
   ("policyVersion", Some (JStr (req_PolicyVersion q)));
   ("policyEpoch", Some (jint (req_PolicyEpoch q)));
   ("topologyLockID", Some (JStr (req_TopologyLockID q)));
   ("physicalID", Some (JStr (req_PhysicalID q))); ("deviceUID", Some (JStr (req_DeviceUID q)));
   ("nodeUID", Some (JStr (req_NodeUID q)));
   ("childNamespace", Some (JStr (req_ChildNamespace q)));
   ("childName", Some (JStr (req_ChildName q)));
   ("domains", Some (JObj (map (λ kv, (kv.1, JStr kv.2)) (sorted_entries (req_Domains q)))));
   ("riskGroups", if req_RiskGroups q == [] then None else Some (JArr (map JStr (req_RiskGroups q))));
   ("controlRevision", Some (jint (req_ControlRevision q)));
   ("childUID", optstr (rsv_ChildUID r));
   ("state", Some (JStr (state_string (rsv_State r))));
   ("drainSessionToken", optstr (rsv_DrainSessionToken r));
   ("drainStartedAt", optstr (rsv_DrainStartedAt r));
   ("drainCompletedAt", optstr (rsv_DrainCompletedAt r))].

Lemma reservation_json_members r : reservation_json r = JObj (members (reservation_members r)).
Proof.
  unfold reservation_json, request_fields. rewrite !members_omitempty. fold (optstr (rsv_ChildUID r)).
  fold (optstr (rsv_DrainSessionToken r)) (optstr (rsv_DrainStartedAt r))
    (optstr (rsv_DrainCompletedAt r)).
  unfold reservation_members.
  destruct (req_RiskGroups _ == []), (optstr (rsv_ChildUID r)), (optstr (rsv_DrainSessionToken r)),
    (optstr (rsv_DrainStartedAt r)), (optstr (rsv_DrainCompletedAt r)); done.
Qed.

Definition fence_members (f : ReleaseFence) : list (string * option json) :=
  [("reservationID", Some (JStr (fence_ReservationID f)));
   ("policyEpoch", Some (jint (fence_PolicyEpoch f)));
   ("topologyLockID", Some (JStr (fence_TopologyLockID f)));
   ("drainSessionToken", optstr (fence_DrainSessionToken f));
   ("drainChildUID", optstr (fence_DrainChildUID f))].

Lemma fence_json_members f : fence_json f = JObj (members (fence_members f)).
Proof.
  unfold fence_json, fence_members, omitempty, optstr.
  by destruct (fence_DrainSessionToken f == ""), (fence_DrainChildUID f == "").
Qed.

Definition ledger_members (l : Ledger) : list (string * option json) :=
  [("version", Some (JStr (led_Version l))); ("uid", Some (JStr (led_UID l)));
   ("reservations",
      Some (match led_Reservations l with
            | None => JNull
            | Some m => JObj (map (λ kv, (kv.1, reservation_json kv.2)) (sorted_entries m))
            end));
   ("lastReleaseFence", fence_json <$> led_LastReleaseFence l)].

Lemma ledger_json_members l : ledger_json l = JObj (members (ledger_members l)).
Proof. unfold ledger_json, ledger_members. by destruct (led_LastReleaseFence l). Qed.

(** ** Maps *)

Lemma sorted_entries_perm {V} (m : gmap string V) : sorted_entries m ≡ₚ map_to_list m.
Proof.
  unfold sorted_entries. rewrite sort_Strings_Permutation.
  assert (∀ l, (∀ k v, (k, v) ∈ l → m !! k = Some v) →
            omap (λ k, pair k <$> m !! k) (map fst l) = l) as Ho.
  { induction l as [|[k v] l IH]; intros Hl; csimpl; [done|].
    rewrite (Hl k v) by left. csimpl. rewrite IH; [done|]. intros. apply Hl. by right. }
  rewrite Ho; [done|]. intros k v. by rewrite elem_of_map_to_list.
Qed.

Lemma sorted_entries_elem {V} (m : gmap string V) k v : (k, v) ∈ sorted_entries m ↔ m !! k = Some v.
Proof. by rewrite sorted_entries_perm, elem_of_map_to_list. Qed.

Lemma dec_entries_insert {V} (dec : V → json → option V) zero (f : V → json) l cur :
  NoDup l.*1 → (∀ kv, kv ∈ l → dec zero (f kv.2) = Some kv.2) →
  dec_entries dec zero cur (map (λ kv, (kv.1, f kv.2)) l) = Some (list_to_map l ∪ cur).
Proof.
  revert cur. induction l as [|[k v] l IH]; intros cur Hnd Hl; simpl.
  { by rewrite map_empty_union. }
  apply NoDup_cons in Hnd as [Hk Hnd]. pose proof (Hl (k, v) ltac:(left)) as Hv.
  simpl in Hv. rewrite Hv. simpl. rewrite IH; [|done|intros; apply Hl; by right]. f_equal.
  rewrite <- insert_union_r by (by apply not_elem_of_list_to_map_1).
  by rewrite insert_union_l.
Qed.

Lemma dec_entries_sorted {V} (dec : V → json → option V) zero (f : V → json) (m : gmap string V) :
  (∀ k v, m !! k = Some v → dec zero (f v) = Some v) →
  dec_entries dec zero ∅ (map (λ kv, (kv.1, f kv.2)) (sorted_entries m)) = Some m.
Proof.
  intros Hm. rewrite dec_entries_insert.
  - rewrite map_union_empty. f_equal. rewrite <- (list_to_map_to_list m) at 2.
    apply list_to_map_proper; [|apply sorted_entries_perm].
    rewrite sorted_entries_perm. apply NoDup_fst_map_to_list.
  - rewrite sorted_entries_perm. apply NoDup_fst_map_to_list.
  - intros [k v] Hk%sorted_entries_elem. simpl. eauto.
Qed.

Lemma dec_slots_strings l : dec_slots dec_string "" [] (map JStr l) = Some l.
Proof. induction l as [|x l IH]; simpl; [done|]. by rewrite IH. Qed.

(** ** Reading the objects back *)

(** The values the Go types hold: [int64] and [uint64] numbers in range, and no
    campaign limits (their fields are not encoded). *)
Definition request_typed (q : ReservationRequest) : Prop :=
  0 ≤ req_PolicyEpoch q ≤ maxInt64 ∧ 0 ≤ req_ControlRevision q < 2 ^ 64
  ∧ clearCampaignLimits q = q.

Lemma optstr_read v : match optstr v with Some j => dec_string "" j | None => Some "" end = Some v.
Proof. unfold optstr. by destruct (bool_decide_reflect (v = "")) as [->|]. Qed.

Lemma dec_groups gs :
  match (if gs == [] then None else Some (JArr (map JStr gs))) with
  | Some j => dec_strings ([], 0%nat) j | None => Some ([], 0%nat)
  end = Some (gs, length gs).
Proof.
  destruct gs as [|g gs]; [done|]. simpl.
  rewrite dec_slots_strings. simpl. by rewrite length_map.
Qed.

Lemma dec_jint n : 0 ≤ n ≤ maxInt64 → dec_int64 0 (jint n) = Some n.
Proof. apply ParseInt64_Format. Qed.

Lemma dec_juint n : 0 ≤ n < 2 ^ 64 → dec_uint64 0 (jint n) = Some n.
Proof. apply ParseUint64_Format. Qed.

Lemma dec_domains (m : gmap string string) :
  dec_map dec_string "" None (JObj (map (λ kv, (kv.1, JStr kv.2)) (sorted_entries m)))
  = Some (Some m).
Proof. unfold dec_map. simpl. by rewrite (dec_entries_sorted dec_string "" JStr m). Qed.

Lemma state_of_string_string st :
  (∀ raw, st ≠ ReservationOther raw) → state_of_string (state_string st) = st.
Proof. destruct st as [| | | | |raw]; try done. intros Hst. by destruct (Hst raw). Qed.

(** [keys] can be told apart by the decoder. *)
Definition distinct_keys (keys : list string) : bool := forallb (λ n, sharp n keys) keys.

(** A field of a printed object, when its value and what it decodes to are known. *)
Lemma read_member {A} (dec : A → json → option A) name cur fs keys o v :
  distinct_keys keys = true → map fst fs = keys → bool_decide (name ∈ keys) = true →
  member_value name fs = o →
  match o with Some j => dec cur j | None => Some cur end = Some v →
  dec_field dec name cur (members fs) = Some v.
Proof.
  intros Hs Hk Hn%bool_decide_eq_true Ho Hv. rewrite dec_members; [by rewrite Ho|].
  unfold distinct_keys in Hs. rewrite forallb_forall in Hs. rewrite Hk. by apply Hs, list_elem_of_In.
Qed.

Lemma reservation_keys : distinct_keys reservation_field_names = true.
Proof. vm_compute. reflexivity. Qed.

Definition fence_field_names : list string :=
  ["reservationID"; "policyEpoch"; "topologyLockID"; "drainSessionToken"; "drainChildUID"].

Lemma fence_keys : distinct_keys fence_field_names = true.
Proof. vm_compute. reflexivity. Qed.

Definition ledger_field_names : list string := ["version"; "uid"; "reservations"; "lastReleaseFence"].

Lemma ledger_keys : distinct_keys ledger_field_names = true.
Proof. vm_compute. reflexivity. Qed.

(** Read field [name], given the proof [E] that its printed value decodes. *)
Ltac read keys fs name E :=
  rewrite (read_member _ name _ fs _ _ _ keys eq_refl eq_refl eq_refl E); cbn [mbind option_bind].

Lemma str_read v : match Some (JStr v) with Some j => dec_string "" j | None => Some "" end = Some v.
Proof. done. Qed.

Lemma dec_request_members r :
  request_typed (rsv_Request r) →
  dec_request (members (reservation_members r)) = Some (rsv_Request r).
Proof.
  intros (He & Hrev & Hc). set (q := rsv_Request r) in *.
  unfold dec_request. set (fs := reservation_members r).
  read reservation_keys fs "id" (str_read (req_ID q)). read reservation_keys fs "campaignUID" (str_read (req_CampaignUID q)).
  read reservation_keys fs "planHash" (str_read (req_PlanHash q)). read reservation_keys fs "policyUID" (str_read (req_PolicyUID q)).
  read reservation_keys fs "policyVersion" (str_read (req_PolicyVersion q)).
  read reservation_keys fs "policyEpoch" (dec_jint _ He).
  read reservation_keys fs "topologyLockID" (str_read (req_TopologyLockID q)). read reservation_keys fs "physicalID" (str_read (req_PhysicalID q)).
  read reservation_keys fs "deviceUID" (str_read (req_DeviceUID q)). read reservation_keys fs "nodeUID" (str_read (req_NodeUID q)).
  read reservation_keys fs "childNamespace" (str_read (req_ChildNamespace q)). read reservation_keys fs "childName" (str_read (req_ChildName q)).
  read reservation_keys fs "domains" (dec_domains (req_Domains q)).
  read reservation_keys fs "riskGroups" (dec_groups (req_RiskGroups q)).
  read reservation_keys fs "controlRevision" (dec_juint _ Hrev).
  cbn [mbind option_bind fst snd default]. rewrite firstn_all, <- Hc. done.
Qed.

Lemma dec_reservation_json r :
  request_typed (rsv_Request r) → (∀ raw, rsv_State r ≠ ReservationOther raw) →
  dec_reservation zeroReservation (reservation_json r) = Some r.
Proof.
  intros Hq Hst. rewrite reservation_json_members. unfold dec_reservation, dec_reservation_members.
  rewrite known_members by (by vm_compute). cbn [negb].
  rewrite dec_request_members by done. cbn [mbind option_bind]. set (fs := reservation_members r).
  read reservation_keys fs "childUID" (optstr_read (rsv_ChildUID r)). read reservation_keys fs "state" (str_read (state_string (rsv_State r))).
  read reservation_keys fs "drainSessionToken" (optstr_read (rsv_DrainSessionToken r)).
  read reservation_keys fs "drainStartedAt" (optstr_read (rsv_DrainStartedAt r)).
  read reservation_keys fs "drainCompletedAt" (optstr_read (rsv_DrainCompletedAt r)).
  rewrite state_of_string_string by done. by destruct r.
Qed.

Definition fence_typed (f : ReleaseFence) : Prop := 0 ≤ fence_PolicyEpoch f ≤ maxInt64.

(** The machine ranges and the fields that are not encoded, ledger-wide. *)
Definition ledger_typed (l : Ledger) : Prop :=
  (∀ k r, reservations l !! k = Some r → request_typed (rsv_Request r))
  ∧ (∀ f, led_LastReleaseFence l = Some f → fence_typed f).

Lemma dec_fence_json f : fence_typed f → dec_fence None (fence_json f) = Some (Some f).
Proof.
  intros He. rewrite fence_json_members. unfold dec_fence.
  rewrite known_members by (by vm_compute). cbn [negb].
  cbn [default fence_ReservationID fence_PolicyEpoch fence_TopologyLockID fence_DrainSessionToken
       fence_DrainChildUID].
  set (fs := fence_members f).
  read fence_keys fs "reservationID" (str_read (fence_ReservationID f)).
  read fence_keys fs "policyEpoch" (dec_jint _ He).
  read fence_keys fs "topologyLockID" (str_read (fence_TopologyLockID f)).
  read fence_keys fs "drainSessionToken" (optstr_read (fence_DrainSessionToken f)).
  read fence_keys fs "drainChildUID" (optstr_read (fence_DrainChildUID f)).
  by destruct f.
Qed.

Lemma dec_ledger_json l :
  ledger_typed l → led_Reservations l = Some (reservations l) →
  (∀ k r, reservations l !! k = Some r → ∀ raw, rsv_State r ≠ ReservationOther raw) →
  dec_ledger (ledger_json l) = Some l.
Proof.
  intros [Hq Hf] Hm Hst. rewrite ledger_json_members. unfold dec_ledger.
  rewrite known_members by (by vm_compute). cbn [negb]. set (fs := ledger_members l).
  read ledger_keys fs "version" (str_read (led_Version l)).
  read ledger_keys fs "uid" (str_read (led_UID l)).
  assert (dec_field (dec_map dec_reservation zeroReservation) "reservations" None (members fs)
          = Some (Some (reservations l))) as ->.
  { eapply read_member; [apply ledger_keys|reflexivity..|]. subst fs. simpl. rewrite Hm. simpl.
    rewrite dec_entries_sorted; [done|]. intros k r Hk. apply dec_reservation_json; eauto. }
  cbn [mbind option_bind].
  assert (dec_field dec_fence "lastReleaseFence" None (members fs)
          = Some (led_LastReleaseFence l)) as ->.
  { eapply read_member; [apply ledger_keys|reflexivity..|]. subst fs. simpl.
    destruct (led_LastReleaseFence l) as [f|]; simpl; [|done]. apply dec_fence_json. auto. }
  cbn [mbind option_bind]. rewrite <- Hm. by destruct l.
Qed.

(** ** A well-formed ledger prints ASCII *)

Lemma ascii_all_bytes p s :
  (∀ b, p b = true → b < 128) → all_bytes p s = true → ascii_string s.
Proof.
  intros Hp Hs. unfold ascii_string. apply Forall_forall. intros c Hc.
  rewrite all_bytes_spec in Hs. apply Hp. auto.
Qed.

Lemma printable_ascii s : all_bytes printable s = true → ascii_string s.
Proof. apply ascii_all_bytes. intros b Hb. unfold printable in Hb. go_bool. lia. Qed.

Lemma bounded_ascii s n : bounded_identity s n → ascii_string s.
Proof. intros (_ & _ & Hp). by apply printable_ascii. Qed.

Lemma alnum_lt b : alnum b = true → b < 128.
Proof. unfold alnum, lower_alnum. intros Hb. go_bool. lia. Qed.

Lemma lower_alnum_lt b : lower_alnum b = true → b < 128.
Proof. unfold lower_alnum. intros Hb. go_bool. lia. Qed.

Lemma digit_ascii n : 0 ≤ n ≤ 9 → ascii_byte (digit n).
Proof. intros. unfold ascii_byte. rewrite byte_val_digit; lia. Qed.

Lemma dec_digits_ascii fuel n acc :
  Forall ascii_byte acc → Forall ascii_byte (dec_digits fuel n acc).
Proof.
  revert n acc. induction fuel as [|f IH]; intros n acc Ha; simpl; [done|].
  pose proof (Z.mod_pos_bound n 10 ltac:(lia)).
  case_match; [|apply IH]; constructor; auto; apply digit_ascii; lia.
Qed.

Lemma FormatInt_ascii n : Forall ascii_byte (FormatInt n).
Proof. unfold FormatInt. case_match; [constructor; [done|]|]; by apply dec_digits_ascii. Qed.

Lemma fixed_ascii w n : Forall ascii_byte (fixed w n).
Proof.
  revert n. induction w as [|w IH]; intros n; simpl; [done|]. apply Forall_app. split; [done|].
  pose proof (Z.mod_pos_bound n 10 ltac:(lia)). constructor; [apply digit_ascii; lia|done].
Qed.

Lemma drop_trailing_zeros_ascii l : Forall ascii_byte l → Forall ascii_byte (drop_trailing_zeros l).
Proof.
  induction 1 as [|c l Hc Hl IH]; simpl; [done|]. destruct (drop_trailing_zeros l) eqn:Hd.
  - case_match; auto.
  - by constructor.
Qed.

Lemma FormatRFC3339Nano_ascii t : ascii_string (FormatRFC3339Nano t).
Proof.
  unfold ascii_string, FormatRFC3339Nano, format_bytes. rewrite bytes_of_of.
  destruct (civil_of_days _) as [[y m] d]. unfold format_year.
  repeat first [apply fixed_ascii | by repeat constructor | apply Forall_app_2].
  - case_match; [apply fixed_ascii|apply FormatInt_ascii].
  - pose proof (drop_trailing_zeros_ascii _ (fixed_ascii 9 (t mod nsPerDay mod nsPerSecond))).
    destruct (drop_trailing_zeros _); [done|]. by constructor.
Qed.

Lemma fromHexChar_ascii c n : fromHexChar c = Some n → ascii_byte c.
Proof. unfold fromHexChar, ascii_byte. intros Hc. repeat case_match; go_bool; try done; lia. Qed.

Lemma hex_ascii s ds : hex_DecodeString s = Some ds → ascii_string s.
Proof.
  unfold hex_DecodeString, ascii_string. generalize (bytes_of s). intros l. revert ds.
  induction l as [l IH] using (induction_ltof1 _ length). destruct l as [|a [|b l]]; simpl; [done..|].
  intros ds Hd. repeat (case_match; [|done]).
  repeat constructor; eauto using fromHexChar_ascii. eapply (IH l); [unfold ltof; simpl; lia|done].
Qed.

Section clean.
Context `{K8sValidation, UuidLib, !K8sValidationSpec H, !UuidLibSpec H0}.

Lemma canonical_ascii s t : parseCanonicalLedgerTime s = Some t → ascii_string s.
Proof.
  unfold parseCanonicalLedgerTime, canonicalLedgerTime. intros Hp.
  destruct (ParseRFC3339Nano s) as [t'|]; [|done]. case_match eqn:Hc; [done|].
  apply negb_false_iff, bool_decide_eq_true in Hc. rewrite Hc.
  case_match; [by constructor|]. apply FormatRFC3339Nano_ascii.
Qed.

Lemma token_ascii s : validDrainSessionToken s = true → ascii_string s.
Proof.
  unfold validDrainSessionToken. case_match; [|done].
  intros [_ Hs%bool_decide_eq_true]%andb_true_iff. rewrite <- Hs.
  apply printable_ascii, uuid_String_spec.
Qed.

Lemma domain_entry_ascii k v : validDomainEntry k v = None → ascii_string k ∧ ascii_string v.
Proof.
  unfold validDomainEntry. rewrite !ret_if_None, !negb_false_iff.
  intros (_ & [_ Hk]%qualified_name_spec & [_ Hv]%label_value_spec & _).
  split; eapply ascii_all_bytes; try done; intros b Hb; go_bool;
    destruct_or?; try (apply alnum_lt; done); lia.
Qed.

Lemma group_ascii g : IsDNS1123Label g = true → ascii_string g.
Proof.
  intros (_ & _ & Hg)%dns_label_spec. eapply ascii_all_bytes; [|done].
  intros b Hb. go_bool. destruct Hb; [by apply lower_alnum_lt|lia].
Qed.

Lemma drain_ascii r : drain_progress r →
  ascii_string (rsv_DrainSessionToken r) ∧ ascii_string (rsv_DrainStartedAt r)
  ∧ ascii_string (rsv_DrainCompletedAt r).
Proof.
  intros [-> -> ->|t0 Ht Hs ->|t0 t1 Ht Hs Hc _]; split_and!; try (by constructor);
    eauto using token_ascii, canonical_ascii.
Qed.

Lemma child_ascii r : state_shape r → ascii_string (rsv_ChildUID r).
Proof.
  unfold state_shape. case_match; try done; intros; destruct_and?; eauto using bounded_ascii.
  simplify_eq. match goal with H : rsv_ChildUID r = "" |- _ => rewrite H end. by constructor.
Qed.

Lemma clean_members fs :
  Forall (λ kv, ascii_string kv.1 ∧ ∀ j, kv.2 = Some j → clean j) fs → clean (JObj (members fs)).
Proof.
  induction 1 as [|[k [j|]] fs [Hk Hj] Hfs IH]; simpl; [done| |done].
  split_and!; [done|by apply Hj|done].
Qed.

Lemma clean_entries {V} (f : V → json) (m : gmap string V) :
  (∀ k v, m !! k = Some v → ascii_string k ∧ clean (f v)) →
  clean (JObj (map (λ kv, (kv.1, f kv.2)) (sorted_entries m))).
Proof.
  intros Hm. assert (∀ kv, kv ∈ sorted_entries m → ascii_string kv.1 ∧ clean (f kv.2)) as Hl.
  { intros [k v] Hk%sorted_entries_elem. by apply Hm. }
  induction (sorted_entries m) as [|kv l IH]; simpl; [done|].
  split; [apply Hl; left|]. apply IH. intros. apply Hl. by right.
Qed.

Lemma clean_strings l : (∀ s, s ∈ l → ascii_string s) → clean (JArr (map JStr l)).
Proof.
  intros Hl. induction l as [|s l IH]; simpl; [done|].
  split; [apply Hl; left|]. apply IH. intros. apply Hl. by right.
Qed.

Lemma clean_jint n : 0 ≤ n → clean (jint n).
Proof. intros Hn. by destruct (FormatInt_spec n Hn). Qed.

Lemma clean_optstr v j : ascii_string v → optstr v = Some j → clean j.
Proof. unfold optstr. intros Hv Hj. case_match; by simplify_eq. Qed.

Lemma state_string_ascii r : state_shape r → ascii_string (state_string (rsv_State r)).
Proof. unfold state_shape. case_match; try done; intros _; by repeat constructor. Qed.

Lemma clean_reservation r :
  reservation_wf r → request_typed (rsv_Request r) → clean (reservation_json r).
Proof.
  intros [[] Hd Hs] (He & Hrev & _). rewrite reservation_json_members. apply clean_members.
  destruct (drain_ascii r Hd) as (? & ? & ?). pose proof (child_ascii r Hs).
  destruct_and!. unfold reservation_members.
  repeat (apply Forall_cons; split; [split; [by repeat constructor|]|]); [..|done];
    cbn [fst snd]; intros j Hj; simplify_eq; try (by eapply clean_optstr; [|exact Hj]);
    try (by eapply bounded_ascii); try (apply clean_jint; lia).
  - apply (clean_entries JStr). intros k v Hk. apply domain_entry_ascii. auto.
  - case_match; simplify_eq. apply clean_strings. intros. apply group_ascii. auto.
  - by apply state_string_ascii.
Qed.

Lemma clean_fence f : fence_wf f → fence_typed f → clean (fence_json f).
Proof.
  intros (Hid & Hep & Hl & Hd) [He _]. rewrite fence_json_members. apply clean_members.
  assert (ascii_string (fence_TopologyLockID f)) as Hla.
  { unfold validTopologyLockID in Hl. case_match; [done|]. case_match eqn:Hh; [|done].
    by eapply hex_ascii. }
  assert (ascii_string (fence_DrainSessionToken f) ∧ ascii_string (fence_DrainChildUID f)) as [? ?].
  { destruct Hd as [[-> ->]|[? ?]]; [by split; constructor|].
    eauto using token_ascii, bounded_ascii. }
  repeat (apply Forall_cons; split; [split; [by repeat constructor|]|]); [..|done];
    cbn [fst snd]; intros j Hj; simplify_eq; try (by eapply clean_optstr; [|exact Hj]);
    try (by eapply bounded_ascii); try (apply clean_jint; lia); done.
Qed.
End clean.

(** ** Round trip *)

Lemma state_known r : state_shape r → ∀ raw, rsv_State r ≠ ReservationOther raw.
Proof. unfold state_shape. by destruct (rsv_State r). Qed.

Section roundtrip.
Context `{K8sValidation, UuidLib, !K8sValidationSpec H, !UuidLibSpec H0}.

Lemma clean_ledger l : ledger_wf l → ledger_typed l → clean (ledger_json l).
Proof.
  intros [Hv Hu Hm _ Hf [He _ _ _ _ _]] [Hq Hft]. rewrite ledger_json_members.
  apply clean_members.
  repeat (apply Forall_cons; split; [split; [by repeat constructor|]|]); [..|done];
    cbn [fst snd]; intros j Hj; simplify_eq.
  - rewrite Hv. by repeat constructor.
  - by eapply bounded_ascii.
  - rewrite Hm. apply (clean_entries reservation_json). intros k r Hk.
    destruct (He k r Hk) as (_ & -> & Hw). split; [|by eauto using clean_reservation].
    eapply bounded_ascii, rw_id, rsw_request. done.
  - destruct (led_LastReleaseFence l) as [f|]; simpl in Hj; simplify_eq. apply clean_fence; auto.
Qed.

Lemma Encode_size l maxBytes data :
  Encode l maxBytes = inl data →
  data = Marshal (ledger_json l) ∧ slen data ≤ DefaultMaxSerializedBytes.
Proof.
  unfold Encode. intros He. repeat (case_match; try done); go_bool; simplify_eq;
    split; try done; lia.
Qed.

Lemma Decode_Encode_lemma l maxBytes data :
  ledger_wf l → ledger_typed l → Encode l maxBytes = inl data → Decode data (led_UID l) = inl l.
Proof.
  intros Hw Ht He. apply Encode_size in He as [-> Hs]. destruct Hw as [Hv Hu Hm Hsz Hf Hen].
  unfold Decode.
  assert (TrimSpace (led_UID l) ≠ "") as Hne.
  { destruct Hu as (? & _ & Hp). by rewrite TrimSpace_printable. }
  rewrite (bool_decide_eq_false_2 _ Hne), (proj2 (Z.ltb_ge _ _) Hs).
  rewrite parse_document_Marshal by (apply clean_ledger; [by split|done]).
  cbn [mbind option_bind]. rewrite dec_ledger_json; [|done|done|].
  2: { intros k r Hk. destruct (ew_entry _ Hen k r Hk) as (_ & _ & []). by apply state_known. }
  rewrite !bool_decide_eq_true_2 by done. cbn [negb orb].
  rewrite (proj2 (validatePersistedLedger_iff l)); [done|by split].
Qed.
End roundtrip.
