(* ===== verification/LedgerExamples.v ===== *)
(** * The rollout ledger: a concrete fleet

    Two devices in different zones that share a risk group, a policy with room
    for one transfer per zone, and the requests of one campaign.  The theorems'
    witnesses evaluate the model on these values, with the reference instances
    of Interfaces.v for the packages outside the repository. *)

From S2P Require Import Prelude GoLib GoTime Json Interfaces LedgerData Ledger LedgerSpec.
From S2P Require Import LedgerOps LedgerHistory LedgerCodec.

#[export] Existing Instance k8s_reference.
#[export] Existing Instance uuid_reference.

Definition exHash : string :=
  "sha256:00112233445566778899aabbccddeeff00112233445566778899aabbccddeeff".
Definition exLock : string := "00112233445566778899aabbccddeeff".
Definition exToken : string := "123e4567-e89b-42d3-a456-426614174000".

Definition exMember (n zone : string) : Member :=
  {| mem_PhysicalID := "phys-" +:+ n; mem_DeviceUID := "dev-" +:+ n; mem_NodeUID := "node-" +:+ n;
     mem_Domains := {[ "zone" := zone ]}; mem_RiskGroups := ["rg-a"]; mem_HealthKnown := true;
     mem_Healthy := true; mem_Maintenance := false; mem_HealthObserved := 20 |}.

Definition exMembers : list Member := [exMember "1" "east"; exMember "2" "west"].

Definition exPolicy : Policy :=
  {| pol_UID := "policy-uid"; pol_Version := "v7"; pol_Epoch := 3;
     pol_GlobalMaxConcurrentTransfers := 2; pol_GlobalMaxUnavailable := 2;
     pol_DomainTransferBudgets := {[ "zone" := 1 ]}; pol_DomainBudgets := {[ "zone" := 1 ]};
     pol_RiskGroupBudgets := {[ "rg-a" := {| rgb_MaxConcurrentTransfers := 2;
                                             rgb_MaxUnavailable := 2 |} ]};
     pol_MaxActiveRecords := 0; pol_MaxSerializedBytes := 0; pol_RequiredHealthFreshBy := 10 |}.

Definition exRequest (n zone : string) : ReservationRequest :=
  {| req_ID := "rsv-" +:+ n; req_CampaignUID := "campaign"; req_PlanHash := exHash;
     req_PolicyUID := "policy-uid"; req_PolicyVersion := "v7"; req_PolicyEpoch := 3;
     req_TopologyLockID := exLock; req_PhysicalID := "phys-" +:+ n; req_DeviceUID := "dev-" +:+ n;
     req_NodeUID := "node-" +:+ n; req_ChildNamespace := "fleet"; req_ChildName := "child-" +:+ n;
     req_Domains := {[ "zone" := zone ]}; req_RiskGroups := ["rg-a"];
     req_CampaignMaxConcurrentTransfers := 2; req_CampaignMaxUnavailable := 0;
     req_CampaignTransferLimits := ∅; req_CampaignLimits := ∅; req_ControlRevision := 1 |}.

Definition exNew : Ledger :=
  {| led_Version := LedgerVersion; led_UID := "ledger-uid"; led_Reservations := Some ∅;
     led_LastReleaseFence := None |}.

(** The ledger after the first device is admitted, and after each further step of
    its drain. *)
Definition exReserved : Ledger := put exNew "rsv-1" (freshReservation (exRequest "1" "east")).
Definition exBound : Ledger := (run_op (OpBindChild "rsv-1" "child-uid-1") exReserved).1.
Definition exDraining : Ledger :=
  (run_op (OpBeginDrain "rsv-1" "ledger-uid" "child-uid-1" exToken 2 1000) exBound).1.
Definition exGranted : Ledger :=
  (run_op (OpPromoteDrain "rsv-1" "ledger-uid" "child-uid-1" exToken 3 2000) exDraining).1.
Definition exSettle : ledger_op :=
  OpSettleDrained "rsv-1" "ledger-uid" exLock "child-uid-1" exToken 3 true true true.
Definition exSettled : Ledger := (run_op exSettle exGranted).1.

(** The record of the first device in a ledger. *)
Definition exRsv (l : Ledger) : Reservation :=
  default zeroReservation (reservations l !! "rsv-1").

Example exReserved_step :
  run_op (OpReserve exPolicy exMembers (exRequest "1" "east")) exNew = (exReserved, None).
Proof. vm_compute. reflexivity. Qed.

(** The second device fits; a second transfer in the first zone does not. *)
Example exSecond_step :
  (run_op (OpReserve exPolicy exMembers (exRequest "2" "west")) exReserved).2 = None
  ∧ errors_is (run_op (OpReserve exPolicy [exMember "1" "east"; exMember "2" "east"]
                        (exRequest "2" "east")) exReserved).2 ErrBudgetExceeded = true.
Proof. vm_compute. split; reflexivity. Qed.

Example exDrain_steps :
  run_op (OpBindChild "rsv-1" "child-uid-1") exReserved = (exBound, None)
  ∧ run_op (OpBeginDrain "rsv-1" "ledger-uid" "child-uid-1" exToken 2 1000) exBound = (exDraining, None)
  ∧ run_op (OpPromoteDrain "rsv-1" "ledger-uid" "child-uid-1" exToken 3 2000) exDraining
    = (exGranted, None)
  ∧ run_op exSettle exGranted = (exSettled, None).
Proof. vm_compute. split_and!; reflexivity. Qed.

Lemma exGranted_valid : validatePersistedLedger exGranted = None.
Proof. vm_compute. reflexivity. Qed.

Example exGranted_codec :
  match Encode exGranted 0 with
  | inl data => Decode data "ledger-uid" = inl exGranted
  | inr _ => False
  end.
Proof. vm_compute. reflexivity. Qed.
