(* ===== verification/LedgerTheorems.v ===== *)
(** * The rollout ledger: its properties

    What package topologyrollout promises about the ledger, each theorem with a
    witness on the fleet of LedgerExamples.v. *)

From S2P Require Import Prelude GoLib GoTime Json JsonProofs Interfaces LedgerData Ledger.
From S2P Require Import LedgerSpec LedgerOps LedgerReplay LedgerTotal LedgerAdmission.
From S2P Require Import LedgerHistory LedgerCodec LedgerExamples.

(** C1: a successful [Reserve] of a new reservation admits an available target
    and leaves a well-formed ledger in which every budget it is subject to holds:
    global, per campaign, per domain and per risk group, for unavailable devices
    and for transfers. *)
Theorem Reserve_within_budgets `{K8sValidation, UuidLib, !UuidLibSpec H0}
    policy members request l l' :
  Reserve policy members request l = (l', None) →
  reservations l !! req_ID request = None →
  l' = put l (req_ID request) (freshReservation request) ∧ ledger_wf l'
  ∧ ∃ canonical target,
      canonicalizeMembers members = inl canonical
      ∧ canonical !! req_PhysicalID request = Some target
      ∧ unavailable target policy = false
      ∧ budgets_hold canonical policy request l'.
Proof.
  intros Hr Hid. destruct (Reserve_budgets _ _ _ _ _ Hr Hid) as (canonical & Hc & Hb).
  apply Reserve_success in Hr as (_ & _ & [?|canonical' target _ _ Hc' Ht _ _ Hchk _ _ _ Hl' Hv _]);
    [congruence|]. rewrite Hc in Hc'. simplify_eq.
  split_and!; [done|apply validatePersistedLedger_iff; exact Hv|].
  eexists _, target. split_and!; try done.
  unfold reserveTargetChecks in Hchk. by apply ret_if_None in Hchk as [? _].
Qed.

Lemma Reserve_within_budgets_witness :
  ledger_wf exReserved ∧ mlen (reservations exReserved) = 1.
Proof.
  split; [|vm_compute; reflexivity].
  destruct (Reserve_within_budgets exPolicy exMembers (exRequest "1" "east") exNew exReserved)
    as (_ & Hw & _).
  - exact exReserved_step.
  - vm_compute. reflexivity.
  - exact Hw.
Defined.

(** C2: in every history of operations, in any order and with any failures, in
    which each admission used a policy at least as strict as [P], the devices the
    ledger holds are distinct and stay within the budgets of [P]: globally, in
    every value of every budgeted domain, and in every risk group. *)
Theorem reachable_within_budgets `{K8sValidation, UuidLib, !UuidLibSpec H0} P l :
  nonnegative P → reachable P l → occupancy_bounded P l.
Proof. apply reachable_occupancy. Qed.

Lemma exPolicy_nonnegative : nonnegative exPolicy.
Proof.
  split; simpl; [lia|..]; intros k v [<- <-]%lookup_singleton_Some; simpl; lia.
Qed.

Lemma exReserved_reachable : reachable exPolicy exReserved.
Proof.
  eapply ReachStep; [|..|exact exReserved_step].
  - by apply (ReachNew _ "ledger-uid").
  - intros p members q [= <- <- <-]. apply tighter_refl.
Qed.

Lemma reachable_within_budgets_witness : activeReservationsInDomain exReserved "zone" "east" ≤ 1.
Proof.
  apply (ob_domain exPolicy exReserved
    (reachable_within_budgets exPolicy exReserved exPolicy_nonnegative exReserved_reachable) "zone").
  vm_compute. reflexivity.
Defined.

(** C3: every operation keeps a well-formed ledger well formed, whether it
    succeeds or fails, for inputs as its callers provide them. *)
Theorem run_op_preserves_wf `{K8sValidation, UuidLib, !UuidLibSpec H0} op l l' e :
  ledger_wf l → op_inputs_ok op l → run_op op l = (l', e) → ledger_wf l'.
Proof. apply run_op_wf. Qed.

Lemma exReserved_wf : ledger_wf exReserved.
Proof. apply validatePersistedLedger_iff. vm_compute. reflexivity. Qed.

Lemma exBound_wf : ledger_wf exBound.
Proof. apply validatePersistedLedger_iff. vm_compute. reflexivity. Qed.

Lemma run_op_preserves_wf_witness : ledger_wf exDraining.
Proof.
  apply (run_op_preserves_wf (OpBeginDrain "rsv-1" "ledger-uid" "child-uid-1" exToken 2 1000)
           exBound exDraining None).
  - exact exBound_wf.
  - split; [vm_compute; discriminate|split; vm_compute; reflexivity].
  - apply exDrain_steps.
Defined.

(** C4: a reservation that stays in the ledger keeps every identity it was
    admitted with, its control revision never goes back, and it takes one of the
    transitions of the reservation life cycle allowed to that operation. *)
Theorem run_op_refines_lifecycle `{K8sValidation, UuidLib} op l l' id r r' :
  run_op op l = (l', None) →
  reservations l !! id = Some r → reservations l' !! id = Some r' →
  same_identity r r' ∧ lifecycle r r' op.
Proof. intros H1 H2 H3. destruct (run_op_lifecycle _ _ _ _ _ _ H1 H2 H3) as (? & ? & _). done. Qed.

Lemma exBound_entry : reservations exBound !! "rsv-1" = Some (exRsv exBound).
Proof. vm_compute. reflexivity. Qed.

Lemma exDraining_entry : reservations exDraining !! "rsv-1" = Some (exRsv exDraining).
Proof. vm_compute. reflexivity. Qed.

Lemma run_op_refines_lifecycle_witness :
  rsv_State (exRsv exBound) = ReservationBound ∧ rsv_State (exRsv exDraining) = ReservationDraining
  ∧ same_identity (exRsv exBound) (exRsv exDraining).
Proof.
  split; [vm_compute; reflexivity|]. split; [vm_compute; reflexivity|].
  exact (proj1 (run_op_refines_lifecycle _ exBound exDraining "rsv-1" _ _
    (proj1 (proj2 exDrain_steps)) exBound_entry exDraining_entry)).
Defined.

(** C5: a reservation leaves the ledger only by settlement with resolved outcome
    and passed health gate, by session-bound drain settlement (which also needs
    recovered workloads), by an unclaimed release or by fencing an unbound
    acquisition; a reservation that carries a drain session token only by the
    session-bound settlement of that token.  The fence of its exact acquisition
    is recorded in the same step. *)
Theorem run_op_discharge_evidence `{K8sValidation, UuidLib} op l l' id r :
  ledger_wf l → run_op op l = (l', None) →
  reservations l !! id = Some r → reservations l' !! id = None →
  discharge id r l' op
  ∧ HasReleaseFence l' id (req_PolicyEpoch (rsv_Request r)) (req_TopologyLockID (rsv_Request r)) = true
  ∧ (rsv_DrainSessionToken r ≠ "" →
     ∃ u lock ep, op = OpSettleDrained id u lock (rsv_ChildUID r) (rsv_DrainSessionToken r) ep
                         true true true).
Proof.
  intros Hw Hr Hid Hid'. destruct (run_op_discharges _ _ _ _ _ Hr Hid Hid') as [Hd Hf].
  split_and!; [done|done|]. intros Ht.
  destruct (ew_entry _ (lw_entries _ Hw) _ _ Hid) as (_ & _ & [_ _ Hs]).
  destruct Hd as [lock c ep Ht'|u lock c t ep Hc HC _ _ _|lock c rev ep Ht'|lock ep HS HC];
    [congruence| |congruence|].
  - destruct Hc as [[<- _]|[_ (Htok & _)%hasDrainProvenance_false]]; [|congruence].
    subst c. eauto.
  - unfold state_shape in Hs. rewrite HS in Hs.
    destruct Hs as [_ (Htok & _)%hasDrainProvenance_false]. congruence.
Qed.

Lemma exGranted_wf : ledger_wf exGranted.
Proof. apply validatePersistedLedger_iff, exGranted_valid. Qed.

Lemma exGranted_entry : reservations exGranted !! "rsv-1" = Some (exRsv exGranted).
Proof. vm_compute. reflexivity. Qed.

Lemma exSettled_entry : reservations exSettled !! "rsv-1" = None.
Proof. vm_compute. reflexivity. Qed.

Lemma run_op_discharge_evidence_witness :
  HasReleaseFence exSettled "rsv-1" (req_PolicyEpoch (rsv_Request (exRsv exGranted)))
    (req_TopologyLockID (rsv_Request (exRsv exGranted))) = true.
Proof.
  exact (proj1 (proj2 (run_op_discharge_evidence exSettle exGranted exSettled "rsv-1"
    (exRsv exGranted) exGranted_wf (proj2 (proj2 (proj2 exDrain_steps))) exGranted_entry
    exSettled_entry))).
Defined.

(** C6: an operation that returns an error leaves the ledger exactly as it was,
    also where it had already inserted the new reservation; no operation touches
    another reservation or the ledger's identity; none panics on a ledger that passed
    validation; and repeating an operation that succeeded succeeds again and changes
    nothing, so that a controller that crashed before it saw the result may retry. *)
Theorem run_op_error_atomic `{K8sValidation, UuidLib} op l l' e :
  run_op op l = (l', e) →
  (e ≠ None → l' = l)
  ∧ led_UID l' = led_UID l ∧ led_Version l' = led_Version l
  ∧ (∀ id, id ≠ op_id op → reservations l' !! id = reservations l !! id)
  ∧ (ledger_wf l → panics e = false)
  ∧ (e = None → run_op op l' = (l', None)).
Proof.
  intros Hr. destruct (run_op_frame _ _ _ _ Hr) as (? & ? & ?). split_and!; try done.
  - intros He. destruct e as [e|]; [|done]. by eapply run_op_error.
  - intros Hw. pose proof (run_op_panics op l) as Hp. rewrite Hr in Hp. apply Hp. by rewrite (lw_map _ Hw).
  - intros ->. by eapply run_op_replay.
Qed.

Lemma run_op_error_atomic_witness :
  (run_op (OpReserve exPolicy [exMember "1" "east"; exMember "2" "east"] (exRequest "2" "east"))
     exReserved).1 = exReserved
  ∧ run_op exSettle exSettled = (exSettled, None).
Proof.
  split.
  - refine (proj1 (run_op_error_atomic _ exReserved _ _ (surjective_pairing _)) _).
    vm_compute. discriminate.
  - apply (run_op_error_atomic exSettle exGranted exSettled None (proj2 (proj2 (proj2 exDrain_steps)))). reflexivity.
Defined.

(** C10: duplicate observations of a device never make it look healthier: a
    canonical member is unavailable exactly when one of the observations of that
    physical device is, and exactly the observed devices are members. *)
Theorem canonicalizeMembers_conservative `{K8sValidation} policy members canonical id :
  canonicalizeMembers members = inl canonical →
  (is_Some (canonical !! id) ↔ observed members id = true)
  ∧ (∀ m, canonical !! id = Some m →
       unavailable m policy = someUnavailable policy members id).
Proof.
  intros Hc%(canonicalizeLoop_unavailable policy _ _ _ id). rewrite lookup_empty in Hc.
  destruct (canonical !! id) as [m|].
  - destruct Hc as [Hu Ho]. split; [|by intros ? [= <-]]. split; eauto.
  - destruct Hc as [_ Ho]. rewrite Ho. split; [|done]. by split; [intros []|].
Qed.

Definition exDuplicated : list Member :=
  [exMember "1" "east"; {| mem_PhysicalID := "phys-1"; mem_DeviceUID := "dev-1";
     mem_NodeUID := "node-1"; mem_Domains := {[ "zone" := "east" ]}; mem_RiskGroups := ["rg-a"];
     mem_HealthKnown := true; mem_Healthy := false; mem_Maintenance := false;
     mem_HealthObserved := 30 |}].

Lemma canonicalizeMembers_conservative_witness :
  match canonicalizeMembers exDuplicated with
  | inl canonical => ∀ m, canonical !! "phys-1" = Some m → unavailable m exPolicy = true
  | inr _ => False
  end.
Proof.
  destruct (canonicalizeMembers exDuplicated) as [canonical|] eqn:Hc.
  - exact (proj2 (canonicalizeMembers_conservative exPolicy exDuplicated canonical "phys-1" Hc)).
  - vm_compute in Hc. discriminate.
Defined.

(** C11: once a reservation has been released, a delayed [Reserve] of the same
    acquisition (same reservation ID, policy epoch and topology lock) is refused
    with [ErrStaleControlRevision] or on its inputs, and changes nothing. *)
Theorem release_blocks_delayed_reserve `{K8sValidation, UuidLib} op l l' id r policy members q :
  run_op op l = (l', None) →
  reservations l !! id = Some r → reservations l' !! id = None →
  req_ID q = id → req_PolicyEpoch q = req_PolicyEpoch (rsv_Request r) →
  req_TopologyLockID q = req_TopologyLockID (rsv_Request r) →
  ∃ e, Reserve policy members q l' = (l', Some e)
    ∧ (validateInputs l' policy q = None → errors_is (Some e) ErrStaleControlRevision = true).
Proof.
  intros Hr Hid Hid' <- He Hk. destruct (run_op_discharges _ _ _ _ _ Hr Hid Hid') as [_ Hf].
  unfold HasReleaseFence in Hf. rewrite <- He, <- Hk in Hf.
  unfold Reserve. destruct (validateInputs l' policy q); [by eexists; split|].
  rewrite Hf. by eexists.
Qed.

Lemma release_blocks_delayed_reserve_witness :
  ∃ e, Reserve exPolicy exMembers (exRequest "1" "east") exSettled = (exSettled, Some e).
Proof.
  destruct (release_blocks_delayed_reserve exSettle exGranted exSettled "rsv-1" (exRsv exGranted)
    exPolicy exMembers (exRequest "1" "east")) as (e & He & _).
  - exact (proj2 (proj2 (proj2 exDrain_steps))).
  - exact exGranted_entry.
  - exact exSettled_entry.
  - reflexivity.
  - vm_compute. reflexivity.
  - vm_compute. reflexivity.
  - exists e. exact He.
Defined.

(** Drain provenance is immutable: no operation rewrites or clears the
    session token, the start time, a recorded completion time or the child of a
    reservation that has it. *)
Lemma drain_provenance_immutable `{K8sValidation, UuidLib} op l l' e id r r' :
  run_op op l = (l', e) →
  reservations l !! id = Some r → reservations l' !! id = Some r' →
  hasDrainProvenance r = true →
  rsv_DrainSessionToken r' = rsv_DrainSessionToken r
  ∧ rsv_DrainStartedAt r' = rsv_DrainStartedAt r
  ∧ (rsv_DrainCompletedAt r ≠ "" → rsv_DrainCompletedAt r' = rsv_DrainCompletedAt r)
  ∧ (rsv_ChildUID r ≠ "" → rsv_ChildUID r' = rsv_ChildUID r).
Proof.
  intros Hr Hid Hid' Hp. destruct e as [e|].
  { apply run_op_error in Hr as ->. rewrite Hid in Hid'. by simplify_eq. }
  destruct (run_op_lifecycle _ _ _ _ _ _ Hr Hid Hid') as (_ & Hlc & _).
  by eapply lifecycle_provenance.
Qed.

Lemma Decode_sound `{K8sValidation, UuidLib, !UuidLibSpec H0} data uid :
  match Decode data uid with
  | inl l => ledger_wf l ∧ led_UID l = uid ∧ slen data ≤ DefaultMaxSerializedBytes
  | inr e => errors_is (Some e) ErrLedgerIdentity = true
  end.
Proof.
  unfold Decode. destruct (TrimSpace uid == ""); [done|].
  destruct (_ <? slen data) eqn:Hs; [done|].
  destruct (parse_document data ≫= dec_ledger) as [l|]; [|done].
  destruct (_ || _) eqn:Hu; [done|]. destruct (validatePersistedLedger l) eqn:Hv.
  - rewrite <- Hv. apply validatePersistedLedger_error. by rewrite Hv.
  - go_bool. destruct Hu as [_ Hu]. split_and!; [by apply validatePersistedLedger_iff|done|lia].
Qed.

(** C13: decoding what [Encode] wrote gives the ledger back, for every
    well-formed ledger whose numbers fit their Go types.  Whatever [Decode] accepts is
    a well-formed ledger with the expected UID, and whatever it rejects it rejects with
    [ErrLedgerIdentity]: malformed, oversized, trailing or unknown data freezes
    admission.  [validatePersistedLedger] accepts exactly the well-formed ledgers, and
    rejects every other one with [ErrLedgerIdentity]. *)
Theorem Decode_Encode `{K8sValidation, UuidLib, !K8sValidationSpec H, !UuidLibSpec H0} :
  (∀ l maxBytes data,
     ledger_wf l → ledger_typed l → Encode l maxBytes = inl data → Decode data (led_UID l) = inl l)
  ∧ (∀ data uid,
       match Decode data uid with
       | inl l => ledger_wf l ∧ led_UID l = uid ∧ slen data ≤ DefaultMaxSerializedBytes
       | inr e => errors_is (Some e) ErrLedgerIdentity = true
       end)
  ∧ ∀ l, (validatePersistedLedger l = None ↔ ledger_wf l)
      ∧ (validatePersistedLedger l ≠ None → errors_is (validatePersistedLedger l) ErrLedgerIdentity = true).
Proof.
  split; [intros l maxBytes data; apply Decode_Encode_lemma|]. split; [apply Decode_sound|].
  intros l. split; [apply validatePersistedLedger_iff|apply validatePersistedLedger_error].
Qed.

Lemma exGranted_fence : led_LastReleaseFence exGranted = None.
Proof. vm_compute. reflexivity. Qed.

Lemma exGranted_only : reservations exGranted = {[ "rsv-1" := exRsv exGranted ]}.
Proof. vm_compute. reflexivity. Qed.

Lemma exRsv_typed : request_typed (rsv_Request (exRsv exGranted)).
Proof.
  unfold request_typed, clearCampaignLimits.
  split_and!; vm_compute; first [reflexivity|discriminate].
Qed.

Lemma exGranted_typed : ledger_typed exGranted.
Proof.
  unfold ledger_typed. rewrite exGranted_only, exGranted_fence. split; [|done].
  intros k r [_ <-]%lookup_singleton_Some. exact exRsv_typed.
Qed.

Lemma Decode_Encode_witness :
  match Encode exGranted 0 with
  | inl data => Decode data "ledger-uid" = inl exGranted
  | inr _ => False
  end.
Proof.
  destruct (Encode exGranted 0) as [data|] eqn:He.
  - exact (proj1 Decode_Encode exGranted 0 data exGranted_wf exGranted_typed He).
  - vm_compute in He. discriminate.
Defined.
