(* ===== verification/Store.v ===== *)
(** * The ledger store

    src/internal/topologyrollout/store.go: [Store.Read] and [Store.Mutate], the
    compare-and-swap loop that serialises every change of the one ConfigMap that
    holds the ledger.

    The API server, the client and client-go's retry loop are not part of the
    repository: [KubeAPI] and [RetryLib] are their operations and [KubeAPISpec],
    [RetryLibSpec] the documented behaviour the store relies on.  Other writers
    act between any two calls of the store: [env n] is what they do before call
    number [n]. *)

From S2P Require Import Prelude GoLib GoTime Json JsonProofs Interfaces LedgerData Ledger.
From S2P Require Import LedgerSpec LedgerOps LedgerAdmission LedgerHistory LedgerCodec.

Definition LedgerDataKey : string := "ledger.json".

(** ** The API server *)

Record ConfigMap := {
  cm_Namespace : string;
  cm_Name : string;
  cm_UID : string;
  cm_ResourceVersion : string;
  cm_Annotations : gmap string string;
  cm_Data : gmap string string;
}.

Definition NamespacedName : Type := string * string.

Class KubeAPI := {
  KubeState : Type;
  (** The stored object. *)
  kube_object : KubeState → NamespacedName → option ConfigMap;
  (** [client.Reader.Get] of the uncached reader and of the client. *)
  kube_reader_Get : KubeState → NamespacedName → ConfigMap + goerror;
  kube_client_Get : KubeState → NamespacedName → ConfigMap + goerror;
  (** [client.Patch] of [after] as a merge from [before] with the optimistic
      lock: the object the server answers with, or the error. *)
  kube_Patch : KubeState → NamespacedName → ConfigMap → ConfigMap →
    KubeState * (ConfigMap + goerror);
  (** [apierrors.IsConflict]. *)
  IsConflict : goerror → bool;
}.

(** The write of a patch: the server held the version the patch was computed
    from, and now holds [new], which has the patched data and annotations. *)
Definition kube_patched `{KubeAPI} (kube_after : KubeState → KubeState → Prop)
    (s : KubeState) (k : NamespacedName) (before after : ConfigMap)
    (s' : KubeState) (new : ConfigMap) : Prop :=
  kube_after s s'
  ∧ kube_object s' k = Some new
  ∧ (∀ k', k' ≠ k → kube_object s' k' = kube_object s k')
  ∧ ∃ cur, kube_object s k = Some cur ∧ cm_ResourceVersion cur = cm_ResourceVersion before
    ∧ cm_UID new = cm_UID cur
    ∧ (cur = before → cm_Data new = cm_Data after ∧ cm_Annotations new = cm_Annotations after).

(** [kube_after s s']: the server may go from [s] to [s'] by writes of anyone. *)
Class KubeAPISpec (K : KubeAPI) (kube_after : KubeState → KubeState → Prop) : Prop := {
  kube_after_preorder :: PreOrder kube_after;
  (** The uncached reader returns the stored object, the client one that was
      stored at some time. *)
  kube_reader_current s k o : kube_reader_Get s k = inl o → kube_object s k = Some o;
  kube_client_past s k o :
    kube_client_Get s k = inl o → ∃ s0, kube_after s0 s ∧ kube_object s0 k = Some o;
  (** UIDs are short printable strings (UUIDs). *)
  kube_uid s k o : kube_object s k = Some o → bounded_identity (cm_UID o) 128;
  (** A resourceVersion names one content of an object for ever. *)
  kube_version_unique s s' k o o' :
    kube_after s s' → kube_object s k = Some o → kube_object s' k = Some o' →
    cm_ResourceVersion o = cm_ResourceVersion o' → o = o';
  (** A patch that succeeds was written.  One that fails was not, unless the error
      is another one than a conflict: then the answer may have been lost. *)
  kube_patch_ok s k before after s' new :
    kube_Patch s k before after = (s', inl new) → kube_patched kube_after s k before after s' new;
  kube_patch_error s k before after s' e :
    kube_Patch s k before after = (s', inr e) →
    s' = s ∨ (IsConflict e = false ∧ ∃ new, kube_patched kube_after s k before after s' new);
}.

(** ** client-go's retry.RetryOnConflict

    [attempts f i s s' e]: from attempt number [i], attempts that ended in a
    conflict were repeated until one ended in [e], which may be a conflict when
    the backoff gives up.  The state is the server's and that of the variables the
    callback captures. *)
Inductive attempts `{KubeAPI} {S : Type} (f : nat → S → S * option goerror)
    : nat → S → S → option goerror → Prop :=
  | AttemptLast i s s' e : f i s = (s', e) → attempts f i s s' e
  | AttemptAgain i s s1 e1 s' e :
      f i s = (s1, Some e1) → IsConflict e1 = true → attempts f (1 + i)%nat s1 s' e →
      attempts f i s s' e.

Class RetryLib `{KubeAPI} := {
  RetryOnConflict : ∀ {S : Type}, (nat → S → S * option goerror) → S → S * option goerror;
}.

Class RetryLibSpec `{KubeAPI} (R : RetryLib) : Prop := {
  retry_attempts {S : Type} (f : nat → S → S * option goerror) s s' e :
    RetryOnConflict f s = (s', e) → attempts f 0 s s' e;
}.

(** ** Store *)

Record Store := {
  store_Client : bool;       (* Client != nil *)
  store_APIReader : bool;    (* APIReader != nil *)
  store_Key : NamespacedName;
  store_ExpectedUID : string;
}.

Section store.
Context {KA : KubeAPI} {RL : @RetryLib KA} {KV : K8sValidation} {UL : UuidLib}.

Definition Read (s : Store) (k : KubeState) : (ConfigMap * Ledger) + goerror :=
  return_if (negb (store_Client s) || (store_ExpectedUID s == "") || ((store_Key s).2 == "")
             || ((store_Key s).1 == ""))
    (inr (EIs ErrLedgerIdentity "store is incomplete")) ;;
  match (if store_APIReader s then kube_reader_Get k (store_Key s)
         else kube_client_Get k (store_Key s)) with
  | inr e => inr e
  | inl cm =>
      return_if (cm_UID cm != store_ExpectedUID s)
        (inr (EIs ErrLedgerIdentity "unexpected object UID")) ;;
      match Decode (mget (cm_Data cm) LedgerDataKey) (store_ExpectedUID s) with
      | inr e => inr e
      | inl ledger => inl (cm, ledger)
      end
  end.

(** [cm.Data[LedgerDataKey] = string(encoded)] on the copy that is patched. *)
Definition withLedgerData (cm : ConfigMap) (encoded : string) : ConfigMap :=
  {| cm_Namespace := cm_Namespace cm; cm_Name := cm_Name cm; cm_UID := cm_UID cm;
     cm_ResourceVersion := cm_ResourceVersion cm; cm_Annotations := cm_Annotations cm;
     cm_Data := <[LedgerDataKey := encoded]> (cm_Data cm) |}.

(** A callback of [Mutate] may read the API, while others write: in attempt [i] it
    takes the server's state and the ledger. *)
Definition LedgerCallback : Type := nat → KubeState → Ledger → KubeState * (Ledger * option goerror).

(** A callback that does not. *)
Definition pureCallback (mutate : LedgerOp) : LedgerCallback := λ _ k l, (k, mutate l).

(** The callback given to [RetryOnConflict]: attempt number [i]. *)
Definition mutateAttempt (env : nat → KubeState → KubeState) (s : Store) (mutate : LedgerCallback)
    (i : nat) (k : KubeState) : KubeState * option goerror :=
  let k := env (2 * i)%nat k in
  match Read s k with
  | inr e => (k, Some e)
  | inl (cm, ledger) =>
      let '(k, (ledger, err)) := mutate i k ledger in
      match (propagate err ;;
             propagate (validatePersistedLedger ledger) ;;
             return_if (led_UID ledger != store_ExpectedUID s)
               (Some (EIs ErrLedgerIdentity "mutation changed ledger UID")) ;;
             None) with
      | Some e => (k, Some e)
      | None =>
          match Encode ledger DefaultMaxSerializedBytes with
          | inr e => (k, Some e)
          | inl encoded =>
              return_if (mget (cm_Data cm) LedgerDataKey == encoded) (k, None) ;;
              let k := env (2 * i + 1)%nat k in
              let '(k, patched) := kube_Patch k (store_Key s) cm (withLedgerData cm encoded) in
              (k, match patched with inl _ => None | inr e => Some e end)
          end
      end
  end.

(** A nil callback is not a value of the model. *)
Definition MutateWith (env : nat → KubeState → KubeState) (s : Store) (mutate : LedgerCallback)
    (k : KubeState) : KubeState * option goerror :=
  RetryOnConflict (mutateAttempt env s mutate) k.

Definition Mutate (env : nat → KubeState → KubeState) (s : Store) (mutate : LedgerOp)
    (k : KubeState) : KubeState * option goerror :=
  MutateWith env s (pureCallback mutate) k.
End store.

(** ** What one call does

    The outcomes of a [Mutate] call: it failed and wrote nothing, or the object it
    read already had the text, or it committed: at the moment of the write the
    stored object was the one the callback was applied to, and only others had
    written before.  A committed call returns nil, or an error other than a
    conflict when the server's answer was lost. *)
Inductive mutate_outcome `{KubeAPI, K8sValidation, UuidLib}
    (kube_after : KubeState → KubeState → Prop) (env : nat → KubeState → KubeState) (s : Store)
    (mutate : LedgerOp) (k : KubeState) : KubeState → option goerror → Prop :=
  | MutateFailed k' e :
      rtc (λ a b, ∃ n, b = env n a) k k' → mutate_outcome kube_after env s mutate k k' (Some e)
  | MutateUnchanged k' cm l l' text :
      rtc (λ a b, ∃ n, b = env n a) k k' → Read s k' = inl (cm, l) → mutate l = (l', None) →
      ledger_wf l' → led_UID l' = store_ExpectedUID s →
      Encode l' DefaultMaxSerializedBytes = inl text → mget (cm_Data cm) LedgerDataKey = text →
      mutate_outcome kube_after env s mutate k k' None
  | MutateCommitted kc k' cm l l' text new e :
      rtc (λ a b, ∃ n, b = env n a) k kc →
      kube_object kc (store_Key s) = Some cm → cm_UID cm = store_ExpectedUID s →
      Decode (mget (cm_Data cm) LedgerDataKey) (store_ExpectedUID s) = inl l →
      mutate l = (l', None) → ledger_wf l' → led_UID l' = store_ExpectedUID s →
      Encode l' DefaultMaxSerializedBytes = inl text →
      kube_patched kube_after kc (store_Key s) cm (withLedgerData cm text) k' new →
      match e with Some e => IsConflict e = false | None => True end →
      mutate_outcome kube_after env s mutate k k' e.

Section atomic.
Context {KA : KubeAPI} {RL : @RetryLib KA} {KV : K8sValidation} {UL : UuidLib} {US : UuidLibSpec UL}.
Context (kube_after : KubeState → KubeState → Prop) {KS : KubeAPISpec KA kube_after}.
Context (env : nat → KubeState → KubeState) (Henv : ∀ n k, kube_after k (env n k)).

Lemma Read_ok s k cm l :
  Read s k = inl (cm, l) →
  (∃ k0, kube_after k0 k ∧ kube_object k0 (store_Key s) = Some cm)
  ∧ (store_APIReader s = true → kube_object k (store_Key s) = Some cm)
  ∧ cm_UID cm = store_ExpectedUID s
  ∧ Decode (mget (cm_Data cm) LedgerDataKey) (store_ExpectedUID s) = inl l.
Proof using KS.
  unfold Read. intros Hr. destruct (_ || _); [done|].
  destruct (store_APIReader s) eqn:Ha.
  - destruct (kube_reader_Get _ _) eqn:Hg; [|done]. case_match eqn:Hu; [done|].
    case_match eqn:Hd; simplify_eq. apply negb_false_iff, bool_decide_eq_true in Hu.
    apply kube_reader_current in Hg. split_and!; auto. exists k. split; [reflexivity|done].
  - destruct (kube_client_Get _ _) eqn:Hg; [|done]. case_match eqn:Hu; [done|].
    case_match eqn:Hd; simplify_eq. apply negb_false_iff, bool_decide_eq_true in Hu.
    apply kube_client_past in Hg. split_and!; auto; done.
Qed.

Lemma mutateAttempt_outcome s mutate i k k' e :
  mutateAttempt env s (pureCallback mutate) i k = (k', e) → mutate_outcome kube_after env s mutate k k' e.
Proof using Henv KS US.
  unfold mutateAttempt, pureCallback. intros Hm.
  set (k1 := env (2 * i)%nat k) in *.
  assert (rtc (λ a b, ∃ n, b = env n a) k k1) as Hk1 by (apply rtc_once; by eexists).
  destruct (Read s k1) as [[cm l]|e1] eqn:Hr; [|simplify_eq; by apply MutateFailed].
  destruct (mutate l) as [l' err] eqn:Hmut.
  destruct (match err with Some e => Some e | None => _ end) eqn:Hchk;
    [simplify_eq; by apply MutateFailed|].
  destruct err; [done|]. go_none. destruct Hchk as (Hv & Hu & _).
  apply negb_false_iff, bool_decide_eq_true in Hu. apply validatePersistedLedger_iff in Hv.
  destruct (Encode l' _) as [text|e1] eqn:He; [|simplify_eq; by apply MutateFailed].
  case_match eqn:Ht; [simplify_eq; apply bool_decide_eq_true in Ht; by eapply MutateUnchanged|].
  set (k2 := env (2 * i + 1)%nat k1) in *.
  assert (rtc (λ a b, ∃ n, b = env n a) k k2) as Hk2.
  { eapply rtc_r; [done|]. by eexists. }
  assert (∀ new, kube_patched kube_after k2 (store_Key s) cm (withLedgerData cm text) k' new →
            kube_object k2 (store_Key s) = Some cm) as Hcur.
  { intros new (_ & _ & _ & cur & Hcur & Hrv & _).
    destruct (Read_ok _ _ _ _ Hr) as ((k0 & Hk0 & Hcm) & _).
    rewrite (kube_version_unique k0 k2 (store_Key s) cm cur); [done| |done..].
    etrans; [done|apply Henv]. }
  destruct (Read_ok _ _ _ _ Hr) as (_ & _ & Hcu & Hd).
  destruct (kube_Patch _ _ _ _) as [k3 [new|e3]] eqn:Hp; simplify_eq.
  - apply kube_patch_ok in Hp. eapply MutateCommitted; eauto.
  - apply kube_patch_error in Hp as [->|[Hc [new Hp]]]; [by apply MutateFailed|].
    eapply MutateCommitted; eauto.
Qed.

Lemma mutate_outcome_env s mutate k k1 k' e :
  rtc (λ a b, ∃ n, b = env n a) k k1 →
  mutate_outcome kube_after env s mutate k1 k' e → mutate_outcome kube_after env s mutate k k' e.
Proof.
  intros Hk [k2 e2 Hk2|k2 cm l l' text Hk2 ??????|kc k2 cm l l' text new e2 Hkc].
  - apply MutateFailed. by etrans.
  - eapply MutateUnchanged; [by etrans|done..].
  - eapply MutateCommitted; [by etrans|done..].
Qed.

Lemma Mutate_outcome s mutate k k' e :
  RetryLibSpec RL → Mutate env s mutate k = (k', e) → mutate_outcome kube_after env s mutate k k' e.
Proof using Henv KS US.
  intros HR Ha%retry_attempts. induction Ha as [i k k' e Hf|i k k1 e1 k' e Hf Hc _ IH].
  - by eapply mutateAttempt_outcome.
  - apply mutateAttempt_outcome in Hf. inversion Hf; subst; [by eapply mutate_outcome_env|].
    congruence.
Qed.
End atomic.
