(* ===== verification/StoreHistory.v ===== *)
(** * The ledger store: concurrent writers

    Any number of controllers call [Store.Mutate] with ledger operations, against
    one API server, interleaved with writes of other objects.  Each call is a
    sequence of atomic ledger steps ([cluster_step]) as long as the others' are,
    and along such steps the stored object always decodes to a ledger that a
    history of operations reaches. *)

From S2P Require Import Prelude GoLib GoTime Json JsonProofs Interfaces LedgerData Ledger.
From S2P Require Import LedgerSpec LedgerOps LedgerReplay LedgerAdmission LedgerHistory.
From S2P Require Import LedgerCodec Store.

(** ** The operations keep the machine types *)

(** Arguments in the range of their Go types. *)
Definition op_typed (op : ledger_op) : Prop :=
  (∀ rev, op_revision op = Some rev → 0 ≤ rev < 2 ^ 64)
  ∧ (∀ ep, op_epoch op = Some ep → ep ≤ maxInt64)
  ∧ (∀ p members q, op = OpReserve p members q →
       0 ≤ req_PolicyEpoch q ≤ maxInt64 ∧ 0 ≤ req_ControlRevision q < 2 ^ 64).

Lemma clear_with_revision q rev :
  clearCampaignLimits q = q → clearCampaignLimits (with_revision q rev) = with_revision q rev.
Proof.
  intros Hq. rewrite <- Hq. unfold clearCampaignLimits, with_revision. done.
Qed.

Lemma request_typed_step op r r' :
  op_typed op → request_typed (rsv_Request r) → same_identity r r' →
  rsv_ControlRevision r' = rsv_ControlRevision r ∨ op_revision op = Some (rsv_ControlRevision r') →
  request_typed (rsv_Request r').
Proof.
  intros (Hrev & _ & _) (He & Hr & Hc) [Hq _] Hr'. unfold request_typed, rsv_ControlRevision in *.
  split_and!.
  - rewrite Hq. simpl. lia.
  - rewrite Hq. simpl. lia.
  - destruct Hr' as [->|Hr']; [lia|]. apply Hrev in Hr'. lia.
  - destruct Hr' as [->|Hr']; [lia|]. apply Hrev in Hr'. lia.
  - rewrite Hq. by apply clear_with_revision.
Qed.

Lemma run_op_typed `{K8sValidation, UuidLib} op l l' e :
  op_typed op → ledger_typed l → run_op op l = (l', e) → ledger_typed l'.
Proof.
  intros Hop [Hq Hf] Hr. destruct e as [e|]; [by apply run_op_error in Hr as ->|]. split.
  - intros k r' Hk'. destruct (reservations l !! k) as [r|] eqn:Hk.
    + destruct (run_op_lifecycle _ _ _ _ _ _ Hr Hk Hk') as (Hs & _ & Hrev).
      eapply request_typed_step; eauto.
    + destruct (run_op_creates _ _ _ _ _ _ Hr Hk Hk') as (p & ms & q & -> & _ & ->).
      destruct Hop as (_ & _ & Hop). destruct (Hop p ms q eq_refl).
      unfold request_typed. simpl. split_and!; (lia || done).
  - intros f Hf'. destruct Hop as (_ & Hep & _).
    destruct (run_op_shape _ _ _ _ Hr) as [->|r ->|f0 He Hw ->| ->|f0 He Hw ->];
      rewrite ?fence_remove in Hf'; simpl in Hf'; simplify_eq; auto;
      apply Hep in He; destruct Hw as (_ & ? & _); unfold fence_typed; lia.
Qed.

(** ** Ledger steps of a cluster *)

Section cluster.
Context {KA : KubeAPI} {RL : @RetryLib KA} {KV : K8sValidation} {UL : UuidLib}.
Context {US : UuidLibSpec UL} {VS : K8sValidationSpec KV}.
Context (kube_after : KubeState → KubeState → Prop) {KS : KubeAPISpec KA kube_after}.
Context (key : NamespacedName) (uid : string) (P : Policy).

(** The operations the controllers use: arguments of their Go types, and
    admissions under a policy at least as strict as [P]. *)
Definition op_allowed (op : ledger_op) : Prop :=
  op_typed op ∧ ∀ p members q, op = OpReserve p members q → tighter p P.

(** One write: of anything but the ledger's object, or a commit of one ledger
    operation applied to the ledger stored at that moment. *)
Inductive cluster_step (k k' : KubeState) : Prop :=
  | ClusterOther :
      kube_after k k' → kube_object k' key = kube_object k key → cluster_step k k'
  | ClusterCommit op cm l l' text new :
      op_allowed op → kube_object k key = Some cm → cm_UID cm = uid →
      Decode (mget (cm_Data cm) LedgerDataKey) uid = inl l →
      run_op op l = (l', None) → ledger_wf l' → led_UID l' = uid →
      Encode l' DefaultMaxSerializedBytes = inl text →
      kube_patched kube_after k key cm (withLedgerData cm text) k' new → cluster_step k k'.

Lemma cluster_step_after k k' : cluster_step k k' → kube_after k k'.
Proof using KS.
  by intros [?|op cm l l' text new ???????? [? _]].
Qed.

Lemma cluster_steps_after k k' : rtc cluster_step k k' → kube_after k k'.
Proof using KS.
  induction 1 as [|k1 k2 k3 Hs _ IH]; [reflexivity|]. etrans; [|done]. by apply cluster_step_after.
Qed.

(** Rely and guarantee: among controllers that only take ledger steps, a call of
    [Mutate] takes only ledger steps. *)
Lemma Mutate_cluster env s op k k' e :
  RetryLibSpec RL → (∀ n k, rtc cluster_step k (env n k)) →
  store_Key s = key → store_ExpectedUID s = uid → op_allowed op →
  Mutate env s (run_op op) k = (k', e) → rtc cluster_step k k'.
Proof using KS US.
  intros HR Henv Hkey Huid Hop Hm.
  apply (Mutate_outcome kube_after) in Hm; [|intros; by apply cluster_steps_after|done].
  assert (∀ a b, rtc (λ a b, ∃ n, b = env n a) a b → rtc cluster_step a b) as Hrtc.
  { intros a b. induction 1 as [|k1 k2 k3 [n ->] _ IH]; [done|]. etrans; [apply Henv|done]. }
  destruct Hm as [k2 e2 ?|k2 cm l l' text ?|kc k2 cm l l' text new e2 ?]; [by apply Hrtc..|].
  eapply rtc_r; [by apply Hrtc|].
  rewrite Hkey, Huid in *. eapply ClusterCommit; eauto.
Qed.

(** The stored object is the ledger [l]. *)
Definition stores (k : KubeState) (l : Ledger) : Prop :=
  ∃ cm, kube_object k key = Some cm ∧ cm_UID cm = uid
    ∧ Decode (mget (cm_Data cm) LedgerDataKey) uid = inl l ∧ ledger_typed l.

Lemma cluster_step_stores k k' l :
  cluster_step k k' → stores k l → reachable P l →
  ∃ l', stores k' l' ∧ reachable P l'.
Proof using KS US VS.
  intros Hs (cm & Hcm & Hu & Hd & Ht) Hreach.
  destruct Hs as [_ Ho|op cm' l0 l' text new [Hty Hop] Hcm' _ Hd' Hr Hw Hu' He Hp].
  { exists l. split; [|done]. exists cm. by rewrite Ho. }
  rewrite Hcm in Hcm'. injection Hcm' as <-. rewrite Hd in Hd'. injection Hd' as <-.
  exists l'. split; [|by eapply ReachStep].
  destruct Hp as (_ & Hnew & _ & cur & Hcur & _ & Hnu & Hdata).
  simplify_eq. destruct (Hdata eq_refl) as [Hdata' _]. exists new.
  assert (ledger_typed l') as Ht' by (by eapply run_op_typed).
  split_and!; [done|by rewrite Hnu| |done].
  rewrite Hdata'. simpl. unfold mget. rewrite lookup_insert_eq. simpl.
  rewrite <- Hu'. by eapply Decode_Encode_lemma.
Qed.

Lemma cluster_stores k k' l :
  rtc cluster_step k k' → stores k l → reachable P l → ∃ l', stores k' l' ∧ reachable P l'.
Proof using KS US VS.
  intros Hs. revert l. induction Hs as [|k1 k2 k3 Hs _ IH]; intros l Hl Hr; [eauto|].
  destruct (cluster_step_stores _ _ _ Hs Hl Hr) as (l' & ? & ?). eauto.
Qed.
End cluster.
