(* ===== verification/StoreTheorems.v ===== *)
(** * The ledger store: its properties

    Atomicity of [Store.Mutate] and the ledger invariant under concurrent
    writers, with a small reference API server for the witnesses. *)

From S2P Require Import Prelude GoLib GoTime Json JsonProofs Interfaces LedgerData Ledger.
From S2P Require Import LedgerSpec LedgerOps LedgerReplay LedgerAdmission LedgerHistory.
From S2P Require Import LedgerCodec LedgerExamples LedgerTheorems Store StoreHistory.

(** ** A reference API server

    The server is the log of its writes, newest first; an object's resourceVersion
    is its position in the log, in unary. *)

Definition unary (n : nat) : string := of_bytes (replicate n (byte_of 49)).

Lemma unary_inj n n' : unary n = unary n' → n = n'.
Proof.
  intros Hu. apply (f_equal bytes_of), (f_equal length) in Hu.
  unfold unary in Hu. by rewrite !bytes_of_of, !length_replicate in Hu.
Qed.

(** The newest write of an object, and how many writes came before it. *)
Fixpoint ref_latest (log : list (NamespacedName * ConfigMap)) (k : NamespacedName)
  : option (ConfigMap * nat) :=
  match log with
  | [] => None
  | (k', cm) :: log => if k == k' then Some (cm, length log) else ref_latest log k
  end.

Definition ref_version (cm : ConfigMap) (version : string) : ConfigMap :=
  {| cm_Namespace := cm_Namespace cm; cm_Name := cm_Name cm; cm_UID := cm_UID cm;
     cm_ResourceVersion := version; cm_Annotations := cm_Annotations cm; cm_Data := cm_Data cm |}.

(** Writes with a UID that is not one are not shown. *)
Definition ref_object (log : list (NamespacedName * ConfigMap)) (k : NamespacedName)
  : option ConfigMap :=
  '(cm, n) ← ref_latest log k;
  if validBoundedIdentity (cm_UID cm) 128 then Some (ref_version cm (unary (S n))) else None.

Definition ref_get (log : list (NamespacedName * ConfigMap)) (k : NamespacedName)
  : ConfigMap + goerror :=
  match ref_object log k with Some cm => inl cm | None => inr (EPlain "not found") end.

Definition ref_patch (log : list (NamespacedName * ConfigMap)) (k : NamespacedName)
    (before after : ConfigMap) : list (NamespacedName * ConfigMap) * (ConfigMap + goerror) :=
  match ref_object log k with
  | None => (log, inr (EPlain "not found"))
  | Some cur =>
      return_if (cm_ResourceVersion cur != cm_ResourceVersion before)
        (log, inr (EPlain "conflict")) ;;
      let new := {| cm_Namespace := cm_Namespace cur; cm_Name := cm_Name cur;
                    cm_UID := cm_UID cur; cm_ResourceVersion := unary (S (length log));
                    cm_Annotations := cm_Annotations after; cm_Data := cm_Data after |} in
      ((k, new) :: log, inl new)
  end.

#[export] Instance kube_reference : KubeAPI := {|
  KubeState := list (NamespacedName * ConfigMap);
  kube_object := ref_object;
  kube_reader_Get := ref_get;
  kube_client_Get := ref_get;
  kube_Patch := ref_patch;
  IsConflict e := e == EPlain "conflict";
|}.

Definition ref_after (s s' : list (NamespacedName * ConfigMap)) : Prop := s `suffix_of` s'.

Lemma ref_latest_bound s k cm n : ref_latest s k = Some (cm, n) → (n < length s)%nat.
Proof.
  induction s as [|[k' cm'] s IH]; simpl; [done|]. case_match; intros Hl; simplify_eq; [lia|].
  apply IH in Hl. lia.
Qed.

Lemma ref_latest_app t s k cm n :
  ref_latest (t ++ s) k = Some (cm, n) → (n < length s)%nat → ref_latest s k = Some (cm, n).
Proof.
  induction t as [|[k' cm'] t IH]; simpl; [done|]. case_match; intros Hl Hn; simplify_eq; [|auto].
  rewrite length_app in Hn. lia.
Qed.

Lemma ref_get_object s k o : ref_get s k = inl o → ref_object s k = Some o.
Proof. unfold ref_get. case_match; naive_solver. Qed.

Lemma ref_object_uid s k o : ref_object s k = Some o → validBoundedIdentity (cm_UID o) 128 = true.
Proof.
  unfold ref_object. destruct (ref_latest s k) as [[cm n]|]; [|done]. simpl.
  case_match eqn:Hu; [|done]. by intros [= <-].
Qed.

Lemma ref_patch_ok s k before after s' new :
  ref_patch s k before after = (s', inl new) →
  kube_patched (H := kube_reference) ref_after s k before after s' new.
Proof.
  unfold ref_patch. destruct (ref_object s k) as [cur|] eqn:Hcur; [|done].
  case_match eqn:Hv; [done|]. intros [= <- <-].
  apply negb_false_iff, bool_decide_eq_true in Hv. split_and!; simpl.
  - by apply suffix_cons_r.
  - unfold ref_object. simpl. rewrite bool_decide_eq_true_2 by done. simpl.
    by rewrite (ref_object_uid _ _ _ Hcur).
  - intros k' Hk. unfold ref_object. simpl. by rewrite bool_decide_eq_false_2.
  - exists cur. split_and!; done.
Qed.

#[export] Instance kube_reference_spec : KubeAPISpec kube_reference ref_after.
Proof.
  split.
  - apply _.
  - intros s k o. apply ref_get_object.
  - intros s k o Ho. exists s. split; [reflexivity|]. by apply ref_get_object.
  - intros s k o Ho. by eapply validBoundedIdentity_spec, ref_object_uid.
  - intros s s' k o o' [t ->]. simpl. unfold ref_object.
    destruct (ref_latest s k) as [[cm n]|] eqn:Hs; [|done].
    destruct (ref_latest (t ++ s) k) as [[cm' n']|] eqn:Hs'; [|done].
    simpl. do 2 case_match; try done. intros [= <-] [= <-] [= Hn]. apply unary_inj in Hn as [= ->].
    pose proof (ref_latest_bound _ _ _ _ Hs). apply ref_latest_app in Hs'; [|done]. congruence.
  - intros s k before after s' new. apply ref_patch_ok.
  - intros s k before after s' e. simpl. unfold ref_patch. intros Hp. left. by repeat case_match; simplify_eq.
Qed.

(** Four attempts, as [retry.DefaultBackoff] has. *)
Fixpoint ref_retry `{KubeAPI} {T : Type} (steps i : nat) (f : nat → T → T * option goerror) (s : T)
  : T * option goerror :=
  match steps with
  | O => f i s
  | S steps =>
      match f i s with
      | (s1, Some e) => if IsConflict e then ref_retry steps (S i) f s1 else (s1, Some e)
      | r => r
      end
  end.

#[export] Instance retry_reference : RetryLib := {| RetryOnConflict T := ref_retry 3 0 |}.

Lemma ref_retry_attempts `{KubeAPI} {T : Type} (f : nat → T → T * option goerror) steps i s s' e :
  ref_retry steps i f s = (s', e) → attempts f i s s' e.
Proof.
  revert i s. induction steps as [|steps IH]; intros i s Hf; cbn [ref_retry] in Hf;
    [by apply AttemptLast|].
  destruct (f i s) as [s1 [e1|]] eqn:Hfi.
  - destruct (IsConflict e1) eqn:Hc.
    + eapply AttemptAgain; [done|done|by apply IH].
    + injection Hf as <- <-. by apply AttemptLast.
  - injection Hf as <- <-. by apply AttemptLast.
Qed.

#[export] Instance retry_reference_spec : RetryLibSpec retry_reference.
Proof. split. intros T f s s' e. apply ref_retry_attempts. Qed.

(** ** Properties *)

(** C16: a call of [Store.Mutate], whatever the other writers do between its
    calls, either fails and has written nothing, or found the text it would write
    already there, or committed exactly one write: the callback applied to the
    ledger that was stored at that moment, well formed, with the expected UID.  An
    error after a commit is never a conflict, so it is not tried again. *)
Theorem Mutate_atomic {KA : KubeAPI} {RL : @RetryLib KA} {KV : K8sValidation} {UL : UuidLib}
    {US : UuidLibSpec UL} {RS : RetryLibSpec RL}
    (kube_after : KubeState → KubeState → Prop) {KS : KubeAPISpec KA kube_after}
    (env : nat → KubeState → KubeState) s mutate k k' e :
  (∀ n k, kube_after k (env n k)) →
  Mutate env s mutate k = (k', e) → mutate_outcome kube_after env s mutate k k' e.
Proof. intros Henv. by apply (Mutate_outcome kube_after). Qed.

Definition exStore : Store :=
  {| store_Client := true; store_APIReader := true; store_Key := ("fleet", "ledger");
     store_ExpectedUID := "ledger-uid" |}.

Definition exText (l : Ledger) : string := Marshal (ledger_json l).
Definition exObject (version : nat) (l : Ledger) : ConfigMap :=
  {| cm_Namespace := "fleet"; cm_Name := "ledger"; cm_UID := "ledger-uid";
     cm_ResourceVersion := unary version; cm_Annotations := ∅;
     cm_Data := {[ LedgerDataKey := exText l ]} |}.

Definition exServer : list (NamespacedName * ConfigMap) :=
  [(("fleet", "ledger"), exObject 1 exNew)].
Definition exServer' : list (NamespacedName * ConfigMap) :=
  (("fleet", "ledger"), exObject 2 exReserved) :: exServer.

Definition exOp : ledger_op := OpReserve exPolicy exMembers (exRequest "1" "east").

Lemma exMutate : Mutate (λ _ k, k) exStore (run_op exOp) exServer = (exServer', None).
Proof. vm_compute. reflexivity. Qed.

Lemma Mutate_atomic_witness :
  mutate_outcome (H := kube_reference) ref_after (λ _ k, k) exStore (run_op exOp) exServer exServer' None.
Proof.
  apply (Mutate_atomic (KA := kube_reference) ref_after (λ _ k, k)); [intros; reflexivity|exact exMutate].
Defined.

(** C17: rely and guarantee.  While every other controller only takes ledger
    steps (atomic commits of allowed operations to the ledger stored at that
    moment, and writes of other objects), a [Mutate] with an allowed operation
    takes only ledger steps, conflicts and retries included. *)
Theorem Mutate_only_ledger_steps {KA : KubeAPI} {RL : @RetryLib KA} {KV : K8sValidation}
    {UL : UuidLib} {US : UuidLibSpec UL} {RS : RetryLibSpec RL}
    (kube_after : KubeState → KubeState → Prop) {KS : KubeAPISpec KA kube_after}
    (env : nat → KubeState → KubeState) P s op k k' e :
  (∀ n k, rtc (cluster_step kube_after (store_Key s) (store_ExpectedUID s) P) k (env n k)) →
  op_allowed P op →
  Mutate env s (run_op op) k = (k', e) →
  rtc (cluster_step kube_after (store_Key s) (store_ExpectedUID s) P) k k'.
Proof. intros Henv Hop. by apply Mutate_cluster. Qed.

Lemma exOp_allowed : op_allowed exPolicy exOp.
Proof.
  split; [split_and!|].
  - intros rev. discriminate.
  - intros ep. discriminate.
  - intros p ms q [= <- <- <-]. simpl. unfold maxInt64. lia.
  - intros p ms q [= <- <- <-]. apply tighter_refl.
Qed.

Lemma Mutate_only_ledger_steps_witness :
  rtc (cluster_step (KA := kube_reference) ref_after ("fleet", "ledger") "ledger-uid" exPolicy) exServer exServer'.
Proof.
  apply (Mutate_only_ledger_steps (KA := kube_reference) ref_after (λ _ k, k) exPolicy exStore exOp exServer exServer' None).
  - intros. apply rtc_refl.
  - exact exOp_allowed.
  - exact exMutate.
Defined.


Lemma exServer_stores : stores (KA := kube_reference) ("fleet", "ledger") "ledger-uid" exServer exNew.
Proof.
  exists (exObject 1 exNew). split; [reflexivity|]. split; [reflexivity|].
  split; [vm_compute; reflexivity|]. split; [|discriminate].
  intros k r Hk. change (reservations exNew) with (∅ : gmap string Reservation) in Hk.
  by rewrite lookup_empty in Hk.
Qed.

Lemma exSteps :
  rtc (cluster_step (KA := kube_reference) ref_after ("fleet", "ledger") "ledger-uid" exPolicy) exServer exServer'.
Proof.
  eapply Mutate_cluster with (s := exStore) (op := exOp) (env := λ _ k, k);
    first [apply _ | exact exOp_allowed | exact exMutate | done].
Qed.

