(* ===== verification/AdminPolicy.v ===== *)
(** * The administrator policy: data and validation

    src/internal/topologyrollout/policy.go: the policy types,
    [validateAdminPolicyConfig] and the validators it calls.  Validation fills in
    defaults, so it returns the completed policy or the error; every caller drops
    the policy when there is an error. *)

From S2P Require Import Prelude GoLib GoTime Json Interfaces LedgerData Ledger.

Definition PolicyVersion : string := "v1".
Definition PolicyDataKey : string := "policy.json".
Definition LedgerUIDAnnotation : string := "topology.cisco.vk/ledger-uid".
Definition PolicyManagedAnnotation : string := "topology.cisco.vk/managed-policy".
Definition AdmissionPrefixAnnotation : string := "topology.cisco.vk/admission-policy-prefix".
Definition ConfigLeaseNamespaceAnnotation : string := "topology.cisco.vk/config-lease-namespace".
Definition DefaultMaxCampaignTargets : Z := 100.
Definition MaxProjectedTopologyKeys : Z := 16.
Definition minDrainTimeoutSeconds : Z := 300.
Definition maxDrainTimeoutSeconds : Z := 7200.
Definition minDrainPods : Z := 1.
Definition maxDrainPods : Z := 32.
Definition minDrainGraceSeconds : Z := 30.
Definition maxDrainGraceSeconds : Z := 600.
Definition drainCompletionBuffer : Z := 120.
Definition AdminDisruptionReasonCriticalService : string := "CriticalService".
Definition AdminDisruptionReasonSingletonPath : string := "SingletonPath".

(** [corev1.LabelTopologyRegion] and [corev1.LabelTopologyZone]. *)
Definition LabelTopologyRegion : string := "topology.kubernetes.io/region".
Definition LabelTopologyZone : string := "topology.kubernetes.io/zone".

Record AdminDisruptionProtection := {
  adp_Name : string;
  adp_Reason : string;
  adp_Selector : LabelSelector;
}.

Record AdminRiskGroup := {
  arg_Name : string;
  arg_Selector : LabelSelector;
  arg_MaxConcurrentTransfers : Z;
  arg_MaxUnavailable : Z;
  arg_MaxAggregateTransferBytesPerSecond : Z;
}.

Record AdminWorkloadDrainPolicy := {
  awd_Enabled : bool;
  awd_AllowedNamespaces : list string;
  awd_MaxTimeoutSeconds : Z;
  awd_MaxPods : Z;
  awd_MaxTerminationGraceSeconds : Z;
}.

Record AdminPolicyConfig := {
  apc_AppHostingServiceAccountName : string;
  apc_NetworkManagementServiceAccountName : string;
  apc_ConfigLeaseNamespace : string;
  apc_Version : string;
  apc_FleetSelector : LabelSelector;
  apc_RequiredTopologyKeys : list string;
  apc_ProjectedTopologyKeys : list string;
  apc_GlobalMaxConcurrentTransfers : Z;
  apc_GlobalMaxUnavailable : Z;
  apc_DomainMaxConcurrentTransfers : gmap string Z;
  apc_DomainMaxUnavailable : gmap string Z;
  apc_HealthFreshnessSeconds : Z;
  apc_MaxCampaignTargets : Z;
  apc_MaxActiveReservations : Z;
  apc_MaxLedgerBytes : Z;
  apc_WorkloadDrain : option AdminWorkloadDrainPolicy;
  apc_DisruptionProtections : list AdminDisruptionProtection;
  apc_RiskGroups : list AdminRiskGroup;
  apc_LedgerName : string;
}.

(** [value < lo || value > hi] *)
Definition outside (lo hi value : Z) : bool := (value <? lo) || (hi <? value).

(** A loop over names that must be fresh: [if _, duplicate := seen[name]]. *)
Fixpoint first_duplicate (seen : gset string) (names : list string) : bool :=
  match names with
  | [] => false
  | n :: names => bool_decide (n ∈ seen) || first_duplicate ({[n]} ∪ seen) names
  end.

Section validation.
Context `{K8sValidation, LabelLib}.

(** ** Topology keys *)

Fixpoint validateTopologyKeysLoop (seen : gset string) (keys : list string)
  : gset string + goerror :=
  match keys with
  | [] => inl seen
  | key :: keys =>
      return_if (96 <? slen key) (inr (EPlain "key longer than 96 characters")) ;;
      return_if (bool_decide (key ∈ seen)) (inr (EPlain "duplicate key")) ;;
      return_if ((key != LabelTopologyRegion) && (key != LabelTopologyZone)
                 && negb (HasPrefix key "topology.cisco.vk/")
                 && negb (HasPrefix key "operations.cisco.vk/")
                 && negb (HasPrefix key "distribution.cisco.vk/"))
        (inr (EPlain "unsupported key")) ;;
      return_if (negb (IsQualifiedName key)) (inr (EPlain "invalid key")) ;;
      validateTopologyKeysLoop ({[key]} ∪ seen) keys
  end.

Definition validateTopologyKeys (keys : list string) : gset string + goerror :=
  validateTopologyKeysLoop ∅ keys.

(** ** Selectors *)

(** The fleet selector: only admission-protected keys. *)
Definition validateFleetSelector (s : LabelSelector) : option goerror :=
  return_if ((mlen (ls_MatchLabels s) == 0) && (llen (ls_MatchExpressions s) == 0))
    (Some (EPlain "fleetSelector must be non-empty")) ;;
  return_if ((32 <? mlen (ls_MatchLabels s)) || (32 <? llen (ls_MatchExpressions s)))
    (Some (EPlain "fleetSelector supports at most 32 matchLabels and 32 matchExpressions")) ;;
  propagate (range_check (λ key value,
      return_if ((96 <? slen key) || (63 <? slen value))
        (Some (EPlain "fleetSelector matchLabels keys and values are too long")) ;;
      return_if (negb (HasPrefix key "topology.cisco.vk/"))
        (Some (EPlain "fleetSelector key must use the admission-protected prefix")) ;;
      None) (ls_MatchLabels s)) ;;
  propagate (first_error (λ r,
      return_if ((96 <? slen (lsr_Key r)) || (32 <? llen (lsr_Values r)))
        (Some (EPlain "fleetSelector expressions are too long")) ;;
      return_if (negb (HasPrefix (lsr_Key r) "topology.cisco.vk/"))
        (Some (EPlain "fleetSelector key must use the admission-protected prefix")) ;;
      first_error (λ value, return_if (63 <? slen value)
        (Some (EPlain "fleetSelector expression values are too long")) ;; None) (lsr_Values r))
      (ls_MatchExpressions s)) ;;
  match LabelSelectorAsSelector s with
  | None => Some (EPlain "fleetSelector is invalid")
  | Some _ => None
  end.

(** The selector of a disruption protection or risk group: only required keys. *)
Definition validateRuleSelector (required : gset string) (s : LabelSelector) : option goerror :=
  return_if ((mlen (ls_MatchLabels s) == 0) && (llen (ls_MatchExpressions s) == 0))
    (Some (EPlain "selector must be non-empty")) ;;
  return_if ((32 <? mlen (ls_MatchLabels s)) || (32 <? llen (ls_MatchExpressions s)))
    (Some (EPlain "selector supports at most 32 matchLabels and 32 matchExpressions")) ;;
  propagate (range_check (λ key value,
      return_if (negb (bool_decide (key ∈ required)))
        (Some (EPlain "selector key must be present in requiredTopologyKeys")) ;;
      return_if ((96 <? slen key) || (63 <? slen value))
        (Some (EPlain "selector keys and values are too long")) ;;
      None) (ls_MatchLabels s)) ;;
  propagate (first_error (λ r,
      return_if (negb (bool_decide (lsr_Key r ∈ required)))
        (Some (EPlain "selector key must be present in requiredTopologyKeys")) ;;
      return_if ((96 <? slen (lsr_Key r)) || (32 <? llen (lsr_Values r)))
        (Some (EPlain "selector expressions are too long")) ;;
      first_error (λ value, return_if (63 <? slen value)
        (Some (EPlain "selector expression values are too long")) ;; None) (lsr_Values r))
      (ls_MatchExpressions s)) ;;
  match LabelSelectorAsSelector s with
  | None => Some (EPlain "selector is invalid")
  | Some _ => None
  end.

(** ** Disruption protections *)

Fixpoint validateProtectionsLoop (required seen : gset string)
    (rules : list AdminDisruptionProtection) : option goerror :=
  match rules with
  | [] => None
  | rule :: rules =>
      return_if (negb (IsDNS1123Label (adp_Name rule)))
        (Some (EPlain "disruption protection name is invalid")) ;;
      return_if (bool_decide (adp_Name rule ∈ seen))
        (Some (EPlain "disruptionProtections contains duplicate name")) ;;
      return_if ((adp_Reason rule != AdminDisruptionReasonCriticalService)
                 && (adp_Reason rule != AdminDisruptionReasonSingletonPath))
        (Some (EPlain "disruption protection reason is unknown")) ;;
      propagate (validateRuleSelector required (adp_Selector rule)) ;;
      validateProtectionsLoop required ({[adp_Name rule]} ∪ seen) rules
  end.

Definition validateDisruptionProtections (cfg : AdminPolicyConfig) : option goerror :=
  return_if (16 <? llen (apc_DisruptionProtections cfg))
    (Some (EPlain "disruptionProtections may contain at most 16 rules")) ;;
  validateProtectionsLoop (list_to_set (apc_RequiredTopologyKeys cfg)) ∅
    (apc_DisruptionProtections cfg).

(** ** Risk groups *)

Definition validateRiskGroupBudget (g : AdminRiskGroup) : option goerror :=
  return_if (outside 1 DefaultMaxCampaignTargets (arg_MaxConcurrentTransfers g))
    (Some (EPlain "risk group maxConcurrentTransfers is out of range")) ;;
  return_if (outside 1 DefaultMaxCampaignTargets (arg_MaxUnavailable g))
    (Some (EPlain "risk group maxUnavailable is out of range")) ;;
  return_if (outside 0 (2 ^ 40) (arg_MaxAggregateTransferBytesPerSecond g))
    (Some (EPlain "risk group maxAggregateTransferBytesPerSecond is out of range")) ;;
  return_if ((0 <? arg_MaxAggregateTransferBytesPerSecond g)
             && (arg_MaxAggregateTransferBytesPerSecond g <? arg_MaxConcurrentTransfers g))
    (Some (EPlain "risk group must provide at least one byte per second for every slot")) ;;
  None.

Fixpoint validateRiskGroupsLoop (required seen : gset string) (groups : list AdminRiskGroup)
  : option goerror :=
  match groups with
  | [] => None
  | group :: groups =>
      return_if (negb (IsDNS1123Label (arg_Name group)))
        (Some (EPlain "risk group name is invalid")) ;;
      return_if (bool_decide (arg_Name group ∈ seen))
        (Some (EPlain "riskGroups contains duplicate name")) ;;
      propagate (validateRiskGroupBudget group) ;;
      propagate (validateRuleSelector required (arg_Selector group)) ;;
      validateRiskGroupsLoop required ({[arg_Name group]} ∪ seen) groups
  end.

Definition validateRiskGroups (cfg : AdminPolicyConfig) : option goerror :=
  return_if (16 <? llen (apc_RiskGroups cfg))
    (Some (EPlain "riskGroups may contain at most 16 groups")) ;;
  validateRiskGroupsLoop (list_to_set (apc_RequiredTopologyKeys cfg)) ∅ (apc_RiskGroups cfg).

(** ** Workload drain *)

Definition validateWorkloadDrain (d : AdminWorkloadDrainPolicy) : option goerror :=
  return_if (outside 1 16 (llen (awd_AllowedNamespaces d)))
    (Some (EPlain "workloadDrain.allowedNamespaces must contain between 1 and 16 entries")) ;;
  propagate (first_error (λ ns, return_if (negb (IsDNS1123Label ns))
      (Some (EPlain "workloadDrain.allowedNamespaces contains an invalid namespace")) ;; None)
      (awd_AllowedNamespaces d)) ;;
  return_if (first_duplicate ∅ (awd_AllowedNamespaces d))
    (Some (EPlain "workloadDrain.allowedNamespaces contains a duplicate")) ;;
  return_if (outside minDrainTimeoutSeconds maxDrainTimeoutSeconds (awd_MaxTimeoutSeconds d))
    (Some (EPlain "workloadDrain.maxTimeoutSeconds is out of range")) ;;
  return_if (outside minDrainPods maxDrainPods (awd_MaxPods d))
    (Some (EPlain "workloadDrain.maxPods is out of range")) ;;
  return_if (outside minDrainGraceSeconds maxDrainGraceSeconds (awd_MaxTerminationGraceSeconds d))
    (Some (EPlain "workloadDrain.maxTerminationGraceSeconds is out of range")) ;;
  return_if (awd_MaxTimeoutSeconds d <? awd_MaxTerminationGraceSeconds d + drainCompletionBuffer)
    (Some (EPlain "workloadDrain.maxTimeoutSeconds must cover the grace period and a buffer")) ;;
  None.

(** ** The whole policy *)

(** The assignments of validation: zero limits take their defaults, and a
    disabled drain policy is no drain policy. *)
Definition withDefaults (cfg : AdminPolicyConfig) : AdminPolicyConfig :=
  {| apc_AppHostingServiceAccountName := apc_AppHostingServiceAccountName cfg;
     apc_NetworkManagementServiceAccountName := apc_NetworkManagementServiceAccountName cfg;
     apc_ConfigLeaseNamespace := apc_ConfigLeaseNamespace cfg; apc_Version := apc_Version cfg;
     apc_FleetSelector := apc_FleetSelector cfg;
     apc_RequiredTopologyKeys := apc_RequiredTopologyKeys cfg;
     apc_ProjectedTopologyKeys := apc_ProjectedTopologyKeys cfg;
     apc_GlobalMaxConcurrentTransfers := apc_GlobalMaxConcurrentTransfers cfg;
     apc_GlobalMaxUnavailable := apc_GlobalMaxUnavailable cfg;
     apc_DomainMaxConcurrentTransfers := apc_DomainMaxConcurrentTransfers cfg;
     apc_DomainMaxUnavailable := apc_DomainMaxUnavailable cfg;
     apc_HealthFreshnessSeconds := apc_HealthFreshnessSeconds cfg;
     apc_MaxCampaignTargets := if apc_MaxCampaignTargets cfg == 0 then DefaultMaxCampaignTargets
                               else apc_MaxCampaignTargets cfg;
     apc_MaxActiveReservations := if apc_MaxActiveReservations cfg == 0
                                  then DefaultMaxActiveRecords else apc_MaxActiveReservations cfg;
     apc_MaxLedgerBytes := if apc_MaxLedgerBytes cfg == 0 then DefaultMaxSerializedBytes
                           else apc_MaxLedgerBytes cfg;
     apc_WorkloadDrain := match apc_WorkloadDrain cfg with
                          | Some d => if awd_Enabled d then Some d else None
                          | None => None
                          end;
     apc_DisruptionProtections := apc_DisruptionProtections cfg;
     apc_RiskGroups := apc_RiskGroups cfg; apc_LedgerName := apc_LedgerName cfg |}.

(** The checks before the topology keys, on the policy with its defaults. *)
Definition validatePolicyLimits (cfg : AdminPolicyConfig) : option goerror :=
  return_if (apc_Version cfg != PolicyVersion) (Some (EPlain "unsupported policy version")) ;;
  return_if (negb (IsDNS1123Label (apc_AppHostingServiceAccountName cfg))
             || negb (IsDNS1123Label (apc_NetworkManagementServiceAccountName cfg)))
    (Some (EPlain "service account name is invalid")) ;;
  return_if (apc_AppHostingServiceAccountName cfg == apc_NetworkManagementServiceAccountName cfg)
    (Some (EPlain "service account names must be different")) ;;
  return_if ((apc_ConfigLeaseNamespace cfg != "") && negb (IsDNS1123Label (apc_ConfigLeaseNamespace cfg)))
    (Some (EPlain "configLeaseNamespace is invalid")) ;;
  propagate (validateFleetSelector (apc_FleetSelector cfg)) ;;
  return_if (outside 1 DefaultMaxCampaignTargets (apc_GlobalMaxUnavailable cfg))
    (Some (EPlain "globalMaxUnavailable is out of range")) ;;
  return_if (outside 1 DefaultMaxCampaignTargets (apc_GlobalMaxConcurrentTransfers cfg))
    (Some (EPlain "globalMaxConcurrentTransfers is out of range")) ;;
  return_if (outside 1 DefaultMaxCampaignTargets (apc_MaxCampaignTargets cfg))
    (Some (EPlain "maxCampaignTargets is out of range")) ;;
  return_if (outside 1 DefaultMaxActiveRecords (apc_MaxActiveReservations cfg))
    (Some (EPlain "maxActiveReservations is out of range")) ;;
  return_if (outside 4096 DefaultMaxSerializedBytes (apc_MaxLedgerBytes cfg))
    (Some (EPlain "maxLedgerBytes is out of range")) ;;
  return_if (outside 30 3600 (apc_HealthFreshnessSeconds cfg))
    (Some (EPlain "healthFreshnessSeconds is out of range")) ;;
  propagate (match apc_WorkloadDrain cfg with Some d => validateWorkloadDrain d | None => None end) ;;
  propagate (validateDisruptionProtections cfg) ;;
  propagate (validateRiskGroups cfg) ;;
  return_if (negb (IsDNS1123Subdomain (apc_LedgerName cfg)))
    (Some (EPlain "ledgerName is invalid")) ;;
  None.

(** One domain budget: its key is required, its value in range. *)
Definition validateDomainBudget (required : gset string) (key : string) (value : Z)
  : option goerror :=
  return_if (negb (bool_decide (key ∈ required)))
    (Some (EPlain "budget key must be present in requiredTopologyKeys")) ;;
  return_if (outside 1 DefaultMaxCampaignTargets value)
    (Some (EPlain "domain budget is out of range")) ;;
  None.

(** The topology keys and the domain budgets. *)
Definition validatePolicyTopology (cfg : AdminPolicyConfig) : option goerror :=
  return_if ((llen (apc_RequiredTopologyKeys cfg) == 0)
             || (MaxProjectedTopologyKeys <? llen (apc_RequiredTopologyKeys cfg)))
    (Some (EPlain "requiredTopologyKeys must contain between 1 and 16 entries")) ;;
  return_if (MaxProjectedTopologyKeys <? llen (apc_ProjectedTopologyKeys cfg))
    (Some (EPlain "projectedTopologyKeys exceeds 16 entries")) ;;
  match validateTopologyKeys (apc_RequiredTopologyKeys cfg) with
  | inr e => Some e
  | inl required =>
  match validateTopologyKeys (apc_ProjectedTopologyKeys cfg) with
  | inr e => Some e
  | inl projected =>
  propagate (first_error (λ key,
      return_if (HasPrefix key "operations.cisco.vk/" || HasPrefix key "distribution.cisco.vk/")
        (Some (EPlain "non-scheduling key cannot be projected to Node labels")) ;;
      return_if (negb (bool_decide (key ∈ required)))
        (Some (EPlain "projected topology key must also be required")) ;;
      None) (elements projected)) ;;
  return_if ((mlen (apc_DomainMaxUnavailable cfg) == 0)
             || (mlen (apc_DomainMaxConcurrentTransfers cfg) == 0))
    (Some (EPlain "domain budget maps must be non-empty")) ;;
  return_if ((MaxProjectedTopologyKeys <? mlen (apc_DomainMaxUnavailable cfg))
             || (MaxProjectedTopologyKeys <? mlen (apc_DomainMaxConcurrentTransfers cfg)))
    (Some (EPlain "domain budget maps may each contain at most 16 entries")) ;;
  propagate (range_check (validateDomainBudget required) (apc_DomainMaxUnavailable cfg)) ;;
  propagate (range_check (validateDomainBudget required) (apc_DomainMaxConcurrentTransfers cfg)) ;;
  return_if (MaxProjectedTopologyKeys <? setLen (dom (apc_DomainMaxUnavailable cfg)
                                                 ∪ dom (apc_DomainMaxConcurrentTransfers cfg)))
    (Some (EPlain "combined domain budgets may contain at most 16 topology keys")) ;;
  None
  end end.

(** The defaults are set between the checks; the checks before each assignment do
    not read the field it sets, so they are made on the completed policy. *)
Definition validateAdminPolicyConfig (cfg : AdminPolicyConfig) : AdminPolicyConfig + goerror :=
  let cfg := withDefaults cfg in
  match (propagate (validatePolicyLimits cfg) ;; validatePolicyTopology cfg) with
  | Some e => inr e
  | None => inl cfg
  end.
End validation.
