(* ===== verification/AdminPolicyOps.v ===== *)
(** * The administrator policy: what the controllers ask of it

    src/internal/topologyrollout/policy.go: the methods of [ParsedAdminPolicy].
    The receiver is not nil: the methods' nil checks return an error. *)

From S2P Require Import Prelude GoLib GoTime Json Interfaces LedgerData Ledger AdminPolicy.

Record ParsedAdminPolicy `{LabelLib} := {
  pap_Config : AdminPolicyConfig;
  pap_Selector : Selector;
  pap_Namespace : string;
  pap_Name : string;
  pap_LedgerUID : string;
  pap_PolicyUID : string;
  pap_ResourceVersion : string;
  pap_HealthFreshness : Duration;
  pap_AdmissionPrefix : string;
}.

(** src/api/ops/v1alpha1/iosxesoftwarerollout_types.go; the integers are int32. *)
Definition IOSXESoftwareRolloutWorkloadBlockIfRunning : string := "BlockIfRunning".
Definition IOSXESoftwareRolloutWorkloadDrain : string := "Drain".

Record IOSXESoftwareRolloutDrainSpec := {
  drn_Namespaces : list string;
  drn_TimeoutSeconds : Z;
  drn_MaxPods : Z;
  drn_MaxTerminationGraceSeconds : Z;
}.

Record IOSXESoftwareRolloutWorkloadSpec := {
  wls_Policy : string;
  wls_Drain : option IOSXESoftwareRolloutDrainSpec;
}.

(** Addition of int32 values. *)
Definition int32_add (a b : Z) : Z := (a + b + 2 ^ 31) mod 2 ^ 32 - 2 ^ 31.

Section parsed.
Context `{KV : K8sValidation, LL : LabelLib}.

(** ** Admission *)

Definition riskGroupBudgets (groups : list AdminRiskGroup) : gmap string RiskGroupBudget :=
  foldl (λ m g, <[arg_Name g := {| rgb_MaxConcurrentTransfers := arg_MaxConcurrentTransfers g;
                                   rgb_MaxUnavailable := arg_MaxUnavailable g |}]> m) ∅ groups.

Definition AdmissionPolicy (p : ParsedAdminPolicy) (now : Time) : Policy :=
  let cfg := pap_Config p in
  {| pol_UID := pap_PolicyUID p;
     pol_Version := pap_ResourceVersion p;
     pol_Epoch := 1;
     pol_GlobalMaxConcurrentTransfers := apc_GlobalMaxConcurrentTransfers cfg;
     pol_GlobalMaxUnavailable := apc_GlobalMaxUnavailable cfg;
     pol_DomainTransferBudgets := apc_DomainMaxConcurrentTransfers cfg;
     pol_DomainBudgets := apc_DomainMaxUnavailable cfg;
     pol_RiskGroupBudgets := riskGroupBudgets (apc_RiskGroups cfg);
     pol_MaxActiveRecords := apc_MaxActiveReservations cfg;
     pol_MaxSerializedBytes := apc_MaxLedgerBytes cfg;
     pol_RequiredHealthFreshBy := now - pap_HealthFreshness p |}.

(** ** Risk groups of a device *)

(** The names of the groups whose selector matches, in the order of the policy. *)
Fixpoint matchingGroups (deviceLabels : gmap string string) (groups : list AdminRiskGroup)
  : list string + goerror :=
  match groups with
  | [] => inl []
  | group :: groups =>
      match LabelSelectorAsSelector (arg_Selector group) with
      | None => inr (EPlain "risk group selector is invalid")
      | Some selector =>
          match matchingGroups deviceLabels groups with
          | inr e => inr e
          | inl names => inl (if Matches selector deviceLabels then arg_Name group :: names
                              else names)
          end
      end
  end.

Definition RiskGroups (p : ParsedAdminPolicy) (deviceLabels : gmap string string)
  : list string + goerror :=
  match validateRiskGroups (pap_Config p) with
  | Some e => inr e
  | None =>
      match matchingGroups deviceLabels (apc_RiskGroups (pap_Config p)) with
      | inr e => inr e
      | inl groups => inl (sort_Strings groups)
      end
  end.

(** ** Byte rate *)

(** The per-transfer share: int64 division, which truncates. *)
Definition transferShare (g : AdminRiskGroup) : Z :=
  Z.quot (arg_MaxAggregateTransferBytesPerSecond g) (arg_MaxConcurrentTransfers g).

Fixpoint transferRateLoop (deviceLabels : gmap string string) (effective : Z)
    (groups : list AdminRiskGroup) : Z + goerror :=
  match groups with
  | [] => inl effective
  | group :: groups =>
      return_if (arg_MaxAggregateTransferBytesPerSecond group == 0)
        (transferRateLoop deviceLabels effective groups) ;;
      match LabelSelectorAsSelector (arg_Selector group) with
      | None => inr (EPlain "risk group selector is invalid")
      | Some selector =>
          return_if (negb (Matches selector deviceLabels))
            (transferRateLoop deviceLabels effective groups) ;;
          let share := transferShare group in
          transferRateLoop deviceLabels
            (if (effective == 0) || (share <? effective) then share else effective) groups
      end
  end.

Definition MaxTransferBytesPerSecond (p : ParsedAdminPolicy) (deviceLabels : gmap string string)
  : Z + goerror :=
  match validateRiskGroups (pap_Config p) with
  | Some e => inr e
  | None => transferRateLoop deviceLabels 0 (apc_RiskGroups (pap_Config p))
  end.

(** ** Workload drain *)

(** The loop over the requested namespaces. *)
Fixpoint drainNamespacesLoop (allowed : list string) (seen : gset string)
    (namespaces : list string) : option goerror :=
  match namespaces with
  | [] => None
  | namespace :: namespaces =>
      return_if (negb (IsDNS1123Label namespace)) (Some (EPlain "drain namespace is invalid")) ;;
      return_if (bool_decide (namespace ∈ seen))
        (Some (EPlain "drain namespaces contains duplicate")) ;;
      return_if (negb (bool_decide (namespace ∈ allowed)))
        (Some (EPlain "drain namespace is not allowed by administrator policy")) ;;
      drainNamespacesLoop allowed ({[namespace]} ∪ seen) namespaces
  end.

(** The part of [ValidateWorkloadPolicy] for a drain request. *)
Definition validateDrainRequest (cap : AdminWorkloadDrainPolicy)
    (drain : IOSXESoftwareRolloutDrainSpec) : option goerror :=
  return_if (outside 1 16 (llen (drn_Namespaces drain)))
    (Some (EPlain "drain namespaces must contain between 1 and 16 entries")) ;;
  propagate (drainNamespacesLoop (awd_AllowedNamespaces cap) ∅ (drn_Namespaces drain)) ;;
  return_if (outside minDrainTimeoutSeconds maxDrainTimeoutSeconds (drn_TimeoutSeconds drain))
    (Some (EPlain "drain timeoutSeconds is out of range")) ;;
  return_if (awd_MaxTimeoutSeconds cap <? drn_TimeoutSeconds drain)
    (Some (EPlain "drain timeoutSeconds exceeds administrator cap")) ;;
  return_if (outside minDrainPods maxDrainPods (drn_MaxPods drain))
    (Some (EPlain "drain maxPods is out of range")) ;;
  return_if (awd_MaxPods cap <? drn_MaxPods drain)
    (Some (EPlain "drain maxPods exceeds administrator cap")) ;;
  return_if (outside minDrainGraceSeconds maxDrainGraceSeconds (drn_MaxTerminationGraceSeconds drain))
    (Some (EPlain "drain maxTerminationGraceSeconds is out of range")) ;;
  return_if (awd_MaxTerminationGraceSeconds cap <? drn_MaxTerminationGraceSeconds drain)
    (Some (EPlain "drain maxTerminationGraceSeconds exceeds administrator cap")) ;;
  return_if (drn_TimeoutSeconds drain
             <? int32_add (drn_MaxTerminationGraceSeconds drain) drainCompletionBuffer)
    (Some (EPlain "drain timeoutSeconds must cover the grace period and a buffer")) ;;
  None.

Definition ValidateWorkloadPolicy (p : ParsedAdminPolicy)
    (workloads : IOSXESoftwareRolloutWorkloadSpec) : option goerror :=
  match validateAdminPolicyConfig (pap_Config p) with
  | inr e => Some e
  | inl cfg =>
      let policy := if wls_Policy workloads == "" then IOSXESoftwareRolloutWorkloadBlockIfRunning
                    else wls_Policy workloads in
      if policy == IOSXESoftwareRolloutWorkloadBlockIfRunning then
        match wls_Drain workloads with
        | Some _ => Some (EPlain "drain configuration is forbidden for BlockIfRunning")
        | None => None
        end
      else if policy == IOSXESoftwareRolloutWorkloadDrain then
        match wls_Drain workloads with
        | None => Some (EPlain "drain configuration is required for Drain")
        | Some drain =>
            match apc_WorkloadDrain cfg with
            | None => Some (EPlain "administrator topology policy does not enable workload drain")
            | Some cap => validateDrainRequest cap drain
            end
        end
      else Some (EPlain "unsupported workload policy")
  end.

(** ** Disruption protection *)

Fixpoint protectionLoop (deviceLabels : gmap string string)
    (matched : option AdminDisruptionProtection) (rules : list AdminDisruptionProtection)
  : option AdminDisruptionProtection + goerror :=
  match rules with
  | [] => inl matched
  | rule :: rules =>
      match LabelSelectorAsSelector (adp_Selector rule) with
      | None => inr (EPlain "disruption protection selector is invalid")
      | Some selector =>
          protectionLoop deviceLabels
            (if Matches selector deviceLabels
                && match matched with None => true | Some m => String.ltb (adp_Name rule) (adp_Name m) end
             then Some rule else matched) rules
      end
  end.

Definition DisruptionProtection (p : ParsedAdminPolicy) (deviceLabels : gmap string string)
  : option AdminDisruptionProtection + goerror :=
  return_if (llen (apc_DisruptionProtections (pap_Config p)) == 0) (inl None) ;;
  match validateDisruptionProtections (pap_Config p) with
  | Some e => inr e
  | None => protectionLoop deviceLabels None (apc_DisruptionProtections (pap_Config p))
  end.
End parsed.
