(* ===== verification/AdminPolicySpec.v ===== *)
(** * The administrator policy: what validation guarantees

    The validators of src/internal/topologyrollout/policy.go as propositions, and
    the lemmas on the queries of a valid policy. *)

From S2P Require Import Prelude GoLib GoTime Json Interfaces LedgerData Ledger LedgerSpec.
From S2P Require Import LedgerAdmission LedgerHistory AdminPolicy AdminPolicyOps.

Lemma outside_false lo hi v : outside lo hi v = false ↔ lo ≤ v ≤ hi.
Proof. unfold outside. rewrite orb_false_iff, !Z.ltb_ge. lia. Qed.
#[export] Hint Rewrite outside_false : go_bool.

Lemma first_duplicate_false seen names :
  first_duplicate seen names = false ↔ NoDup names ∧ ∀ n, n ∈ names → n ∉ seen.
Proof.
  revert seen. induction names as [|n names IH]; intros seen; simpl.
  { split; [|done]. intros _. split; [constructor|set_solver]. }
  rewrite orb_false_iff, bool_decide_eq_false, IH, NoDup_cons. set_solver.
Qed.

(** Elements with distinct keys are determined by their key. *)
Lemma NoDup_key_inj {A} (key : A → string) (l : list A) x y :
  NoDup (map key l) → x ∈ l → y ∈ l → key x = key y → x = y.
Proof.
  induction l as [|a l IH]; intros Hn Hx Hy He; [by apply not_elem_of_nil in Hx|].
  simpl in Hn. apply NoDup_cons in Hn as [Ha Hn].
  apply elem_of_cons in Hx as [->|Hx], Hy as [->|Hy]; [done|..]; auto; destruct Ha;
    apply list_elem_of_fmap; eauto.
Qed.

(** The budgets of one risk group. *)
Record risk_group_ok (g : AdminRiskGroup) : Prop := {
  rg_transfers : 1 ≤ arg_MaxConcurrentTransfers g ≤ DefaultMaxCampaignTargets;
  rg_unavailable : 1 ≤ arg_MaxUnavailable g ≤ DefaultMaxCampaignTargets;
  rg_rate : arg_MaxAggregateTransferBytesPerSecond g = 0
    ∨ arg_MaxConcurrentTransfers g ≤ arg_MaxAggregateTransferBytesPerSecond g ≤ 2 ^ 40;
}.

Lemma validateRiskGroupBudget_spec g : validateRiskGroupBudget g = None ↔ risk_group_ok g.
Proof.
  unfold validateRiskGroupBudget. go_none. rewrite !outside_false, andb_false_iff, !Z.ltb_ge.
  split; [intros (?&?&?&?&_); split; lia|intros []; split_and!; lia || done].
Qed.

Section valid.
Context `{KV : K8sValidation, LL : LabelLib}.

Definition selector_of (s : LabelSelector) (sel : Selector) : Prop :=
  LabelSelectorAsSelector s = Some sel.

(** The device is selected. *)
Definition selects (s : LabelSelector) (labels : gmap string string) : Prop :=
  ∃ sel, selector_of s sel ∧ Matches sel labels = true.

#[export] Instance selects_dec s labels : Decision (selects s labels).
Proof.
  unfold selects, selector_of. destruct (LabelSelectorAsSelector s) as [sel|].
  - destruct (Matches sel labels) eqn:Hm; [left; eauto|right].
    intros (? & [= <-] & ?). congruence.
  - right. by intros (? & ? & _).
Defined.

(** The limits of a selector whose keys are restricted to [allowed]. *)
Record selector_limits (allowed : string → Prop) (s : LabelSelector) : Prop := {
  sl_nonempty : ls_MatchLabels s ≠ ∅ ∨ ls_MatchExpressions s ≠ [];
  sl_count : mlen (ls_MatchLabels s) ≤ 32 ∧ llen (ls_MatchExpressions s) ≤ 32;
  sl_labels key value : ls_MatchLabels s !! key = Some value →
    allowed key ∧ slen key ≤ 96 ∧ slen value ≤ 63;
  sl_expressions r : r ∈ ls_MatchExpressions s →
    allowed (lsr_Key r) ∧ slen (lsr_Key r) ≤ 96 ∧ llen (lsr_Values r) ≤ 32
    ∧ ∀ v, v ∈ lsr_Values r → slen v ≤ 63;
  sl_parses : ∃ sel, selector_of s sel;
}.

Lemma empty_selector_false s :
  (mlen (ls_MatchLabels s) == 0) && (llen (ls_MatchExpressions s) == 0) = false ↔
  ls_MatchLabels s ≠ ∅ ∨ ls_MatchExpressions s ≠ [].
Proof.
  unfold mlen, llen. rewrite andb_false_iff, !bool_decide_eq_false.
  rewrite <- (map_size_empty_iff (ls_MatchLabels s)), <- length_zero_iff_nil. lia.
Qed.

Lemma value_lengths e values :
  first_error (λ v, return_if (63 <? slen v) (Some e) ;; None) values = None ↔
  ∀ v, v ∈ values → slen v ≤ 63.
Proof.
  rewrite first_error_None. setoid_rewrite ret_if_None. setoid_rewrite Z.ltb_ge. naive_solver.
Qed.

Lemma selector_parsed s e :
  match LabelSelectorAsSelector s with None => Some e | Some _ => None end = @None goerror ↔
  ∃ sel, selector_of s sel.
Proof. unfold selector_of. destruct (LabelSelectorAsSelector s); naive_solver. Qed.

Ltac selector_spec :=
  rewrite !ret_if_None, !propagate_None, range_check_None, first_error_None, selector_parsed,
    empty_selector_false, orb_false_iff, !Z.ltb_ge;
  setoid_rewrite ret_if_None; setoid_rewrite ret_if_None; setoid_rewrite value_lengths;
  setoid_rewrite orb_false_iff; setoid_rewrite Z.ltb_ge; setoid_rewrite negb_false_iff.

Ltac selector_fields :=
  let Hl := fresh "Hl" in let He := fresh "He" in let Hk := fresh "Hk" in
  split;
  [intros (? & ? & Hl & He & ?); split; [done..| | |done]
  |intros [? ? Hl He ?]; split_and!; [tauto..| | |done]];
  intros * Hk; (specialize (Hl _ _ Hk) || specialize (He _ Hk)); tauto.

Lemma validateFleetSelector_spec s :
  validateFleetSelector s = None ↔
  selector_limits (λ key, HasPrefix key "topology.cisco.vk/" = true) s.
Proof.
  unfold validateFleetSelector. selector_spec. selector_fields.
Qed.

Lemma validateRuleSelector_spec required s :
  validateRuleSelector required s = None ↔ selector_limits (λ key, key ∈ required) s.
Proof.
  unfold validateRuleSelector. selector_spec. setoid_rewrite bool_decide_eq_true. selector_fields.
Qed.

Lemma selector_limits_impl (P Q : string → Prop) s :
  (∀ k, P k → Q k) → selector_limits P s → selector_limits Q s.
Proof.
  intros HPQ [? ? Hl He ?]. split; [done..| | |done].
  - intros k v Hk. destruct (Hl k v Hk) as (? & ? & ?). auto.
  - intros r Hr. destruct (He r Hr) as (? & ? & ? & ?). auto.
Qed.

(** A rule selector restricted to the listed keys. *)
Definition rule_selector_ok (required : list string) (s : LabelSelector) : Prop :=
  selector_limits (λ key, key ∈ required) s.

Lemma validateRuleSelector_listed (required : list string) s :
  validateRuleSelector (list_to_set required) s = None ↔ rule_selector_ok required s.
Proof.
  rewrite validateRuleSelector_spec.
  split; apply selector_limits_impl; intros k; by rewrite elem_of_list_to_set.
Qed.

(** The loops over named entries, which differ in the check of an entry. *)
Lemma named_loop_spec {A} (name : A → string) (ok : A → Prop)
    (loop : gset string → list A → option goerror) :
  (∀ seen, loop seen [] = None) →
  (∀ seen a l, loop seen (a :: l) = None ↔
     (name a ∉ seen ∧ ok a ∧ loop ({[name a]} ∪ seen) l = None)) →
  ∀ seen l, loop seen l = None ↔
    NoDup (map name l) ∧ (∀ a, a ∈ l → name a ∉ seen) ∧ ∀ a, a ∈ l → ok a.
Proof.
  intros Hnil Hcons seen l. revert seen. induction l as [|a l IH]; intros seen.
  { split; [|by intros]. intros _. split_and!; [constructor|set_solver..]. }
  rewrite Hcons, IH. simpl. rewrite NoDup_cons, list_elem_of_fmap. split.
  - intros (Hs & Ha & Hn & Hseen & Hall). split_and!; [|done| |].
    + intros (a' & He & Ha'). apply Hseen in Ha'. set_solver.
    + intros a' [->|Ha']%elem_of_cons; [done|]. apply Hseen in Ha'. set_solver.
    + intros a' [->|Ha']%elem_of_cons; auto.
  - intros ([Hna Hn] & Hseen & Hall). split_and!; [by apply Hseen; left|by apply Hall; left|done| |].
    + intros a' Ha' [He%elem_of_singleton|Hs]%elem_of_union; [destruct Hna; eauto|].
      revert Hs. apply Hseen. by right.
    + intros a' Ha'. apply Hall. by right.
Qed.

(** ** Risk groups *)

Record risk_groups_ok (required : list string) (groups : list AdminRiskGroup) : Prop := {
  rgs_length : llen groups ≤ 16;
  rgs_names : NoDup (map arg_Name groups);
  rgs_labels g : g ∈ groups → IsDNS1123Label (arg_Name g) = true;
  rgs_budgets g : g ∈ groups → risk_group_ok g;
  rgs_limits g : g ∈ groups → rule_selector_ok required (arg_Selector g);
}.

Lemma rgs_selectors required groups :
  risk_groups_ok required groups → ∀ g, g ∈ groups → ∃ sel, selector_of (arg_Selector g) sel.
Proof. intros Hok g Hg. eapply sl_parses, rgs_limits; eauto. Qed.

Lemma validateRiskGroups_iff cfg :
  validateRiskGroups cfg = None ↔
  risk_groups_ok (apc_RequiredTopologyKeys cfg) (apc_RiskGroups cfg).
Proof.
  unfold validateRiskGroups. rewrite ret_if_None, Z.ltb_ge.
  rewrite (named_loop_spec arg_Name (λ g, IsDNS1123Label (arg_Name g) = true ∧ risk_group_ok g
    ∧ rule_selector_ok (apc_RequiredTopologyKeys cfg) (arg_Selector g))
    (validateRiskGroupsLoop (list_to_set (apc_RequiredTopologyKeys cfg)))); [|done|].
  - split; [intros (? & ? & _ & ?); split; naive_solver|].
    intros []. split_and!; [done..|set_solver|auto].
  - intros seen g l. simpl. rewrite !ret_if_None, !propagate_None, negb_false_iff, bool_decide_eq_false.
    rewrite validateRiskGroupBudget_spec, validateRuleSelector_listed. tauto.
Qed.

Lemma validateRiskGroups_spec cfg :
  validateRiskGroups cfg = None →
  risk_groups_ok (apc_RequiredTopologyKeys cfg) (apc_RiskGroups cfg).
Proof. by rewrite validateRiskGroups_iff. Qed.

(** ** Disruption protections *)

Record protections_ok (required : list string) (rules : list AdminDisruptionProtection) : Prop := {
  dps_length : llen rules ≤ 16;
  dps_names : NoDup (map adp_Name rules);
  dps_labels r : r ∈ rules → IsDNS1123Label (adp_Name r) = true;
  dps_reasons r : r ∈ rules → adp_Reason r = AdminDisruptionReasonCriticalService
    ∨ adp_Reason r = AdminDisruptionReasonSingletonPath;
  dps_limits r : r ∈ rules → rule_selector_ok required (adp_Selector r);
}.

Lemma validateDisruptionProtections_iff cfg :
  validateDisruptionProtections cfg = None ↔
  protections_ok (apc_RequiredTopologyKeys cfg) (apc_DisruptionProtections cfg).
Proof.
  unfold validateDisruptionProtections. rewrite ret_if_None, Z.ltb_ge.
  rewrite (named_loop_spec adp_Name (λ r, IsDNS1123Label (adp_Name r) = true
    ∧ (adp_Reason r = AdminDisruptionReasonCriticalService
       ∨ adp_Reason r = AdminDisruptionReasonSingletonPath)
    ∧ rule_selector_ok (apc_RequiredTopologyKeys cfg) (adp_Selector r))
    (validateProtectionsLoop (list_to_set (apc_RequiredTopologyKeys cfg)))); [|done|].
  - split; [intros (? & ? & _ & ?); split; naive_solver|].
    intros []. split_and!; [done..|set_solver|auto].
  - intros seen r l. simpl. rewrite !ret_if_None, !propagate_None, negb_false_iff, bool_decide_eq_false.
    rewrite andb_false_iff, !negb_false_iff, !bool_decide_eq_true, validateRuleSelector_listed. tauto.
Qed.

Lemma matchingGroups_spec labels groups :
  (∀ g, g ∈ groups → ∃ sel, selector_of (arg_Selector g) sel) →
  matchingGroups labels groups
  = inl (map arg_Name (filter (λ g, selects (arg_Selector g) labels) groups)).
Proof.
  induction groups as [|g groups IH]; intros Hsel; simpl; [done|].
  destruct (Hsel g) as [sel Hg]; [by left|]. unfold selector_of in Hg. rewrite Hg, IH
    by (intros; apply Hsel; by right).
  rewrite filter_cons. destruct (Matches sel labels) eqn:Hm.
  - rewrite decide_True; [done|]. by exists sel.
  - rewrite decide_False; [done|]. intros (sel' & Hs & Hm'). unfold selector_of in Hs. congruence.
Qed.

(** The names of the groups that select a device, sorted. *)
Lemma RiskGroups_spec p labels names :
  RiskGroups p labels = inl names →
  names = sort_Strings (map arg_Name
            (filter (λ g, selects (arg_Selector g) labels) (apc_RiskGroups (pap_Config p)))).
Proof.
  unfold RiskGroups. destruct (validateRiskGroups _) eqn:Hv; [done|].
  pose proof (rgs_selectors _ _ (validateRiskGroups_spec _ Hv)) as Hsel.
  rewrite matchingGroups_spec by done.
  by intros [= <-].
Qed.

Lemma RiskGroups_elem p labels names n :
  RiskGroups p labels = inl names →
  n ∈ names ↔ ∃ g, g ∈ apc_RiskGroups (pap_Config p) ∧ arg_Name g = n
                   ∧ selects (arg_Selector g) labels.
Proof.
  intros ->%RiskGroups_spec. rewrite sort_Strings_elem, list_elem_of_fmap. split.
  - intros (g & -> & [? ?]%list_elem_of_filter). eauto.
  - intros (g & ? & <- & ?). exists g. split; [done|]. by apply list_elem_of_filter.
Qed.

Lemma risk_group_unique required groups g g' :
  risk_groups_ok required groups → g ∈ groups → g' ∈ groups → arg_Name g = arg_Name g' → g = g'.
Proof. intros [_ Hn _ _ _]. by apply NoDup_key_inj. Qed.
End valid.

(** ** The admission policy *)

Definition group_budget (g : AdminRiskGroup) : RiskGroupBudget :=
  {| rgb_MaxConcurrentTransfers := arg_MaxConcurrentTransfers g;
     rgb_MaxUnavailable := arg_MaxUnavailable g |}.

Lemma riskGroupBudgets_lookup groups name b :
  NoDup (map arg_Name groups) →
  riskGroupBudgets groups !! name = Some b ↔
  ∃ g, g ∈ groups ∧ arg_Name g = name ∧ b = group_budget g.
Proof.
  unfold riskGroupBudgets. induction groups as [|g groups IH] using rev_ind; intros Hn; simpl.
  { rewrite lookup_empty. set_solver. }
  rewrite foldl_snoc. rewrite map_app in Hn. apply NoDup_app in Hn as (Hn & Hd & _).
  rewrite lookup_insert_Some, (IH Hn). split.
  - intros [[<- <-]|[_ (g' & ? & ? & ?)]]; [exists g|exists g']; set_solver.
  - intros (g' & [Hg'|Hg'%list_elem_of_singleton]%elem_of_app & <- & ->); [right|left; by subst].
    split; [|eauto]. intros He. apply (Hd (arg_Name g')); [apply list_elem_of_fmap; eauto|].
    rewrite <- He. by left.
Qed.

(** ** The whole policy *)

(** The administrator's caps on workload drain. *)
Record drain_policy_ok `{K8sValidation} (d : AdminWorkloadDrainPolicy) : Prop := {
  dp_count : 1 ≤ llen (awd_AllowedNamespaces d) ≤ 16;
  dp_distinct : NoDup (awd_AllowedNamespaces d);
  dp_labels ns : ns ∈ awd_AllowedNamespaces d → IsDNS1123Label ns = true;
  dp_timeout : 300 ≤ awd_MaxTimeoutSeconds d ≤ 7200;
  dp_pods : 1 ≤ awd_MaxPods d ≤ 32;
  dp_grace : 30 ≤ awd_MaxTerminationGraceSeconds d ≤ 600;
  dp_buffer : awd_MaxTerminationGraceSeconds d + 120 ≤ awd_MaxTimeoutSeconds d;
}.

(** A key that a policy may use. *)
Definition topology_key_ok `{K8sValidation} (key : string) : Prop :=
  slen key ≤ 96 ∧ IsQualifiedName key = true
  ∧ (key = LabelTopologyRegion ∨ key = LabelTopologyZone
     ∨ HasPrefix key "topology.cisco.vk/" = true ∨ HasPrefix key "operations.cisco.vk/" = true
     ∨ HasPrefix key "distribution.cisco.vk/" = true).

(** A domain budget: only required keys, every value in range, and 1 to 16 of them. *)
Record domain_budget_ok (required : list string) (m : gmap string Z) : Prop := {
  db_count : 1 ≤ mlen m ≤ 16;
  db_values key c : m !! key = Some c → key ∈ required ∧ 1 ≤ c ≤ DefaultMaxCampaignTargets;
}.

(** What a valid policy satisfies, field by field. *)
Record policy_ok `{K8sValidation, LabelLib} (cfg : AdminPolicyConfig) : Prop := {
  po_version : apc_Version cfg = PolicyVersion;
  po_accounts : IsDNS1123Label (apc_AppHostingServiceAccountName cfg) = true
    ∧ IsDNS1123Label (apc_NetworkManagementServiceAccountName cfg) = true
    ∧ apc_AppHostingServiceAccountName cfg ≠ apc_NetworkManagementServiceAccountName cfg;
  po_lease_namespace : apc_ConfigLeaseNamespace cfg = ""
    ∨ IsDNS1123Label (apc_ConfigLeaseNamespace cfg) = true;
  po_fleet : selector_limits (λ key, HasPrefix key "topology.cisco.vk/" = true)
    (apc_FleetSelector cfg);
  po_transfers : 1 ≤ apc_GlobalMaxConcurrentTransfers cfg ≤ DefaultMaxCampaignTargets;
  po_unavailable : 1 ≤ apc_GlobalMaxUnavailable cfg ≤ DefaultMaxCampaignTargets;
  po_targets : 1 ≤ apc_MaxCampaignTargets cfg ≤ DefaultMaxCampaignTargets;
  po_active : 1 ≤ apc_MaxActiveReservations cfg ≤ DefaultMaxActiveRecords;
  po_bytes : 4096 ≤ apc_MaxLedgerBytes cfg ≤ DefaultMaxSerializedBytes;
  po_freshness : 30 ≤ apc_HealthFreshnessSeconds cfg ≤ 3600;
  po_drain d : apc_WorkloadDrain cfg = Some d → awd_Enabled d = true ∧ drain_policy_ok d;
  po_protections : protections_ok (apc_RequiredTopologyKeys cfg) (apc_DisruptionProtections cfg);
  po_groups : risk_groups_ok (apc_RequiredTopologyKeys cfg) (apc_RiskGroups cfg);
  po_ledger : IsDNS1123Subdomain (apc_LedgerName cfg) = true;
  po_required : 1 ≤ llen (apc_RequiredTopologyKeys cfg) ≤ MaxProjectedTopologyKeys
    ∧ NoDup (apc_RequiredTopologyKeys cfg) ∧ Forall topology_key_ok (apc_RequiredTopologyKeys cfg);
  po_projected : llen (apc_ProjectedTopologyKeys cfg) ≤ MaxProjectedTopologyKeys
    ∧ NoDup (apc_ProjectedTopologyKeys cfg)
    ∧ Forall topology_key_ok (apc_ProjectedTopologyKeys cfg)
    ∧ ∀ key, key ∈ apc_ProjectedTopologyKeys cfg → key ∈ apc_RequiredTopologyKeys cfg
        ∧ HasPrefix key "operations.cisco.vk/" = false
        ∧ HasPrefix key "distribution.cisco.vk/" = false;
  po_domain : domain_budget_ok (apc_RequiredTopologyKeys cfg) (apc_DomainMaxUnavailable cfg);
  po_domain_transfers :
    domain_budget_ok (apc_RequiredTopologyKeys cfg) (apc_DomainMaxConcurrentTransfers cfg);
  po_combined : setLen (dom (apc_DomainMaxUnavailable cfg)
    ∪ dom (apc_DomainMaxConcurrentTransfers cfg)) ≤ MaxProjectedTopologyKeys;
}.

Section policy.
Context `{KV : K8sValidation, LL : LabelLib}.

Lemma validateWorkloadDrain_spec d : validateWorkloadDrain d = None ↔ drain_policy_ok d.
Proof.
  unfold validateWorkloadDrain, minDrainTimeoutSeconds, maxDrainTimeoutSeconds, minDrainPods,
    maxDrainPods, minDrainGraceSeconds, maxDrainGraceSeconds, drainCompletionBuffer.
  rewrite !ret_if_None, propagate_None, first_error_None, !ret_if_None, !outside_false, Z.ltb_ge.
  rewrite first_duplicate_false. setoid_rewrite ret_if_None. setoid_rewrite negb_false_iff.
  split; [intros (? & Hl & [? _] & ?); split; try tauto; naive_solver|].
  intros []. split_and!; (done || set_solver || naive_solver).
Qed.

Lemma validateTopologyKeysLoop_spec seen keys required :
  validateTopologyKeysLoop seen keys = inl required ↔
  NoDup keys ∧ (∀ k, k ∈ keys → k ∉ seen) ∧ Forall topology_key_ok keys
  ∧ required = list_to_set keys ∪ seen.
Proof.
  revert seen. induction keys as [|k keys IH]; intros seen; simpl.
  { split; [intros [= <-]; split_and!; [constructor|set_solver|constructor|set_solver]|].
    intros (_ & _ & _ & ->). f_equal. set_solver. }
  rewrite NoDup_cons, Forall_cons. unfold topology_key_ok at 1.
  destruct (Z.ltb_spec 96 (slen k)); [split; [done|intros (_ & _ & [(? & _) _] & _); lia]|].
  case_bool_decide as Hseen; [split; [done|intros (_ & Hn & _); by destruct (Hn k ltac:(by left))]|].
  destruct (_ && _) eqn:Hpre.
  { split; [done|]. intros (_ & _ & [(_ & _ & Hk) _] & _).
    rewrite !andb_true_iff, !negb_true_iff, !bool_decide_eq_false in Hpre.
    destruct Hpre as ((((? & ?) & ?) & ?) & ?). naive_solver congruence. }
  destruct (IsQualifiedName k) eqn:Hq; simpl; [|split; [done|by intros (_ & _ & [(_ & ? & _) _] & _)]].
  rewrite IH. rewrite !andb_false_iff, !negb_false_iff, !bool_decide_eq_true in Hpre.
  split.
  - intros (? & Hk & ? & ->). split_and!; [set_solver|done|set_solver|done|done|tauto|done|set_solver].
  - intros ([? ?] & Hk & [_ ?] & ->). split_and!; [done|set_solver|done|set_solver].
Qed.

Lemma validateTopologyKeys_spec keys required :
  validateTopologyKeys keys = inl required ↔
  NoDup keys ∧ Forall topology_key_ok keys ∧ required = list_to_set keys.
Proof.
  unfold validateTopologyKeys. rewrite validateTopologyKeysLoop_spec, (right_id_L ∅ (∪)).
  set_solver.
Qed.

Lemma validateDomainBudget_spec required key value :
  validateDomainBudget required key value = None ↔
  key ∈ required ∧ 1 ≤ value ≤ DefaultMaxCampaignTargets.
Proof.
  unfold validateDomainBudget.
  rewrite !ret_if_None, negb_false_iff, bool_decide_eq_true, outside_false. tauto.
Qed.

(** The fields that [validatePolicyTopology] checks. *)
Definition topology_ok (cfg : AdminPolicyConfig) : Prop :=
  (1 ≤ llen (apc_RequiredTopologyKeys cfg) ≤ MaxProjectedTopologyKeys
   ∧ NoDup (apc_RequiredTopologyKeys cfg) ∧ Forall topology_key_ok (apc_RequiredTopologyKeys cfg))
  ∧ (llen (apc_ProjectedTopologyKeys cfg) ≤ MaxProjectedTopologyKeys
     ∧ NoDup (apc_ProjectedTopologyKeys cfg)
     ∧ Forall topology_key_ok (apc_ProjectedTopologyKeys cfg)
     ∧ ∀ key, key ∈ apc_ProjectedTopologyKeys cfg → key ∈ apc_RequiredTopologyKeys cfg
         ∧ HasPrefix key "operations.cisco.vk/" = false
         ∧ HasPrefix key "distribution.cisco.vk/" = false)
  ∧ domain_budget_ok (apc_RequiredTopologyKeys cfg) (apc_DomainMaxUnavailable cfg)
  ∧ domain_budget_ok (apc_RequiredTopologyKeys cfg) (apc_DomainMaxConcurrentTransfers cfg)
  ∧ setLen (dom (apc_DomainMaxUnavailable cfg) ∪ dom (apc_DomainMaxConcurrentTransfers cfg))
    ≤ MaxProjectedTopologyKeys.

(** The projected keys that may become Node labels. *)
Lemma projected_keys_spec (required projected : list string) e e' :
  first_error (λ key,
      return_if (HasPrefix key "operations.cisco.vk/" || HasPrefix key "distribution.cisco.vk/")
        (Some e) ;;
      return_if (negb (bool_decide (key ∈ (list_to_set required : gset string)))) (Some e') ;; None)
    (elements (list_to_set projected : gset string)) = None ↔
  ∀ key, key ∈ projected → key ∈ required ∧ HasPrefix key "operations.cisco.vk/" = false
    ∧ HasPrefix key "distribution.cisco.vk/" = false.
Proof.
  rewrite first_error_None.
  assert (∀ key, (return_if (HasPrefix key "operations.cisco.vk/"
                             || HasPrefix key "distribution.cisco.vk/") (Some e) ;;
                  return_if (negb (bool_decide (key ∈ (list_to_set required : gset string))))
                    (Some e') ;; None) = None ↔
                 key ∈ required ∧ HasPrefix key "operations.cisco.vk/" = false
                 ∧ HasPrefix key "distribution.cisco.vk/" = false) as Hkey.
  { intros key. rewrite !ret_if_None, orb_false_iff, negb_false_iff, bool_decide_eq_true.
    rewrite elem_of_list_to_set. tauto. }
  setoid_rewrite Hkey. setoid_rewrite elem_of_elements. by setoid_rewrite elem_of_list_to_set.
Qed.

Lemma domain_budgets_spec (required : list string) m :
  range_check (validateDomainBudget (list_to_set required)) m = None ↔
  ∀ key c, m !! key = Some c → key ∈ required ∧ 1 ≤ c ≤ DefaultMaxCampaignTargets.
Proof.
  rewrite range_check_None. setoid_rewrite validateDomainBudget_spec.
  by setoid_rewrite elem_of_list_to_set.
Qed.

Lemma validatePolicyTopology_spec cfg : validatePolicyTopology cfg = None ↔ topology_ok cfg.
Proof.
  unfold validatePolicyTopology, topology_ok.
  rewrite !ret_if_None, orb_false_iff, bool_decide_eq_false, !Z.ltb_ge.
  destruct (validateTopologyKeys (apc_RequiredTopologyKeys cfg)) as [required|e] eqn:Hr.
  2: { split; [naive_solver|]. intros ((_ & Hk) & _).
       assert (validateTopologyKeys (apc_RequiredTopologyKeys cfg) = inl (list_to_set (apc_RequiredTopologyKeys cfg)))
         by (apply validateTopologyKeys_spec; tauto). congruence. }
  destruct (validateTopologyKeys (apc_ProjectedTopologyKeys cfg)) as [projected|e] eqn:Hp.
  2: { split; [naive_solver|]. intros (_ & (_ & ? & ? & _) & _).
       assert (validateTopologyKeys (apc_ProjectedTopologyKeys cfg) = inl (list_to_set (apc_ProjectedTopologyKeys cfg)))
         by (apply validateTopologyKeys_spec; tauto). congruence. }
  apply validateTopologyKeys_spec in Hr as (Hrn & Hrk & ->), Hp as (Hpn & Hpk & ->).
  rewrite !propagate_None, !ret_if_None, !propagate_None, ret_if_None, projected_keys_spec.
  rewrite !domain_budgets_spec, !orb_false_iff, !bool_decide_eq_false, !Z.ltb_ge.
  unfold mlen, llen in *. split.
  - intros ([? ?] & ? & ? & [? ?] & [? ?] & ? & ? & ? & _).
    split_and!; try done; try lia; split; try done; unfold mlen, MaxProjectedTopologyKeys in *; lia.
  - intros (([? ?] & _) & (? & _ & _ & ?) & [? ?] & [? ?] & ?).
    unfold mlen, MaxProjectedTopologyKeys in *. split_and!; try done; lia.
Qed.

Lemma drain_enabled cfg d :
  apc_WorkloadDrain (withDefaults cfg) = Some d → awd_Enabled d = true.
Proof. simpl. repeat case_match; naive_solver. Qed.

(** The validator accepts exactly the policies that satisfy [policy_ok] once the
    defaults are filled in. *)
Lemma validateAdminPolicyConfig_iff cfg cfg' :
  validateAdminPolicyConfig cfg = inl cfg' ↔ cfg' = withDefaults cfg ∧ policy_ok cfg'.
Proof.
  unfold validateAdminPolicyConfig.
  assert ((propagate (validatePolicyLimits (withDefaults cfg)) ;;
           validatePolicyTopology (withDefaults cfg)) = None ↔ policy_ok (withDefaults cfg)) as Hiff.
  { pose proof (drain_enabled cfg) as He. revert He. generalize (withDefaults cfg). clear.
    intros cfg He. rewrite propagate_None, validatePolicyTopology_spec. unfold validatePolicyLimits.
    rewrite !ret_if_None, !propagate_None, !ret_if_None, !propagate_None, ret_if_None.
    rewrite !outside_false, validateFleetSelector_spec, validateRiskGroups_iff.
    rewrite validateDisruptionProtections_iff, orb_false_iff, andb_false_iff, !negb_false_iff.
    rewrite !bool_decide_eq_true, bool_decide_eq_false. unfold topology_ok. split.
    - intros ((? & [? ?] & ? & ? & ? & ? & ? & ? & ? & ? & ? & Hd & ? & ? & ? & _) & ? & ? & ? & ? & ?).
      split; try done. intros d Hsome. split; [by apply He|].
      rewrite Hsome in Hd. by apply validateWorkloadDrain_spec.
    - intros []. split_and!; try done; try tauto.
      destruct (apc_WorkloadDrain cfg) as [d|] eqn:Hd; [|done].
      by apply validateWorkloadDrain_spec, po_drain0. }
  destruct (propagate (validatePolicyLimits (withDefaults cfg)) ;; _) eqn:Hchk.
  - split; [done|]. intros [-> Hok%Hiff]. done.
  - split; [intros [= <-]; split; [done|by apply Hiff]|]. by intros [-> _].
Qed.

Lemma validateAdminPolicyConfig_ok cfg cfg' :
  validateAdminPolicyConfig cfg = inl cfg' → cfg' = withDefaults cfg ∧ policy_ok cfg'.
Proof. by rewrite validateAdminPolicyConfig_iff. Qed.

(** The validators that the queries call again accept a validated policy. *)
Lemma validated_checks cfg cfg' :
  validateAdminPolicyConfig cfg = inl cfg' →
  validateDisruptionProtections cfg' = None ∧ validateRiskGroups cfg' = None.
Proof.
  intros [_ Hok]%validateAdminPolicyConfig_ok.
  by rewrite validateDisruptionProtections_iff, validateRiskGroups_iff; destruct Hok.
Qed.

(** Defaults are filled in once. *)
Lemma default_idemp (d v : Z) :
  d ≠ 0 → (if (if v == 0 then d else v) == 0 then d else if v == 0 then d else v)
          = if v == 0 then d else v.
Proof. intros Hd. destruct (decide (v = 0)) as [->|]; by repeat case_bool_decide. Qed.

Lemma withDefaults_idemp cfg : withDefaults (withDefaults cfg) = withDefaults cfg.
Proof.
  destruct cfg as [? ? ? ? ? ? ? ? ? ? ? ? t a b d ? ? ?]. unfold withDefaults. simpl. f_equal.
  - by apply default_idemp.
  - by apply default_idemp.
  - by apply default_idemp.
  - destruct d as [d|]; [|done]. by destruct (awd_Enabled d) eqn:He; rewrite ?He.
Qed.

Lemma validate_withDefaults cfg cfg' :
  validateAdminPolicyConfig cfg = inl cfg' → validateAdminPolicyConfig cfg' = inl cfg'.
Proof.
  intros Hv. destruct (validateAdminPolicyConfig_ok _ _ Hv) as [-> _].
  unfold validateAdminPolicyConfig in *. by rewrite withDefaults_idemp.
Qed.

(** Every budget of an admission policy is at least one. *)
Record positive_budgets (p : Policy) : Prop := {
  pb_global : 1 ≤ pol_GlobalMaxConcurrentTransfers p ∧ 1 ≤ pol_GlobalMaxUnavailable p;
  pb_domain_transfers key c : pol_DomainTransferBudgets p !! key = Some c → 1 ≤ c;
  pb_domain key c : pol_DomainBudgets p !! key = Some c → 1 ≤ c;
  pb_groups name b : pol_RiskGroupBudgets p !! name = Some b →
    1 ≤ rgb_MaxConcurrentTransfers b ∧ 1 ≤ rgb_MaxUnavailable b;
}.

Lemma AdmissionPolicy_positive p now :
  policy_ok (pap_Config p) → positive_budgets (AdmissionPolicy p now).
Proof.
  intros []. split; simpl.
  - lia.
  - intros key c Hk. apply po_domain_transfers0 in Hk. lia.
  - intros key c Hk. apply po_domain0 in Hk. lia.
  - intros g b Hb. apply riskGroupBudgets_lookup in Hb as (g' & Hg & _ & ->);
      [|by destruct po_groups0].
    destruct (rgs_budgets _ _ po_groups0 g' Hg). simpl. lia.
Qed.

Lemma AdmissionPolicy_nonnegative p now :
  policy_ok (pap_Config p) → nonnegative (AdmissionPolicy p now).
Proof.
  intros [? Ht Hu Hg]%(AdmissionPolicy_positive p now). split.
  - lia.
  - intros key c Hk. apply Ht in Hk. lia.
  - intros key c Hk. apply Hu in Hk. lia.
  - intros g b Hb. apply Hg in Hb. lia.
Qed.
End policy.
