(* ===== verification/AdminPolicyProofs.v ===== *)
(** * The administrator policy: lemmas on its queries

    What [RiskGroups], [MaxTransferBytesPerSecond], [ValidateWorkloadPolicy] and
    [DisruptionProtection] of src/internal/topologyrollout/policy.go compute on a
    valid policy, and how the byte rate composes with the ledger's budgets. *)

From S2P Require Import Prelude GoLib GoTime Json Interfaces LedgerData Ledger LedgerSpec.
From S2P Require Import LedgerAdmission LedgerHistory AdminPolicy AdminPolicyOps AdminPolicySpec.

(** ** Risk groups *)

Lemma sorted_strict l : StronglySorted String.le l → NoDup l → StronglySorted str_lt l.
Proof.
  induction 1 as [|x l Hs IH Hall]; intros Hn; [constructor|].
  apply NoDup_cons in Hn as [Hx Hn]. constructor; [auto|].
  apply Forall_forall. intros y Hy. rewrite Forall_forall in Hall. apply str_le_lt.
  split; [by apply Hall|]. intros ->. done.
Qed.

Section groups.
Context `{KV : K8sValidation, LL : LabelLib}.

Lemma filter_names_NoDup labels groups :
  NoDup (map arg_Name groups) →
  NoDup (map arg_Name (filter (λ g, selects (arg_Selector g) labels) groups)).
Proof.
  induction groups as [|g groups IH]; simpl; [constructor|].
  intros [Hg Hn]%NoDup_cons. rewrite filter_cons. case_decide; simpl; [|auto].
  constructor; [|auto]. intros (g' & He & [_ Hg']%list_elem_of_filter)%list_elem_of_fmap.
  destruct Hg. apply list_elem_of_fmap. eauto.
Qed.

Lemma RiskGroups_strict p labels names :
  RiskGroups p labels = inl names → StronglySorted str_lt names.
Proof.
  intros Hr. pose proof Hr as Hs%RiskGroups_spec. unfold RiskGroups in Hr.
  destruct (validateRiskGroups _) eqn:Hv; [done|]. apply validateRiskGroups_spec in Hv as [].
  subst names. apply sorted_strict; [apply sort_Strings_sorted|].
  rewrite sort_Strings_Permutation. by apply filter_names_NoDup.
Qed.

Lemma RiskGroups_valid p labels names :
  RiskGroups p labels = inl names → validateRiskGroupNames names = None.
Proof.
  intros Hr. apply validateRiskGroupNames_spec. split_and!; [|..|by eapply RiskGroups_strict].
  - pose proof Hr as ->%RiskGroups_spec. unfold RiskGroups in Hr.
    destruct (validateRiskGroups _) eqn:Hv; [done|]. apply validateRiskGroups_spec in Hv as [].
    unfold llen in *. rewrite sort_Strings_Permutation, length_map.
    etrans; [|done]. apply Nat2Z.inj_le, length_filter.
  - intros n (g & Hg & <- & _)%(RiskGroups_elem _ _ _ _ Hr). unfold RiskGroups in Hr.
    destruct (validateRiskGroups _) eqn:Hv; [done|]. apply validateRiskGroups_spec in Hv as []. auto.
Qed.

(** ** Byte rate *)

(** A group that limits the byte rate of the device. *)
Definition rate_limits (labels : gmap string string) (g : AdminRiskGroup) : Prop :=
  arg_MaxAggregateTransferBytesPerSecond g ≠ 0 ∧ selects (arg_Selector g) labels.

Lemma transferShare_bounds g :
  risk_group_ok g → arg_MaxAggregateTransferBytesPerSecond g ≠ 0 →
  1 ≤ transferShare g
  ∧ transferShare g * arg_MaxConcurrentTransfers g ≤ arg_MaxAggregateTransferBytesPerSecond g.
Proof.
  intros [Ht _ [?|Hr]] Hn; [done|]. unfold transferShare. rewrite Z.quot_div_nonneg by lia. split.
  - apply Z.div_le_lower_bound; lia.
  - rewrite Z.mul_comm. apply Z.mul_div_le. lia.
Qed.

Lemma transferRateLoop_spec labels groups eff :
  (∀ g, g ∈ groups → risk_group_ok g ∧ ∃ sel, selector_of (arg_Selector g) sel) → 0 ≤ eff →
  ∃ r, transferRateLoop labels eff groups = inl r
    ∧ (eff ≠ 0 → 1 ≤ r ≤ eff)
    ∧ (∀ g, g ∈ groups → rate_limits labels g → 1 ≤ r ≤ transferShare g)
    ∧ (r = eff ∨ ∃ g, g ∈ groups ∧ rate_limits labels g ∧ r = transferShare g).
Proof.
  revert eff. induction groups as [|g groups IH]; intros eff Hok He; simpl.
  { exists eff. split_and!; [done|lia|set_solver|by left]. }
  destruct (Hok g) as [Hg [sel Hsel]]; [by left|].
  assert (∀ g', g' ∈ groups → risk_group_ok g' ∧ ∃ sel, selector_of (arg_Selector g') sel) as Hok'
    by (intros; apply Hok; by right).
  assert (¬ rate_limits labels g → ∃ r, transferRateLoop labels eff groups = inl r
    ∧ (eff ≠ 0 → 1 ≤ r ≤ eff)
    ∧ (∀ g', g' ∈ g :: groups → rate_limits labels g' → 1 ≤ r ≤ transferShare g')
    ∧ (r = eff ∨ ∃ g', g' ∈ g :: groups ∧ rate_limits labels g' ∧ r = transferShare g')) as Hskip.
  { intros Hnot. destruct (IH eff Hok' He) as (r & ? & ? & Hall & Hex). exists r.
    split_and!; [done..| |].
    - intros g' [->|Hg']%elem_of_cons Hrl; [done|by apply Hall].
    - destruct Hex as [?|(g' & ? & ?)]; [by left|right; exists g'; split; [by right|done]]. }
  case_bool_decide as Hz; [by apply Hskip; intros [? _]|].
  unfold selector_of in Hsel. rewrite Hsel. destruct (Matches sel labels) eqn:Hm; simpl.
  2: { apply Hskip. intros [_ (sel' & Hs & Hm')]. unfold selector_of in Hs. congruence. }
  assert (rate_limits labels g) as Hrl by (split; [done|by exists sel]).
  destruct (transferShare_bounds g Hg Hz) as [Hs _].
  set (eff' := if _ || _ then _ else _).
  assert (1 ≤ eff' ≤ transferShare g ∧ (eff ≠ 0 → eff' ≤ eff)
          ∧ (eff' = eff ∨ eff' = transferShare g)) as (Hb & Hle & Hor).
  { unfold eff'. destruct (decide (eff = 0)) as [->|]; [simpl; auto with lia|].
    rewrite bool_decide_eq_false_2 by done. simpl. destruct (Z.ltb_spec (transferShare g) eff); lia. }
  destruct (IH eff' Hok' ltac:(lia)) as (r & -> & Hle' & Hall & Hex). exists r. split_and!.
  - done.
  - lia.
  - intros g' [->|Hg']%elem_of_cons Hrl'; [lia|by apply Hall].
  - destruct Hex as [Hr|(g' & ? & ?)]; [|right; exists g'; split; [by right|done]].
    destruct Hor as [?|?]; [left; lia|right; exists g; split; [by left|split; [done|lia]]].
Qed.

Lemma MaxTransferBytesPerSecond_spec p labels :
  validateRiskGroups (pap_Config p) = None →
  ∃ r, MaxTransferBytesPerSecond p labels = inl r
    ∧ (∀ g, g ∈ apc_RiskGroups (pap_Config p) → rate_limits labels g → 1 ≤ r ≤ transferShare g)
    ∧ (r = 0 ∨ ∃ g, g ∈ apc_RiskGroups (pap_Config p) ∧ rate_limits labels g ∧ r = transferShare g).
Proof.
  intros Hv. unfold MaxTransferBytesPerSecond. rewrite Hv. apply validateRiskGroups_spec in Hv.
  destruct (transferRateLoop_spec labels (apc_RiskGroups (pap_Config p)) 0) as (r & ? & _ & ? & ?);
    [|lia|eauto].
  intros g Hg. split; [by eapply rgs_budgets|by eapply rgs_selectors].
Qed.

(** The bytes per second of the reservations of a group, when reservation [id]
    transfers at [rate id]. *)
Definition group_rate (rate : string → Z) (l : Ledger) (group : string) : Z :=
  map_fold (λ id r acc, (if containsSorted (req_RiskGroups (rsv_Request r)) group
                         then rate id else 0) + acc) 0 (reservations l).

Lemma map_fold_rate_le (P : Reservation → bool) (rate : string → Z) (c : Z)
    (m : gmap string Reservation) :
  (∀ id r, m !! id = Some r → P r = true → rate id ≤ c) →
  map_fold (λ id r acc, (if P r then rate id else 0) + acc) 0 m ≤ c * mcount P m.
Proof.
  induction m as [|id r m Hid IH] using map_ind; intros Hle.
  { rewrite map_fold_empty, mcount_empty. lia. }
  rewrite map_fold_insert_L, mcount_insert; [|done|intros; lia|done].
  assert (map_fold (λ id r acc, (if P r then rate id else 0) + acc) 0 m ≤ c * mcount P m).
  { apply IH. intros id' r' Hid'. apply Hle. rewrite lookup_insert_ne; congruence. }
  destruct (P r) eqn:HP; [|lia]. specialize (Hle id r ltac:(apply lookup_insert_eq) HP). lia.
Qed.

(** A transfer at [rate] bytes per second to a device with [labels] obeys the
    policy's pace; a pace of zero is none: the transfer runs at any rate. *)
Definition paced (p : ParsedAdminPolicy) (labels : gmap string string) (rate : Z) : Prop :=
  ∀ pace, MaxTransferBytesPerSecond p labels = inl pace → pace ≠ 0 → rate ≤ pace.

(** The device of a reservation is in the group: the policy gives it a nonzero pace of
    at most the group's share. *)
Lemma group_member_pace p labels names g :
  validateRiskGroups (pap_Config p) = None → RiskGroups p labels = inl names →
  g ∈ apc_RiskGroups (pap_Config p) → arg_MaxAggregateTransferBytesPerSecond g ≠ 0 →
  containsSorted names (arg_Name g) = true →
  ∃ pace, MaxTransferBytesPerSecond p labels = inl pace ∧ 1 ≤ pace ≤ transferShare g.
Proof.
  intros Hv Hr Hg Hagg Hin. apply containsSorted_iff in Hin; [|by eapply RiskGroups_strict].
  apply (RiskGroups_elem _ _ _ _ Hr) in Hin as (g' & Hg' & Hn & Hsel).
  assert (g' = g) as -> by (eapply risk_group_unique; eauto using validateRiskGroups_spec).
  destruct (MaxTransferBytesPerSecond_spec p labels Hv) as (pace & Hm & Hall & _).
  exists pace. split; [done|]. by apply Hall.
Qed.

Lemma group_rate_bounded p now (labels : string → gmap string string) rate l g :
  policy_ok (pap_Config p) → validateRiskGroups (pap_Config p) = None →
  occupancy_bounded (AdmissionPolicy p now) l →
  (∀ id r, reservations l !! id = Some r →
     RiskGroups p (labels id) = inl (req_RiskGroups (rsv_Request r)) ∧ paced p (labels id) (rate id)) →
  g ∈ apc_RiskGroups (pap_Config p) → arg_MaxAggregateTransferBytesPerSecond g ≠ 0 →
  group_rate rate l (arg_Name g) ≤ arg_MaxAggregateTransferBytesPerSecond g.
Proof.
  intros Hp Hv Hob Hdev Hg Hagg. pose proof (po_groups _ Hp) as Hgs.
  destruct (transferShare_bounds g (rgs_budgets _ _ Hgs g Hg) Hagg) as [Hs1 Hs2].
  assert (activeReservationsInRiskGroup l (arg_Name g) ≤ arg_MaxConcurrentTransfers g) as Hc.
  { eapply (ob_risk_group _ _ Hob (arg_Name g) (group_budget g)). simpl.
    apply riskGroupBudgets_lookup; [by destruct Hgs|eauto]. }
  etrans; [apply (map_fold_rate_le _ rate (transferShare g))|].
  2: { unfold activeReservationsInRiskGroup in Hc. nia. }
  intros id r Hid Hin. destruct (Hdev id r Hid) as [Hr Hpace].
  destruct (group_member_pace p _ _ g Hv Hr Hg Hagg Hin) as (pace & Hm & ?).
  specialize (Hpace pace Hm). lia.
Qed.
End groups.

(** ** Workload drain *)

(** A drain request within the administrator's caps. *)
Record drain_within `{K8sValidation} (cap : AdminWorkloadDrainPolicy)
    (d : IOSXESoftwareRolloutDrainSpec) : Prop := {
  dw_count : 1 ≤ llen (drn_Namespaces d) ≤ 16;
  dw_distinct : NoDup (drn_Namespaces d);
  dw_namespaces ns : ns ∈ drn_Namespaces d →
    IsDNS1123Label ns = true ∧ ns ∈ awd_AllowedNamespaces cap;
  dw_timeout : minDrainTimeoutSeconds ≤ drn_TimeoutSeconds d
    ≤ Z.min maxDrainTimeoutSeconds (awd_MaxTimeoutSeconds cap);
  dw_pods : minDrainPods ≤ drn_MaxPods d ≤ Z.min maxDrainPods (awd_MaxPods cap);
  dw_grace : minDrainGraceSeconds ≤ drn_MaxTerminationGraceSeconds d
    ≤ Z.min maxDrainGraceSeconds (awd_MaxTerminationGraceSeconds cap);
  dw_buffer : drn_MaxTerminationGraceSeconds d + drainCompletionBuffer ≤ drn_TimeoutSeconds d;
}.

Section drain.
Context `{KV : K8sValidation, LL : LabelLib}.

Lemma drainNamespacesLoop_spec allowed seen namespaces :
  drainNamespacesLoop allowed seen namespaces = None ↔
  NoDup namespaces ∧ (∀ ns, ns ∈ namespaces → ns ∉ seen)
  ∧ ∀ ns, ns ∈ namespaces → IsDNS1123Label ns = true ∧ ns ∈ allowed.
Proof.
  revert seen. induction namespaces as [|ns namespaces IH]; intros seen; simpl.
  { split; [|done]. intros _. split_and!; [constructor|set_solver..]. }
  rewrite !ret_if_None, !negb_false_iff, bool_decide_eq_false, bool_decide_eq_true, IH, NoDup_cons.
  set_solver.
Qed.

Lemma int32_add_small a b : - 2 ^ 31 ≤ a + b < 2 ^ 31 → int32_add a b = a + b.
Proof. intros Hab. unfold int32_add. rewrite Z.mod_small; lia. Qed.

(** The int32 addition of the last check does not wrap: the grace period was
    checked before. *)
Lemma validateDrainRequest_spec cap d : validateDrainRequest cap d = None ↔ drain_within cap d.
Proof.
  unfold validateDrainRequest.
  rewrite !ret_if_None, propagate_None, !ret_if_None, drainNamespacesLoop_spec.
  rewrite !outside_false, !Z.ltb_ge. split.
  - intros (? & (? & _ & ?) & ? & ? & ? & ? & Hg & ? & Hb & _).
    unfold minDrainGraceSeconds, maxDrainGraceSeconds, drainCompletionBuffer in *.
    rewrite int32_add_small in Hb by lia. split; (done || unfold minDrainGraceSeconds,
      maxDrainGraceSeconds, drainCompletionBuffer; lia).
  - intros []. unfold minDrainGraceSeconds, maxDrainGraceSeconds, drainCompletionBuffer in *.
    rewrite int32_add_small by lia. split_and!; (done || lia || set_solver).
Qed.

Lemma ValidateWorkloadPolicy_spec p w :
  ValidateWorkloadPolicy p w = None ↔
  ∃ cfg, validateAdminPolicyConfig (pap_Config p) = inl cfg ∧
    ((wls_Policy w = "" ∨ wls_Policy w = IOSXESoftwareRolloutWorkloadBlockIfRunning)
       ∧ wls_Drain w = None
     ∨ wls_Policy w = IOSXESoftwareRolloutWorkloadDrain
       ∧ ∃ cap d, apc_WorkloadDrain cfg = Some cap ∧ wls_Drain w = Some d ∧ drain_within cap d).
Proof.
  unfold ValidateWorkloadPolicy. destruct (validateAdminPolicyConfig _) as [cfg|e].
  2: { split; [done|]. by intros (? & ? & _). }
  transitivity ((wls_Policy w = "" ∨ wls_Policy w = IOSXESoftwareRolloutWorkloadBlockIfRunning)
       ∧ wls_Drain w = None
     ∨ wls_Policy w = IOSXESoftwareRolloutWorkloadDrain
       ∧ ∃ cap d, apc_WorkloadDrain cfg = Some cap ∧ wls_Drain w = Some d ∧ drain_within cap d).
  2: { split; [eauto|]. by intros (? & [= <-] & ?). }
  setoid_rewrite <- validateDrainRequest_spec.
  unfold IOSXESoftwareRolloutWorkloadBlockIfRunning, IOSXESoftwareRolloutWorkloadDrain.
  generalize (@validateDrainRequest KV), (wls_Policy w), (wls_Drain w), (apc_WorkloadDrain cfg).
  clear. intros check policy [d|] [cap|]; repeat case_bool_decide; naive_solver.
Qed.

(** ** Disruption protections *)

(** The rule with the least name among [matched] and those that select. *)
Definition least_rule (rules : list AdminDisruptionProtection) (labels : gmap string string)
    (res : option AdminDisruptionProtection) : Prop :=
  match res with
  | None => ∀ r, r ∈ rules → ¬ selects (adp_Selector r) labels
  | Some m => m ∈ rules ∧ selects (adp_Selector m) labels
      ∧ ∀ r, r ∈ rules → selects (adp_Selector r) labels → String.le (adp_Name m) (adp_Name r)
  end.

Lemma ltb_false_le a b : String.ltb a b = false → String.le b a.
Proof.
  intros Hab. destruct (total String.le b a) as [|Hle]; [done|].
  destruct (decide (a = b)) as [->|Hne]; [done|].
  assert (str_lt a b) by (by apply str_le_lt). unfold str_lt in *. congruence.
Qed.

Lemma protectionLoop_spec labels done_ rules matched :
  (∀ r, r ∈ rules → ∃ sel, selector_of (adp_Selector r) sel) →
  least_rule done_ labels matched →
  ∃ res, protectionLoop labels matched rules = inl res ∧ least_rule (done_ ++ rules) labels res.
Proof.
  revert done_ matched. induction rules as [|r rules IH]; intros done_ matched Hsel Hl; simpl.
  { exists matched. by rewrite app_nil_r. }
  destruct (Hsel r) as [sel Hr]; [by left|]. pose proof Hr as Hr'. unfold selector_of in Hr'.
  rewrite Hr'. replace (done_ ++ r :: rules) with ((done_ ++ [r]) ++ rules)
    by (by rewrite <- app_assoc).
  apply IH; [intros; apply Hsel; by right|].
  assert (selects (adp_Selector r) labels ↔ Matches sel labels = true) as Hiff.
  { split; [|by exists sel]. intros (sel' & Hs & ?). unfold selector_of in *. congruence. }
  destruct (Matches sel labels) eqn:Hm; simpl.
  - destruct matched as [m|]; simpl in *.
    + destruct Hl as (Hin & Hms & Hle). destruct (String.ltb _ _) eqn:Hlt; simpl.
      * assert (str_lt (adp_Name r) (adp_Name m)) as [Hrm _]%str_le_lt by done.
        split_and!; [set_solver|tauto|].
        intros r0 [?|?]%elem_of_app ?; [etrans; [done|auto]|set_solver].
      * split_and!; [set_solver|done|]. apply ltb_false_le in Hlt.
        intros r0 [?|?%list_elem_of_singleton]%elem_of_app ?; [auto|by subst].
    + split_and!; [set_solver|tauto|]. intros r0 [Hr0|Hr0]%elem_of_app ?; [by apply Hl in Hr0|].
      set_solver.
  - destruct matched as [m|]; simpl in *.
    + destruct Hl as (Hin & Hms & Hle). split_and!; [set_solver|done|].
      intros r0 [?|?%list_elem_of_singleton]%elem_of_app ?; [auto|subst; clear KV; naive_solver].
    + intros r0 [?|?%list_elem_of_singleton]%elem_of_app; [auto|subst; clear KV; naive_solver].
Qed.

Lemma DisruptionProtection_spec p labels :
  validateDisruptionProtections (pap_Config p) = None →
  ∃ res, DisruptionProtection p labels = inl res
    ∧ least_rule (apc_DisruptionProtections (pap_Config p)) labels res.
Proof.
  intros Hv. unfold DisruptionProtection. rewrite Hv. case_bool_decide as Hn.
  { exists None. split; [done|]. unfold llen in Hn.
    destruct (apc_DisruptionProtections _); [|done]. simpl. set_solver. }
  apply validateDisruptionProtections_iff in Hv.
  apply (protectionLoop_spec labels [] _ None); [|simpl; set_solver].
  intros r Hr. eapply sl_parses, dps_limits; eauto.
Qed.
End drain.
