(* ===== verification/AdminPolicyHash.v ===== *)
(** * The administrator policy: its hashes

    src/internal/topologyrollout/policy.go: [AdminPolicyHashes] with the
    canonicalisation it hashes, and src/internal/topologyrollout/ledger.go:
    [RiskGroupMembershipHash].

    [sort.Slice] is not stable; where two elements compare equal the model's order
    may differ from Go's.  Names are unique in a valid policy, and expressions
    that compare equal have the same JSON text, so the hashed text does not depend
    on it. *)

From S2P Require Import Prelude GoLib GoTime Json Interfaces LedgerData Ledger AdminPolicy.

(** [hex.EncodeToString] *)
Definition hex_EncodeToString (bs : list Z) : string :=
  of_bytes (mjoin (map (λ b, [hex_digit (b / 16); hex_digit (b mod 16)]) bs)).

(** [sort.Slice] with the order of a string key. *)
Definition key_le {A} (key : A → string) (a b : A) : Prop := String.le (key a) (key b).

#[export] Instance key_le_dec {A} (key : A → string) : RelDecision (key_le key).
Proof. intros a b. unfold key_le. apply _. Defined.

Definition sort_Slice {A} (key : A → string) (l : list A) : list A := merge_sort (key_le key) l.

(** A nil slice is [null]; the clones that are hashed have nil for empty. *)
Definition jstrings (l : list string) : json :=
  match l with [] => JNull | _ => JArr (map JStr l) end.

Definition jints (m : gmap string Z) : json :=
  JObj (map (λ kv, (kv.1, jint kv.2)) (sorted_entries m)).

(** An [omitempty] slice field. *)
Definition omitempty_list (k : string) (l : list json) : list (string * json) :=
  match l with [] => [] | _ => [(k, JArr l)] end.

Section hash.
Context `{LL : LabelLib, HL : HashLib}.

(** ** Canonical order *)

Definition canonicalizeRequirement (r : LabelSelectorRequirement) : LabelSelectorRequirement :=
  {| lsr_Key := lsr_Key r; lsr_Operator := lsr_Operator r;
     lsr_Values := sort_Strings (lsr_Values r) |}.

Definition requirement_text (r : LabelSelectorRequirement) : string :=
  Marshal (LabelSelectorRequirement_json r).

Definition canonicalizeLabelSelector (s : LabelSelector) : LabelSelector :=
  {| ls_MatchLabels := ls_MatchLabels s;
     ls_MatchExpressions :=
       sort_Slice requirement_text (map canonicalizeRequirement (ls_MatchExpressions s)) |}.

Definition canonicalizeProtection (r : AdminDisruptionProtection) : AdminDisruptionProtection :=
  {| adp_Name := adp_Name r; adp_Reason := adp_Reason r;
     adp_Selector := canonicalizeLabelSelector (adp_Selector r) |}.

Definition canonicalizeRiskGroup (g : AdminRiskGroup) : AdminRiskGroup :=
  {| arg_Name := arg_Name g; arg_Selector := canonicalizeLabelSelector (arg_Selector g);
     arg_MaxConcurrentTransfers := arg_MaxConcurrentTransfers g;
     arg_MaxUnavailable := arg_MaxUnavailable g;
     arg_MaxAggregateTransferBytesPerSecond := arg_MaxAggregateTransferBytesPerSecond g |}.

Definition canonicalizeDrain (d : AdminWorkloadDrainPolicy) : AdminWorkloadDrainPolicy :=
  {| awd_Enabled := awd_Enabled d; awd_AllowedNamespaces := sort_Strings (awd_AllowedNamespaces d);
     awd_MaxTimeoutSeconds := awd_MaxTimeoutSeconds d; awd_MaxPods := awd_MaxPods d;
     awd_MaxTerminationGraceSeconds := awd_MaxTerminationGraceSeconds d |}.

(** On the clone: the policy that was passed keeps its order. *)
Definition canonicalizePolicyCollections (cfg : AdminPolicyConfig) : AdminPolicyConfig :=
  {| apc_AppHostingServiceAccountName := apc_AppHostingServiceAccountName cfg;
     apc_NetworkManagementServiceAccountName := apc_NetworkManagementServiceAccountName cfg;
     apc_ConfigLeaseNamespace := apc_ConfigLeaseNamespace cfg; apc_Version := apc_Version cfg;
     apc_FleetSelector := canonicalizeLabelSelector (apc_FleetSelector cfg);
     apc_RequiredTopologyKeys := sort_Strings (apc_RequiredTopologyKeys cfg);
     apc_ProjectedTopologyKeys := sort_Strings (apc_ProjectedTopologyKeys cfg);
     apc_GlobalMaxConcurrentTransfers := apc_GlobalMaxConcurrentTransfers cfg;
     apc_GlobalMaxUnavailable := apc_GlobalMaxUnavailable cfg;
     apc_DomainMaxConcurrentTransfers := apc_DomainMaxConcurrentTransfers cfg;
     apc_DomainMaxUnavailable := apc_DomainMaxUnavailable cfg;
     apc_HealthFreshnessSeconds := apc_HealthFreshnessSeconds cfg;
     apc_MaxCampaignTargets := apc_MaxCampaignTargets cfg;
     apc_MaxActiveReservations := apc_MaxActiveReservations cfg;
     apc_MaxLedgerBytes := apc_MaxLedgerBytes cfg;
     apc_WorkloadDrain := canonicalizeDrain <$> apc_WorkloadDrain cfg;
     apc_DisruptionProtections :=
       sort_Slice adp_Name (map canonicalizeProtection (apc_DisruptionProtections cfg));
     apc_RiskGroups := sort_Slice arg_Name (map canonicalizeRiskGroup (apc_RiskGroups cfg));
     apc_LedgerName := apc_LedgerName cfg |}.

Definition sortedIntMapKeys (values : gmap string Z) : list string :=
  sort_Strings (map fst (map_to_list values)).

(** ** JSON *)

Definition protection_json (r : AdminDisruptionProtection) : json :=
  JObj [("name", JStr (adp_Name r)); ("reason", JStr (adp_Reason r));
        ("selector", LabelSelector_json (adp_Selector r))].

Definition risk_group_json (g : AdminRiskGroup) : json :=
  JObj ([("name", JStr (arg_Name g)); ("selector", LabelSelector_json (arg_Selector g));
         ("maxConcurrentTransfers", jint (arg_MaxConcurrentTransfers g));
         ("maxUnavailable", jint (arg_MaxUnavailable g))]
        ++ if arg_MaxAggregateTransferBytesPerSecond g == 0 then []
           else [("maxAggregateTransferBytesPerSecond",
                  jint (arg_MaxAggregateTransferBytesPerSecond g))]).

Definition drain_json (d : AdminWorkloadDrainPolicy) : json :=
  JObj [("enabled", JBool (awd_Enabled d)); ("allowedNamespaces", jstrings (awd_AllowedNamespaces d));
        ("maxTimeoutSeconds", jint (awd_MaxTimeoutSeconds d)); ("maxPods", jint (awd_MaxPods d));
        ("maxTerminationGraceSeconds", jint (awd_MaxTerminationGraceSeconds d))].

Definition policy_json (cfg : AdminPolicyConfig) : json :=
  JObj ([("appHostingServiceAccountName", JStr (apc_AppHostingServiceAccountName cfg));
         ("networkManagementServiceAccountName",
            JStr (apc_NetworkManagementServiceAccountName cfg));
         ("configLeaseNamespace", JStr (apc_ConfigLeaseNamespace cfg));
         ("version", JStr (apc_Version cfg));
         ("fleetSelector", LabelSelector_json (apc_FleetSelector cfg));
         ("requiredTopologyKeys", jstrings (apc_RequiredTopologyKeys cfg));
         ("projectedTopologyKeys", jstrings (apc_ProjectedTopologyKeys cfg));
         ("globalMaxConcurrentTransfers", jint (apc_GlobalMaxConcurrentTransfers cfg));
         ("globalMaxUnavailable", jint (apc_GlobalMaxUnavailable cfg));
         ("domainMaxConcurrentTransfers", jints (apc_DomainMaxConcurrentTransfers cfg));
         ("domainMaxUnavailable", jints (apc_DomainMaxUnavailable cfg));
         ("healthFreshnessSeconds", jint (apc_HealthFreshnessSeconds cfg));
         ("maxCampaignTargets", jint (apc_MaxCampaignTargets cfg));
         ("maxActiveReservations", jint (apc_MaxActiveReservations cfg));
         ("maxLedgerBytes", jint (apc_MaxLedgerBytes cfg))]
        ++ match apc_WorkloadDrain cfg with
           | Some d => [("workloadDrain", drain_json d)]
           | None => []
           end
        ++ omitempty_list "disruptionProtections" (map protection_json (apc_DisruptionProtections cfg))
        ++ omitempty_list "riskGroups" (map risk_group_json (apc_RiskGroups cfg))
        ++ [("ledgerName", JStr (apc_LedgerName cfg))]).

(** The anonymous struct [structure]. *)
Definition structure_json (cfg : AdminPolicyConfig) : json :=
  JObj ([("version", JStr (apc_Version cfg));
         ("appHostingServiceAccountName", JStr (apc_AppHostingServiceAccountName cfg));
         ("networkManagementServiceAccountName",
            JStr (apc_NetworkManagementServiceAccountName cfg));
         ("configLeaseNamespace", JStr (apc_ConfigLeaseNamespace cfg));
         ("fleetSelector", LabelSelector_json (apc_FleetSelector cfg));
         ("requiredTopologyKeys", jstrings (apc_RequiredTopologyKeys cfg));
         ("projectedTopologyKeys", jstrings (apc_ProjectedTopologyKeys cfg))]
        ++ omitempty_list "disruptionProtections" (map protection_json (apc_DisruptionProtections cfg))
        ++ omitempty_list "riskGroups" (map risk_group_json (apc_RiskGroups cfg))
        ++ [("transferDomainKeys",
               JArr (map JStr (sortedIntMapKeys (apc_DomainMaxConcurrentTransfers cfg))));
            ("unavailableDomainKeys",
               JArr (map JStr (sortedIntMapKeys (apc_DomainMaxUnavailable cfg))));
            ("ledgerName", JStr (apc_LedgerName cfg))]).

(** ** Hashes *)

(** [json.Marshal] does not fail on the values that are hashed. *)
Definition hashCanonicalJSON (value : json) : string :=
  "sha256:" +:+ hex_EncodeToString (Sum256 (Marshal value)).

Definition AdminPolicyHashes `{K8sValidation} (cfg : AdminPolicyConfig)
  : (string * string) + goerror :=
  match validateAdminPolicyConfig cfg with
  | inr e => inr e
  | inl cfg =>
      let cfg := canonicalizePolicyCollections cfg in
      inl (hashCanonicalJSON (policy_json cfg), hashCanonicalJSON (structure_json cfg))
  end.

(** ** Membership of the risk groups *)

Definition membership_json (m : Member) : json :=
  JObj [("physicalID", JStr (mem_PhysicalID m)); ("groups", jstrings (mem_RiskGroups m))].

(** The members in some group, by physical ID: the sort makes the order in which
    the map is ranged over irrelevant. *)
Definition groupedMembers (canonical : gmap string Member) : list Member :=
  sort_Slice mem_PhysicalID
    (filter (λ m, llen (mem_RiskGroups m) ≠ 0) (map snd (map_to_list canonical))).

(** The text that is hashed. *)
Definition membershipText (canonical : gmap string Member) : string :=
  Marshal (JArr (map membership_json (groupedMembers canonical))).

Definition RiskGroupMembershipHash `{K8sValidation} (members : list Member) : string + goerror :=
  match canonicalizeMembers members with
  | inr e => inr e
  | inl canonical =>
      inl ("sha256:" +:+ hex_EncodeToString (Sum256 (membershipText canonical)))
  end.
End hash.
