(* ===== verification/AdminPolicyHashProofs.v ===== *)
(** * The administrator policy: what its hashes depend on

    The texts that src/internal/topologyrollout hashes do not depend on the order
    of the collections whose order has no meaning, and the risk-group membership
    text determines the membership. *)

From S2P Require Import Prelude GoLib GoTime Json JsonProofs Interfaces LedgerData Ledger.
From S2P Require Import LedgerSpec LedgerAdmission AdminPolicy AdminPolicyOps AdminPolicySpec.
From S2P Require Import AdminPolicyProofs AdminPolicyHash LedgerCodec.

(** ** Sorting by a key *)

#[export] Instance key_le_total {A} (key : A → string) : Total (key_le key).
Proof. intros a b. apply (total String.le). Qed.

#[export] Instance key_le_trans {A} (key : A → string) : Transitive (key_le key).
Proof. intros a b c. unfold key_le. apply transitivity. Qed.

Lemma sort_Slice_perm {A} (key : A → string) l : sort_Slice key l ≡ₚ l.
Proof. apply merge_sort_Permutation. Qed.

Lemma sort_Slice_sorted {A} (key : A → string) l : StronglySorted (key_le key) (sort_Slice key l).
Proof. apply StronglySorted_merge_sort; apply _. Qed.

Lemma StronglySorted_map {A B} (R : relation A) (S : relation B) (f : A → B) l :
  (∀ a b, R a b → S (f a) (f b)) → StronglySorted R l → StronglySorted S (map f l).
Proof.
  intros HR. induction 1 as [|a l _ IH Hall]; simpl; constructor; [done|].
  apply Forall_map. eapply Forall_impl; [exact Hall|]. simpl. auto.
Qed.

(** Two lists with the same elements as [f] shows them are sorted to the same
    list, as [f] shows it, when [f] determines the key and no two different
    elements have the same key. *)
Lemma sort_Slice_image {A B} (key : A → string) (f : A → B) (key' : B → string) l l' :
  (∀ a, key' (f a) = key a) → map f l ≡ₚ map f l' →
  (∀ x y, x ∈ map f l → y ∈ map f l → key' x = key' y → x = y) →
  map f (sort_Slice key l) = map f (sort_Slice key l').
Proof.
  intros Hkey Hperm Huniq.
  assert (∀ l, StronglySorted (key_le key') (map f (sort_Slice key l))) as Hs.
  { intros l0. eapply StronglySorted_map, sort_Slice_sorted.
    intros a b. unfold key_le. by rewrite !Hkey. }
  assert (∀ l, map f (sort_Slice key l) ≡ₚ map f l) as Hp.
  { intros l0. apply (fmap_Permutation f), sort_Slice_perm. }
  apply (StronglySorted_unique_strong (key_le key')); [|done|done|by rewrite !Hp].
  intros x y Hx Hy Hxy Hyx. rewrite Hp in Hx. rewrite Hp, <- Hperm in Hy.
  apply Huniq; [done|done|]. by apply (anti_symm String.le).
Qed.

(** [permuted R l l']: a permutation of [l] is [l'] up to [R]. *)
Definition permuted {A} (R : relation A) (l l' : list A) : Prop :=
  ∃ m, l ≡ₚ m ∧ Forall2 R m l'.

Lemma permuted_map {A B} (R : relation A) (f : A → B) l l' :
  (∀ a b, R a b → f a = f b) → permuted R l l' → map f l ≡ₚ map f l'.
Proof.
  intros HR (m & Hm & Hf). rewrite (fmap_Permutation f _ _ Hm : map f l ≡ₚ map f m).
  replace (map f l') with (map f m); [done|].
  clear Hm. induction Hf as [|a b m l' Hab _ IH]; simpl; [done|]. by rewrite (HR a b Hab), IH.
Qed.

(** ** Policies that differ in order only *)

Definition requirement_equiv (a b : LabelSelectorRequirement) : Prop :=
  lsr_Key a = lsr_Key b ∧ lsr_Operator a = lsr_Operator b ∧ lsr_Values a ≡ₚ lsr_Values b.

Definition selector_equiv (s s' : LabelSelector) : Prop :=
  ls_MatchLabels s = ls_MatchLabels s'
  ∧ permuted requirement_equiv (ls_MatchExpressions s) (ls_MatchExpressions s').

Definition protection_equiv (r r' : AdminDisruptionProtection) : Prop :=
  adp_Name r = adp_Name r' ∧ adp_Reason r = adp_Reason r'
  ∧ selector_equiv (adp_Selector r) (adp_Selector r').

Definition risk_group_equiv (g g' : AdminRiskGroup) : Prop :=
  arg_Name g = arg_Name g' ∧ selector_equiv (arg_Selector g) (arg_Selector g')
  ∧ arg_MaxConcurrentTransfers g = arg_MaxConcurrentTransfers g'
  ∧ arg_MaxUnavailable g = arg_MaxUnavailable g'
  ∧ arg_MaxAggregateTransferBytesPerSecond g = arg_MaxAggregateTransferBytesPerSecond g'.

Definition drain_equiv (d d' : AdminWorkloadDrainPolicy) : Prop :=
  awd_Enabled d = awd_Enabled d' ∧ awd_AllowedNamespaces d ≡ₚ awd_AllowedNamespaces d'
  ∧ awd_MaxTimeoutSeconds d = awd_MaxTimeoutSeconds d' ∧ awd_MaxPods d = awd_MaxPods d'
  ∧ awd_MaxTerminationGraceSeconds d = awd_MaxTerminationGraceSeconds d'.

(** The structure of a policy: everything but its limits.  Of the domain budgets
    only the keys count. *)
Record structure_equiv (c c' : AdminPolicyConfig) : Prop := {
  se_version : apc_Version c = apc_Version c';
  se_apphosting : apc_AppHostingServiceAccountName c = apc_AppHostingServiceAccountName c';
  se_netmgmt :
    apc_NetworkManagementServiceAccountName c = apc_NetworkManagementServiceAccountName c';
  se_lease : apc_ConfigLeaseNamespace c = apc_ConfigLeaseNamespace c';
  se_fleet : selector_equiv (apc_FleetSelector c) (apc_FleetSelector c');
  se_required : apc_RequiredTopologyKeys c ≡ₚ apc_RequiredTopologyKeys c';
  se_projected : apc_ProjectedTopologyKeys c ≡ₚ apc_ProjectedTopologyKeys c';
  se_protections :
    permuted protection_equiv (apc_DisruptionProtections c) (apc_DisruptionProtections c');
  se_groups : permuted risk_group_equiv (apc_RiskGroups c) (apc_RiskGroups c');
  se_transfer_keys :
    dom (apc_DomainMaxConcurrentTransfers c) = dom (apc_DomainMaxConcurrentTransfers c');
  se_unavailable_keys : dom (apc_DomainMaxUnavailable c) = dom (apc_DomainMaxUnavailable c');
  se_ledger : apc_LedgerName c = apc_LedgerName c';
}.

(** The same policy, written in another order. *)
Record policy_equiv (c c' : AdminPolicyConfig) : Prop := {
  pe_structure : structure_equiv c c';
  pe_transfers : apc_GlobalMaxConcurrentTransfers c = apc_GlobalMaxConcurrentTransfers c';
  pe_unavailable : apc_GlobalMaxUnavailable c = apc_GlobalMaxUnavailable c';
  pe_domain_transfers :
    apc_DomainMaxConcurrentTransfers c = apc_DomainMaxConcurrentTransfers c';
  pe_domain : apc_DomainMaxUnavailable c = apc_DomainMaxUnavailable c';
  pe_freshness : apc_HealthFreshnessSeconds c = apc_HealthFreshnessSeconds c';
  pe_targets : apc_MaxCampaignTargets c = apc_MaxCampaignTargets c';
  pe_active : apc_MaxActiveReservations c = apc_MaxActiveReservations c';
  pe_bytes : apc_MaxLedgerBytes c = apc_MaxLedgerBytes c';
  pe_drain : option_Forall2 drain_equiv (apc_WorkloadDrain c) (apc_WorkloadDrain c');
}.

(** ** The hashed texts *)

Lemma requirement_equiv_canonical a b :
  requirement_equiv a b → canonicalizeRequirement a = canonicalizeRequirement b.
Proof.
  intros (Hk & Ho & Hv). unfold canonicalizeRequirement.
  by rewrite Hk, Ho, (sort_Strings_perm_eq _ _ Hv).
Qed.

Lemma drain_equiv_canonical d d' : drain_equiv d d' → canonicalizeDrain d = canonicalizeDrain d'.
Proof.
  intros (He & Hn & Ht & Hp & Hg). unfold canonicalizeDrain.
  by rewrite He, Ht, Hp, Hg, (sort_Strings_perm_eq _ _ Hn).
Qed.

Lemma sortedIntMapKeys_dom m m' : dom m = dom m' → sortedIntMapKeys m = sortedIntMapKeys m'.
Proof.
  intros Hd. apply sort_Strings_perm_eq. apply NoDup_Permutation.
  - apply NoDup_fst_map_to_list.
  - apply NoDup_fst_map_to_list.
  - intros k. rewrite !list_elem_of_fmap. setoid_rewrite elem_of_map_to_list'. 
    assert (k ∈ dom m ↔ k ∈ dom m') as Hk by (by rewrite Hd). rewrite !elem_of_dom in Hk.
    split; intros ([k0 v] & -> & Hv); simpl in *.
    + destruct (proj1 Hk) as [v' Hv']; [eauto|]. by exists (k0, v').
    + destruct (proj2 Hk) as [v' Hv']; [eauto|]. by exists (k0, v').
Qed.

Section texts.
Context `{LL : LabelLib, LJ : !LabelJsonSpec LL, HL : HashLib}.

(** JSON trees with the same text may stand for each other. *)
Lemma enc_array es es' : map enc es = map enc es' → enc (JArr es) = enc (JArr es').
Proof. intros He. simpl. by rewrite He. Qed.

Definition member_text (kv : string * json) : list Ascii.ascii :=
  enc_string kv.1 ++ byte_of 58 :: enc kv.2.

Lemma enc_object ms ms' : map member_text ms = map member_text ms' → enc (JObj ms) = enc (JObj ms').
Proof.
  intros Hm. change (byte_of 123 :: sep_by (byte_of 44) (map member_text ms) ++ [byte_of 125]
                     = byte_of 123 :: sep_by (byte_of 44) (map member_text ms') ++ [byte_of 125]).
  by rewrite Hm.
Qed.

Lemma selector_text s s' :
  selector_equiv s s' →
  enc (LabelSelector_json (canonicalizeLabelSelector s))
  = enc (LabelSelector_json (canonicalizeLabelSelector s')).
Proof using LJ.
  intros [Hm He]. rewrite !label_selector_json. unfold canonicalizeLabelSelector. simpl.
  apply (permuted_map _ _ _ _ requirement_equiv_canonical) in He.
  apply (fmap_Permutation requirement_text) in He. rewrite Hm.
  revert He.
  generalize (map canonicalizeRequirement (ls_MatchExpressions s)),
    (map canonicalizeRequirement (ls_MatchExpressions s')). intros l l' He.
  assert (map requirement_text (sort_Slice requirement_text l)
          = map requirement_text (sort_Slice requirement_text l')) as Ht.
  { by apply (sort_Slice_image requirement_text requirement_text id). }
  assert (map enc (map LabelSelectorRequirement_json (sort_Slice requirement_text l))
    = map enc (map LabelSelectorRequirement_json (sort_Slice requirement_text l'))) as Henc.
  { apply (f_equal (map bytes_of)) in Ht. rewrite !map_map in Ht. rewrite !map_map.
    unfold requirement_text, Marshal in Ht. setoid_rewrite bytes_of_of in Ht. done. }
  destruct (sort_Slice _ l) as [|a r], (sort_Slice _ l') as [|a' r']; try done.
  apply enc_object. rewrite !map_app. f_equal. simpl. f_equal. unfold member_text.
  do 2 f_equal. by apply enc_array.
Qed.
(** Named elements, sorted by name: their texts do not depend on the order. *)
Lemma named_texts {A} (name : A → string) (canon : A → A) (js : A → json) (R : relation A) l l' :
  (∀ a, name (canon a) = name a) →
  (∀ a b, R a b → name a = name b ∧ enc (js (canon a)) = enc (js (canon b))) →
  NoDup (map name l) → permuted R l l' →
  map enc (map js (sort_Slice name (map canon l)))
  = map enc (map js (sort_Slice name (map canon l'))).
Proof.
  intros Hname HR Hn Hp.
  assert (map (λ a, (name a, enc (js a))) (sort_Slice name (map canon l))
          = map (λ a, (name a, enc (js a))) (sort_Slice name (map canon l'))) as Heq.
  { apply (sort_Slice_image name (λ a, (name a, enc (js a))) fst); [done|..].
    - rewrite !map_map. apply (permuted_map R); [|done].
      intros a b [Hab He]%HR. by rewrite !Hname, Hab, He.
    - intros x y Hx Hy Hxy. rewrite map_map in Hx, Hy.
      apply list_elem_of_fmap in Hx as (a & -> & Ha), Hy as (b & -> & Hb). simpl in Hxy.
      rewrite !Hname in Hxy. by rewrite (NoDup_key_inj name l a b). }
  apply (f_equal (map snd)) in Heq. rewrite !map_map in Heq. by rewrite !map_map.
Qed.

Lemma protection_text r r' :
  protection_equiv r r' →
  adp_Name r = adp_Name r'
  ∧ enc (protection_json (canonicalizeProtection r)) = enc (protection_json (canonicalizeProtection r')).
Proof using LJ.
  intros (Hn & Hr & Hs). split; [done|]. apply enc_object. simpl. unfold member_text. simpl.
  by rewrite Hn, Hr, (selector_text _ _ Hs).
Qed.

Lemma risk_group_text g g' :
  risk_group_equiv g g' →
  arg_Name g = arg_Name g'
  ∧ enc (risk_group_json (canonicalizeRiskGroup g)) = enc (risk_group_json (canonicalizeRiskGroup g')).
Proof using LJ.
  intros (Hn & Hs & Ht & Hu & Ha). split; [done|]. apply enc_object.
  rewrite !map_app. simpl. unfold member_text. simpl.
  by rewrite Hn, Ht, Hu, Ha, (selector_text _ _ Hs).
Qed.

Lemma omitempty_list_text k l l' :
  map enc l = map enc l' →
  map member_text (omitempty_list k l) = map member_text (omitempty_list k l').
Proof.
  intros Hl. destruct l as [|x l], l' as [|x' l']; try done.
  unfold omitempty_list. cbn [map]. f_equal. unfold member_text. cbn [fst snd].
  do 2 f_equal. by apply enc_array.
Qed.

Section collections.
Context (c c' : AdminPolicyConfig) (Hse : structure_equiv c c').
Context (Hrules : NoDup (map adp_Name (apc_DisruptionProtections c))).
Context (Hgroups : NoDup (map arg_Name (apc_RiskGroups c))).

Lemma collections_text :
  map member_text (omitempty_list "disruptionProtections"
    (map protection_json (apc_DisruptionProtections (canonicalizePolicyCollections c))))
  = map member_text (omitempty_list "disruptionProtections"
    (map protection_json (apc_DisruptionProtections (canonicalizePolicyCollections c'))))
  ∧ map member_text (omitempty_list "riskGroups"
    (map risk_group_json (apc_RiskGroups (canonicalizePolicyCollections c))))
  = map member_text (omitempty_list "riskGroups"
    (map risk_group_json (apc_RiskGroups (canonicalizePolicyCollections c')))).
Proof using All.
  split; apply omitempty_list_text; simpl.
  - apply (named_texts adp_Name canonicalizeProtection protection_json protection_equiv);
      [done|apply protection_text|done|by destruct Hse].
  - apply (named_texts arg_Name canonicalizeRiskGroup risk_group_json risk_group_equiv);
      [done|apply risk_group_text|done|by destruct Hse].
Qed.

Lemma structure_text :
  enc (structure_json (canonicalizePolicyCollections c))
  = enc (structure_json (canonicalizePolicyCollections c')).
Proof using All.
  destruct collections_text as [Hd Hg], Hse. apply enc_object. rewrite !map_app, Hd, Hg. simpl.
  unfold member_text. simpl.
  rewrite (selector_text _ _ se_fleet0), (sort_Strings_perm_eq _ _ se_required0),
    (sort_Strings_perm_eq _ _ se_projected0), (sortedIntMapKeys_dom _ _ se_transfer_keys0),
    (sortedIntMapKeys_dom _ _ se_unavailable_keys0).
  congruence.
Qed.

Lemma policy_text :
  policy_equiv c c' →
  enc (policy_json (canonicalizePolicyCollections c))
  = enc (policy_json (canonicalizePolicyCollections c')).
Proof using All.
  intros []. destruct collections_text as [Hd Hg], Hse. apply enc_object.
  rewrite !map_app, Hd, Hg. cbn [canonicalizePolicyCollections apc_WorkloadDrain].
  replace (canonicalizeDrain <$> apc_WorkloadDrain c')
    with (canonicalizeDrain <$> apc_WorkloadDrain c).
  2: { destruct pe_drain0 as [d d' Hdr|]; [|done]. simpl. by rewrite (drain_equiv_canonical _ _ Hdr). }
  f_equal; [|f_equal; simpl; unfold member_text; simpl; congruence].
  simpl. unfold member_text. simpl.
  rewrite (selector_text _ _ se_fleet0), (sort_Strings_perm_eq _ _ se_required0),
    (sort_Strings_perm_eq _ _ se_projected0).
  congruence.
Qed.
End collections.
End texts.

Lemma withDefaults_structure c c' :
  structure_equiv c c' → structure_equiv (withDefaults c) (withDefaults c').
Proof. by intros []. Qed.

Lemma withDefaults_equiv c c' : policy_equiv c c' → policy_equiv (withDefaults c) (withDefaults c').
Proof.
  intros []. split; simpl; try congruence.
  - by apply withDefaults_structure.
  - by rewrite pe_targets0.
  - by rewrite pe_active0.
  - by rewrite pe_bytes0.
  - destruct pe_drain0 as [d d' Hd|]; [|constructor]. pose proof Hd as (-> & _).
    case_match; by constructor.
Qed.

Lemma hashes_of `{K8sValidation, LabelLib, HashLib} c h :
  AdminPolicyHashes c = inl h →
  let canonical := canonicalizePolicyCollections (withDefaults c) in
  h = (hashCanonicalJSON (policy_json canonical), hashCanonicalJSON (structure_json canonical))
  ∧ NoDup (map adp_Name (apc_DisruptionProtections (withDefaults c)))
  ∧ NoDup (map arg_Name (apc_RiskGroups (withDefaults c))).
Proof.
  unfold AdminPolicyHashes. destruct (validateAdminPolicyConfig c) as [cfg|] eqn:Hv; [|done].
  intros [= <-]. pose proof Hv as [-> Hok]%validateAdminPolicyConfig_ok.
  split_and!; [done|by destruct (po_protections _ Hok)|by destruct (po_groups _ Hok)].
Qed.

(** ** Membership of the risk groups *)

(** Some observation of [id] is in exactly the groups [gs]. *)
Definition member_groups (members : list Member) (id : string) (gs : list string) : Prop :=
  ∃ m, m ∈ members ∧ mem_PhysicalID m = id ∧ mem_RiskGroups m = gs.

(** The same devices in the same groups. *)
Definition same_membership (ms ms' : list Member) : Prop :=
  ∀ id gs, gs ≠ [] → member_groups ms id gs ↔ member_groups ms' id gs.

Lemma equalStrings_eq l l' : equalStrings l l' = true → l = l'.
Proof.
  unfold equalStrings. case_match eqn:Hl; [done|]. apply negb_false_iff, bool_decide_eq_true in Hl.
  unfold llen in Hl. apply Nat2Z.inj in Hl. revert l' Hl.
  induction l as [|x l IH]; intros [|y l'] Hl; simpl in *; try done.
  intros [->%bool_decide_eq_true Hf]%andb_true_iff. f_equal. auto.
Qed.

Lemma canonicalizeLoop_groups `{K8sValidation} out members result :
  (∀ id m, out !! id = Some m → mem_PhysicalID m = id) →
  canonicalizeLoop out members = inl result →
  ∀ id gs, (∃ m, result !! id = Some m ∧ mem_PhysicalID m = id ∧ mem_RiskGroups m = gs) ↔
    (∃ m, out !! id = Some m ∧ mem_RiskGroups m = gs) ∨ member_groups members id gs.
Proof.
  revert out. induction members as [|m members IH]; intros out Hout; simpl.
  { intros [= <-] id gs. unfold member_groups. split; [naive_solver|].
    intros [(m & Hm & Hg)|(m & Hm & _)]; [eauto 6|by apply not_elem_of_nil in Hm]. }
  case_match; [done|]. case_match; [done|].
  destruct (out !! mem_PhysicalID m) as [prev|] eqn:Hprev.
  - destruct (negb (mem_DeviceUID prev == _) || _ || _ || negb (equalStrings _ _)) eqn:Hc; [done|].
    rewrite !orb_false_iff, !negb_false_iff in Hc. destruct Hc as [_ Hg%equalStrings_eq].
    intros Hr id gs. rewrite (λ Hw, IH _ Hw Hr id gs).
    2: { intros id' m' [[<- <-]|[? ?]]%lookup_insert_Some; [|auto]. simpl. by apply Hout. }
    unfold member_groups. setoid_rewrite lookup_insert_Some. setoid_rewrite elem_of_cons.
    split.
    + intros [(m' & [[<- <-]|[? ?]] & ?)|(m' & ? & ?)]; simpl in *; eauto 8.
    + intros [(m' & ? & ?)|(m' & [->|?] & Hid & ?)]; [|left|eauto 8].
      * left. destruct (decide (mem_PhysicalID m = id)) as [<-|]; [|eauto 8].
        exists (mergeMember prev m). split; [by left|]. simpl. congruence.
      * exists (mergeMember prev m). split; [by left|]. simpl. congruence.
  - intros Hr id gs. rewrite (λ Hw, IH _ Hw Hr id gs).
    2: { intros id' m' [[<- <-]|[? ?]]%lookup_insert_Some; [done|auto]. }
    unfold member_groups. setoid_rewrite lookup_insert_Some. setoid_rewrite elem_of_cons.
    split.
    + intros [(m' & [[<- <-]|[? ?]] & ?)|(m' & ? & ?)]; eauto 8.
    + intros [(m' & Hm' & ?)|(m' & [->|?] & <- & ?)]; [left|left|eauto 8].
      * exists m'. split; [|done]. right. split; [|done]. intros <-. congruence.
      * exists m. split; [by left|done].
Qed.

Lemma canonicalizeLoop_sound `{K8sValidation} out members result :
  (∀ id m, out !! id = Some m → mem_PhysicalID m = id) →
  canonicalizeLoop out members = inl result →
  (∀ id m, result !! id = Some m → mem_PhysicalID m = id)
  ∧ ∀ m, m ∈ members → validateRiskGroupNames (mem_RiskGroups m) = None.
Proof.
  revert out. induction members as [|m members IH]; intros out Hout; simpl.
  { intros [= <-]. set_solver. }
  case_match; [done|]. destruct (validateRiskGroupNames (mem_RiskGroups m)) eqn:Hv; [done|].
  destruct (out !! mem_PhysicalID m) as [prev|] eqn:Hprev; [case_match; [done|]|];
    intros [Hk Hg]%IH; (split; [done|]) || idtac;
    try (intros m' [->|?]%elem_of_cons; auto);
    intros id' m' [[<- <-]|[? ?]]%lookup_insert_Some; simpl; auto.
Qed.

Definition entry_of (m : Member) : string * list string := (mem_PhysicalID m, mem_RiskGroups m).

Definition entry_json (e : string * list string) : json :=
  JObj [("physicalID", JStr e.1); ("groups", jstrings e.2)].

(** The members in some group, in the order of the map. *)
Definition grouped (c : gmap string Member) : list Member :=
  filter (λ m, llen (mem_RiskGroups m) ≠ 0) (map snd (map_to_list c)).

Section membership.
Context `{KV : K8sValidation}.

Lemma grouped_elem members c e :
  canonicalizeMembers members = inl c →
  e ∈ map entry_of (grouped c) ↔ e.2 ≠ [] ∧ member_groups members e.1 e.2.
Proof.
  intros Hc. unfold canonicalizeMembers in Hc.
  destruct (canonicalizeLoop_sound _ _ _ ltac:(intros ??; by rewrite lookup_empty) Hc) as [Hk _].
  pose proof (canonicalizeLoop_groups _ _ _ ltac:(intros ??; by rewrite lookup_empty) Hc
                e.1 e.2) as Hg.
  assert (member_groups members e.1 e.2 ↔
          ∃ m, c !! e.1 = Some m ∧ mem_PhysicalID m = e.1 ∧ mem_RiskGroups m = e.2) as ->.
  { rewrite Hg. split; [by right|]. intros [(m & Hm & _)|?]; [|done]. by rewrite lookup_empty in Hm. }
  unfold grouped. rewrite list_elem_of_fmap. setoid_rewrite list_elem_of_filter.
  setoid_rewrite list_elem_of_fmap. destruct e as [id gs]. unfold entry_of, llen. simpl. split.
  - intros (m & [= -> ->] & Hne & ([id' m'] & Heq & Hin%elem_of_map_to_list)). simpl in Heq.
    subst m'. pose proof (Hk _ _ Hin) as Hid.
    split; [intros Hn; apply Hne; by rewrite Hn|exists m; by rewrite Hid].
  - intros (Hne & m & Hm & <- & <-). exists m. split; [done|].
    split; [by destruct (mem_RiskGroups m)|].
    eexists (_, m). split; [done|]. by apply elem_of_map_to_list.
Qed.

Lemma grouped_NoDup members c :
  canonicalizeMembers members = inl c → NoDup (map mem_PhysicalID (grouped c)).
Proof.
  intros Hc. unfold canonicalizeMembers in Hc.
  destruct (canonicalizeLoop_sound _ _ _ ltac:(intros ??; by rewrite lookup_empty) Hc) as [Hk _].
  clear Hc. unfold grouped.
  assert (∀ l : list (string * Member), NoDup l.*1 →
    (∀ kv, kv ∈ l → mem_PhysicalID kv.2 = kv.1) →
    NoDup (map mem_PhysicalID (filter (λ m, llen (mem_RiskGroups m) ≠ 0) (map snd l)))) as Hl.
  { induction l as [|[k m] l IH]; simpl; intros Hn Hkey; [constructor|].
    apply NoDup_cons in Hn as [Hk' Hn]. rewrite filter_cons. case_decide; simpl;
      [|apply IH; [done|]; intros; apply Hkey; by right].
    constructor; [|apply IH; [done|]; intros; apply Hkey; by right].
    intros (m' & Hid & [_ ([k' m''] & -> & Hin)%list_elem_of_fmap]%list_elem_of_filter)%list_elem_of_fmap.
    simpl in *. pose proof (Hkey (k, m) ltac:(by left)) as Hkm.
    pose proof (Hkey (k', m'') ltac:(by right)) as Hkm'. simpl in *. destruct Hk'.
    apply list_elem_of_fmap. exists (k', m''). split; [simpl; congruence|done]. }
  apply Hl; [apply NoDup_fst_map_to_list|]. intros [k m] Hkv%elem_of_map_to_list. by apply Hk.
Qed.

Lemma membershipText_entries c :
  membershipText c = Marshal (JArr (map entry_json (map entry_of (groupedMembers c)))).
Proof. unfold membershipText. by rewrite map_map. Qed.

Lemma same_membership_text ms ms' c c' :
  canonicalizeMembers ms = inl c → canonicalizeMembers ms' = inl c' →
  same_membership ms ms' → membershipText c = membershipText c'.
Proof.
  intros Hc Hc' Hs. rewrite !membershipText_entries. do 3 f_equal.
  assert (∀ l, NoDup (map mem_PhysicalID l) → NoDup (map entry_of l)) as Hnd.
  { intros l Hl. apply (NoDup_fmap_1 fst). by rewrite <- list_fmap_compose. }
  apply (sort_Slice_image _ entry_of fst); [done|..].
  - apply NoDup_Permutation; [eapply Hnd, grouped_NoDup; eauto..|].
    intros [id gs]. rewrite (grouped_elem _ _ _ Hc), (grouped_elem _ _ _ Hc'). simpl.
    split; intros [Hne Hg]; (split; [done|]); by apply Hs.
  - intros x y (m & -> & Hm)%list_elem_of_fmap (m' & -> & Hm')%list_elem_of_fmap Hk. simpl in Hk.
    by rewrite (NoDup_key_inj mem_PhysicalID (grouped c) m m'); [|eapply grouped_NoDup|..].
Qed.

Lemma Marshal_inj j j' : clean j → clean j' → Marshal j = Marshal j' → j = j'.
Proof.
  intros Hj Hj' He. apply parse_document_Marshal in Hj, Hj'. rewrite He in Hj. congruence.
Qed.

Lemma clean_elems l : (∀ j, j ∈ l → clean j) → clean (JArr l).
Proof. induction l as [|j l IH]; simpl; intros Hl; [done|]. split; [|apply IH]; set_solver. Qed.

Lemma entry_json_inj e e' : entry_json e = entry_json e' → e = e'.
Proof.
  destruct e as [id gs], e' as [id' gs']. unfold entry_json, jstrings. simpl. intros [= -> Hg].
  f_equal. destruct gs as [|g gs], gs' as [|g' gs']; try done. injection Hg as -> Hg. f_equal.
  revert gs' Hg. induction gs as [|x gs IH]; intros [|y gs'] Hg; simpl in Hg; try done.
  injection Hg as -> Hg. f_equal. auto.
Qed.

#[local] Instance entry_json_Inj : Inj (=) (=) (map entry_json).
Proof. apply list_fmap_eq_inj. intros e e'. apply entry_json_inj. Qed.

Lemma entries_clean `{!K8sValidationSpec KV} ms c :
  (∀ m, m ∈ ms → ascii_string (mem_PhysicalID m)) → canonicalizeMembers ms = inl c →
  clean (JArr (map entry_json (map entry_of (groupedMembers c)))).
Proof.
  intros Ha Hc. apply clean_elems. intros j (e & -> & He)%list_elem_of_fmap.
  assert (e ∈ map entry_of (grouped c)) as [_ (m & Hm & Hid & Hg)]%(grouped_elem _ _ _ Hc).
  { unfold groupedMembers in He. apply list_elem_of_fmap in He as (m & -> & Hm).
    rewrite sort_Slice_perm in Hm. apply list_elem_of_fmap. eauto. }
  unfold canonicalizeMembers in Hc.
  destruct (canonicalizeLoop_sound _ _ _ ltac:(intros ??; by rewrite lookup_empty) Hc) as [_ Hv].
  specialize (Hv m Hm). apply validateRiskGroupNames_spec in Hv as (_ & Hl & _).
  simpl. split_and!; try done; [by apply printable_ascii| |by apply printable_ascii|].
  - rewrite <- Hid. by apply Ha.
  - rewrite <- Hg. unfold jstrings. destruct (mem_RiskGroups m) as [|g gs] eqn:Hgs; [done|].
    apply clean_elems. intros j (s & -> & Hs)%list_elem_of_fmap. simpl.
    apply Hl, dns_label_spec in Hs as (_ & _ & Hs). eapply ascii_all_bytes; [|exact Hs].
    intros b. simpl. unfold lower_alnum. go_bool. lia.
Qed.

Lemma text_same_membership `{!K8sValidationSpec KV} ms ms' c c' :
  (∀ m, m ∈ ms → ascii_string (mem_PhysicalID m)) →
  (∀ m, m ∈ ms' → ascii_string (mem_PhysicalID m)) →
  canonicalizeMembers ms = inl c → canonicalizeMembers ms' = inl c' →
  membershipText c = membershipText c' → same_membership ms ms'.
Proof.
  intros Ha Ha' Hc Hc'. rewrite !membershipText_entries. intros He.
  apply Marshal_inj in He; [|by apply (entries_clean ms)|by apply (entries_clean ms')].
  injection He as He.
  apply (inj (map entry_json)) in He.
  intros id gs Hne.
  assert (∀ ms c, canonicalizeMembers ms = inl c →
    member_groups ms id gs ↔ (id, gs) ∈ map entry_of (groupedMembers c)) as Hiff.
  { intros ms0 c0 Hc0. trans ((id, gs) ∈ map entry_of (grouped c0)).
    - rewrite (grouped_elem _ _ _ Hc0). simpl. tauto.
    - unfold groupedMembers. by rewrite !list_elem_of_fmap; setoid_rewrite sort_Slice_perm. }
  by rewrite (Hiff _ _ Hc), (Hiff _ _ Hc'), He.
Qed.
End membership.
