(* ===== verification/Bootstrap.v ===== *)
(** * The administrator policy: reading it and binding it to its ledger

    src/internal/topologyrollout/policy.go: [decodeAdminPolicyConfig] with the
    struct decoding of encoding/json written out, [inspectAdminPolicy],
    [ParseAdminPolicy], [ReadAdminPolicyPreflight] and [BootstrapAdminPolicy]. *)

From S2P Require Import Prelude GoLib GoTime Json Interfaces LedgerData Ledger LedgerCodec Store.
From S2P Require Import AdminPolicy AdminPolicyOps.

Section decode.
Context `{LL : LabelLib}.

(** ** Decoding the policy's types *)

Definition zeroSelector : LabelSelector :=
  {| ls_MatchLabels := ∅; ls_MatchExpressions := [] |}.

Definition zeroProtection : AdminDisruptionProtection :=
  {| adp_Name := ""; adp_Reason := ""; adp_Selector := zeroSelector |}.

Definition dec_protection (cur : AdminDisruptionProtection) (j : json)
  : option AdminDisruptionProtection :=
  match j with
  | JNull => Some cur
  | JObj ms =>
      return_if (negb (known_fields ["name"; "reason"; "selector"] ms)) None ;;
      name ← dec_field dec_string "name" (adp_Name cur) ms;
      reason ← dec_field dec_string "reason" (adp_Reason cur) ms;
      selector ← dec_field LabelSelector_dec "selector" (adp_Selector cur) ms;
      Some {| adp_Name := name; adp_Reason := reason; adp_Selector := selector |}
  | _ => None
  end.

Definition zeroRiskGroup : AdminRiskGroup :=
  {| arg_Name := ""; arg_Selector := zeroSelector; arg_MaxConcurrentTransfers := 0;
     arg_MaxUnavailable := 0; arg_MaxAggregateTransferBytesPerSecond := 0 |}.

Definition dec_risk_group (cur : AdminRiskGroup) (j : json) : option AdminRiskGroup :=
  match j with
  | JNull => Some cur
  | JObj ms =>
      return_if (negb (known_fields ["name"; "selector"; "maxConcurrentTransfers";
                         "maxUnavailable"; "maxAggregateTransferBytesPerSecond"] ms)) None ;;
      name ← dec_field dec_string "name" (arg_Name cur) ms;
      selector ← dec_field LabelSelector_dec "selector" (arg_Selector cur) ms;
      transfers ← dec_field dec_int64 "maxConcurrentTransfers" (arg_MaxConcurrentTransfers cur) ms;
      unavailable ← dec_field dec_int64 "maxUnavailable" (arg_MaxUnavailable cur) ms;
      rate ← dec_field dec_int64 "maxAggregateTransferBytesPerSecond"
               (arg_MaxAggregateTransferBytesPerSecond cur) ms;
      Some {| arg_Name := name; arg_Selector := selector; arg_MaxConcurrentTransfers := transfers;
              arg_MaxUnavailable := unavailable;
              arg_MaxAggregateTransferBytesPerSecond := rate |}
  | _ => None
  end.

(** A drain policy with the backing array of its namespaces. *)
Definition drain_cell : Type := AdminWorkloadDrainPolicy * list string.

Definition dec_drain (cur : option drain_cell) (j : json) : option (option drain_cell) :=
  match j with
  | JNull => Some None
  | JObj ms =>
      return_if (negb (known_fields ["enabled"; "allowedNamespaces"; "maxTimeoutSeconds"; "maxPods";
                         "maxTerminationGraceSeconds"] ms)) None ;;
      let cur := default (Build_AdminWorkloadDrainPolicy false [] 0 0 0, []) cur in
      enabled ← dec_field dec_bool "enabled" (awd_Enabled cur.1) ms;
      namespaces ← dec_field dec_strings "allowedNamespaces"
                     (cur.2, length (awd_AllowedNamespaces cur.1)) ms;
      timeout ← dec_field dec_int64 "maxTimeoutSeconds" (awd_MaxTimeoutSeconds cur.1) ms;
      pods ← dec_field dec_int64 "maxPods" (awd_MaxPods cur.1) ms;
      grace ← dec_field dec_int64 "maxTerminationGraceSeconds"
                (awd_MaxTerminationGraceSeconds cur.1) ms;
      Some (Some (Build_AdminWorkloadDrainPolicy enabled (take namespaces.2 namespaces.1)
                    timeout pods grace, namespaces.1))
  | _ => None
  end.

Definition policy_field_names : list string :=
  ["appHostingServiceAccountName"; "networkManagementServiceAccountName"; "configLeaseNamespace";
   "version"; "fleetSelector"; "requiredTopologyKeys"; "projectedTopologyKeys";
   "globalMaxConcurrentTransfers"; "globalMaxUnavailable"; "domainMaxConcurrentTransfers";
   "domainMaxUnavailable"; "healthFreshnessSeconds"; "maxCampaignTargets";
   "maxActiveReservations"; "maxLedgerBytes"; "workloadDrain"; "disruptionProtections";
   "riskGroups"; "ledgerName"].

(** [decoder.Decode(&cfg)] into the zero policy; a top-level [null] leaves it. *)
Definition dec_policy (j : json) : option AdminPolicyConfig :=
  ms ← match j with JNull => Some [] | JObj ms => Some ms | _ => None end;
  return_if (negb (known_fields policy_field_names ms)) None ;;
  let str name := dec_field dec_string name "" ms in
  let int name := dec_field dec_int64 name 0 ms in
  let strings name := dec_field dec_strings name ([], 0%nat) ms in
  let ints name := dec_field (dec_map dec_int64 0) name None ms in
  app ← str "appHostingServiceAccountName"; net ← str "networkManagementServiceAccountName";
  lease ← str "configLeaseNamespace"; version ← str "version";
  fleet ← dec_field LabelSelector_dec "fleetSelector" zeroSelector ms;
  required ← strings "requiredTopologyKeys"; projected ← strings "projectedTopologyKeys";
  transfers ← int "globalMaxConcurrentTransfers"; unavailable ← int "globalMaxUnavailable";
  domainTransfers ← ints "domainMaxConcurrentTransfers";
  domainUnavailable ← ints "domainMaxUnavailable";
  freshness ← int "healthFreshnessSeconds"; targets ← int "maxCampaignTargets";
  active ← int "maxActiveReservations"; bytes ← int "maxLedgerBytes";
  drain ← dec_field dec_drain "workloadDrain" None ms;
  protections ← dec_field (dec_slice dec_protection zeroProtection) "disruptionProtections"
                  ([], 0%nat) ms;
  groups ← dec_field (dec_slice dec_risk_group zeroRiskGroup) "riskGroups" ([], 0%nat) ms;
  ledger ← str "ledgerName";
  Some {| apc_AppHostingServiceAccountName := app;
          apc_NetworkManagementServiceAccountName := net; apc_ConfigLeaseNamespace := lease;
          apc_Version := version; apc_FleetSelector := fleet;
          apc_RequiredTopologyKeys := take required.2 required.1;
          apc_ProjectedTopologyKeys := take projected.2 projected.1;
          apc_GlobalMaxConcurrentTransfers := transfers; apc_GlobalMaxUnavailable := unavailable;
          apc_DomainMaxConcurrentTransfers := default ∅ domainTransfers;
          apc_DomainMaxUnavailable := default ∅ domainUnavailable;
          apc_HealthFreshnessSeconds := freshness; apc_MaxCampaignTargets := targets;
          apc_MaxActiveReservations := active; apc_MaxLedgerBytes := bytes;
          apc_WorkloadDrain := fst <$> drain;
          apc_DisruptionProtections := take protections.2 protections.1;
          apc_RiskGroups := take groups.2 groups.1; apc_LedgerName := ledger |}.

(** ** Reading the policy *)

Record AdminPolicyPreflight := {
  app_Config : AdminPolicyConfig;
  app_AdmissionPrefix : string;
}.

Context `{KV : K8sValidation}.

Definition decodeAdminPolicyConfig (cm : ConfigMap) : AdminPolicyConfig + goerror :=
  return_if ((cm_UID cm == "") || (cm_ResourceVersion cm == ""))
    (inr (EPlain "administrator topology policy has no Kubernetes identity")) ;;
  return_if (mget (cm_Annotations cm) PolicyManagedAnnotation != "true")
    (inr (EPlain "administrator topology policy is not marked managed")) ;;
  match parse_document (mget (cm_Data cm) PolicyDataKey) ≫= dec_policy with
  | None => inr (EPlain "decode administrator topology policy")
  | Some cfg =>
      match validateAdminPolicyConfig cfg with
      | inr e => inr e
      | inl cfg =>
          return_if (cm_Annotations cm !! ConfigLeaseNamespaceAnnotation
                     != Some (apc_ConfigLeaseNamespace cfg))
            (inr (EPlain "config Lease namespace annotation does not match policy.json")) ;;
          inl cfg
      end
  end.

Definition inspectAdminPolicy (cm : ConfigMap) : AdminPolicyPreflight + goerror :=
  match decodeAdminPolicyConfig cm with
  | inr e => inr e
  | inl cfg =>
      match LabelSelectorAsSelector (apc_FleetSelector cfg) with
      | None => inr (EPlain "parse fleet selector")
      | Some _ =>
          let prefix := TrimSpace (mget (cm_Annotations cm) AdmissionPrefixAnnotation) in
          return_if (negb (IsDNS1123Subdomain prefix))
            (inr (EPlain "administrator topology policy has invalid admission policy prefix")) ;;
          inl {| app_Config := cfg; app_AdmissionPrefix := prefix |}
      end
  end.

Definition second : Duration := 1000000000.

Definition ParseAdminPolicy (cm : ConfigMap) : ParsedAdminPolicy + goerror :=
  match inspectAdminPolicy cm with
  | inr e => inr e
  | inl preflight =>
      let cfg := app_Config preflight in
      let ledgerUID := TrimSpace (mget (cm_Annotations cm) LedgerUIDAnnotation) in
      return_if (ledgerUID == "")
        (inr (EPlain "administrator topology policy has no bound ledger UID")) ;;
      match LabelSelectorAsSelector (apc_FleetSelector cfg) with
      | None => inr (EPlain "parse fleet selector")
      | Some selector =>
          inl {| pap_Config := cfg; pap_Selector := selector; pap_Namespace := cm_Namespace cm;
                 pap_Name := cm_Name cm; pap_LedgerUID := ledgerUID; pap_PolicyUID := cm_UID cm;
                 pap_ResourceVersion := cm_ResourceVersion cm;
                 pap_HealthFreshness := apc_HealthFreshnessSeconds cfg * second;
                 pap_AdmissionPrefix := app_AdmissionPrefix preflight |}
      end
  end.
End decode.

(** ** Binding *)

(** [policyCM.Annotations[LedgerUIDAnnotation] = uid] on the copy that is patched. *)
Definition withBinding (cm : ConfigMap) (uid : string) : ConfigMap :=
  {| cm_Namespace := cm_Namespace cm; cm_Name := cm_Name cm; cm_UID := cm_UID cm;
     cm_ResourceVersion := cm_ResourceVersion cm;
     cm_Annotations := <[LedgerUIDAnnotation := uid]> (cm_Annotations cm);
     cm_Data := cm_Data cm |}.

Definition boundUID (policy : ConfigMap) : string :=
  TrimSpace (mget (cm_Annotations policy) LedgerUIDAnnotation).

Section bootstrap.
Context {KA : KubeAPI} {RL : @RetryLib KA} {KV : K8sValidation} {UL : UuidLib} {LL : LabelLib}.

(** [reader.Get]: the uncached reader, or the client when there is none. *)
Definition readerGet (hasReader : bool) (k : KubeState) (key : NamespacedName)
  : ConfigMap + goerror :=
  if hasReader then kube_reader_Get k key else kube_client_Get k key.

Definition ReadAdminPolicyPreflight (hasReader : bool) (key : NamespacedName) (k : KubeState)
  : AdminPolicyPreflight + goerror :=
  return_if (negb hasReader || (key.1 == "") || (key.2 == ""))
    (inr (EPlain "administrator topology policy preflight is incomplete")) ;;
  match kube_reader_Get k key with
  | inr e => inr e
  | inl cm => inspectAdminPolicy cm
  end.

(** The ledger half: the object's UID, once it holds a ledger of its own. *)
Definition bootstrapLedger (env : nat → KubeState → KubeState) (i : nat)
    (ledgerKey : NamespacedName) (maxBytes : Z) (bound : string) (ledgerCM : ConfigMap)
    (k : KubeState) : KubeState * (string + goerror) :=
  return_if ((cm_UID ledgerCM == "") || (cm_ResourceVersion ledgerCM == ""))
    (k, inr (EIs ErrLedgerIdentity "rollout ledger has no Kubernetes identity")) ;;
  return_if ((bound != "") && (bound != cm_UID ledgerCM))
    (k, inr (EIs ErrLedgerIdentity "policy binds another ledger object")) ;;
  let rawLedger := TrimSpace (mget (cm_Data ledgerCM) LedgerDataKey) in
  if rawLedger == "" then
    return_if (bound != "") (k, inr (EIs ErrLedgerIdentity "bound ledger is empty")) ;;
    match NewLedger (cm_UID ledgerCM) with
    | inr e => (k, inr e)
    | inl ledger =>
        match Encode ledger maxBytes with
        | inr e => (k, inr e)
        | inl encoded =>
            let k := env (4 * i + 2)%nat k in
            let '(k, patched) := kube_Patch k ledgerKey ledgerCM (withLedgerData ledgerCM encoded) in
            (k, match patched with inl ledgerCM => inl (cm_UID ledgerCM) | inr e => inr e end)
        end
    end
  else
    match Decode rawLedger (cm_UID ledgerCM) with
    | inr e => (k, inr e)
    | inl _ => (k, inl (cm_UID ledgerCM))
    end.

(** The policy half: publish the binding and parse the policy the server
    answered with. *)
Definition bootstrapPolicy (env : nat → KubeState → KubeState) (i : nat) (key : NamespacedName)
    (policyCM : ConfigMap) (uid : string) (k : KubeState)
  : KubeState * (ParsedAdminPolicy + goerror) :=
  if boundUID policyCM == "" then
    let k := env (4 * i + 3)%nat k in
    let '(k, patched) := kube_Patch k key policyCM (withBinding policyCM uid) in
    match patched with
    | inr e => (k, inr e)
    | inl policyCM => (k, ParseAdminPolicy policyCM)
    end
  else (k, ParseAdminPolicy policyCM).

(** One attempt: the callback given to [RetryOnConflict].  [env n] is what the
    other writers do before API call [n]; the captured variable [result] is part
    of the state. *)
Definition bootstrapAttempt (env : nat → KubeState → KubeState) (hasReader : bool)
    (key : NamespacedName) (i : nat) (st : KubeState * option ParsedAdminPolicy)
  : (KubeState * option ParsedAdminPolicy) * option goerror :=
  let '(k, result) := st in
  let k := env (4 * i)%nat k in
  match readerGet hasReader k key with
  | inr e => ((k, result), Some e)
  | inl policyCM =>
  match inspectAdminPolicy policyCM with
  | inr e => ((k, result), Some e)
  | inl preflight =>
      let cfg := app_Config preflight in
      let ledgerKey := (key.1, apc_LedgerName cfg) in
      let k := env (4 * i + 1)%nat k in
      match readerGet hasReader k ledgerKey with
      | inr e => ((k, result), Some e)
      | inl ledgerCM =>
          match bootstrapLedger env i ledgerKey (apc_MaxLedgerBytes cfg) (boundUID policyCM)
                  ledgerCM k with
          | (k, inr e) => ((k, result), Some e)
          | (k, inl uid) =>
              match bootstrapPolicy env i key policyCM uid k with
              | (k, inr e) => ((k, result), Some e)
              | (k, inl parsed) => ((k, Some parsed), None)
              end
          end
      end
  end end.

(** The writer is not nil. *)
Definition BootstrapAdminPolicy (env : nat → KubeState → KubeState) (hasReader : bool)
    (key : NamespacedName) (k : KubeState)
  : KubeState * (option ParsedAdminPolicy + goerror) :=
  return_if ((key.1 == "") || (key.2 == ""))
    (k, inr (EPlain "administrator topology policy bootstrap is incomplete")) ;;
  match RetryOnConflict (bootstrapAttempt env hasReader key) (k, None) with
  | ((k, _), Some e) => (k, inr e)
  | ((k, result), None) => (k, inl result)
  end.
End bootstrap.
