(* ===== verification/BootstrapProofs.v ===== *)
(** * The administrator policy: what bootstrap writes

    Every write [BootstrapAdminPolicy] of src/internal/topologyrollout/policy.go
    makes is one of two: it initialises an empty ledger of an unbound policy, or it
    binds an unbound policy to a ledger that is already initialised. *)

From S2P Require Import Prelude GoLib GoTime Json JsonProofs Interfaces LedgerData Ledger.
From S2P Require Import LedgerSpec LedgerAdmission LedgerHistory LedgerCodec Store.
From S2P Require Import AdminPolicy AdminPolicyOps AdminPolicySpec Bootstrap.

(** ** The text of a fresh ledger *)

Lemma trim_front_head ps a l n :
  (∀ p, p ∈ ps → p ∈ space_runes ++ map (@rev _) space_runes) →
  printable (byte_val a) = true → trim_front n ps (a :: l) = a :: l.
Proof. intros Hps Ha. by apply trim_front_id, strip_any_printable. Qed.

Lemma TrimSpace_ends a l b :
  printable (byte_val a) = true → printable (byte_val b) = true →
  TrimSpace (of_bytes (a :: l ++ [b])) = of_bytes (a :: l ++ [b]).
Proof.
  intros Ha Hb. unfold TrimSpace. rewrite bytes_of_of.
  rewrite trim_front_head; [|intros p Hp; apply elem_of_app; by left|done].
  replace (rev (a :: l ++ [b])) with (b :: rev (a :: l)) by (simpl; by rewrite rev_app_distr).
  rewrite trim_front_head; [|intros p Hp; apply elem_of_app; by right|done].
  f_equal. simpl. rewrite rev_app_distr, rev_involutive. done.
Qed.

Lemma TrimSpace_ledger l : TrimSpace (Marshal (ledger_json l)) = Marshal (ledger_json l).
Proof. unfold Marshal. apply TrimSpace_ends; reflexivity. Qed.

Section fresh.
Context `{KV : K8sValidation, UL : UuidLib, !UuidLibSpec UL, !K8sValidationSpec KV}.

Lemma fresh_ledger_wf uid l :
  bounded_identity uid 128 → NewLedger uid = inl l →
  ledger_wf l ∧ ledger_typed l ∧ led_UID l = uid ∧ reservations l = ∅.
Proof.
  unfold NewLedger. case_match; [done|]. intros Hu [= <-]. split_and!; [|..|done|done].
  - by split.
  - split; [|done]. intros k r Hk. unfold reservations in Hk. simpl in Hk.
    by rewrite lookup_empty in Hk.
Qed.

Lemma fresh_text uid l maxBytes text :
  bounded_identity uid 128 → NewLedger uid = inl l → Encode l maxBytes = inl text →
  Decode (TrimSpace text) uid = inl l.
Proof.
  intros Hu Hn He. destruct (fresh_ledger_wf _ _ Hu Hn) as (Hw & Ht & <- & _).
  assert (text = Marshal (ledger_json l)) as Htext.
  { unfold Encode in He. repeat (case_match; [done|]). by injection He as <-. }
  rewrite Htext, TrimSpace_ledger, <- Htext. by eapply Decode_Encode_lemma.
Qed.
End fresh.

(** ** Reading the policy *)

Section parse.
Context `{LL : LabelLib, KV : K8sValidation}.

Lemma decode_by_data cm cm' cfg cfg' :
  decodeAdminPolicyConfig cm = inl cfg → decodeAdminPolicyConfig cm' = inl cfg' →
  cm_Data cm = cm_Data cm' → cfg = cfg'.
Proof.
  unfold decodeAdminPolicyConfig. intros Hd Hd' Heq. rewrite <- Heq in Hd'.
  repeat (case_match; [done|]).
  destruct (parse_document _ ≫= dec_policy) as [c|]; [|done].
  destruct (validateAdminPolicyConfig c); [|done]. repeat case_match; congruence.
Qed.

Lemma ParseAdminPolicy_ok cm parsed :
  ParseAdminPolicy cm = inl parsed →
  decodeAdminPolicyConfig cm = inl (pap_Config parsed) ∧ pap_LedgerUID parsed = boundUID cm
  ∧ boundUID cm ≠ "" ∧ pap_PolicyUID parsed = cm_UID cm
  ∧ pap_ResourceVersion parsed = cm_ResourceVersion cm.
Proof.
  unfold ParseAdminPolicy, inspectAdminPolicy.
  destruct (decodeAdminPolicyConfig cm) as [cfg|]; [|done].
  destruct (LabelSelectorAsSelector (apc_FleetSelector cfg)) as [sel|] eqn:Hsel; [|done].
  destruct (negb (IsDNS1123Subdomain _)); [done|]. cbn [app_Config app_AdmissionPrefix].
  rewrite Hsel. case_bool_decide as Hb; [done|]. by intros [= <-].
Qed.

Lemma decode_policy_ok cm cfg :
  decodeAdminPolicyConfig cm = inl cfg →
  policy_ok cfg ∧ validateAdminPolicyConfig cfg = inl cfg ∧ cm_UID cm ≠ ""
  ∧ cm_ResourceVersion cm ≠ "".
Proof.
  unfold decodeAdminPolicyConfig. intros Hd. destruct (_ || _) eqn:Hid; [done|].
  apply orb_false_iff in Hid as [Hu%bool_decide_eq_false Hr%bool_decide_eq_false].
  case_match; [done|]. destruct (_ ≫= dec_policy) as [c|]; [|done].
  destruct (validateAdminPolicyConfig c) as [c'|] eqn:Hv; [|done]. case_match; [done|].
  injection Hd as <-. split_and!; [|by eapply validate_withDefaults|done|done].
  by apply validateAdminPolicyConfig_ok in Hv as [_ ?].
Qed.
End parse.

(** ** The writes *)

Section writes.
Context {KA : KubeAPI} {RL : @RetryLib KA} {KV : K8sValidation} {UL : UuidLib} {LL : LabelLib}.
Context {US : UuidLibSpec UL} {VS : K8sValidationSpec KV}.
Context (kube_after : KubeState → KubeState → Prop) {KS : KubeAPISpec KA kube_after}.
Context (env : nat → KubeState → KubeState) (Henv : ∀ n k, kube_after k (env n k)).
Context (key : NamespacedName).

(** [cm] was stored under [name] at some time up to [k]. *)
Definition was_stored (k : KubeState) (name : NamespacedName) (cm : ConfigMap) : Prop :=
  ∃ k0, kube_after k0 k ∧ kube_object k0 name = Some cm.

(** The object that a policy names as its ledger. *)
Definition names_ledger (policy : ConfigMap) (name : NamespacedName) : Prop :=
  ∃ cfg, decodeAdminPolicyConfig policy = inl cfg ∧ name = (key.1, apc_LedgerName cfg).

(** Up to [k], [name] has held a ledger of its own UID [uid]. *)
Definition ledger_ready (k : KubeState) (name : NamespacedName) (uid : string) : Prop :=
  ∃ cm l, was_stored k name cm ∧ cm_UID cm = uid
    ∧ Decode (TrimSpace (mget (cm_Data cm) LedgerDataKey)) uid = inl l.

Inductive bootstrap_write (k k' : KubeState) : Prop :=
  (** An empty ledger of an unbound policy is initialised. *)
  | WriteLedger policy name cm l text new :
      was_stored k key policy → boundUID policy = "" → names_ledger policy name →
      kube_object k name = Some cm → TrimSpace (mget (cm_Data cm) LedgerDataKey) = "" →
      NewLedger (cm_UID cm) = inl l → Decode (TrimSpace text) (cm_UID cm) = inl l →
      kube_patched kube_after k name cm (withLedgerData cm text) k' new → bootstrap_write k k'
  (** An unbound policy is bound to a ledger that has been initialised. *)
  | WriteBinding policy name uid new :
      kube_object k key = Some policy → boundUID policy = "" → names_ledger policy name →
      ledger_ready k name uid →
      kube_patched kube_after k key policy (withBinding policy uid) k' new → bootstrap_write k k'.

Definition bootstrap_step (k k' : KubeState) : Prop :=
  (∃ n, k' = env n k) ∨ bootstrap_write k k'.

Lemma bootstrap_step_after k k' : bootstrap_step k k' → kube_after k k'.
Proof using KS Henv.
  intros [[n ->]|[]]; [done|..];
    match goal with Hp : kube_patched _ _ _ _ _ _ _ |- _ => apply Hp end.
Qed.

Lemma bootstrap_steps_after k k' : rtc bootstrap_step k k' → kube_after k k'.
Proof using KS Henv.
  induction 1 as [|k1 k2 k3 Hs _ IH]; [reflexivity|]. etrans; [|done]. by apply bootstrap_step_after.
Qed.

Lemma was_stored_after k k' name cm : kube_after k k' → was_stored k name cm → was_stored k' name cm.
Proof using KS. intros Hk (k0 & ? & ?). exists k0. split; [by etrans|done]. Qed.

Lemma ledger_ready_after k k' name uid :
  kube_after k k' → ledger_ready k name uid → ledger_ready k' name uid.
Proof using KS. intros Hk (cm & l & ? & ?). exists cm, l. split; [by eapply was_stored_after|done]. Qed.

Lemma was_stored_uid k name cm : was_stored k name cm → bounded_identity (cm_UID cm) 128.
Proof using KS. intros (k0 & _ & Ho). by eapply kube_uid. Qed.

Lemma ledger_ready_uid k name uid : ledger_ready k name uid → bounded_identity uid 128.
Proof using KS. intros (cm & l & Hs & <- & _). by eapply was_stored_uid. Qed.

Lemma readerGet_stored hasReader k name cm :
  readerGet hasReader k name = inl cm → was_stored k name cm.
Proof using KS.
  unfold readerGet. destruct hasReader; intros Hg.
  - exists k. split; [reflexivity|by apply kube_reader_current].
  - by apply kube_client_past in Hg.
Qed.

(** A patch is written over the object it was computed from. *)
Lemma patched_current k name cm after k' new :
  was_stored k name cm → kube_patched kube_after k name cm after k' new →
  kube_object k name = Some cm.
Proof using KS.
  intros (k0 & Hk0 & Hcm) (_ & _ & _ & cur & Hcur & Hrv & _).
  rewrite Hcur. f_equal. symmetry. by eapply (kube_version_unique k0 k).
Qed.

Lemma bootstrapLedger_spec i policy name maxBytes cm k k' r :
  was_stored k key policy → names_ledger policy name → was_stored k name cm →
  bootstrapLedger env i name maxBytes (boundUID policy) cm k = (k', r) →
  rtc bootstrap_step k k' ∧
  match r with
  | inr _ => True
  | inl uid => uid = cm_UID cm ∧ ledger_ready k' name uid
      ∧ (boundUID policy ≠ "" → boundUID policy = uid)
  end.
Proof using KS Henv US VS.
  intros Hpol Hname Hcm. pose proof (was_stored_uid _ _ _ Hcm) as Hu. unfold bootstrapLedger.
  case_match; [intros [= <- <-]; done|].
  case_match eqn:Hb; [intros [= <- <-]; done|].
  rewrite andb_false_iff, !negb_false_iff, !bool_decide_eq_true in Hb.
  destruct (TrimSpace (mget (cm_Data cm) LedgerDataKey) == "") eqn:Hraw.
  2: { destruct (Decode _ _) as [l|] eqn:Hd; intros [= <- <-]; [|done].
       split; [done|]. split_and!; [done| |naive_solver]. by exists cm, l. }
  case_match eqn:Hunb; [intros [= <- <-]; done|].
  apply negb_false_iff, bool_decide_eq_true in Hunb. apply bool_decide_eq_true in Hraw.
  destruct (NewLedger _) as [l|] eqn:Hnew; [|intros [= <- <-]; done].
  destruct (Encode l maxBytes) as [text|] eqn:Henc; [|intros [= <- <-]; done].
  set (k1 := env _ k).
  assert (bootstrap_step k k1) as Hs1 by (left; by eexists).
  pose proof (bootstrap_step_after _ _ Hs1) as Ha1.
  pose proof (fresh_text _ _ _ _ Hu Hnew Henc) as Hdec.
  assert (∀ k2 new, kube_patched kube_after k1 name cm (withLedgerData cm text) k2 new →
            bootstrap_step k1 k2 ∧ cm_UID new = cm_UID cm ∧ ledger_ready k2 name (cm_UID cm)) as Hw.
  { intros k2 new Hp. pose proof (was_stored_after _ _ _ _ Ha1 Hcm) as Hcm1.
    pose proof (patched_current _ _ _ _ _ _ Hcm1 Hp) as Hcur. split; [|].
    - right. eapply WriteLedger; eauto using was_stored_after.
    - destruct Hp as (Hk & Hnewo & _ & cur & Hcur' & _ & Hnu & Hdata). simplify_eq.
      destruct (Hdata eq_refl) as [Hdata' _]. split; [done|]. exists new, l.
      split_and!; [exists k2; by split|done|]. rewrite Hdata'. simpl. unfold mget.
      by rewrite lookup_insert_eq. }
  destruct (kube_Patch _ _ _ _) as [k2 [new|e]] eqn:Hp; intros [= <- <-].
  - apply kube_patch_ok in Hp. destruct (Hw _ _ Hp) as (Hs2 & -> & Hr).
    split; [|split_and!; [done|done|by rewrite Hunb]]. by do 2 (eapply rtc_l; [done|]).
  - split; [|done]. apply kube_patch_error in Hp as [->|(_ & new & Hp)]; [by apply rtc_once|].
    destruct (Hw _ _ Hp) as (Hs2 & _). by do 2 (eapply rtc_l; [done|]).
Qed.

Lemma bootstrapPolicy_spec i policy name uid k k' r :
  was_stored k key policy → names_ledger policy name → ledger_ready k name uid →
  (boundUID policy ≠ "" → boundUID policy = uid) →
  bootstrapPolicy env i key policy uid k = (k', r) →
  rtc bootstrap_step k k' ∧
  match r with
  | inr _ => True
  | inl parsed => ∃ p, was_stored k' key p ∧ ParseAdminPolicy p = inl parsed
      ∧ pap_LedgerUID parsed = uid ∧ cm_Data p = cm_Data policy
  end.
Proof using KS Henv.
  intros Hpol Hname Hready Hbound. pose proof (ledger_ready_uid _ _ _ Hready) as Hu. unfold bootstrapPolicy. case_bool_decide as Hb.
  2: { intros [= <- <-]. split; [done|]. destruct (ParseAdminPolicy policy) as [parsed|] eqn:Hp; [|done].
       exists policy. apply ParseAdminPolicy_ok in Hp as Hp'. destruct Hp' as (_ & -> & _). auto. }
  set (k1 := env _ k). assert (bootstrap_step k k1) as Hs1 by (left; by eexists).
  pose proof (bootstrap_step_after _ _ Hs1) as Ha1.
  pose proof (was_stored_after _ _ _ _ Ha1 Hpol) as Hpol1.
  assert (∀ k2 new, kube_patched kube_after k1 key policy (withBinding policy uid) k2 new →
            bootstrap_step k1 k2 ∧ was_stored k2 key new ∧ boundUID new = uid
            ∧ cm_Data new = cm_Data policy) as Hw.
  { intros k2 new Hp. pose proof (patched_current _ _ _ _ _ _ Hpol1 Hp) as Hcur. split.
    - right. eapply WriteBinding; eauto using ledger_ready_after.
    - destruct Hp as (Hk & Hnewo & _ & cur & Hcur' & _ & _ & Hdata). simplify_eq.
      destruct (Hdata eq_refl) as [Hdata' Hann]. split_and!; [by exists k2; split| |done].
      unfold boundUID. rewrite Hann. simpl. unfold mget. rewrite lookup_insert_eq. simpl.
      apply TrimSpace_printable, Hu. }
  destruct (kube_Patch _ _ _ _) as [k2 [new|e]] eqn:Hp; intros [= <- <-].
  - apply kube_patch_ok in Hp. destruct (Hw _ _ Hp) as (Hs2 & Hst & Hbu & Hd).
    split; [by do 2 (eapply rtc_l; [done|])|].
    destruct (ParseAdminPolicy new) as [parsed|] eqn:Hparse; [|done]. exists new.
    apply ParseAdminPolicy_ok in Hparse as Hp'. destruct Hp' as (_ & -> & _). auto.
  - split; [|done]. apply kube_patch_error in Hp as [->|(_ & new & Hp)]; [by apply rtc_once|].
    destruct (Hw _ _ Hp) as (Hs2 & _). by do 2 (eapply rtc_l; [done|]).
Qed.

Lemma inspect_names_ledger policy preflight :
  inspectAdminPolicy policy = inl preflight →
  decodeAdminPolicyConfig policy = inl (app_Config preflight)
  ∧ names_ledger policy (key.1, apc_LedgerName (app_Config preflight)).
Proof.
  unfold inspectAdminPolicy. destruct (decodeAdminPolicyConfig policy) as [cfg|] eqn:Hd; [|done].
  destruct (LabelSelectorAsSelector _); [|done]. case_match; [done|]. intros [= <-]. simpl.
  split; [done|]. by exists cfg.
Qed.

(** A policy that was stored up to [k] and is bound to a ledger that was ready. *)
Definition policy_bound (k : KubeState) (parsed : ParsedAdminPolicy) : Prop :=
  (∃ p, was_stored k key p ∧ ParseAdminPolicy p = inl parsed)
  ∧ ledger_ready k (key.1, apc_LedgerName (pap_Config parsed)) (pap_LedgerUID parsed).

Lemma bootstrapAttempt_spec hasReader i k k' res res' e :
  bootstrapAttempt env hasReader key i (k, res) = ((k', res'), e) →
  rtc bootstrap_step k k' ∧
  match e with
  | Some _ => True
  | None => ∃ parsed, res' = Some parsed ∧ policy_bound k' parsed
  end.
Proof using KS Henv US VS.
  unfold bootstrapAttempt.
  assert (∀ n k0, rtc bootstrap_step k k0 → rtc bootstrap_step k (env n k0)) as Hstep.
  { intros n k0 Hk0. eapply rtc_r; [done|]. left. by eexists. }
  set (k1 := env (4 * i)%nat k). pose proof (Hstep (4 * i)%nat k (rtc_refl _ _)) as H1.
  destruct (readerGet hasReader k1 key) as [policy|] eqn:Hg1; [|by intros [= <- <- <-]].
  destruct (inspectAdminPolicy policy) as [pf|] eqn:Hi; [|by intros [= <- <- <-]].
  apply inspect_names_ledger in Hi as [Hdec Hname].
  set (name := (key.1, apc_LedgerName (app_Config pf))) in *.
  set (k2 := env (4 * i + 1)%nat k1). pose proof (Hstep (4 * i + 1)%nat k1 H1) as H2.
  destruct (readerGet hasReader k2 name) as [cm|] eqn:Hg2; [|by intros [= <- <- <-]].
  apply readerGet_stored in Hg1, Hg2.
  apply (was_stored_after _ k2) in Hg1; [|apply Henv].
  destruct (bootstrapLedger _ _ _ _ _ _ k2) as [k3 [uid|e3]] eqn:Hl;
    apply (bootstrapLedger_spec i policy) in Hl as [H3 Hl]; try done; cycle 1.
  { intros [= <- <- <-]. split; [by etrans|done]. }
  destruct Hl as (_ & Hready & Hbound). pose proof (bootstrap_steps_after _ _ H3) as Ha3.
  apply (was_stored_after _ k3) in Hg1; [|done].
  destruct (bootstrapPolicy _ _ _ _ _ k3) as [k4 [parsed|e4]] eqn:Hp;
    apply (bootstrapPolicy_spec i policy name) in Hp as [H4 Hp]; try done;
    intros [= <- <- <-]; (split; [by do 2 (etrans; [done|])|]); [|done].
  exists parsed. split; [done|]. destruct Hp as (p & Hst & Hparse & Hluid & Hdata).
  pose proof (ParseAdminPolicy_ok _ _ Hparse) as (Hdec' & _).
  assert (app_Config pf = pap_Config parsed) as Hcfg by (by eapply decode_by_data).
  split; [by exists p|]. rewrite <- Hcfg, Hluid.
  eapply ledger_ready_after; [|done]. by eapply bootstrap_steps_after.
Qed.

Lemma bootstrap_attempts hasReader i k k' res res' e :
  attempts (bootstrapAttempt env hasReader key) i (k, res) (k', res') e →
  rtc bootstrap_step k k' ∧
  match e with
  | Some _ => True
  | None => ∃ parsed, res' = Some parsed ∧ policy_bound k' parsed
  end.
Proof using KS Henv US VS.
  remember (k, res) as st eqn:Hst. remember (k', res') as st' eqn:Hst'. intros Ha.
  revert k res Hst. induction Ha as [i st st' e Hf|i st [k1 res1] e1 st' e Hf _ _ IH];
    intros k res ->; [subst st'; by eapply bootstrapAttempt_spec|].
  destruct (bootstrapAttempt_spec _ _ _ _ _ _ _ Hf) as [H1 _].
  destruct (IH Hst' _ _ eq_refl) as [H2 Hr]. split; [by etrans|done].
Qed.
End writes.

(** ** Bootstrap completes *)

(** A server that answers: reads return the stored object, and a patch computed
    from the stored object is written. *)
Class KubeLive (K : KubeAPI) : Prop := {
  live_get s k o : kube_object s k = Some o → kube_reader_Get s k = inl o;
  live_patch s k before after : kube_object s k = Some before →
    ∃ s' new, kube_Patch s k before after = (s', inl new) ∧ cm_ResourceVersion new ≠ "";
}.

Lemma enc_ascii_length_le c : (length (enc_ascii c) ≤ 6)%nat.
Proof. unfold enc_ascii. repeat case_match; simpl; lia. Qed.

Lemma enc_string_length s : ascii_string s → (length (enc_string s) ≤ 6 * String.length s + 2)%nat.
Proof.
  intros Ha. rewrite enc_string_ascii by done. rewrite <- bytes_of_length.
  assert (length (concat (map enc_ascii (bytes_of s))) ≤ 6 * length (bytes_of s))%nat.
  { generalize (bytes_of s). intros l. induction l as [|c l IH]; simpl; [lia|].
    rewrite length_app. pose proof (enc_ascii_length_le c). lia. }
  simpl. rewrite length_app. simpl. lia.
Qed.

(** A fresh ledger fits in the smallest ledger an administrator can ask for. *)
Lemma fresh_encodes uid l maxBytes :
  bounded_identity uid 128 → NewLedger uid = inl l →
  4096 ≤ maxBytes ≤ DefaultMaxSerializedBytes → ∃ text, Encode l maxBytes = inl text.
Proof.
  intros (Hne & Hlen & Hp) Hn Hb. unfold NewLedger in Hn. case_match; [done|]. injection Hn as <-.
  unfold Encode. cbn [led_Version led_UID].
  rewrite (bool_decide_eq_true_2 (LedgerVersion = LedgerVersion)) by done. cbn [negb orb].
  rewrite TrimSpace_printable by done. rewrite bool_decide_eq_false_2 by done.
  rewrite (proj2 (Z.leb_gt maxBytes 0)) by lia.
  rewrite (proj2 (Z.ltb_ge DefaultMaxSerializedBytes maxBytes)) by lia. cbn [orb].
  rewrite (proj2 (Z.ltb_ge _ _)); [eauto|].
  etrans; [|apply Hb]. unfold slen, Marshal. rewrite <- bytes_of_length, bytes_of_of.
  unfold ledger_json. cbn [led_Version led_UID led_Reservations led_LastReleaseFence].
  replace (sorted_entries (∅ : gmap string Reservation)) with ([] : list (string * Reservation))
    by (by vm_compute).
  unfold slen in Hlen. pose proof (enc_string_length uid (printable_ascii _ Hp)) as Hl.
  cbn [map app enc sep_by fst snd]. generalize dependent (enc_string uid). intros text Hl.
  repeat (rewrite length_cons || rewrite length_app).
  assert (length (enc_string "version") = 9 ∧ length (enc_string LedgerVersion) = 4
          ∧ length (enc_string "uid") = 5 ∧ length (enc_string "reservations") = 14)%nat
    as (-> & -> & -> & ->) by (by vm_compute).
  simpl length. lia.
Qed.

Section completes.
Context {KA : KubeAPI} {RL : @RetryLib KA} {KV : K8sValidation} {UL : UuidLib} {LL : LabelLib}.
Context {US : UuidLibSpec UL} {VS : K8sValidationSpec KV} {RS : RetryLibSpec RL}.
Context (kube_after : KubeState → KubeState → Prop) {KS : KubeAPISpec KA kube_after}.
Context {KL : KubeLive KA}.
Context (key : NamespacedName) (policy : ConfigMap) (preflight : AdminPolicyPreflight).
Context (Hinspect : inspectAdminPolicy policy = inl preflight).

Let name : NamespacedName := (key.1, apc_LedgerName (app_Config preflight)).

(** The objects a bootstrap, complete or interrupted, may leave behind: an empty
    ledger of an unbound policy, or a ledger of its own UID and a policy that is
    unbound or bound to it. *)
Definition bootstrap_state (k : KubeState) (cm : ConfigMap) : Prop :=
  kube_object k key = Some policy ∧ kube_object k name = Some cm ∧ cm_ResourceVersion cm ≠ ""
  ∧ (TrimSpace (mget (cm_Data cm) LedgerDataKey) = "" ∧ boundUID policy = ""
     ∨ (∃ l, Decode (TrimSpace (mget (cm_Data cm) LedgerDataKey)) (cm_UID cm) = inl l)
       ∧ (boundUID policy = "" ∨ boundUID policy = cm_UID cm)).

(** The object holds a ledger of UID [uid]. *)
Definition holds_ledger (k : KubeState) (uid : string) : Prop :=
  ∃ cm l, kube_object k name = Some cm ∧ cm_UID cm = uid
    ∧ Decode (TrimSpace (mget (cm_Data cm) LedgerDataKey)) uid = inl l.

Lemma Decode_empty uid l : Decode "" uid ≠ inl l.
Proof. unfold Decode. case_match; [done|]. by vm_compute. Qed.

Lemma bootstrapLedger_completes i maxBytes k cm :
  key ≠ name → bootstrap_state k cm → 4096 ≤ maxBytes ≤ DefaultMaxSerializedBytes →
  ∃ k', bootstrapLedger (λ _ k, k) i name maxBytes (boundUID policy) cm k = (k', inl (cm_UID cm))
    ∧ holds_ledger k' (cm_UID cm) ∧ kube_object k' key = Some policy.
Proof using KS KL US VS.
  intros Hkn (Hp & Hcm & Hrv & Hst) Hb. pose proof (kube_uid _ _ _ Hcm) as Hu.
  pose proof Hu as (Hne & _ & Hprint). unfold bootstrapLedger.
  rewrite (bool_decide_eq_false_2 (cm_UID cm = "")), (bool_decide_eq_false_2 (cm_ResourceVersion cm = ""))
    by done. cbn [orb].
  destruct Hst as [[Hraw Hunb]|[[l Hd] Hbound]].
  - rewrite Hunb, Hraw. rewrite (bool_decide_eq_true_2 ("" = "")) by done. cbn [negb andb].
    destruct (NewLedger (cm_UID cm)) as [l|e] eqn:Hn.
    2: { unfold NewLedger in Hn. by rewrite TrimSpace_printable, bool_decide_eq_false_2 in Hn. }
    destruct (fresh_encodes _ _ _ Hu Hn Hb) as [text He]. rewrite He.
    destruct (live_patch k name cm (withLedgerData cm text) Hcm) as (k' & new & Hpatch & _).
    rewrite Hpatch. apply kube_patch_ok in Hpatch as (_ & Hnew & Hother & cur & Hcur & _ & Hnu & Hdata).
    simplify_eq. destruct (Hdata eq_refl) as [Hdata' _]. exists k'. rewrite Hnu.
    split_and!; [done| |by rewrite Hother]. exists new, l. split_and!; [done|done|].
    rewrite Hdata'. simpl. unfold mget. rewrite lookup_insert_eq. by eapply fresh_text.
  - assert (TrimSpace (mget (cm_Data cm) LedgerDataKey) ≠ "") as Hraw.
    { intros Heq. rewrite Heq in Hd. by apply Decode_empty in Hd. }
    replace ((boundUID policy != "") && (boundUID policy != cm_UID cm)) with false.
    2: { destruct Hbound as [->| ->]; [done|]. rewrite (bool_decide_eq_true_2 (cm_UID cm = cm_UID cm)) by done.
         by rewrite andb_false_r. }
    rewrite bool_decide_eq_false_2 by done. rewrite Hd. exists k. split; [done|]. split; [|done].
    by exists cm, l.
Qed.

Lemma ParseAdminPolicy_completes p :
  cm_UID p ≠ "" → cm_ResourceVersion p ≠ "" → cm_Data p = cm_Data policy →
  (∀ a, a ≠ LedgerUIDAnnotation → cm_Annotations p !! a = cm_Annotations policy !! a) →
  boundUID p ≠ "" →
  ∃ parsed, ParseAdminPolicy p = inl parsed ∧ pap_Config parsed = app_Config preflight
    ∧ pap_LedgerUID parsed = boundUID p.
Proof using Hinspect.
  clear name. intros Hu Hr Hdata Hann Hb. pose proof Hinspect as Hi. unfold inspectAdminPolicy in Hi.
  destruct (decodeAdminPolicyConfig policy) as [cfg|] eqn:Hd; [|done].
  destruct (LabelSelectorAsSelector (apc_FleetSelector cfg)) as [sel|] eqn:Hsel; [|done].
  case_match eqn:Hpre; [done|]. injection Hi as <-.
  assert (decodeAdminPolicyConfig p = inl cfg) as Hd'.
  { unfold decodeAdminPolicyConfig in *. rewrite !bool_decide_eq_false_2 by done. cbn [orb].
    destruct ((cm_UID policy == "") || _); [done|]. unfold mget in *.
    by rewrite !Hann, Hdata by done. }
  unfold ParseAdminPolicy, inspectAdminPolicy. rewrite Hd', Hsel.
  replace (mget (cm_Annotations p) AdmissionPrefixAnnotation)
    with (mget (cm_Annotations policy) AdmissionPrefixAnnotation)
    by (unfold mget; by rewrite Hann).
  rewrite Hpre. cbn [app_Config app_AdmissionPrefix].
  fold (boundUID p). rewrite bool_decide_eq_false_2 by done. rewrite Hsel.
  eexists. split_and!; done.
Qed.

Lemma bootstrapPolicy_completes i k cm :
  key ≠ name → kube_object k key = Some policy → holds_ledger k (cm_UID cm) →
  (boundUID policy = "" ∨ boundUID policy = cm_UID cm) →
  ∃ k' parsed p, bootstrapPolicy (λ _ k, k) i key policy (cm_UID cm) k = (k', inl parsed)
    ∧ pap_Config parsed = app_Config preflight ∧ pap_LedgerUID parsed = cm_UID cm
    ∧ kube_object k' key = Some p ∧ boundUID p = cm_UID cm ∧ holds_ledger k' (cm_UID cm).
Proof using KS KL Hinspect.
  intros Hkn Hp Hl Hbound. destruct (Hl) as (lcm & l & Hlcm & Hluid & Hdec).
  pose proof (kube_uid _ _ _ Hlcm) as (Hne & _ & Hprint). rewrite Hluid in Hne, Hprint.
  pose proof (kube_uid _ _ _ Hp) as (Hpne & _).
  assert (cm_ResourceVersion policy ≠ "") as Hrv.
  { pose proof (inspect_names_ledger key _ _ Hinspect) as [(_ & _ & _ & ?)%decode_policy_ok _]. done. }
  unfold bootstrapPolicy. destruct (boundUID policy == "") eqn:Hb.
  2: { apply bool_decide_eq_false in Hb. destruct Hbound as [|Hbound]; [done|].
       destruct (ParseAdminPolicy_completes policy) as (parsed & -> & Hc & Hlu); try done.
       exists k, parsed, policy. by rewrite Hlu, Hbound. }
  destruct (live_patch k key policy (withBinding policy (cm_UID cm)) Hp) as (k' & new & Hpatch & Hnrv).
  rewrite Hpatch. apply kube_patch_ok in Hpatch as (_ & Hnew & Hother & cur & Hcur & _ & Hnu & Hdata).
  simplify_eq. destruct (Hdata eq_refl) as [Hdata' Hann].
  assert (boundUID new = cm_UID cm) as Hbn.
  { unfold boundUID. rewrite Hann. simpl. unfold mget. rewrite lookup_insert_eq. simpl.
    by apply TrimSpace_printable. }
  destruct (ParseAdminPolicy_completes new) as (parsed & -> & Hc & Hlu).
  - by rewrite Hnu.
  - done.
  - done.
  - intros a Ha. rewrite Hann. simpl. by rewrite lookup_insert_ne.
  - by rewrite Hbn.
  - exists k', parsed, new. split_and!; [done|done|by rewrite Hlu|done|done|].
    exists lcm, l. by rewrite Hother.
Qed.

Lemma Bootstrap_completes_lemma k cm :
  key.1 ≠ "" → key.2 ≠ "" → key ≠ name → bootstrap_state k cm →
  ∃ k' parsed p, BootstrapAdminPolicy (λ _ k, k) true key k = (k', inl (Some parsed))
    ∧ pap_Config parsed = app_Config preflight ∧ pap_LedgerUID parsed = cm_UID cm
    ∧ kube_object k' key = Some p ∧ boundUID p = cm_UID cm ∧ holds_ledger k' (cm_UID cm).
Proof using KS KL RS US VS Hinspect.
  intros H1 H2 Hkn Hst. pose proof Hst as (Hp & Hcm & _ & Hor).
  pose proof (inspect_names_ledger key _ _ Hinspect) as [(Hok & _)%decode_policy_ok _].
  destruct (bootstrapLedger_completes 0 (apc_MaxLedgerBytes (app_Config preflight)) k cm)
    as (k1 & Hbl & Hhold & Hp1); [done|done|apply Hok|].
  destruct (bootstrapPolicy_completes 0 k1 cm) as (k2 & parsed & p & Hbp & Hrest); [done|done|done|tauto|].
  exists k2, parsed, p. split; [|done].
  assert (bootstrapAttempt (λ _ k, k) true key 0 (k, None) = ((k2, Some parsed), None)) as Hatt.
  { unfold bootstrapAttempt, readerGet. rewrite (live_get _ _ _ Hp), Hinspect.
    fold name. by rewrite (live_get _ _ _ Hcm), Hbl, Hbp. }
  unfold BootstrapAdminPolicy. rewrite !bool_decide_eq_false_2 by done. cbn [orb].
  destruct (RetryOnConflict _ _) as [st e] eqn:Hr. apply retry_attempts in Hr.
  inversion Hr; subst; rewrite Hatt in *; by simplify_eq.
Qed.
End completes.
