(* ===== verification/PolicyExamples.v ===== *)
(** * A small fleet policy, for the witnesses

    An administrator policy, its ConfigMap and the ledger's, on the reference API
    server. *)

From S2P Require Import Prelude GoLib GoTime Json Interfaces LedgerData Ledger LedgerExamples.
From S2P Require Import Store StoreTheorems AdminPolicy AdminPolicyOps AdminPolicyHash Bootstrap.

#[export] Existing Instance labels_reference.

(** Some hash, for evaluation. *)
#[export] Instance hash_reference : HashLib :=
  {| Sum256 s := replicate 32 (Z.of_nat (String.length s) mod 256) |}.

#[export] Instance hash_reference_spec : HashLibSpec hash_reference.
Proof.
  split; intros s; [|apply length_replicate].
  apply Forall_replicate, Z.mod_pos_bound. lia.
Qed.

Definition exSelector (key value : string) : LabelSelector :=
  {| ls_MatchLabels := {[ key := value ]}; ls_MatchExpressions := [] |}.

Definition exSite : string := "topology.cisco.vk/site".
Definition exRack : string := "topology.cisco.vk/rack".

Definition exUplink : AdminRiskGroup :=
  {| arg_Name := "uplink"; arg_Selector := exSelector exSite "s1";
     arg_MaxConcurrentTransfers := 2; arg_MaxUnavailable := 2;
     arg_MaxAggregateTransferBytesPerSecond := 1000 |}.

Definition exCore : AdminRiskGroup :=
  {| arg_Name := "core"; arg_Selector := exSelector exRack "r1";
     arg_MaxConcurrentTransfers := 3; arg_MaxUnavailable := 3;
     arg_MaxAggregateTransferBytesPerSecond := 0 |}.

Definition exCritical : AdminDisruptionProtection :=
  {| adp_Name := "critical"; adp_Reason := "CriticalService";
     adp_Selector := exSelector exRack "r1" |}.

Definition exAlpha : AdminDisruptionProtection :=
  {| adp_Name := "alpha"; adp_Reason := "SingletonPath"; adp_Selector := exSelector exSite "s1" |}.

Definition exDrain : AdminWorkloadDrainPolicy :=
  {| awd_Enabled := true; awd_AllowedNamespaces := ["apps"; "web"]; awd_MaxTimeoutSeconds := 1200;
     awd_MaxPods := 8; awd_MaxTerminationGraceSeconds := 300 |}.

Definition exConfigWith (required : list string) (rules : list AdminDisruptionProtection)
    (groups : list AdminRiskGroup) (unavailable : Z) : AdminPolicyConfig :=
  {| apc_AppHostingServiceAccountName := "apphosting";
     apc_NetworkManagementServiceAccountName := "netmgmt"; apc_ConfigLeaseNamespace := "";
     apc_Version := "v1"; apc_FleetSelector := exSelector "topology.cisco.vk/fleet" "core";
     apc_RequiredTopologyKeys := required; apc_ProjectedTopologyKeys := [exSite];
     apc_GlobalMaxConcurrentTransfers := 4; apc_GlobalMaxUnavailable := unavailable;
     apc_DomainMaxConcurrentTransfers := {[ exSite := 2 ]};
     apc_DomainMaxUnavailable := {[ exSite := 2 ]}; apc_HealthFreshnessSeconds := 300;
     apc_MaxCampaignTargets := 0; apc_MaxActiveReservations := 0; apc_MaxLedgerBytes := 0;
     apc_WorkloadDrain := Some exDrain; apc_DisruptionProtections := rules;
     apc_RiskGroups := groups; apc_LedgerName := "ledger" |}.

Definition exConfig : AdminPolicyConfig :=
  exConfigWith [exSite; exRack] [exCritical; exAlpha] [exUplink; exCore] 4.

(** The same policy in another order. *)
Definition exConfig' : AdminPolicyConfig :=
  exConfigWith [exRack; exSite] [exAlpha; exCritical] [exCore; exUplink] 4.

Definition exPolicyAnnotations (bound : string) : gmap string string :=
  (if bound == "" then id else <[ LedgerUIDAnnotation := bound ]>)
    {[ PolicyManagedAnnotation := "true"; AdmissionPrefixAnnotation := "fleet-policy";
       ConfigLeaseNamespaceAnnotation := "" ]}.

Definition exPolicyCM (version bound : string) : ConfigMap :=
  {| cm_Namespace := "fleet"; cm_Name := "policy"; cm_UID := "policy-uid";
     cm_ResourceVersion := version; cm_Annotations := exPolicyAnnotations bound;
     cm_Data := {[ PolicyDataKey := Marshal (policy_json exConfig) ]} |}.

Definition exLedgerCM (version text : string) : ConfigMap :=
  {| cm_Namespace := "fleet"; cm_Name := "ledger"; cm_UID := "ledger-uid";
     cm_ResourceVersion := version; cm_Annotations := ∅;
     cm_Data := if text == "" then ∅ else {[ LedgerDataKey := text ]} |}.

Definition exParsed : ParsedAdminPolicy :=
  {| pap_Config := withDefaults exConfig;
     pap_Selector := exSelector "topology.cisco.vk/fleet" "core";
     pap_Namespace := "fleet"; pap_Name := "policy"; pap_LedgerUID := "ledger-uid";
     pap_PolicyUID := "policy-uid"; pap_ResourceVersion := unary 2;
     pap_HealthFreshness := 300 * second; pap_AdmissionPrefix := "fleet-policy" |}.

Definition exLabels : gmap string string := {[ exSite := "s1"; exRack := "r1" ]}.

Example exConfig_valid : validateAdminPolicyConfig exConfig = inl (withDefaults exConfig).
Proof. vm_compute. reflexivity. Qed.

Example exPolicy_parses : ParseAdminPolicy (exPolicyCM (unary 2) "ledger-uid") = inl exParsed.
Proof. vm_cast_no_check (@eq_refl (ParsedAdminPolicy + goerror) (inl exParsed)). Qed.

Example exRiskGroups : RiskGroups exParsed exLabels = inl ["core"; "uplink"].
Proof. vm_compute. reflexivity. Qed.

Example exRate : MaxTransferBytesPerSecond exParsed exLabels = inl 500.
Proof. vm_compute. reflexivity. Qed.

Example exProtection : DisruptionProtection exParsed exLabels = inl (Some exAlpha).
Proof. vm_compute. reflexivity. Qed.
