(* ===== verification/AdminPolicyTheorems.v ===== *)
(** * The administrator policy: its properties

    What a validated policy guarantees to the ledger, to the transfers and to the
    workloads, and what its hashes depend on. *)

From S2P Require Import Prelude GoLib GoTime Json JsonProofs Interfaces LedgerData Ledger.
From S2P Require Import LedgerSpec LedgerOps LedgerAdmission LedgerHistory LedgerExamples Store.
From S2P Require Import AdminPolicy AdminPolicyOps AdminPolicySpec AdminPolicyProofs.
From S2P Require Import AdminPolicyHash AdminPolicyHashProofs Bootstrap PolicyExamples LedgerCodec.

(** The admission policy of a validated policy. *)
Lemma AdmissionPolicy_exact `{K8sValidation, LabelLib} p now :
  policy_ok (pap_Config p) →
  positive_budgets (AdmissionPolicy p now) ∧ nonnegative (AdmissionPolicy p now)
  ∧ ∀ name b, pol_RiskGroupBudgets (AdmissionPolicy p now) !! name = Some b ↔
      ∃ g, g ∈ apc_RiskGroups (pap_Config p) ∧ arg_Name g = name ∧ b = group_budget g.
Proof.
  intros Hok. split; [by apply AdmissionPolicy_positive|].
  split; [by apply AdmissionPolicy_nonnegative|].
  intros name b. apply riskGroupBudgets_lookup. by destruct (po_groups _ Hok).
Qed.

(** C19: validation accepts exactly the policies that, once the defaults are filled in,
    are within the code's limits in every field, and returns the completed policy:
    version, service accounts, lease namespace and ledger name; fleet selector, required
    and projected topology keys; global, domain and risk-group budgets; sizes and health
    freshness; drain caps; disruption protections and risk groups with their selectors.
    Validating it again changes nothing.  Every budget of the admission policy made of it
    is at least one, and its risk-group budgets are exactly those of the policy's groups,
    so the ledger's budget theorems apply to it. *)
Theorem validated_policy_limits `{K8sValidation, LabelLib} cfg cfg' :
  (validateAdminPolicyConfig cfg = inl cfg' ↔ cfg' = withDefaults cfg ∧ policy_ok cfg')
  ∧ (validateAdminPolicyConfig cfg = inl cfg' →
     validateAdminPolicyConfig cfg' = inl cfg'
     ∧ ∀ p now, pap_Config p = cfg' →
         positive_budgets (AdmissionPolicy p now) ∧ nonnegative (AdmissionPolicy p now)
         ∧ ∀ name b, pol_RiskGroupBudgets (AdmissionPolicy p now) !! name = Some b ↔
             ∃ g, g ∈ apc_RiskGroups cfg' ∧ arg_Name g = name ∧ b = group_budget g).
Proof.
  split; [apply validateAdminPolicyConfig_iff|]. intros Hv.
  split; [by eauto using validate_withDefaults|].
  destruct (validateAdminPolicyConfig_ok _ _ Hv) as [_ Hok]. intros p now <-.
  by apply AdmissionPolicy_exact.
Qed.

Lemma exParsed_valid : validateAdminPolicyConfig (pap_Config exParsed) = inl (pap_Config exParsed).
Proof. vm_compute. reflexivity. Qed.

Lemma exParsed_checks :
  validateDisruptionProtections (pap_Config exParsed) = None
  ∧ validateRiskGroups (pap_Config exParsed) = None.
Proof. by eapply validated_checks, exParsed_valid. Qed.

Lemma validated_policy_limits_witness :
  policy_ok (pap_Config exParsed) ∧ positive_budgets (AdmissionPolicy exParsed 1000).
Proof.
  destruct (validated_policy_limits (pap_Config exParsed) (pap_Config exParsed)) as [Hiff Hp].
  split; [apply (proj1 Hiff exParsed_valid)|].
  apply (proj2 (Hp exParsed_valid) exParsed 1000). reflexivity.
Defined.

(** C21: on a policy with valid risk groups [RiskGroups] never fails; it returns the
    names of exactly the groups whose selector matches the device, strictly sorted,
    which the ledger accepts as the groups of a member or a request.  On one with valid
    protections [DisruptionProtection] never fails; it returns the rule with the least
    name among those that select the device, and no rule only when none selects it. *)
Theorem RiskGroups_exact `{K8sValidation, LabelLib} p labels :
  (validateRiskGroups (pap_Config p) = None →
   ∃ names, RiskGroups p labels = inl names
     ∧ validateRiskGroupNames names = None
     ∧ (∀ n, containsSorted names n = true ↔
          ∃ g, g ∈ apc_RiskGroups (pap_Config p) ∧ arg_Name g = n ∧ selects (arg_Selector g) labels))
  ∧ (validateDisruptionProtections (pap_Config p) = None →
     ∃ res, DisruptionProtection p labels = inl res
       ∧ least_rule (apc_DisruptionProtections (pap_Config p)) labels res).
Proof.
  split; [|apply DisruptionProtection_spec]. intros Hv. pose proof (rgs_selectors _ _ (validateRiskGroups_spec _ Hv)) as Hsel.
  assert (∃ names, RiskGroups p labels = inl names) as [names Hr].
  { unfold RiskGroups. rewrite Hv, (matchingGroups_spec labels _ Hsel). eauto. }
  exists names. split; [exact Hr|]. split; [by eapply RiskGroups_valid|]. intros n.
  rewrite containsSorted_iff by (by eapply RiskGroups_strict). by apply RiskGroups_elem.
Qed.

Lemma RiskGroups_exact_witness :
  (∃ names, RiskGroups exParsed exLabels = inl names ∧ validateRiskGroupNames names = None)
  ∧ ∃ res, DisruptionProtection exParsed exLabels = inl res.
Proof.
  destruct (RiskGroups_exact exParsed exLabels) as [Hg Hd]. split.
  - destruct (Hg (proj2 exParsed_checks)) as (ns & ? & ? & _). exists ns. split; assumption.
  - destruct (Hd (proj1 exParsed_checks)) as (res & ? & _). exists res. assumption.
Defined.

(** C22: pacing and admission together bound the byte rate.  In every ledger that a
    history under the policy's admission policy reaches, let each reservation carry the
    risk groups the policy gives its device, and let its transfer obey the pace of
    [MaxTransferBytesPerSecond], where a pace of zero leaves it unlimited.  Then every
    reservation of a group with an aggregate ceiling gets a pace of at least one byte
    per second, so none of them runs unpaced, and together they transfer at most the
    ceiling. *)
Theorem group_rate_within_ceiling `{K8sValidation, UuidLib, !UuidLibSpec H0, LabelLib} p now
    (labels : string → gmap string string) rate l g :
  validateAdminPolicyConfig (pap_Config p) = inl (pap_Config p) →
  reachable (AdmissionPolicy p now) l →
  (∀ id r, reservations l !! id = Some r →
     RiskGroups p (labels id) = inl (req_RiskGroups (rsv_Request r))
     ∧ paced p (labels id) (rate id)) →
  g ∈ apc_RiskGroups (pap_Config p) → arg_MaxAggregateTransferBytesPerSecond g ≠ 0 →
  (∀ id r, reservations l !! id = Some r →
     containsSorted (req_RiskGroups (rsv_Request r)) (arg_Name g) = true →
     ∃ pace, MaxTransferBytesPerSecond p (labels id) = inl pace ∧ 1 ≤ pace)
  ∧ group_rate rate l (arg_Name g) ≤ arg_MaxAggregateTransferBytesPerSecond g.
Proof.
  intros Hv Hreach Hdev Hg Hagg. pose proof Hv as [_ Hok]%validateAdminPolicyConfig_ok.
  pose proof (validated_checks _ _ Hv) as [_ Hgroups]. split.
  - intros id r Hr Hin. destruct (Hdev id r Hr) as [Hnames _].
    destruct (group_member_pace p _ _ g Hgroups Hnames Hg Hagg Hin) as (pace & ? & ? & _). eauto.
  - apply (group_rate_bounded p now labels rate l g); auto.
    apply reachable_occupancy; [by apply AdmissionPolicy_nonnegative|done].
Qed.

(** One device of the example fleet, admitted under the policy. *)
Definition exFleetMember : Member :=
  {| mem_PhysicalID := "phys-1"; mem_DeviceUID := "dev-1"; mem_NodeUID := "node-1";
     mem_Domains := {[ exSite := "s1" ]}; mem_RiskGroups := ["core"; "uplink"];
     mem_HealthKnown := true; mem_Healthy := true; mem_Maintenance := false;
     mem_HealthObserved := 400 * second |}.

Definition exFleetRequest : ReservationRequest :=
  {| req_ID := "rsv-1"; req_CampaignUID := "campaign"; req_PlanHash := exHash;
     req_PolicyUID := "policy-uid"; req_PolicyVersion := pap_ResourceVersion exParsed;
     req_PolicyEpoch := 1; req_TopologyLockID := exLock; req_PhysicalID := "phys-1";
     req_DeviceUID := "dev-1"; req_NodeUID := "node-1"; req_ChildNamespace := "fleet";
     req_ChildName := "child-1"; req_Domains := {[ exSite := "s1" ]};
     req_RiskGroups := ["core"; "uplink"]; req_CampaignMaxConcurrentTransfers := 0;
     req_CampaignMaxUnavailable := 0; req_CampaignTransferLimits := ∅; req_CampaignLimits := ∅;
     req_ControlRevision := 1 |}.

Definition exFleetPolicy : Policy := AdmissionPolicy exParsed (500 * second).
Definition exFleetLedger : Ledger :=
  put exNew "rsv-1" (freshReservation exFleetRequest).

Lemma exFleetLedger_reachable : reachable exFleetPolicy exFleetLedger.
Proof.
  apply (ReachStep _ (OpReserve exFleetPolicy [exFleetMember] exFleetRequest) exNew _ None).
  - by apply (ReachNew _ "ledger-uid").
  - by intros p ms q [= <- <- <-]; apply tighter_refl.
  - vm_compute. reflexivity.
Qed.

Lemma group_rate_within_ceiling_witness : group_rate (λ _, 500) exFleetLedger "uplink" ≤ 1000.
Proof.
  apply (group_rate_within_ceiling exParsed (500 * second) (λ _, exLabels) (λ _, 500)
           exFleetLedger exUplink exParsed_valid exFleetLedger_reachable).
  - intros id r Hr. change (reservations exFleetLedger)
      with ({[ "rsv-1" := freshReservation exFleetRequest ]} : gmap string Reservation) in Hr.
    apply lookup_singleton_Some in Hr as [_ <-]. split; [exact exRiskGroups|].
    intros pace Hp _. assert (inl pace = inl 500 :> Z + goerror) as [= ->]
      by (etrans; [symmetry; exact Hp|exact exRate]). lia.
  - left.
  - discriminate.
Defined.

(** C23: [ValidateWorkloadPolicy] accepts exactly: no drain section with the
    (default) BlockIfRunning policy, or a Drain request on a policy that enables
    drain, for distinct allowed namespaces, within every administrator cap and every
    hard limit, whose timeout covers the grace period and the buffer.  The int32
    addition of the last check does not wrap. *)
Theorem ValidateWorkloadPolicy_iff `{K8sValidation, LabelLib} p w :
  ValidateWorkloadPolicy p w = None ↔
  ∃ cfg, validateAdminPolicyConfig (pap_Config p) = inl cfg ∧
    ((wls_Policy w = "" ∨ wls_Policy w = IOSXESoftwareRolloutWorkloadBlockIfRunning)
       ∧ wls_Drain w = None
     ∨ wls_Policy w = IOSXESoftwareRolloutWorkloadDrain
       ∧ ∃ cap d, apc_WorkloadDrain cfg = Some cap ∧ wls_Drain w = Some d ∧ drain_within cap d).
Proof. apply ValidateWorkloadPolicy_spec. Qed.


Lemma exConfig_reordered : policy_equiv exConfig exConfig'.
Proof.
  assert (∀ s, selector_equiv s s) as Hs.
  { intros s. split; [done|]. exists (ls_MatchExpressions s). split; [done|].
    apply Forall2_same_length_lookup_2; [done|]. intros i a b Ha Hb. by simplify_eq. }
  split; try done; [|by constructor]. split; try done; try apply Hs; try apply perm_swap.
  - exists [exAlpha; exCritical]. split; [apply perm_swap|]. by repeat constructor; try apply Hs.
  - exists [exCore; exUplink]. split; [apply perm_swap|]. by repeat constructor; try apply Hs.
Qed.

Definition exConfigTight : AdminPolicyConfig :=
  exConfigWith [exRack; exSite] [exAlpha; exCritical] [exCore; exUplink] 1.


(** C27: for devices whose physical IDs are ASCII text, as [CanonicalPhysicalIdentity]
    makes them, the text that [RiskGroupMembershipHash] hashes determines which devices
    are in which groups and nothing else: two fleets have the same text exactly when they
    have the same grouped membership, so health, domains, duplicate observations and
    order do not change the hash. *)
Theorem RiskGroupMembershipHash_exact `{HashLib} {KV : K8sValidation} {KS : K8sValidationSpec KV}
    ms ms' c c' :
  (∀ m, m ∈ ms ++ ms' → ascii_string (mem_PhysicalID m)) →
  canonicalizeMembers ms = inl c → canonicalizeMembers ms' = inl c' →
  (membershipText c = membershipText c' ↔ same_membership ms ms')
  ∧ (same_membership ms ms' → RiskGroupMembershipHash ms = RiskGroupMembershipHash ms').
Proof.
  intros Ha Hc Hc'. split; [split|].
  - apply text_same_membership; try done; intros m ?; apply Ha; apply elem_of_app; auto.
  - by apply same_membership_text.
  - intros Hs. unfold RiskGroupMembershipHash.
    by rewrite Hc, Hc', (same_membership_text _ _ _ _ Hc Hc' Hs).
Qed.

Lemma RiskGroupMembershipHash_exact_witness :
  ¬ same_membership [exFleetMember] [].
Proof.
  destruct (canonicalizeMembers [exFleetMember]) as [c|] eqn:Hc; [|by vm_compute in Hc].
  destruct (RiskGroupMembershipHash_exact [exFleetMember] [] c ∅) as [Ht _].
  - intros m Hm. apply list_elem_of_singleton in Hm as ->. by apply printable_ascii.
  - exact Hc.
  - reflexivity.
  - rewrite <- Ht. vm_compute in Hc. injection Hc as <-. vm_compute. discriminate.
Defined.
