(* ===== verification/BootstrapTheorems.v ===== *)
(** * Binding the policy to its ledger: properties

    [BootstrapAdminPolicy] is one-way, ordered and complete: what it writes, what it
    returns, and that it finishes, also after an interrupted run. *)

From S2P Require Import Prelude GoLib GoTime Json JsonProofs Interfaces LedgerData Ledger.
From S2P Require Import LedgerSpec LedgerExamples LedgerCodec Store StoreTheorems.
From S2P Require Import AdminPolicy AdminPolicyOps Bootstrap BootstrapProofs PolicyExamples.

#[export] Instance kube_reference_live : KubeLive kube_reference.
Proof.
  split.
  - intros s k o Ho. simpl in *. unfold ref_get. by rewrite Ho.
  - intros s k before after Ho. simpl in *. unfold ref_patch. rewrite Ho.
    rewrite bool_decide_eq_true_2 by done. eauto.
Qed.

(** The server with the policy unbound and the ledger empty; after the run has
    initialised the ledger; and after it has bound the policy. *)
Definition exBoot0 : list (NamespacedName * ConfigMap) :=
  [(("fleet", "ledger"), exLedgerCM "" ""); (("fleet", "policy"), exPolicyCM "" "")].

Definition exBoot1 : list (NamespacedName * ConfigMap) :=
  (("fleet", "ledger"), exLedgerCM (unary 3) (exText exNew)) :: exBoot0.

Definition exBoot2 : list (NamespacedName * ConfigMap) :=
  (("fleet", "policy"), exPolicyCM (unary 4) "ledger-uid") :: exBoot1.

Definition exBootParsed : ParsedAdminPolicy :=
  {| pap_Config := withDefaults exConfig;
     pap_Selector := exSelector "topology.cisco.vk/fleet" "core";
     pap_Namespace := "fleet"; pap_Name := "policy"; pap_LedgerUID := "ledger-uid";
     pap_PolicyUID := "policy-uid"; pap_ResourceVersion := unary 4;
     pap_HealthFreshness := 300 * second; pap_AdmissionPrefix := "fleet-policy" |}.

Definition quiet (_ : nat) (k : list (NamespacedName * ConfigMap)) := k.

Example exBootstrap :
  BootstrapAdminPolicy (KA := kube_reference) quiet true ("fleet", "policy") exBoot0
  = (exBoot2, inl (Some exBootParsed)).
Proof.
  vm_cast_no_check (@eq_refl (list (NamespacedName * ConfigMap)
    * (option ParsedAdminPolicy + goerror)) (exBoot2, inl (Some exBootParsed))).
Qed.

(** C28: every write of a bootstrap, however it ends and whatever others write in
    between, either initialises a ledger that is empty and whose policy was unbound, or
    binds a policy that is unbound to a ledger object that already holds a ledger of
    its own UID.  A bound policy is never bound again, a ledger with content is never
    overwritten, and a crash between the writes leaves no binding to an empty ledger.
    A bootstrap that succeeds returns a policy that was stored and parsed, and the ledger
    it is bound to was stored too: the object that the policy names, with the bound UID,
    holding a ledger of that UID. *)
Theorem Bootstrap_writes {KA : KubeAPI} {RL : @RetryLib KA} {KV : K8sValidation} {UL : UuidLib}
    {LL : LabelLib} {US : UuidLibSpec UL} {VS : K8sValidationSpec KV} {RS : RetryLibSpec RL}
    (kube_after : KubeState → KubeState → Prop) {KS : KubeAPISpec KA kube_after}
    (env : nat → KubeState → KubeState) hasReader key k k' r :
  (∀ n k, kube_after k (env n k)) →
  BootstrapAdminPolicy env hasReader key k = (k', r) →
  rtc (bootstrap_step kube_after env key) k k'
  ∧ ∀ res, r = inl res → ∃ parsed, res = Some parsed ∧ policy_bound kube_after key k' parsed.
Proof.
  intros Henv. unfold BootstrapAdminPolicy. case_match; [by intros [= <- <-]|].
  destruct (RetryOnConflict _ _) as [[k1 res1] e] eqn:Hr. intros Hk.
  assert (k1 = k') as <- by (by destruct e; simplify_eq).
  apply retry_attempts in Hr. eapply bootstrap_attempts in Hr as [? Hb]; [|done..]. split; [done|].
  intros res ->. destruct e as [e|]; [done|]. injection Hk as <-. done.
Qed.

Lemma Bootstrap_writes_witness :
  rtc (bootstrap_step (KA := kube_reference) ref_after quiet ("fleet", "policy")) exBoot0 exBoot2
  ∧ ∃ parsed, Some exBootParsed = Some parsed
    ∧ policy_bound (KA := kube_reference) ref_after ("fleet", "policy") exBoot2 parsed.
Proof.
  destruct (Bootstrap_writes (KA := kube_reference) ref_after quiet true ("fleet", "policy") exBoot0
    exBoot2 (inl (Some exBootParsed))) as [Hw Hb]; [intros; reflexivity|exact exBootstrap|].
  split; [exact Hw|]. apply (Hb (Some exBootParsed)). reflexivity.
Defined.

(** C30: bootstrap completes.  On a server that answers, from any state that an
    earlier run, complete or interrupted, may have left (ledger empty and policy
    unbound; ledger initialised and policy unbound or bound to it), a run without
    interference returns the policy's configuration bound to the ledger's UID, and
    leaves the binding and a ledger of that UID in place. *)
Theorem Bootstrap_completes {KA : KubeAPI} {RL : @RetryLib KA} {KV : K8sValidation} {UL : UuidLib}
    {LL : LabelLib} {US : UuidLibSpec UL} {VS : K8sValidationSpec KV} {RS : RetryLibSpec RL}
    (kube_after : KubeState → KubeState → Prop) {KS : KubeAPISpec KA kube_after}
    {KL : KubeLive KA} key policy preflight k cm :
  inspectAdminPolicy policy = inl preflight → key.1 ≠ "" → key.2 ≠ "" →
  key.2 ≠ apc_LedgerName (app_Config preflight) →
  bootstrap_state key policy preflight k cm →
  ∃ k' parsed p, BootstrapAdminPolicy (λ _ k, k) true key k = (k', inl (Some parsed))
    ∧ pap_Config parsed = app_Config preflight ∧ pap_LedgerUID parsed = cm_UID cm
    ∧ kube_object k' key = Some p ∧ boundUID p = cm_UID cm
    ∧ holds_ledger key preflight k' (cm_UID cm).
Proof.
  intros Hi H1 H2 Hn. apply Bootstrap_completes_lemma with (kube_after := kube_after) (policy := policy); try done.
  intros Heq. apply Hn. by rewrite Heq.
Qed.

Definition exPreflight : AdminPolicyPreflight :=
  {| app_Config := withDefaults exConfig; app_AdmissionPrefix := "fleet-policy" |}.

Lemma exBoot1_state :
  bootstrap_state (KA := kube_reference) ("fleet", "policy") (exPolicyCM (unary 1) "") exPreflight
    exBoot1 (exLedgerCM (unary 3) (exText exNew)).
Proof.
  split; [reflexivity|]. split; [reflexivity|]. split; [discriminate|]. right. split.
  - exists exNew. vm_compute. reflexivity.
  - left. reflexivity.
Qed.

Lemma exPreflight_ok : inspectAdminPolicy (exPolicyCM (unary 1) "") = inl exPreflight.
Proof.
  vm_cast_no_check (@eq_refl (AdminPolicyPreflight + goerror) (inl exPreflight)).
Qed.

Lemma Bootstrap_completes_witness :
  ∃ k' parsed p,
    BootstrapAdminPolicy (KA := kube_reference) (λ _ k, k) true ("fleet", "policy") exBoot1
    = (k', inl (Some parsed))
    ∧ pap_Config parsed = app_Config exPreflight
    ∧ pap_LedgerUID parsed = "ledger-uid"
    ∧ kube_object (KubeAPI := kube_reference) k' ("fleet", "policy") = Some p
    ∧ boundUID p = "ledger-uid"
    ∧ holds_ledger (KA := kube_reference) ("fleet", "policy") exPreflight k' "ledger-uid".
Proof.
  apply (Bootstrap_completes (KA := kube_reference) ref_after ("fleet", "policy")
           (exPolicyCM (unary 1) "") exPreflight exBoot1 (exLedgerCM (unary 3) (exText exNew))).
  - exact exPreflight_ok.
  - discriminate.
  - discriminate.
  - discriminate.
  - exact exBoot1_state.
Defined.
