(* ===== verification/Identity.v ===== *)
(** * Physical identities

    src/internal/topologyidentity/physical_identity.go: the canonical form of a
    device's hardware identity, and its comparison with what the device reports. *)

From S2P Require Import Prelude GoLib.

Definition MaxPhysicalIdentityLength : Z := 128.

Definition asciiAlphaNumeric (b : Z) : bool :=
  ((97 <=? b) && (b <=? 122)) || ((65 <=? b) && (b <=? 90)) || ((48 <=? b) && (b <=? 57)).

(** [strings.ContainsRune("._:/-", character)] *)
Definition identityPunctuation (b : Z) : bool :=
  (b =? 46) || (b =? 95) || (b =? 58) || (b =? 47) || (b =? 45).

(** The loop over the characters.  A rune outside ASCII is neither alphanumeric nor
    punctuation and neither are its bytes, so bytes may stand for runes. *)
Fixpoint identityLoop (index last : nat) (l : list Ascii.ascii) : bool :=
  match l with
  | [] => true
  | c :: l =>
      if asciiAlphaNumeric (byte_val c) then identityLoop (S index) last l
      else if (index =? 0)%nat || (index =? last)%nat || negb (identityPunctuation (byte_val c))
      then false else identityLoop (S index) last l
  end.

Definition CanonicalPhysicalIdentity (value : string) : string + goerror :=
  return_if (value == "") (inr (EPlain "physicalIdentity is required in managed topology")) ;;
  return_if (TrimSpace value != value)
    (inr (EPlain "physicalIdentity must not contain leading or trailing whitespace")) ;;
  return_if (MaxPhysicalIdentityLength <? slen value)
    (inr (EPlain "physicalIdentity exceeds its length limit")) ;;
  return_if (negb (identityLoop 0 (String.length value - 1) (bytes_of value)))
    (inr (EPlain "physicalIdentity has an invalid character")) ;;
  inl (ToLower value).

Definition ObservedPhysicalIdentity (declared machineID systemUUID : string) : string + goerror :=
  match CanonicalPhysicalIdentity declared with
  | inr e => inr e
  | inl authority =>
      let machineID := TrimSpace machineID in
      let systemUUID := TrimSpace systemUUID in
      return_if ((machineID == "") && (systemUUID == ""))
        (inr (EPlain "Node has no live physical identity observation")) ;;
      match (if machineID != "" then CanonicalPhysicalIdentity machineID else inl "") with
      | inr e => inr e
      | inl observed =>
          match (if systemUUID != "" then
                   match CanonicalPhysicalIdentity systemUUID with
                   | inr e => inr e
                   | inl canonicalSystem =>
                       return_if ((observed != "") && (observed != canonicalSystem))
                         (inr (EPlain "Node physical identity observations conflict")) ;;
                       inl canonicalSystem
                   end
                 else inl observed) with
          | inr e => inr e
          | inl observed =>
              return_if (observed != authority)
                (inr (EPlain "Node physical identity observation does not match")) ;;
              inl authority
          end
      end
  end.

(** ** Lemmas *)

(** The alphabet: alphanumeric ends, punctuation inside. *)
Record identity_shape (value : string) : Prop := {
  is_length : 1 ≤ slen value ≤ MaxPhysicalIdentityLength;
  is_chars i c : bytes_of value !! i = Some c →
    asciiAlphaNumeric (byte_val c) = true
    ∨ (identityPunctuation (byte_val c) = true ∧ i ≠ 0%nat ∧ i ≠ (String.length value - 1)%nat);
}.

Lemma identityLoop_spec index last l :
  identityLoop index last l = true ↔
  ∀ i c, l !! i = Some c →
    asciiAlphaNumeric (byte_val c) = true
    ∨ (identityPunctuation (byte_val c) = true ∧ (index + i)%nat ≠ 0%nat ∧ (index + i)%nat ≠ last).
Proof.
  revert index. induction l as [|a l IH]; intros index; simpl; [split; [intros _ i c|]; done|].
  assert ((∀ i c, (a :: l) !! i = Some c →
             asciiAlphaNumeric (byte_val c) = true
             ∨ identityPunctuation (byte_val c) = true ∧ (index + i)%nat ≠ 0%nat ∧ (index + i)%nat ≠ last)
          ↔ (asciiAlphaNumeric (byte_val a) = true
             ∨ identityPunctuation (byte_val a) = true ∧ index ≠ 0%nat ∧ index ≠ last)
            ∧ identityLoop (S index) last l = true) as ->.
  { rewrite IH. split.
    - intros Hall. split; [specialize (Hall 0%nat a eq_refl); by rewrite Nat.add_0_r in Hall|].
      intros i c Hi. specialize (Hall (S i) c Hi). by rewrite Nat.add_succ_r in Hall.
    - intros [Ha Hall] [|i] c Hi; simpl in Hi; simplify_eq; [by rewrite Nat.add_0_r|].
      rewrite Nat.add_succ_r. by apply Hall. }
  destruct (asciiAlphaNumeric _) eqn:He; [naive_solver|].
  destruct (Nat.eqb_spec index 0), (Nat.eqb_spec index last), (identityPunctuation _); naive_solver.
Qed.

Lemma asciiAlphaNumeric_printable b : asciiAlphaNumeric b = true → printable b = true.
Proof. unfold asciiAlphaNumeric, printable. go_bool. lia. Qed.

Lemma identityPunctuation_printable b : identityPunctuation b = true → printable b = true.
Proof. unfold identityPunctuation, printable. go_bool. lia. Qed.

Lemma identity_shape_printable v : identity_shape v → all_bytes printable v = true.
Proof.
  intros [_ Hc]. apply all_bytes_spec. intros c [i Hi]%list_elem_of_lookup_1.
  destruct (Hc i c Hi) as [?|[? _]];
    auto using asciiAlphaNumeric_printable, identityPunctuation_printable.
Qed.

Lemma CanonicalPhysicalIdentity_spec v c :
  CanonicalPhysicalIdentity v = inl c ↔ identity_shape v ∧ c = ToLower v.
Proof.
  unfold CanonicalPhysicalIdentity. split.
  - case_bool_decide as Hne; [done|]. case_match; [done|]. case_match eqn:Hl; [done|].
    case_match eqn:Hloop; [done|]. intros [= <-]. split; [|done].
    apply negb_false_iff in Hloop. pose proof (proj1 (identityLoop_spec _ _ _) Hloop) as Hc.
    apply Z.ltb_ge in Hl.
    split; [|intros i a Hi; by apply Hc]. split; [|done].
    destruct v; [done|]. unfold slen. simpl. lia.
  - intros [Hs ->]. pose proof (TrimSpace_printable _ (identity_shape_printable _ Hs)) as Ht.
    destruct Hs as [Hl Hc].
    rewrite bool_decide_eq_false_2 by (intros ->; unfold slen in Hl; simpl in Hl; lia).
    rewrite Ht, bool_decide_eq_true_2 by done. cbn [negb].
    rewrite (proj2 (Z.ltb_ge _ _)) by lia.
    by rewrite (proj2 (identityLoop_spec 0 _ _) Hc).
Qed.

(** ** ToLower on the alphabet *)

Lemma lower_byte_class c :
  asciiAlphaNumeric (byte_val (lower_byte c)) = asciiAlphaNumeric (byte_val c)
  ∧ identityPunctuation (byte_val (lower_byte c)) = identityPunctuation (byte_val c)
  ∧ lower_byte (lower_byte c) = lower_byte c.
Proof. by destruct c as [[] [] [] [] [] [] [] []]. Qed.

Lemma bytes_ToLower v : bytes_of (ToLower v) = map lower_byte (bytes_of v).
Proof. unfold ToLower. by rewrite bytes_of_of. Qed.

Lemma ToLower_length v : String.length (ToLower v) = String.length v.
Proof. by rewrite <- !bytes_of_length, bytes_ToLower, length_map. Qed.

Lemma ToLower_idemp v : ToLower (ToLower v) = ToLower v.
Proof.
  unfold ToLower at 1. rewrite bytes_ToLower, map_map. unfold ToLower. f_equal.
  apply map_ext. intros c. apply lower_byte_class.
Qed.

(** The alphabet does not depend on the case. *)
Lemma identity_shape_lower v w : ToLower v = ToLower w → identity_shape v → identity_shape w.
Proof.
  intros Hlow [Hl Hc].
  assert (String.length v = String.length w) as Hlen
    by (by rewrite <- (ToLower_length v), Hlow, ToLower_length).
  split; [unfold slen in *; by rewrite <- Hlen|]. intros i c Hi.
  assert (map lower_byte (bytes_of v) !! i = Some (lower_byte c)) as Hv.
  { rewrite <- bytes_ToLower, Hlow, bytes_ToLower.
    rewrite (list_lookup_fmap lower_byte (bytes_of w) i : map lower_byte _ !! i = _). by rewrite Hi. }
  rewrite (list_lookup_fmap lower_byte (bytes_of v) i : map lower_byte _ !! i = _) in Hv.
  destruct (bytes_of v !! i) as [a|] eqn:Ha; [|done]. injection Hv as Hac.
  rewrite <- Hlen. specialize (Hc i a Ha).
  destruct (lower_byte_class a) as (Ha1 & Ha2 & _), (lower_byte_class c) as (Hc1 & Hc2 & _).
  by rewrite <- Hc1, <- Hc2, <- Hac, Ha1, Ha2.
Qed.

Lemma Canonical_fold v w c :
  ToLower v = ToLower w → CanonicalPhysicalIdentity v = inl c → CanonicalPhysicalIdentity w = inl c.
Proof.
  rewrite !CanonicalPhysicalIdentity_spec. intros He [Hs ->]. split; [|done].
  by eapply identity_shape_lower.
Qed.

Lemma Canonical_idemp v c : CanonicalPhysicalIdentity v = inl c → CanonicalPhysicalIdentity c = inl c.
Proof.
  intros Hc. pose proof Hc as [_ ->]%CanonicalPhysicalIdentity_spec.
  eapply Canonical_fold; [|exact Hc]. by rewrite ToLower_idemp.
Qed.

Lemma Canonical_nonempty v c : CanonicalPhysicalIdentity v = inl c → c ≠ "".
Proof.
  intros Hc%Canonical_idemp ->. apply CanonicalPhysicalIdentity_spec in Hc as [[Hl _] _].
  unfold slen in Hl. simpl in Hl. lia.
Qed.

(** An observation agrees with the authority. *)
Definition agrees (observed authority : string) : Prop :=
  TrimSpace observed = "" ∨ CanonicalPhysicalIdentity (TrimSpace observed) = inl authority.

Lemma Observed_spec declared machineID systemUUID a :
  ObservedPhysicalIdentity declared machineID systemUUID = inl a ↔
  CanonicalPhysicalIdentity declared = inl a ∧ agrees machineID a ∧ agrees systemUUID a
  ∧ (TrimSpace machineID ≠ "" ∨ TrimSpace systemUUID ≠ "").
Proof.
  pose proof Canonical_nonempty as Hne. unfold ObservedPhysicalIdentity, agrees.
  revert Hne. generalize CanonicalPhysicalIdentity, (TrimSpace machineID), (TrimSpace systemUUID).
  intros canonical m s Hne. destruct (canonical declared) as [auth|];
    [|split; [done|by intros [? _]]].
  destruct (decide (m = "")) as [->|Hm], (decide (s = "")) as [->|Hs];
    rewrite ?(bool_decide_eq_false_2 (s = "")), ?(bool_decide_eq_false_2 (m = "")) by done;
    change (bool_decide ("" = "")) with true; cbn [negb andb].
  - cbn. split; [done|]. by intros (_ & _ & _ & [?|?]).
  - cbn. destruct (canonical s) as [cs|] eqn:Hcs; cbn; [|intuition congruence].
    change (bool_decide ("" = "")) with true. cbn. case_bool_decide; cbn; intuition congruence.
  - cbn. destruct (canonical m) as [cm|] eqn:Hcm; cbn; [|intuition congruence].
    case_bool_decide; cbn; intuition congruence.
  - destruct (canonical m) as [cm|] eqn:Hcm; cbn; [|intuition congruence].
    destruct (canonical s) as [cs|] eqn:Hcs; cbn; [|intuition congruence].
    rewrite (bool_decide_eq_false_2 (cm = "")) by (by eapply Hne). cbn.
    case_bool_decide; cbn; [|intuition congruence].
    case_bool_decide; cbn; intuition congruence.
Qed.

(** ** Properties *)

(** C31: the two identity functions.  [CanonicalPhysicalIdentity] accepts exactly the
    texts of the CRD's alphabet and maps those that differ only in case to one canonical
    text, which is its own canonical form.  [ObservedPhysicalIdentity] returns an
    identity exactly when the declared one is valid, the device reported at least one,
    and every one it reported has the declared one's canonical form; what it returns is
    the declared identity, never one that only the device supplied. *)
Theorem physical_identities v :
  ((∃ c, CanonicalPhysicalIdentity v = inl c) ↔ identity_shape v)
  ∧ (∀ c, CanonicalPhysicalIdentity v = inl c →
       CanonicalPhysicalIdentity c = inl c
       ∧ ∀ w, ToLower w = ToLower v → CanonicalPhysicalIdentity w = inl c)
  ∧ ∀ machineID systemUUID a,
      ObservedPhysicalIdentity v machineID systemUUID = inl a ↔
      CanonicalPhysicalIdentity v = inl a ∧ agrees machineID a ∧ agrees systemUUID a
      ∧ (TrimSpace machineID ≠ "" ∨ TrimSpace systemUUID ≠ "").
Proof.
  split_and!.
  - split; [by intros [c [? _]%CanonicalPhysicalIdentity_spec]|].
    intros Hs. exists (ToLower v). by apply CanonicalPhysicalIdentity_spec.
  - intros c Hc. split; [by eapply Canonical_idemp|]. intros w Hw. by eapply Canonical_fold.
  - intros machineID systemUUID a. apply Observed_spec.
Qed.
