(* ===== verification/Labels.v ===== *)
(** * Node label projection

    src/internal/topology/labels.go: [NodeLabels], the one place where the identity
    and topology labels of a virtual Node are computed.  Errors are joined, so the
    result is the map and the list of errors; callers publish it only without
    errors. *)

From S2P Require Import Prelude GoLib Json Interfaces AdminPolicy LedgerCodec.

(** [v1.LabelHostname] *)
Definition LabelHostname : string := "kubernetes.io/hostname".
Definition LabelPlatform : string := "platform".
Definition LabelProvider : string := "provider".
Definition LabelType : string := "type".
Definition ProviderCiscoAppHosting : string := "cisco-apphosting".
Definition TypeVirtualKubelet : string := "virtual-kubelet".
Definition CiscoTopologyLabelPrefix : string := "topology.cisco.vk/".

(** The two sentinel errors of the package, with the key they are about. *)
Inductive label_error :=
  | ErrLabelConflict (key : string)
  | ErrInvalidLabel (key : string).

(** [ProjectionMode] is a uint8. *)
Definition ProjectionModeManaged : Z := 0.
Definition ProjectionModeStandaloneCompatibility : Z := 1.

Record NodeLabelsOptions := {
  nlo_Mode : Z;
  nlo_NodeName : string;
  nlo_Platform : string;
  nlo_Region : string;
  nlo_Zone : string;
  nlo_LegacyPlatformTopology : string;
  nlo_SourceLabels : gmap string string;
}.

Definition IsReservedLabel (key : string) : bool :=
  bool_decide (key ∈ [LabelHostname; LabelPlatform; LabelProvider; LabelType;
                      LabelTopologyRegion; LabelTopologyZone]).

Section labels.
Context `{KV : K8sValidation}.

Definition validateLabel (key value : string) (requireValue : bool) : option label_error :=
  return_if (negb (IsQualifiedName key)) (Some (ErrInvalidLabel key)) ;;
  return_if (requireValue && (value == "")) (Some (ErrInvalidLabel key)) ;;
  return_if (negb (IsValidLabelValue value)) (Some (ErrInvalidLabel key)) ;;
  None.

(** [sourced] and [sourcedSet] are one option. *)
Definition resolveTopologyValue (key declared : string) (sourced : option string)
    (legacyFallback : string) (mode : Z) : string + label_error :=
  if declared != "" then
    match validateLabel key declared true with
    | Some e => inr e
    | None =>
        match sourced with
        | Some v => if v != declared then inr (ErrLabelConflict key) else inl declared
        | None => inl declared
        end
    end
  else
    match sourced with
    | Some v => inl v
    | None =>
        if (mode != ProjectionModeStandaloneCompatibility) || (legacyFallback == "") then inl ""
        else match validateLabel key legacyFallback true with
             | Some e => inr e
             | None => inl legacyFallback
             end
    end.

(** The four labels of the Node's identity. *)
Definition identityLabels (opts : NodeLabelsOptions) : list (string * string) :=
  [(LabelHostname, nlo_NodeName opts); (LabelPlatform, nlo_Platform opts);
   (LabelProvider, ProviderCiscoAppHosting); (LabelType, TypeVirtualKubelet)].

Definition identityValue (opts : NodeLabelsOptions) (key : string) : option string :=
  if key == LabelHostname then Some (nlo_NodeName opts)
  else if key == LabelPlatform then Some (nlo_Platform opts)
  else if key == LabelProvider then Some ProviderCiscoAppHosting
  else if key == LabelType then Some TypeVirtualKubelet
  else None.

(** The variables of the projection. *)
Record projection := {
  prj_labels : gmap string string;
  prj_errors : list label_error;
  prj_region : option string;
  prj_zone : option string;
}.

Definition fails (p : projection) (e : label_error) : projection :=
  {| prj_labels := prj_labels p; prj_errors := prj_errors p ++ [e]; prj_region := prj_region p;
     prj_zone := prj_zone p |}.

Definition publishes (p : projection) (key value : string) : projection :=
  {| prj_labels := <[key := value]> (prj_labels p); prj_errors := prj_errors p;
     prj_region := prj_region p; prj_zone := prj_zone p |}.

Definition identityStep (p : projection) (kv : string * string) : projection :=
  match validateLabel kv.1 kv.2 true with
  | Some e => fails p e
  | None => publishes p kv.1 kv.2
  end.

(** Whether a source label must have a value. *)
Definition nonEmptyRequired (key : string) : bool :=
  (key == LabelTopologyRegion) || (key == LabelTopologyZone)
  || HasPrefix key CiscoTopologyLabelPrefix.

Definition sourceStep (opts : NodeLabelsOptions) (p : projection) (kv : string * string)
  : projection :=
  let '(key, value) := kv in
  match validateLabel key value (nonEmptyRequired key) with
  | Some e => fails p e
  | None =>
      match identityValue opts key with
      | Some v => if value != v then fails p (ErrLabelConflict key) else p
      | None =>
          if key == LabelTopologyRegion then
            {| prj_labels := prj_labels p; prj_errors := prj_errors p; prj_region := Some value;
               prj_zone := prj_zone p |}
          else if key == LabelTopologyZone then
            {| prj_labels := prj_labels p; prj_errors := prj_errors p; prj_region := prj_region p;
               prj_zone := Some value |}
          else publishes p key value
      end
  end.

(** [region, err := resolveTopologyValue(...)] and the assignment after it. *)
Definition topologyStep (key : string) (resolved : string + label_error) (p : projection)
  : projection :=
  match resolved with
  | inr e => fails p e
  | inl value => if value != "" then publishes p key value else p
  end.

Definition managedProjection (opts : NodeLabelsOptions) : projection :=
  let start := {| prj_labels := ∅; prj_region := None; prj_zone := None;
                  prj_errors := if nlo_Mode opts != ProjectionModeManaged
                                then [ErrInvalidLabel ""] else [] |} in
  let p := foldl identityStep start (identityLabels opts) in
  let p := foldl (sourceStep opts) p (sorted_entries (nlo_SourceLabels opts)) in
  let p := topologyStep LabelTopologyRegion
             (resolveTopologyValue LabelTopologyRegion (nlo_Region opts) (prj_region p)
                (nlo_LegacyPlatformTopology opts) (nlo_Mode opts)) p in
  topologyStep LabelTopologyZone
    (resolveTopologyValue LabelTopologyZone (nlo_Zone opts) (prj_zone p)
       (nlo_LegacyPlatformTopology opts) (nlo_Mode opts)) p.

Definition standaloneLabels (opts : NodeLabelsOptions) : gmap string string :=
  let labels := list_to_map (identityLabels opts ++
                  [(LabelTopologyRegion, nlo_LegacyPlatformTopology opts);
                   (LabelTopologyZone, nlo_LegacyPlatformTopology opts)]) in
  let labels := if nlo_Region opts != "" then <[LabelTopologyRegion := nlo_Region opts]> labels
                else labels in
  let labels := if nlo_Zone opts != "" then <[LabelTopologyZone := nlo_Zone opts]> labels
                else labels in
  nlo_SourceLabels opts ∪ labels.

Definition NodeLabels (opts : NodeLabelsOptions) : gmap string string * list label_error :=
  return_if (nlo_Mode opts == ProjectionModeStandaloneCompatibility) (standaloneLabels opts, []) ;;
  let p := managedProjection opts in
  (prj_labels p, prj_errors p).

(** ** Lemmas *)

Lemma fails_errors p e : prj_errors (fails p e) ≠ [].
Proof. simpl. by destruct (prj_errors p). Qed.

Lemma errors_monotone {A} (step : projection → A → projection) l p :
  (∀ p a, prj_errors p ≠ [] → prj_errors (step p a) ≠ []) →
  prj_errors (foldl step p l) = [] → prj_errors p = [].
Proof.
  intros Hs. revert p. induction l as [|a l IH]; intros p; simpl; [done|].
  intros He%IH. destruct (prj_errors p) eqn:Hp; [done|].
  exfalso. by eapply (Hs p a); [by rewrite Hp|].
Qed.

Lemma identityStep_errors p kv : prj_errors p ≠ [] → prj_errors (identityStep p kv) ≠ [].
Proof. unfold identityStep. case_match; [intros _; apply fails_errors|done]. Qed.

Lemma sourceStep_errors opts p kv : prj_errors p ≠ [] → prj_errors (sourceStep opts p kv) ≠ [].
Proof.
  unfold sourceStep. destruct kv. intros Hp. repeat case_match; done || apply fails_errors.
Qed.

(** A source label that the projection accepts. *)
Definition source_ok (opts : NodeLabelsOptions) (key value : string) : Prop :=
  validateLabel key value (nonEmptyRequired key) = None
  ∧ (∀ v, identityValue opts key = Some v → value = v).

Lemma reserved_cases opts key :
  IsReservedLabel key = true ↔
  is_Some (identityValue opts key) ∨ key = LabelTopologyRegion ∨ key = LabelTopologyZone.
Proof.
  unfold IsReservedLabel, identityValue. rewrite bool_decide_eq_true, !elem_of_cons, elem_of_nil.
  repeat case_bool_decide; naive_solver.
Qed.

Lemma sourceStep_ok opts p key value :
  prj_errors (sourceStep opts p (key, value)) = [] →
  prj_errors p = [] ∧ source_ok opts key value
  ∧ prj_labels (sourceStep opts p (key, value))
    = (if IsReservedLabel key then prj_labels p else <[key := value]> (prj_labels p))
  ∧ prj_region (sourceStep opts p (key, value))
    = (if key == LabelTopologyRegion then Some value else prj_region p)
  ∧ prj_zone (sourceStep opts p (key, value))
    = (if key == LabelTopologyZone then Some value else prj_zone p).
Proof.
  intros He. assert (prj_errors p = []) as Hp.
  { destruct (decide (prj_errors p = [])) as [|Hn]; [done|]. by eapply sourceStep_errors in Hn. }
  split; [done|]. pose proof (reserved_cases opts key) as Hr.
  unfold sourceStep, source_ok in *. destruct (validateLabel _ _ _); [by apply fails_errors in He|].
  destruct (identityValue opts key) as [v|] eqn:Hi.
  - case_match eqn:Hv; [by apply fails_errors in He|].
    apply negb_false_iff, bool_decide_eq_true in Hv as ->.
    rewrite (proj2 Hr) by eauto. split_and!; [done|by intros ? [= ->]|done|..].
    + rewrite bool_decide_eq_false_2; [done|]. intros ->. by vm_compute in Hi.
    + rewrite bool_decide_eq_false_2; [done|]. intros ->. by vm_compute in Hi.
  - destruct (decide (key = LabelTopologyRegion)) as [->|Hreg].
    { by split_and!. }
    rewrite (bool_decide_eq_false_2 (key = LabelTopologyRegion)) in * by done.
    destruct (decide (key = LabelTopologyZone)) as [->|Hzone].
    { by split_and!. }
    rewrite (bool_decide_eq_false_2 (key = LabelTopologyZone)) in * by done.
    destruct (IsReservedLabel key); [|by split_and!].
    destruct (proj1 Hr eq_refl) as [[? ?]|[?|?]]; done.
Qed.

#[local] Arguments sourceStep : simpl never.

Lemma sourceLoop_ok opts entries p :
  NoDup entries.*1 → prj_errors (foldl (sourceStep opts) p entries) = [] →
  let p' := foldl (sourceStep opts) p entries in
  let m := list_to_map entries : gmap string string in
  prj_errors p = [] ∧ (∀ k v, (k, v) ∈ entries → source_ok opts k v)
  ∧ (∀ k, prj_labels p' !! k = if IsReservedLabel k then prj_labels p !! k
                               else m !! k ∪ prj_labels p !! k)
  ∧ prj_region p' = m !! LabelTopologyRegion ∪ prj_region p
  ∧ prj_zone p' = m !! LabelTopologyZone ∪ prj_zone p.
Proof.
  revert p. induction entries as [|[key value] entries IH]; intros p Hn He; simpl in *.
  { split_and!; [done|set_solver| |by rewrite lookup_empty, (left_id_L None _)..].
    intros k. rewrite lookup_empty, (left_id_L None _). by case_match. }
  apply NoDup_cons in Hn as [Hk Hn].
  destruct (IH _ Hn He) as (He' & Hok & Hl & Hr & Hz).
  destruct (sourceStep_ok _ _ _ _ He') as (Hp & Hs & Hl' & Hr' & Hz').
  assert (∀ k, k = key → (list_to_map entries : gmap string string) !! k = None) as Hfresh.
  { intros k ->. by apply not_elem_of_list_to_map. }
  split_and!; [done| | | |].
  - intros k v [[= -> ->]|?]%elem_of_cons; auto.
  - intros k. rewrite Hl, Hl'. destruct (decide (k = key)) as [->|Hne].
    + rewrite (Hfresh key eq_refl), lookup_insert_eq, (left_id_L None _).
      destruct (IsReservedLabel key); [done|]. rewrite lookup_insert_eq.
      by destruct (prj_labels p !! key).
    + rewrite lookup_insert_ne by done. destruct (IsReservedLabel k), (IsReservedLabel key);
        by rewrite ?lookup_insert_ne.
  - rewrite Hr, Hr'. destruct (decide (key = LabelTopologyRegion)) as [->|Hne].
    + rewrite (Hfresh _ eq_refl), bool_decide_eq_true_2, lookup_insert_eq, (left_id_L None _) by done.
      by destruct (prj_region p).
    + by rewrite bool_decide_eq_false_2, lookup_insert_ne.
  - rewrite Hz, Hz'. destruct (decide (key = LabelTopologyZone)) as [->|Hne].
    + rewrite (Hfresh _ eq_refl), bool_decide_eq_true_2, lookup_insert_eq, (left_id_L None _) by done.
      by destruct (prj_zone p).
    + by rewrite bool_decide_eq_false_2, lookup_insert_ne.
Qed.

Lemma sourceStep_accepts opts p key value :
  prj_errors p = [] → source_ok opts key value → prj_errors (sourceStep opts p (key, value)) = [].
Proof.
  intros Hp [Hv Hi]. unfold sourceStep. rewrite Hv.
  destruct (identityValue opts key) as [v|]; [|by repeat case_match].
  by rewrite (Hi v eq_refl), bool_decide_eq_true_2.
Qed.

Lemma sourceLoop_accepts opts entries p :
  prj_errors p = [] → (∀ k v, (k, v) ∈ entries → source_ok opts k v) →
  prj_errors (foldl (sourceStep opts) p entries) = [].
Proof.
  revert p. induction entries as [|[k v] entries IH]; intros p Hp Hok; simpl; [done|].
  apply IH; [apply sourceStep_accepts; [done|apply Hok; by left]|]. intros; apply Hok; by right.
Qed.

(** ** The projection *)

(** What is published under a key. *)
Definition published (opts : NodeLabelsOptions) (key : string) : option string :=
  match identityValue opts key with
  | Some v => Some v
  | None =>
      if (key == LabelTopologyRegion) && (nlo_Region opts != "") then Some (nlo_Region opts)
      else if (key == LabelTopologyZone) && (nlo_Zone opts != "") then Some (nlo_Zone opts)
      else nlo_SourceLabels opts !! key
  end.

(** The declared value of a topology key, if there is one, is valid and the source
    agrees with it. *)
Definition declared_ok (opts : NodeLabelsOptions) (key declared : string) : Prop :=
  declared ≠ "" → validateLabel key declared true = None
    ∧ ∀ v, nlo_SourceLabels opts !! key = Some v → v = declared.

Record managed_ok (opts : NodeLabelsOptions) : Prop := {
  mo_mode : nlo_Mode opts = ProjectionModeManaged;
  mo_identity k v : (k, v) ∈ identityLabels opts → validateLabel k v true = None;
  mo_source k v : nlo_SourceLabels opts !! k = Some v → source_ok opts k v;
  mo_region : declared_ok opts LabelTopologyRegion (nlo_Region opts);
  mo_zone : declared_ok opts LabelTopologyZone (nlo_Zone opts);
}.

Lemma identityLoop_errors opts p :
  prj_errors (foldl identityStep p (identityLabels opts)) = [] ↔
  prj_errors p = [] ∧ ∀ k v, (k, v) ∈ identityLabels opts → validateLabel k v true = None.
Proof.
  generalize (identityLabels opts). intros l. revert p.
  induction l as [|[k v] l IH]; intros p; simpl; [split; [intros ->; set_solver|tauto]|].
  rewrite IH. unfold identityStep. simpl. destruct (validateLabel k v true) as [e|] eqn:Hv.
  - split; [intros [He _]; by apply fails_errors in He|].
    intros [_ Hall]. specialize (Hall k v ltac:(by left)). congruence.
  - simpl. split; intros [Hp Hall]; (split; [done|]); intros k' v'; [|intros ?; apply Hall; by right].
    intros [[= -> ->]|?]%elem_of_cons; auto.
Qed.

Lemma identityLoop_labels opts p :
  (∀ k v, (k, v) ∈ identityLabels opts → validateLabel k v true = None) →
  let p' := foldl identityStep p (identityLabels opts) in
  (∀ k, prj_labels p' !! k = identityValue opts k ∪ prj_labels p !! k)
  ∧ prj_region p' = prj_region p ∧ prj_zone p' = prj_zone p.
Proof.
  intros Hall. unfold identityLabels in *. simpl. unfold identityStep. simpl.
  rewrite !Hall by set_solver. simpl. split; [|done]. intros k. unfold identityValue.
  rewrite !lookup_insert. repeat case_bool_decide; repeat case_decide; subst; try done;
    congruence || (by destruct (prj_labels p !! _)).
Qed.

Lemma topologyStep_ok key declared sourced legacy p :
  let resolved := resolveTopologyValue key declared sourced legacy ProjectionModeManaged in
  (∀ v, sourced = Some v → v ≠ "") →
  (prj_errors (topologyStep key resolved p) = [] ↔
   prj_errors p = [] ∧
   (declared ≠ "" → validateLabel key declared true = None ∧ ∀ v, sourced = Some v → v = declared))
  ∧ (prj_errors (topologyStep key resolved p) = [] →
     ∀ k, prj_labels (topologyStep key resolved p) !! k =
       if k == key then (if declared != "" then Some declared else sourced) ∪ prj_labels p !! k
       else prj_labels p !! k)
  ∧ prj_zone (topologyStep key resolved p) = prj_zone p.
Proof.
  intros resolved Hne. unfold resolved, resolveTopologyValue, topologyStep.
  assert (∀ v k, prj_labels (publishes p key v) !! k =
            if k == key then Some v ∪ prj_labels p !! k else prj_labels p !! k) as Hpub.
  { intros v k. simpl. case_bool_decide as Hk; [subst; rewrite lookup_insert_eq|by rewrite lookup_insert_ne].
    by destruct (prj_labels p !! key). }
  destruct (decide (declared = "")) as [->|Hd].
  - rewrite bool_decide_eq_true_2 by done. cbn [negb].
    destruct sourced as [v|].
    + rewrite (bool_decide_eq_false_2 (v = "")) by (by apply Hne). cbn [negb].
      split_and!; [|intros _; apply Hpub|done]. simpl. split; [by intros ->|tauto].
    + rewrite (bool_decide_eq_false_2 (ProjectionModeManaged = _)) by done. cbn [negb orb].
      rewrite bool_decide_eq_true_2 by done. cbn [negb].
      split_and!; [split; [by intros ->|tauto]| |done].
      intros _ k. rewrite (left_id_L None _). by case_match.
  - rewrite (bool_decide_eq_false_2 (declared = "")) by done. cbn [negb].
    destruct (validateLabel key declared true) as [e|] eqn:Hv.
    { split_and!; [split; [intros He; by apply fails_errors in He|]|intros He; by apply fails_errors in He|done].
      intros [_ Hall]. by destruct (Hall Hd). }
    assert (prj_errors (publishes p key declared) = [] → ∀ k,
      prj_labels (publishes p key declared) !! k =
      if k == key then Some declared ∪ prj_labels p !! k else prj_labels p !! k) as Hp'
      by (intros _; apply Hpub).
    destruct sourced as [v|].
    + destruct (decide (v = declared)) as [->|Hne'].
      * rewrite (bool_decide_eq_true_2 (declared = declared)) by done. cbn [negb].
        rewrite bool_decide_eq_false_2 by done. cbn [negb]. split_and!; [|done|done].
        simpl. split; [|tauto]. intros ->. split_and!; [done..|]. intros _. split; [done|].
        by intros ? [= ->].
      * rewrite (bool_decide_eq_false_2 (v = declared)) by done. cbn [negb].
        split_and!; [split; [intros He; by apply fails_errors in He|]|intros He; by apply fails_errors in He|done].
        intros [_ Hall]. destruct (Hall Hd) as [_ Heq]. by destruct Hne'; apply Heq.
    + rewrite bool_decide_eq_false_2 by done. cbn [negb]. split_and!; [|done|done].
      simpl. split; [|tauto]. by intros ->.
Qed.
End labels.

Section projection.
Context `{KV : K8sValidation}.

Lemma source_topology_nonempty opts k v :
  k = LabelTopologyRegion ∨ k = LabelTopologyZone →
  source_ok opts k v → v ≠ "".
Proof.
  intros Hk [Hv _] ->. unfold validateLabel, nonEmptyRequired in Hv.
  destruct Hk as [->| ->]; by destruct (IsQualifiedName _).
Qed.

Lemma sorted_entries_map (m : gmap string string) : list_to_map (sorted_entries m) = m.
Proof.
  rewrite <- (list_to_map_to_list m) at 2. apply list_to_map_proper; [|apply sorted_entries_perm].
  rewrite sorted_entries_perm. apply NoDup_fst_map_to_list.
Qed.

(** The projection before the topology keys are resolved. *)
Definition afterSources (opts : NodeLabelsOptions) : projection :=
  foldl (sourceStep opts)
    (foldl identityStep {| prj_labels := ∅; prj_region := None; prj_zone := None; prj_errors := [] |}
       (identityLabels opts)) (sorted_entries (nlo_SourceLabels opts)).

Definition inputs_ok (opts : NodeLabelsOptions) : Prop :=
  (∀ k v, (k, v) ∈ identityLabels opts → validateLabel k v true = None)
  ∧ (∀ k v, nlo_SourceLabels opts !! k = Some v → source_ok opts k v).

Lemma afterSources_labels opts :
  prj_errors (afterSources opts) = [] →
  inputs_ok opts
  ∧ (∀ k, prj_labels (afterSources opts) !! k = identityValue opts k
       ∪ (if IsReservedLabel k then None else nlo_SourceLabels opts !! k))
  ∧ prj_region (afterSources opts) = nlo_SourceLabels opts !! LabelTopologyRegion
  ∧ prj_zone (afterSources opts) = nlo_SourceLabels opts !! LabelTopologyZone.
Proof.
  unfold afterSources. set (p0 := Build_projection _ _ _ _).
  assert (NoDup (sorted_entries (nlo_SourceLabels opts)).*1) as Hnd.
  { rewrite sorted_entries_perm. apply NoDup_fst_map_to_list. }
  intros He. destruct (sourceLoop_ok opts _ _ Hnd He) as (He1 & Hok & Hl & Hr & Hz).
  rewrite sorted_entries_map in Hl, Hr, Hz. rewrite Hr, Hz.
  apply identityLoop_errors in He1 as [_ Hid].
  destruct (identityLoop_labels opts p0 Hid) as (Hl1 & -> & ->). split_and!.
  - split; [done|]. intros k v Hk. apply Hok. by apply sorted_entries_elem.
  - intros k. rewrite Hl, Hl1. simpl. rewrite lookup_empty, (right_id_L None _).
    destruct (IsReservedLabel k) eqn:Hres; [by rewrite (right_id_L None _)|].
    destruct (identityValue opts k) eqn:Hi; [|by rewrite (right_id_L None _), (left_id_L None _)].
    rewrite (proj2 (reserved_cases opts k)) in Hres by eauto. done.
  - by rewrite (right_id_L None _).
  - by rewrite (right_id_L None _).
Qed.

Lemma afterSources_errors opts : prj_errors (afterSources opts) = [] ↔ inputs_ok opts.
Proof.
  split; [intros He; by destruct (afterSources_labels opts He)|]. intros [Hid Hs].
  apply sourceLoop_accepts; [by apply identityLoop_errors|].
  intros k v Hk%sorted_entries_elem. auto.
Qed.

Lemma topologyStep_errors key resolved p :
  prj_errors (topologyStep key resolved p) = [] → prj_errors p = [].
Proof.
  unfold topologyStep. repeat case_match; try done. intros He. by apply fails_errors in He.
Qed.

Lemma managedProjection_spec opts :
  nlo_Mode opts = ProjectionModeManaged →
  (prj_errors (managedProjection opts) = [] ↔ managed_ok opts)
  ∧ (prj_errors (managedProjection opts) = [] →
     ∀ k, prj_labels (managedProjection opts) !! k = published opts k).
Proof.
  intros Hmode. unfold managedProjection. rewrite Hmode.
  rewrite (bool_decide_eq_true_2 (ProjectionModeManaged = ProjectionModeManaged)) by done. cbn [negb].
  fold (afterSources opts). pose proof (afterSources_errors opts) as E2.
  destruct (decide (prj_errors (afterSources opts) = [])) as [He2|He2].
  2: { assert (∀ r z, prj_errors (topologyStep LabelTopologyZone z
                  (topologyStep LabelTopologyRegion r (afterSources opts))) ≠ []) as Hn.
       { intros r z He. by apply topologyStep_errors, topologyStep_errors in He. }
       split; [split; [intros He; by apply Hn in He|]|intros He; by apply Hn in He].
       intros []. destruct He2. by apply E2. }
  destruct (afterSources_labels opts He2) as ([Hid Hs] & Hl2 & Hr2 & Hz2).
  assert (∀ k v, k = LabelTopologyRegion ∨ k = LabelTopologyZone →
            nlo_SourceLabels opts !! k = Some v → v ≠ "") as Hne.
  { intros k v Hk Hv. eapply source_topology_nonempty; eauto. }
  destruct (topologyStep_ok LabelTopologyRegion (nlo_Region opts) (prj_region (afterSources opts))
              (nlo_LegacyPlatformTopology opts) (afterSources opts)) as (Er & Lr & Zr).
  { intros v Hv. apply (Hne LabelTopologyRegion); [by left|]. by rewrite <- Hr2. }
  set (p3 := topologyStep LabelTopologyRegion _ _) in *.
  destruct (topologyStep_ok LabelTopologyZone (nlo_Zone opts) (prj_zone p3)
              (nlo_LegacyPlatformTopology opts) p3) as (Ez & Lz & _).
  { intros v Hv. apply (Hne LabelTopologyZone); [by right|]. by rewrite <- Hz2, <- Zr. }
  rewrite Zr, Hz2 in *. rewrite Hr2 in *. split.
  - rewrite Ez, Er, E2. split; [intros [[_ ?] ?]; by split|].
    intros []. by split.
  - intros He k. rewrite (Lz He). apply Ez in He as [He3 _]. rewrite (Lr He3), Hl2. clear -Hs.
    unfold published. pose proof (reserved_cases opts k) as Hres.
    destruct (decide (k = LabelTopologyRegion)) as [->|Hkr].
    { rewrite (bool_decide_eq_false_2 (LabelTopologyRegion = LabelTopologyZone)) by done. simpl.
      rewrite (right_id_L None _). by case_match. }
    destruct (decide (k = LabelTopologyZone)) as [->|Hkz].
    { simpl. rewrite (right_id_L None _). by case_match. }
    rewrite !bool_decide_eq_false_2 by done. simpl.
    destruct (IsReservedLabel k) eqn:Hk.
    + by destruct (proj1 Hres eq_refl) as [[v ->]|[?|?]].
    + by destruct (identityValue opts k), (nlo_SourceLabels opts !! k).
Qed.
End projection.

(** ** Properties *)

(** C33: in managed mode [NodeLabels] reports no error exactly when every label is
    valid, the source agrees with the Node's identity and with the declared region and
    zone; then it publishes the identity labels, the declared topology or else the
    source's, and every other source label, and nothing else.  In particular every
    source label is published with the value it has: no label is replaced silently. *)
Theorem NodeLabels_managed `{KV : K8sValidation} opts :
  nlo_Mode opts = ProjectionModeManaged →
  ((NodeLabels opts).2 = [] ↔ managed_ok opts)
  ∧ ((NodeLabels opts).2 = [] →
     (∀ k, (NodeLabels opts).1 !! k = published opts k)
     ∧ nlo_SourceLabels opts ⊆ (NodeLabels opts).1).
Proof.
  intros Hmode. destruct (managedProjection_spec opts Hmode) as [He Hl].
  unfold NodeLabels. rewrite Hmode, bool_decide_eq_false_2 by done. simpl.
  split; [done|]. intros Hn. split; [by apply Hl|].
  apply map_subseteq_spec. intros k v Hk. rewrite (Hl Hn).
  destruct (proj1 He Hn) as [_ _ Hsrc Hr Hz]. destruct (Hsrc k v Hk) as [_ Hid].
  unfold published. destruct (identityValue opts k) as [v'|]; [by rewrite (Hid v' eq_refl)|].
  case_match eqn:H1; [|case_match eqn:H2; [|done]].
  - rewrite andb_true_iff, negb_true_iff, bool_decide_eq_true, bool_decide_eq_false in H1.
    destruct H1 as [-> Hd]. destruct (Hr Hd) as [_ Heq]. by rewrite (Heq v Hk).
  - rewrite andb_true_iff, negb_true_iff, bool_decide_eq_true, bool_decide_eq_false in H2.
    destruct H2 as [-> Hd]. destruct (Hz Hd) as [_ Heq]. by rewrite (Heq v Hk).
Qed.

Definition exNodeOptions : NodeLabelsOptions :=
  {| nlo_Mode := ProjectionModeManaged; nlo_NodeName := "switch-1"; nlo_Platform := "iosxe";
     nlo_Region := "eu"; nlo_Zone := ""; nlo_LegacyPlatformTopology := "iosxe";
     nlo_SourceLabels := {[ "topology.cisco.vk/site" := "s1"; LabelTopologyRegion := "eu" ]} |}.

Lemma NodeLabels_managed_witness :
  nlo_SourceLabels exNodeOptions ⊆ (NodeLabels (KV := k8s_reference) exNodeOptions).1.
Proof.
  apply (NodeLabels_managed (KV := k8s_reference) exNodeOptions); [reflexivity|].
  vm_compute. reflexivity.
Defined.
