(* ===== verification/Health.v ===== *)
(** * The network health gate

    src/internal/topologyhealth/gate.go: [Evaluate] decides whether one authenticated
    observation of a device's network allows disruptive work, and [hash] identifies
    the observation.  float64 values are [spec_float], IEEE 754 with its NaN. *)

From Stdlib Require Import SpecFloat.
From S2P Require Import Prelude GoLib GoTime Json Interfaces LedgerData AdminPolicyHash.

Record InterfaceObservation := {
  ifo_Name : string;
  ifo_OperUp : bool;
  ifo_HeadroomPct : option spec_float;
}.

Record NeighborObservation := {
  nbo_Identity : string;
  nbo_ID : string;
  nbo_Interface : string;
  nbo_RoutingDomain : string;
  nbo_State : string;
  nbo_Source : string;
}.

Record Observation := {
  obs_CollectionStartedAt : Time;
  obs_CollectionEndedAt : Time;
  obs_SampleSequence : Z;
  obs_WorkerPodUID : string;
  obs_ObservedAt : Time;
  obs_Complete : bool;
  obs_UnknownReason : string;
  obs_Interfaces : list InterfaceObservation;
  obs_Neighbors : list NeighborObservation;
  obs_ProducerRevision : string;
  obs_DeviceIdentityHash : string;
}.

Record HealthPolicy := {
  hp_ExpectedProducerRevision : string;
  hp_ExpectedWorkerPodUID : string;
  hp_RequireSampleProvenance : bool;
  hp_MaxCollectionDuration : Duration;
  hp_MaxAge : Duration;
  hp_RequiredInterfaces : list string;
  hp_RequiredNeighbors : list string;
  hp_RequireInterfacesUp : bool;
  hp_RequireNeighborsFull : bool;
  hp_MinimumHeadroomPercent : option spec_float;
  hp_RequireCompleteEvidence : bool;
  hp_ExpectedDeviceIdentityHash : string;
}.

Record HealthDecision := {
  dec_Allowed : bool;
  dec_Reason : string;
  dec_Message : string;
  dec_ObservedAt : Time;
  dec_EvidenceHash : string;
}.

(** [t.Sub(u)] saturates at the limits of an int64. *)
Definition time_Sub (t u : Time) : Duration := Z.max (- 2 ^ 63) (Z.min maxInt64 (t - u)).

Definition clockSkew : Duration := 30 * 1000000000.

(** [strings.EqualFold(s, "full")]: no other rune folds to one of its letters. *)
Definition EqualFold_full (s : string) : bool := ToLower s == "full".

Definition sortedUnique (values : list string) : list string :=
  sort_Strings (elements (list_to_set (filter (λ v, v ≠ "") (map TrimSpace values)) : gset string)).

(** A blocked decision: its reason and message, values left out of the text. *)
Definition block : Type := string * string.

(** ** The gate *)

Definition checkBinding (now : Time) (o : Observation) (p : HealthPolicy) : option block :=
  return_if (now == 0) (Some ("InvalidEvaluationTime", "evaluation time is required")) ;;
  return_if (obs_ObservedAt o == 0)
    (Some ("EvidenceMissing", "network observation time is missing")) ;;
  return_if (obs_DeviceIdentityHash o == "")
    (Some ("DeviceIdentityMissing", "network observation has no device identity binding")) ;;
  return_if ((hp_ExpectedProducerRevision p != "")
             && (obs_ProducerRevision o != hp_ExpectedProducerRevision p))
    (Some ("ProducerRevisionMismatch",
           "network observation was published by an unexpected worker revision")) ;;
  return_if ((hp_ExpectedWorkerPodUID p != "") && (obs_WorkerPodUID o != hp_ExpectedWorkerPodUID p))
    (Some ("WorkerPodMismatch", "network observation was published by an unexpected worker Pod")) ;;
  None.

Definition checkProvenance (now : Time) (o : Observation) (p : HealthPolicy) : option block :=
  return_if ((obs_SampleSequence o == 0) || (obs_CollectionStartedAt o == 0)
             || (obs_CollectionEndedAt o == 0))
    (Some ("EvidenceProvenanceMissing", "network observation is missing collection provenance")) ;;
  return_if ((obs_CollectionEndedAt o <? obs_CollectionStartedAt o)
             || (now + clockSkew <? obs_CollectionEndedAt o))
    (Some ("EvidenceProvenanceInvalid", "network observation collection interval is invalid")) ;;
  return_if ((obs_ObservedAt o <? obs_CollectionStartedAt o)
             || (obs_CollectionEndedAt o <? obs_ObservedAt o))
    (Some ("EvidenceProvenanceInvalid",
           "network observation time is outside its collection interval")) ;;
  return_if ((0 <? hp_MaxCollectionDuration p)
             && (hp_MaxCollectionDuration p
                 <? time_Sub (obs_CollectionEndedAt o) (obs_CollectionStartedAt o)))
    (Some ("EvidenceCollectionSlow",
           "network observation collection exceeded the configured duration")) ;;
  None.

(** When the evidence starts to age. *)
Definition freshnessTime (o : Observation) (p : HealthPolicy) : Time :=
  if hp_RequireSampleProvenance p && (obs_CollectionStartedAt o <? obs_ObservedAt o)
  then obs_CollectionStartedAt o else obs_ObservedAt o.

Definition checkFreshness (now : Time) (o : Observation) (p : HealthPolicy) : option block :=
  return_if ((hp_ExpectedDeviceIdentityHash p != "")
             && (obs_DeviceIdentityHash o != hp_ExpectedDeviceIdentityHash p))
    (Some ("DeviceIdentityMismatch",
           "network observation is bound to a different physical device")) ;;
  return_if (now + clockSkew <? obs_ObservedAt o)
    (Some ("EvidenceClockSkew", "network observation is in the future")) ;;
  return_if ((0 <? hp_MaxAge p) && (hp_MaxAge p <? time_Sub now (freshnessTime o p)))
    (Some ("EvidenceStale",
           "network observation is older than the configured freshness bound")) ;;
  return_if (match hp_MinimumHeadroomPercent p with Some _ => true | None => false end
             && (llen (sortedUnique (hp_RequiredInterfaces p)) == 0))
    (Some ("HeadroomScopeMissing",
           "minimum headroom requires at least one non-blank required interface")) ;;
  return_if (hp_RequireCompleteEvidence p && negb (obs_Complete o))
    (Some ("EvidenceIncomplete",
           if TrimSpace (obs_UnknownReason o) == ""
           then "network observation did not prove complete source coverage"
           else TrimSpace (obs_UnknownReason o))) ;;
  None.

(** The map of the observed interfaces, by trimmed name. *)
Fixpoint collectInterfaces (seen : gmap string InterfaceObservation)
    (items : list InterfaceObservation) : gmap string InterfaceObservation + block :=
  match items with
  | [] => inl seen
  | item :: items =>
      let name := TrimSpace (ifo_Name item) in
      return_if (name == "")
        (inr ("EvidenceInvalid", "network observation contains an unnamed interface")) ;;
      match seen !! name with
      | Some _ => inr ("EvidenceAmbiguous", "interface appears more than once")
      | None => collectInterfaces (<[name := item]> seen) items
      end
  end.

Definition checkInterface (p : HealthPolicy) (interfaces : gmap string InterfaceObservation)
    (name : string) : option block :=
  match interfaces !! name with
  | None => Some ("InterfaceEvidenceMissing", "required interface is absent")
  | Some item =>
      return_if (hp_RequireInterfacesUp p && negb (ifo_OperUp item))
        (Some ("InterfaceDown", "required interface is not operationally up")) ;;
      match hp_MinimumHeadroomPercent p with
      | None => None
      | Some minimum =>
          match ifo_HeadroomPct item with
          | None => Some ("HeadroomUnknown", "headroom for required interface is unknown")
          | Some headroom =>
              return_if (SFltb headroom minimum)
                (Some ("TransferHeadroomInsufficient", "interface has too little headroom")) ;;
              None
          end
      end
  end.

(** The first block of a loop. *)
Fixpoint first_block {A} (f : A → option block) (l : list A) : option block :=
  match l with
  | [] => None
  | x :: l => propagate (f x) ;; first_block f l
  end.

(** The adjacency key: the identity, or the peer's name when there is none. *)
Definition neighborIdentity (n : NeighborObservation) : string :=
  if TrimSpace (nbo_Identity n) == "" then TrimSpace (nbo_ID n) else TrimSpace (nbo_Identity n).

(** The neighbors by identity, and the identities by peer name. *)
Fixpoint collectNeighbors (neighbors : gmap string NeighborObservation)
    (neighborIDs : gmap string (list string)) (items : list NeighborObservation)
  : (gmap string NeighborObservation * gmap string (list string)) + block :=
  match items with
  | [] => inl (neighbors, neighborIDs)
  | item :: items =>
      let id := TrimSpace (nbo_ID item) in
      return_if (id == "")
        (inr ("EvidenceInvalid", "network observation contains an unnamed neighbor")) ;;
      let identity := neighborIdentity item in
      match neighbors !! identity with
      | Some _ => inr ("EvidenceAmbiguous", "neighbor identity appears more than once")
      | None =>
          collectNeighbors (<[identity := item]> neighbors)
            (<[id := default [] (neighborIDs !! id) ++ [identity]]> neighborIDs) items
      end
  end.

(** [neighbors[identities[0]]] of an absent key is the zero value. *)
Definition zeroNeighbor : NeighborObservation :=
  {| nbo_Identity := ""; nbo_ID := ""; nbo_Interface := ""; nbo_RoutingDomain := "";
     nbo_State := ""; nbo_Source := "" |}.

Definition checkNeighbor (p : HealthPolicy) (neighbors : gmap string NeighborObservation)
    (neighborIDs : gmap string (list string)) (id : string) : option block :=
  match default [] (neighborIDs !! id) with
  | [] => Some ("AlternatePathUnavailable", "required neighbor is absent")
  | [identity] =>
      let item := default zeroNeighbor (neighbors !! identity) in
      return_if (hp_RequireNeighborsFull p && negb (EqualFold_full (TrimSpace (nbo_State item))))
        (Some ("NeighborUnhealthy", "required neighbor is not in the full state")) ;;
      None
  | _ => Some ("EvidenceAmbiguous", "required neighbor has several distinct adjacencies")
  end.

Definition checkEvidence (o : Observation) (p : HealthPolicy) : option block :=
  match collectInterfaces ∅ (obs_Interfaces o) with
  | inr b => Some b
  | inl interfaces =>
      propagate (first_block (checkInterface p interfaces) (sortedUnique (hp_RequiredInterfaces p))) ;;
      match collectNeighbors ∅ ∅ (obs_Neighbors o) with
      | inr b => Some b
      | inl (neighbors, neighborIDs) =>
          first_block (checkNeighbor p neighbors neighborIDs) (sortedUnique (hp_RequiredNeighbors p))
      end
  end.

(** The early returns of [Evaluate], in order. *)
Definition gate (now : Time) (o : Observation) (p : HealthPolicy) : option block :=
  propagate (checkBinding now o p) ;;
  propagate (if hp_RequireSampleProvenance p then checkProvenance now o p else None) ;;
  propagate (checkFreshness now o p) ;;
  checkEvidence o p.

(** ** The decision *)

(** The text of a float64 in JSON, or [None] when it has none (NaN, infinities);
    nothing below depends on the digits. *)
Class FloatText := { formatFloat64 : spec_float → option (list Ascii.ascii) }.

Section decision.
Context `{FloatText, HashLib}.

(** [Time.MarshalJSON] in UTC fails outside the years 0 to 9999; year 0 has 366
    days. *)
Definition jtime (t : Time) : option json :=
  if (- 366 * nsPerDay <=? t) && (t <? endOfYear9999) then Some (JStr (FormatRFC3339Nano t)) else None.

Definition interface_json (i : InterfaceObservation) : option json :=
  headroom ← match ifo_HeadroomPct i with
             | None => Some JNull
             | Some f => JNum <$> formatFloat64 f
             end;
  Some (JObj [("Name", JStr (ifo_Name i)); ("OperUp", JBool (ifo_OperUp i));
              ("HeadroomPct", headroom)]).

Definition neighbor_json (n : NeighborObservation) : json :=
  JObj [("Identity", JStr (nbo_Identity n)); ("ID", JStr (nbo_ID n));
        ("Interface", JStr (nbo_Interface n)); ("RoutingDomain", JStr (nbo_RoutingDomain n));
        ("State", JStr (nbo_State n)); ("Source", JStr (nbo_Source n))].

(** A nil slice is [null]: the copies are nil when the slices are empty. *)
Definition jarray (l : list json) : json := match l with [] => JNull | _ => JArr l end.

(** The key by which [hash] sorts the neighbors: not trimmed. *)
Definition neighborSortKey (n : NeighborObservation) : string :=
  if nbo_Identity n == "" then nbo_ID n else nbo_Identity n.

Definition observation_json (o : Observation) : option json :=
  started ← jtime (obs_CollectionStartedAt o);
  ended ← jtime (obs_CollectionEndedAt o);
  observed ← jtime (obs_ObservedAt o);
  interfaces ← mapM interface_json (sort_Slice ifo_Name (obs_Interfaces o));
  Some (JObj ([("collectionStartedAt", started); ("collectionEndedAt", ended)]
              ++ (if obs_SampleSequence o == 0 then []
                  else [("sampleSequence", jint (obs_SampleSequence o))])
              ++ omitempty "workerPodUID" (obs_WorkerPodUID o)
              ++ [("observedAt", observed); ("complete", JBool (obs_Complete o))]
              ++ omitempty "unknownReason" (obs_UnknownReason o)
              ++ [("interfaces", jarray interfaces);
                  ("neighbors",
                     jarray (map neighbor_json (sort_Slice neighborSortKey (obs_Neighbors o))))]
              ++ omitempty "producerRevision" (obs_ProducerRevision o)
              ++ omitempty "deviceIdentityHash" (obs_DeviceIdentityHash o))).

(** The error of [json.Marshal] is dropped: nothing is hashed then. *)
Definition hash (o : Observation) : string :=
  "sha256:" +:+ hex_EncodeToString
    (Sum256 (match observation_json o with Some j => Marshal j | None => "" end)).

Definition Evaluate (now : Time) (o : Observation) (p : HealthPolicy) : HealthDecision :=
  match gate now o p with
  | Some (reason, message) =>
      {| dec_Allowed := false; dec_Reason := reason; dec_Message := message;
         dec_ObservedAt := obs_ObservedAt o; dec_EvidenceHash := hash o |}
  | None =>
      {| dec_Allowed := true; dec_Reason := "NetworkHealthReady";
         dec_Message := "network health gates passed"; dec_ObservedAt := obs_ObservedAt o;
         dec_EvidenceHash := hash o |}
  end.
End decision.
