(* ===== verification/HealthTheorems.v ===== *)
(** * The network health gate: when it opens

    src/internal/topologyhealth/gate.go: [Evaluate] allows disruptive work exactly on
    evidence that is bound, fresh, complete and unambiguous. *)

From Stdlib Require Import SpecFloat.
From S2P Require Import Prelude GoLib GoTime Json Interfaces LedgerData AdminPolicyHash Health.

Lemma block_if_None (c : bool) (b : block) k :
  (if c then Some b else k) = None ↔ c = false ∧ k = None.
Proof. destruct c; naive_solver. Qed.

Lemma block_propagate_None (v k : option block) :
  (match v with Some b => Some b | None => k end) = None ↔ v = None ∧ k = None.
Proof. destruct v; naive_solver. Qed.

Lemma first_block_None {A} (f : A → option block) l :
  first_block f l = None ↔ ∀ x, x ∈ l → f x = None.
Proof.
  induction l as [|x l IH]; simpl; [set_solver|]. rewrite block_propagate_None, IH. set_solver.
Qed.

Lemma sortedUnique_elem x values :
  x ∈ sortedUnique values ↔ x ≠ "" ∧ ∃ v, v ∈ values ∧ TrimSpace v = x.
Proof.
  unfold sortedUnique. rewrite sort_Strings_elem, elem_of_elements, elem_of_list_to_set.
  rewrite list_elem_of_filter, list_elem_of_fmap. naive_solver.
Qed.

Lemma sortedUnique_empty values :
  llen (sortedUnique values) = 0 ↔ ∀ v, v ∈ values → TrimSpace v = "".
Proof.
  assert (llen (sortedUnique values) = 0 ↔ ∀ x, x ∉ sortedUnique values) as ->.
  { unfold llen. destruct (sortedUnique values); simpl; set_solver by lia. }
  setoid_rewrite sortedUnique_elem. split.
  - intros Hn v Hv. destruct (decide (TrimSpace v = "")); [done|]. exfalso. by eapply Hn; eauto.
  - intros Hn x (Hx & v & Hv & <-). by destruct Hx; apply Hn.
Qed.

(** ** The collected evidence *)

Definition ifo_key (i : InterfaceObservation) : string := TrimSpace (ifo_Name i).

(** One step of collecting distinct keys into a map. *)
Lemma collect_union {A} (key : A → string) (x : A) (items : list A) (seen : gmap string A) :
  key x ∉ map key items →
  (list_to_map (map (λ i, (key i, i)) items) ∪ <[key x := x]> seen)
  = <[key x := x]> (list_to_map (map (λ i, (key i, i)) items)) ∪ seen.
Proof.
  intros Hk. rewrite <- insert_union_r, <- insert_union_l; [done|].
  apply not_elem_of_list_to_map_1. by rewrite <- list_fmap_compose.
Qed.

Lemma collect_fresh {A} (key : A → string) (x : A) (items : list A) (seen : gmap string A) :
  seen !! key x = None →
  (∀ i, i ∈ items → (<[key x := x]> seen) !! key i = None) ↔
  (key x ∉ map key items) ∧ (∀ i, i ∈ items → seen !! key i = None).
Proof.
  intros Hx. setoid_rewrite lookup_insert_None. split.
  - intros Hall. split; [|naive_solver]. intros (i & He & Hi)%list_elem_of_fmap.
    by destruct (Hall i Hi).
  - intros [Hk Hall] i Hi. split; [auto|]. intros He. apply Hk, list_elem_of_fmap. eauto.
Qed.

Lemma collectInterfaces_spec seen items m :
  collectInterfaces seen items = inl m ↔
  (∀ i, i ∈ items → ifo_key i ≠ "") ∧ (∀ i, i ∈ items → seen !! ifo_key i = None)
  ∧ NoDup (map ifo_key items) ∧ m = list_to_map (map (λ i, (ifo_key i, i)) items) ∪ seen.
Proof.
  revert seen. induction items as [|i items IH]; intros seen; simpl.
  { rewrite (left_id_L ∅ _). split; [|by intros (_ & _ & _ & ->)].
    intros [= ->]. split_and!; [set_solver|set_solver|constructor|done]. }
  fold (ifo_key i). rewrite NoDup_cons. case_bool_decide as Hn.
  { split; [done|]. intros (Hall & _). by destruct (Hall i ltac:(by left)). }
  destruct (seen !! ifo_key i) as [j|] eqn:Hs.
  { split; [done|]. intros (_ & Hall & _). specialize (Hall i ltac:(by left)). congruence. }
  rewrite IH, (collect_fresh ifo_key i items seen Hs). split.
  - intros (He & (Hk & Hall) & Hnd & ->). rewrite (collect_union ifo_key) by done.
    split_and!; [|..|done|done|done]; intros i' [->|?]%elem_of_cons; auto.
  - intros (He & Hall & (Hk & Hnd) & ->). rewrite (collect_union ifo_key) by done.
    split_and!; try done; intros i' ?; [apply He|apply Hall]; by right.
Qed.

(** The identities of the peers seen so far. *)
Definition recordID (ids : gmap string (list string)) (n : NeighborObservation)
  : gmap string (list string) :=
  let id := TrimSpace (nbo_ID n) in
  <[id := default [] (ids !! id) ++ [neighborIdentity n]]> ids.

Definition nbo_key (n : NeighborObservation) : string := TrimSpace (nbo_ID n).

Lemma collectNeighbors_spec seen ids items r :
  collectNeighbors seen ids items = inl r ↔
  (∀ n, n ∈ items → nbo_key n ≠ "") ∧ (∀ n, n ∈ items → seen !! neighborIdentity n = None)
  ∧ NoDup (map neighborIdentity items)
  ∧ r.1 = list_to_map (map (λ n, (neighborIdentity n, n)) items) ∪ seen
  ∧ r.2 = foldl recordID ids items.
Proof.
  revert seen ids. induction items as [|n items IH]; intros seen ids; simpl.
  { rewrite (left_id_L ∅ _). destruct r as [m i]. simpl.
    split; [|by intros (_ & _ & _ & -> & ->)].
    intros [= -> ->]. split_and!; [set_solver|set_solver|constructor|done|done]. }
  fold (nbo_key n). rewrite NoDup_cons. case_bool_decide as Hn.
  { split; [done|]. intros (Hall & _). by destruct (Hall n ltac:(by left)). }
  destruct (seen !! neighborIdentity n) as [j|] eqn:Hs.
  { split; [done|]. intros (_ & Hall & _). specialize (Hall n ltac:(by left)). congruence. }
  rewrite IH, (collect_fresh neighborIdentity n items seen Hs). split.
  - intros (He & (Hk & Hall) & Hnd & -> & ->). rewrite (collect_union neighborIdentity) by done.
    split_and!; [|..|done|done|done|done]; intros i' [->|?]%elem_of_cons; auto.
  - intros (He & Hall & (Hk & Hnd) & -> & ->). rewrite (collect_union neighborIdentity) by done.
    split_and!; try done; intros i' ?; [apply He|apply Hall]; by right.
Qed.

(** The adjacencies of one peer. *)
Lemma neighborIDs_spec ids items id :
  default [] (foldl recordID ids items !! id)
  = default [] (ids !! id) ++ map neighborIdentity (filter (λ n, nbo_key n = id) items).
Proof.
  revert ids. induction items as [|n items IH]; intros ids; simpl; [by rewrite app_nil_r|].
  rewrite IH, filter_cons. unfold recordID, nbo_key. case_decide as Hid.
  - subst. rewrite lookup_insert_eq. simpl. by rewrite <- app_assoc.
  - by rewrite lookup_insert_ne.
Qed.

Lemma keyed_lookup {A} (key : A → string) (items : list A) k x :
  NoDup (map key items) →
  (list_to_map (map (λ i, (key i, i)) items) : gmap string A) !! k = Some x ↔
  x ∈ items ∧ key x = k.
Proof.
  intros Hnd. rewrite <- elem_of_list_to_map.
  - rewrite list_elem_of_fmap. naive_solver.
  - by rewrite <- list_fmap_compose.
Qed.

(** ** The open gate *)

(** An expected value is met. *)
Definition meets (expected actual : string) : Prop := expected = "" ∨ actual = expected.

Lemma meets_guard expected actual :
  (expected != "") && (actual != expected) = false ↔ meets expected actual.
Proof.
  unfold meets. rewrite andb_false_iff, !negb_false_iff, !bool_decide_eq_true. done.
Qed.

(** Where and when the sample was taken, and no later than the clock allows. *)
Record provenance_ok (now : Time) (o : Observation) (p : HealthPolicy) : Prop := {
  pv_sequence : obs_SampleSequence o ≠ 0;
  pv_times : obs_CollectionStartedAt o ≠ 0 ∧ obs_CollectionEndedAt o ≠ 0;
  pv_order : obs_CollectionStartedAt o ≤ obs_ObservedAt o ≤ obs_CollectionEndedAt o;
  pv_past : obs_CollectionEndedAt o ≤ now + clockSkew;
  pv_duration : 0 < hp_MaxCollectionDuration p →
    time_Sub (obs_CollectionEndedAt o) (obs_CollectionStartedAt o) ≤ hp_MaxCollectionDuration p;
}.

Lemma checkProvenance_spec now o p : checkProvenance now o p = None ↔ provenance_ok now o p.
Proof.
  unfold checkProvenance. rewrite !block_if_None, !orb_false_iff, andb_false_iff.
  rewrite !bool_decide_eq_false, !Z.ltb_ge. split.
  - intros (((?&?)&?)&(?&?)&(?&?)&?&_). split; [done|done|lia|lia|lia].
  - intros [? [? ?] ? ? ?]. split_and!; try done; lia.
Qed.

(** A required interface is up and has headroom, as the policy asks. *)
Definition interface_ok (p : HealthPolicy) (i : InterfaceObservation) : Prop :=
  (hp_RequireInterfacesUp p = true → ifo_OperUp i = true)
  ∧ ∀ minimum, hp_MinimumHeadroomPercent p = Some minimum →
      ∃ headroom, ifo_HeadroomPct i = Some headroom ∧ SFltb headroom minimum = false.

(** Every interface has a name of its own, and the required ones are in order. *)
Record interfaces_ok (o : Observation) (p : HealthPolicy) : Prop := {
  io_named i : i ∈ obs_Interfaces o → ifo_key i ≠ "";
  io_distinct : NoDup (map ifo_key (obs_Interfaces o));
  io_required name : name ∈ hp_RequiredInterfaces p → TrimSpace name ≠ "" →
    ∃ i, i ∈ obs_Interfaces o ∧ ifo_key i = TrimSpace name ∧ interface_ok p i;
}.

(** Every neighbor has a name, every adjacency an identity of its own, and each
    required peer exactly one adjacency, which is full if the policy asks. *)
Record neighbors_ok (o : Observation) (p : HealthPolicy) : Prop := {
  no_named n : n ∈ obs_Neighbors o → nbo_key n ≠ "";
  no_distinct : NoDup (map neighborIdentity (obs_Neighbors o));
  no_required id : id ∈ hp_RequiredNeighbors p → TrimSpace id ≠ "" →
    ∃ n, filter (λ n, nbo_key n = TrimSpace id) (obs_Neighbors o) = [n]
      ∧ (hp_RequireNeighborsFull p = true → EqualFold_full (TrimSpace (nbo_State n)) = true);
}.

Lemma headroom_None (minimum headroom : option spec_float) (b1 b2 : block) :
  match minimum with
  | None => None
  | Some minimum =>
      match headroom with
      | None => Some b1
      | Some headroom => if SFltb headroom minimum then Some b2 else None
      end
  end = None ↔
  ∀ m, minimum = Some m → ∃ h, headroom = Some h ∧ SFltb h m = false.
Proof.
  destruct minimum as [m|]; [|done]. destruct headroom as [h|].
  - split; [|intros Hm; by destruct (Hm m eq_refl) as (? & [= <-] & ->)].
    intros Hh ? [= <-]. exists h. split; [done|]. by destruct (SFltb h m).
  - split; [done|]. intros Hm. by destruct (Hm m eq_refl) as (? & ? & _).
Qed.

Lemma checkInterface_spec p m name :
  checkInterface p m name = None ↔ ∃ i, m !! name = Some i ∧ interface_ok p i.
Proof.
  unfold checkInterface, interface_ok.
  destruct (m !! name) as [i|]; [|split; [done|by intros (? & ? & _)]].
  rewrite block_if_None, andb_false_iff, negb_false_iff, headroom_None. split.
  - intros [Hup Hh]. exists i. split_and!; [done| |done]. intros Hr. destruct Hup; congruence.
  - intros (i' & [= <-] & Hup & Hh). split; [|done].
    destruct (hp_RequireInterfacesUp p); [right|left]; auto.
Qed.

Lemma first_block_sortedUnique f values :
  first_block f (sortedUnique values) = None ↔
  ∀ v, v ∈ values → TrimSpace v ≠ "" → f (TrimSpace v) = None.
Proof.
  rewrite first_block_None. setoid_rewrite sortedUnique_elem. naive_solver.
Qed.

Lemma singleton_option {A} (x : A) (l : list A) (P : A → Prop) :
  l = [x] → (∃ y, l = [y] ∧ P y) ↔ P x.
Proof. intros ->. split; [by intros (y & [= <-] & ?)|eauto]. Qed.

Lemma checkNeighbor_spec p m ids items id :
  NoDup (map neighborIdentity items) →
  m = list_to_map (map (λ n, (neighborIdentity n, n)) items) →
  default [] (ids !! id) = map neighborIdentity (filter (λ n, nbo_key n = id) items) →
  checkNeighbor p m ids id = None ↔
  ∃ n, filter (λ n, nbo_key n = id) items = [n]
    ∧ (hp_RequireNeighborsFull p = true → EqualFold_full (TrimSpace (nbo_State n)) = true).
Proof.
  intros Hnd Hm Hids. unfold checkNeighbor. rewrite Hids.
  destruct (filter (λ n, nbo_key n = id) items) as [|n [|n' l]] eqn:Hf; simpl;
    [by split; [|intros (? & ? & _)]| |by split; [|intros (? & ? & _)]].
  assert (m !! neighborIdentity n = Some n) as ->.
  { rewrite Hm. apply keyed_lookup; [done|]. split; [|done].
    assert (n ∈ filter (λ n, nbo_key n = id) items) as [_ ?]%list_elem_of_filter; [|done].
    rewrite Hf. by left. }
  rewrite (singleton_option n [n]) by done. simpl.
  destruct (hp_RequireNeighborsFull p), (EqualFold_full _) eqn:?; simpl; intuition congruence.
Qed.

Lemma checkEvidence_spec o p :
  checkEvidence o p = None ↔ interfaces_ok o p ∧ neighbors_ok o p.
Proof.
  unfold checkEvidence. destruct (collectInterfaces ∅ (obs_Interfaces o)) as [m|b] eqn:Hi.
  2: { split; [done|]. intros [[Hn Hd _] _].
       eassert (collectInterfaces ∅ (obs_Interfaces o) = inl _) as Hc; [|congruence].
       apply collectInterfaces_spec. by split_and!. }
  apply collectInterfaces_spec in Hi as (Hn & _ & Hd & ->). rewrite (right_id_L ∅ _).
  rewrite block_propagate_None, first_block_sortedUnique. setoid_rewrite checkInterface_spec.
  setoid_rewrite (keyed_lookup ifo_key (obs_Interfaces o) _ _ Hd).
  assert ((∀ v, v ∈ hp_RequiredInterfaces p → TrimSpace v ≠ "" →
             ∃ i, (i ∈ obs_Interfaces o ∧ ifo_key i = TrimSpace v) ∧ interface_ok p i)
          ↔ interfaces_ok o p) as ->.
  { split; [intros Hr; split; [done..|]|intros [_ _ Hr]]; intros v Hv Hne;
      destruct (Hr v Hv Hne) as (i & ?); exists i; tauto. }
  destruct (collectNeighbors ∅ ∅ (obs_Neighbors o)) as [[ns ids]|b] eqn:Hc.
  2: { split; [by intros [_ ?]|]. intros [_ [Hn' Hd' _]].
       eassert (collectNeighbors ∅ ∅ (obs_Neighbors o) = inl (_, _)) as Hc'; [|congruence].
       apply collectNeighbors_spec. by split_and!. }
  apply collectNeighbors_spec in Hc as (Hn' & _ & Hd' & Hns & Hids). simpl in Hns, Hids.
  rewrite (right_id_L ∅ _) in Hns. rewrite first_block_sortedUnique.
  setoid_rewrite (checkNeighbor_spec p ns ids (obs_Neighbors o) _ Hd' Hns).
  2: { intros. rewrite Hids, neighborIDs_spec. by rewrite lookup_empty. }
  split; intros [? Hr]; (split; [done|]); [by split|by destruct Hr].
Qed.

(** Everything the gate requires. *)
Record gate_open (now : Time) (o : Observation) (p : HealthPolicy) : Prop := {
  op_clock : now ≠ 0 ∧ obs_ObservedAt o ≠ 0;
  op_device : obs_DeviceIdentityHash o ≠ ""
    ∧ meets (hp_ExpectedDeviceIdentityHash p) (obs_DeviceIdentityHash o);
  op_producer : meets (hp_ExpectedProducerRevision p) (obs_ProducerRevision o)
    ∧ meets (hp_ExpectedWorkerPodUID p) (obs_WorkerPodUID o);
  op_provenance : hp_RequireSampleProvenance p = true → provenance_ok now o p;
  op_past : obs_ObservedAt o ≤ now + clockSkew;
  op_fresh : 0 < hp_MaxAge p → time_Sub now (obs_ObservedAt o) ≤ hp_MaxAge p
    ∧ (hp_RequireSampleProvenance p = true →
         time_Sub now (obs_CollectionStartedAt o) ≤ hp_MaxAge p);
  op_scope minimum : hp_MinimumHeadroomPercent p = Some minimum →
    ∃ name, name ∈ hp_RequiredInterfaces p ∧ TrimSpace name ≠ "";
  op_complete : hp_RequireCompleteEvidence p = true → obs_Complete o = true;
  op_interfaces : interfaces_ok o p;
  op_neighbors : neighbors_ok o p;
}.

Lemma checkBinding_spec now o p :
  checkBinding now o p = None ↔
  (now ≠ 0 ∧ obs_ObservedAt o ≠ 0) ∧ obs_DeviceIdentityHash o ≠ ""
  ∧ meets (hp_ExpectedProducerRevision p) (obs_ProducerRevision o)
  ∧ meets (hp_ExpectedWorkerPodUID p) (obs_WorkerPodUID o).
Proof.
  unfold checkBinding. rewrite !block_if_None, !meets_guard, !bool_decide_eq_false. tauto.
Qed.

Lemma scope_guard p :
  match hp_MinimumHeadroomPercent p with Some _ => true | None => false end
    && (llen (sortedUnique (hp_RequiredInterfaces p)) == 0) = false ↔
  ∀ minimum, hp_MinimumHeadroomPercent p = Some minimum →
    ∃ name, name ∈ hp_RequiredInterfaces p ∧ TrimSpace name ≠ "".
Proof.
  destruct (hp_MinimumHeadroomPercent p) as [m|]; simpl; [|naive_solver].
  rewrite bool_decide_eq_false, sortedUnique_empty. split.
  - intros Hn _ _. destruct (decide (Exists (λ v, TrimSpace v ≠ "") (hp_RequiredInterfaces p)))
      as [He|He]; [by apply Exists_exists in He|]. destruct Hn. intros v Hv.
    apply not_Exists_Forall in He; [|apply _]. rewrite Forall_forall in He.
    destruct (decide (TrimSpace v = "")); [done|]. by destruct (He v Hv).
  - intros Hs Hn. destruct (Hs m eq_refl) as (v & Hv & Hne). auto.
Qed.

(** Freshness counts from the older of the two times. *)
Lemma freshnessTime_spec now o p bound :
  time_Sub now (freshnessTime o p) ≤ bound ↔
  time_Sub now (obs_ObservedAt o) ≤ bound
  ∧ (hp_RequireSampleProvenance p = true → time_Sub now (obs_CollectionStartedAt o) ≤ bound).
Proof.
  unfold freshnessTime, time_Sub, maxInt64. destruct (hp_RequireSampleProvenance p); simpl.
  - destruct (Z.ltb_spec (obs_CollectionStartedAt o) (obs_ObservedAt o)); split; intros; split_and?; lia.
  - split; [|tauto]. intros. by split.
Qed.

Lemma checkFreshness_spec now o p :
  checkFreshness now o p = None ↔
  meets (hp_ExpectedDeviceIdentityHash p) (obs_DeviceIdentityHash o)
  ∧ obs_ObservedAt o ≤ now + clockSkew
  ∧ (0 < hp_MaxAge p → time_Sub now (obs_ObservedAt o) ≤ hp_MaxAge p
       ∧ (hp_RequireSampleProvenance p = true →
            time_Sub now (obs_CollectionStartedAt o) ≤ hp_MaxAge p))
  ∧ (∀ minimum, hp_MinimumHeadroomPercent p = Some minimum →
       ∃ name, name ∈ hp_RequiredInterfaces p ∧ TrimSpace name ≠ "")
  ∧ (hp_RequireCompleteEvidence p = true → obs_Complete o = true).
Proof.
  unfold checkFreshness. rewrite !block_if_None, meets_guard, scope_guard, Z.ltb_ge.
  rewrite !andb_false_iff, negb_false_iff, !Z.ltb_ge, <- freshnessTime_spec.
  destruct (hp_RequireCompleteEvidence p); intuition (try lia; try congruence).
Qed.

Lemma gate_spec now o p : gate now o p = None ↔ gate_open now o p.
Proof.
  unfold gate. rewrite !block_propagate_None, checkBinding_spec, checkFreshness_spec, checkEvidence_spec.
  assert ((if hp_RequireSampleProvenance p then checkProvenance now o p else None) = None ↔
          (hp_RequireSampleProvenance p = true → provenance_ok now o p)) as ->.
  { destruct (hp_RequireSampleProvenance p); [rewrite checkProvenance_spec|]; naive_solver. }
  split; [intros ((?&?&?&?)&?&(?&?&?&?&?)&?&?); by split|intros []; tauto].
Qed.

