(* ===== verification/Graph.v ===== *)
(** * The observed topology graph

    src/internal/topologygraph/graph.go and the link validation of
    src/internal/topologygraph/graph_policy.go: [BuildGraph] turns the
    observations of authenticated workers into a bounded graph with diagnostics.

    Go does not specify the order in which [range] visits a map.  The three loops
    over maps take their order from [MapRange], so that what is proved holds for
    every order. *)

From S2P Require Import Prelude GoLib GoTime Json Interfaces LedgerData AdminPolicyHash Identity Health.

Definition DefaultGraphMaxNodes : Z := 256.
Definition DefaultGraphMaxEdges : Z := 512.
Definition DefaultGraphMaxInputNeighbors : Z := 1024.
Definition DefaultGraphMaxDeclaredLinks : Z := 1024.
Definition DefaultGraphMaxPeerMappings : Z := 1024.
Definition DefaultGraphMaxDiagnostics : Z := 2048.
Definition MaxGraphFieldLength : Z := 256.
Definition MaxGraphNodes : Z := 4096.
Definition MaxGraphEdges : Z := 8192.
Definition MaxGraphInputNeighbors : Z := 16384.
Definition MaxGraphPeerMappings : Z := 1024.

Record GraphNeighbor := {
  gn_Identity : string;
  gn_PeerID : string;
  gn_Source : string;
  gn_Interface : string;
  gn_RemoteInterface : string;
  gn_RoutingDomain : string;
  gn_State : string;
}.

Record GraphObservation := {
  gob_PhysicalID : string;
  gob_ObservedAt : Time;
  gob_Complete : bool;
  gob_UnknownReason : string;
  gob_Neighbors : list GraphNeighbor;
}.

Record PeerIdentityMapping := {
  pim_Source : string;
  pim_ObservedPeer : string;
  pim_RoutingDomain : string;
  pim_PhysicalID : string;
  pim_External : bool;
}.

Record DeclaredLink := {
  dl_Local : string;
  dl_Peer : string;
  dl_Source : string;
  dl_Interface : string;
  dl_RemoteInterface : string;
  dl_RoutingDomain : string;
}.

Record GraphPolicy := {
  gp_MaxNodes : Z;
  gp_MaxEdges : Z;
  gp_MaxInputNeighbors : Z;
  gp_MaxDeclaredLinks : Z;
  gp_MaxPeerMappings : Z;
  gp_MaxDiagnostics : Z;
  gp_Now : Time;
  gp_MaxObservationAge : Duration;
  gp_Declared : list DeclaredLink;
  gp_PeerMappings : list PeerIdentityMapping;
}.

Record GraphEdge := {
  ge_Local : string;
  ge_Peer : string;
  ge_ObservedPeer : string;
  ge_Identity : string;
  ge_Source : string;
  ge_Interface : string;
  ge_RemoteInterface : string;
  ge_RoutingDomain : string;
  ge_State : string;
}.

Record GraphDiagnostic := {
  gd_Code : string;
  gd_Severity : string;
  gd_Local : string;
  gd_Peer : string;
  gd_Message : string;
}.

Record Graph := {
  g_Nodes : list string;
  g_Edges : list GraphEdge;
  g_Diagnostics : list GraphDiagnostic;
  g_Complete : bool;
  g_EvidenceHash : string;
}.

#[export] Instance GraphEdge_eq_dec : EqDecision GraphEdge.
Proof. solve_decision. Defined.
#[export] Instance GraphDiagnostic_eq_dec : EqDecision GraphDiagnostic.
Proof. solve_decision. Defined.

(** The order of the [n]-th [range] over a map. *)
Class MapRange := { range_entries : nat → ∀ V, gmap string V → list (string * V) }.
Arguments range_entries {_} n {V} m.

Class MapRangeSpec (R : MapRange) : Prop := {
  range_entries_perm n V (m : gmap string V) : range_entries n m ≡ₚ map_to_list m;
}.

(** ** Keys *)

Definition canonicalKey (values : list string) : string := Marshal (JArr (map JStr values)).

Definition peerMappingKey (source observedPeer routingDomain : string) : string :=
  canonicalKey [TrimSpace source; TrimSpace observedPeer; TrimSpace routingDomain].

Definition linkKey (local peer source iface remoteIface domain : string) : string :=
  canonicalKey [TrimSpace local; TrimSpace peer; TrimSpace source; TrimSpace iface;
                TrimSpace remoteIface; TrimSpace domain].

Definition adjacencyKey (local peer source domain iface remoteIface : string) : string :=
  canonicalKey [TrimSpace local; TrimSpace peer; TrimSpace source; TrimSpace domain;
                TrimSpace iface; TrimSpace remoteIface].

Definition graphEdgeIdentity `{HashLib} (local peer source iface remoteIface domain : string)
  : string :=
  let raw := adjacencyKey local peer source domain iface remoteIface in
  if slen raw <=? 128 then raw
  else ("sha256:" +:+ hex_EncodeToString (Sum256 raw)).

Definition boundedMessage (message fallback : string) : string :=
  let message := TrimSpace message in
  let message := if message == "" then fallback else message in
  if 256 <? slen message then of_bytes (take 256 (bytes_of message)) else message.

(** ** JSON *)

(** The struct has no json tags but [omitempty] on [ObservedPeer]. *)
Definition edge_json (e : GraphEdge) : json :=
  JObj ([("Local", JStr (ge_Local e)); ("Peer", JStr (ge_Peer e))]
        ++ (if ge_ObservedPeer e == "" then [] else [("ObservedPeer", JStr (ge_ObservedPeer e))])
        ++ [("Identity", JStr (ge_Identity e)); ("Source", JStr (ge_Source e));
            ("Interface", JStr (ge_Interface e)); ("RemoteInterface", JStr (ge_RemoteInterface e));
            ("RoutingDomain", JStr (ge_RoutingDomain e)); ("State", JStr (ge_State e))]).

Definition edge_text (e : GraphEdge) : string := Marshal (edge_json e).

Definition diagnostic_json (d : GraphDiagnostic) : json :=
  JObj [("Code", JStr (gd_Code d)); ("Severity", JStr (gd_Severity d));
        ("Local", JStr (gd_Local d)); ("Peer", JStr (gd_Peer d)); ("Message", JStr (gd_Message d))].

(** Nodes and diagnostics are nil when there are none, edges are an empty slice. *)
Definition graph_json (complete : bool) (nodes : list string) (edges : list GraphEdge)
    (diagnostics : list GraphDiagnostic) : json :=
  JObj [("complete", JBool complete); ("nodes", jstrings nodes);
        ("edges", JArr (map edge_json edges));
        ("diagnostics", jarray (map diagnostic_json diagnostics))].

Definition graphHash `{HashLib} (complete : bool) (nodes : list string) (edges : list GraphEdge)
    (diagnostics : list GraphDiagnostic) : string :=
  "sha256:" +:+ hex_EncodeToString (Sum256 (Marshal (graph_json complete nodes edges diagnostics))).

(** ** The limits *)

Record GraphLimits := {
  gl_Nodes : Z;
  gl_Edges : Z;
  gl_InputNeighbors : Z;
  gl_DeclaredLinks : Z;
  gl_PeerMappings : Z;
  gl_Diagnostics : Z;
}.

Definition or_default (value fallback : Z) : Z := if value <=? 0 then fallback else value.

Definition graphLimits (p : GraphPolicy) : GraphLimits := {|
  gl_Nodes := or_default (gp_MaxNodes p) DefaultGraphMaxNodes;
  gl_Edges := or_default (gp_MaxEdges p) DefaultGraphMaxEdges;
  gl_InputNeighbors := or_default (gp_MaxInputNeighbors p) DefaultGraphMaxInputNeighbors;
  gl_DeclaredLinks := or_default (gp_MaxDeclaredLinks p) DefaultGraphMaxDeclaredLinks;
  gl_PeerMappings := or_default (gp_MaxPeerMappings p) DefaultGraphMaxPeerMappings;
  gl_Diagnostics := or_default (gp_MaxDiagnostics p) DefaultGraphMaxDiagnostics;
|}.

Definition exceedsHardBounds (l : GraphLimits) : bool :=
  (MaxGraphNodes <? gl_Nodes l) || (MaxGraphEdges <? gl_Edges l)
  || (MaxGraphInputNeighbors <? gl_InputNeighbors l)
  || (DefaultGraphMaxDeclaredLinks <? gl_DeclaredLinks l)
  || (MaxGraphPeerMappings <? gl_PeerMappings l)
  || (DefaultGraphMaxDiagnostics <? gl_Diagnostics l).

(** ** The observations *)

Definition diagnostic (code severity local peer message : string) : GraphDiagnostic := {|
  gd_Code := code; gd_Severity := severity; gd_Local := local; gd_Peer := peer;
  gd_Message := message;
|}.

(** What the loop over the observations keeps: [graph.Complete], [graph.Nodes],
    [nodes], [duplicateNodes] and [graph.Diagnostics]. *)
Record scan := {
  sc_complete : bool;
  sc_list : list string;
  sc_nodes : gset string;
  sc_duplicates : gset string;
  sc_diagnostics : list GraphDiagnostic;
}.

Definition emptyScan : scan := {|
  sc_complete := true; sc_list := []; sc_nodes := ∅; sc_duplicates := ∅; sc_diagnostics := [];
|}.

(** An error diagnostic: [graph.Complete = false] and the append. *)
Definition scan_report (s : scan) (ds : list GraphDiagnostic) : scan := {|
  sc_complete := sc_complete s && (ds == []);
  sc_list := sc_list s; sc_nodes := sc_nodes s; sc_duplicates := sc_duplicates s;
  sc_diagnostics := sc_diagnostics s ++ ds;
|}.

Definition freshnessDiagnostics (p : GraphPolicy) (local : string) (o : GraphObservation)
  : list GraphDiagnostic :=
  return_if (gp_MaxObservationAge p <=? 0) [] ;;
  return_if (gob_ObservedAt o == 0)
    [diagnostic "ObservationTimeMissing" "Error" local ""
       "observation has no authenticated collection time"] ;;
  return_if ((gp_Now p + clockSkew <? gob_ObservedAt o)
             || (gp_MaxObservationAge p <? time_Sub (gp_Now p) (gob_ObservedAt o)))
    [diagnostic "StaleObservation" "Error" local ""
       "observation is outside the configured freshness bound"] ;;
  [].

Definition incompleteDiagnostic (local : string) (o : GraphObservation) : GraphDiagnostic :=
  diagnostic "IncompleteObservation" "Error" local ""
    (boundedMessage (gob_UnknownReason o) "observation did not prove complete source coverage").

Definition duplicateDiagnostic (local : string) : GraphDiagnostic :=
  diagnostic "DuplicateDeviceIdentity" "Error" local ""
    "more than one observation claims the same physical identity".

Definition observeStep (p : GraphPolicy) (s : scan) (o : GraphObservation) : scan + goerror :=
  let local := TrimSpace (gob_PhysicalID o) in
  return_if (local == "")
    (inr (EPlain "topology graph contains an observation without physical identity")) ;;
  return_if ((MaxGraphFieldLength <? slen local)
             || (MaxGraphFieldLength <? slen (gob_UnknownReason o)))
    (inr (EPlain "topology observation field exceeds its bound")) ;;
  return_if ((0 <? gp_MaxObservationAge p) && (gp_Now p == 0))
    (inr (EPlain "topology observation time is required for freshness policy")) ;;
  let s := scan_report s (freshnessDiagnostics p local o) in
  if bool_decide (local ∈ sc_nodes s) then
    inl {| sc_complete := false; sc_list := sc_list s; sc_nodes := sc_nodes s;
           sc_duplicates := {[local]} ∪ sc_duplicates s;
           sc_diagnostics := sc_diagnostics s ++
             (if bool_decide (local ∈ sc_duplicates s) then [] else [duplicateDiagnostic local]) |}
  else
    inl (scan_report
           {| sc_complete := sc_complete s; sc_list := sc_list s ++ [local];
              sc_nodes := {[local]} ∪ sc_nodes s; sc_duplicates := sc_duplicates s;
              sc_diagnostics := sc_diagnostics s |}
           (if gob_Complete o then [] else [incompleteDiagnostic local o])).

(** A loop whose body may return an error. *)
Fixpoint fold_err {A B} (f : B → A → B + goerror) (s : B) (l : list A) : B + goerror :=
  match l with
  | [] => inl s
  | x :: l => match f s x with inl s' => fold_err f s' l | inr e => inr e end
  end.

(** ** The administrator's peer mappings and links *)

Definition peerMappingStep (result : gmap string PeerIdentityMapping) (mapping : PeerIdentityMapping)
  : gmap string PeerIdentityMapping + goerror :=
  let source := TrimSpace (pim_Source mapping) in
  let observedPeer := TrimSpace (pim_ObservedPeer mapping) in
  let routingDomain := TrimSpace (pim_RoutingDomain mapping) in
  return_if ((source == "") || (observedPeer == ""))
    (inr (EPlain "topology peer mapping requires source and observedPeer")) ;;
  return_if ((MaxGraphFieldLength <? slen source) || (MaxGraphFieldLength <? slen observedPeer)
             || (MaxGraphFieldLength <? slen routingDomain))
    (inr (EPlain "topology peer mapping field exceeds its bound")) ;;
  match CanonicalPhysicalIdentity (pim_PhysicalID mapping) with
  | inr e => inr e
  | inl physicalID =>
      let key := peerMappingKey source observedPeer routingDomain in
      match result !! key with
      | Some _ => inr (EPlain "topology peer mapping duplicates a mapping")
      | None =>
          inl (<[key := {| pim_Source := source; pim_ObservedPeer := observedPeer;
                           pim_RoutingDomain := routingDomain; pim_PhysicalID := physicalID;
                           pim_External := pim_External mapping |}]> result)
      end
  end.

Definition validatedPeerMappings (mappings : list PeerIdentityMapping) (limit : Z)
  : gmap string PeerIdentityMapping + goerror :=
  return_if (limit <? llen mappings)
    (inr (EPlain "topology graph policy has too many peer mappings")) ;;
  fold_err peerMappingStep ∅ mappings.

Definition link_key (l : DeclaredLink) : string :=
  linkKey (dl_Local l) (dl_Peer l) (dl_Source l) (dl_Interface l) (dl_RemoteInterface l)
    (dl_RoutingDomain l).

(** [normalized] and [seen] after each link. *)
Definition declaredLinkStep (acc : list DeclaredLink * gset string) (link : DeclaredLink)
  : (list DeclaredLink * gset string) + goerror :=
  match CanonicalPhysicalIdentity (TrimSpace (dl_Local link)) with
  | inr e => inr e
  | inl local =>
      match CanonicalPhysicalIdentity (TrimSpace (dl_Peer link)) with
      | inr e => inr e
      | inl peer =>
          let link := {| dl_Local := local; dl_Peer := peer;
                         dl_Source := TrimSpace (dl_Source link);
                         dl_Interface := TrimSpace (dl_Interface link);
                         dl_RemoteInterface := TrimSpace (dl_RemoteInterface link);
                         dl_RoutingDomain := TrimSpace (dl_RoutingDomain link) |} in
          return_if ((dl_Interface link == "") || (dl_RemoteInterface link == ""))
            (inr (EPlain "topology declared link requires interface and remoteInterface")) ;;
          return_if (existsb (λ field, MaxGraphFieldLength <? slen field)
                       [dl_Source link; dl_Interface link; dl_RemoteInterface link;
                        dl_RoutingDomain link])
            (inr (EPlain "topology declared link field exceeds its bound")) ;;
          return_if (bool_decide (link_key link ∈ acc.2))
            (inr (EPlain "topology declared link is a duplicate")) ;;
          inl (acc.1 ++ [link], {[link_key link]} ∪ acc.2)
      end
  end.

Definition validatedDeclaredLinks (links : list DeclaredLink) (limit : Z)
  : list DeclaredLink + goerror :=
  return_if (limit <? llen links)
    (inr (EPlain "topology graph policy has too many declared links")) ;;
  match fold_err declaredLinkStep ([], ∅) links with
  | inl (normalized, _) => inl normalized
  | inr e => inr e
  end.

(** [graph.Nodes], [nodes] and [externalNodes] in the loop over the mappings. *)
Record externals := {
  ex_list : list string;
  ex_nodes : gset string;
  ex_external : gset string;
}.

Definition externalStep (maxNodes : Z) (s : externals) (kv : string * PeerIdentityMapping)
  : externals + goerror :=
  let id := pim_PhysicalID kv.2 in
  return_if (negb (pim_External kv.2)) (inl s) ;;
  return_if (bool_decide (id ∈ ex_external s)) (inl s) ;;
  return_if (bool_decide (id ∈ ex_nodes s))
    (inr (EPlain "external peer mapping overlaps a manager-bound device")) ;;
  return_if (maxNodes <=? Z.of_nat (size (ex_nodes s)))
    (inr (EPlain "topology graph has too many nodes after external mappings")) ;;
  inl {| ex_list := ex_list s ++ [id]; ex_nodes := {[id]} ∪ ex_nodes s;
         ex_external := {[id]} ∪ ex_external s |}.

(** ** The adjacencies *)

Section build.
Context `{HL : HashLib, MR : MapRange}.

(** [seen], [usedPeerMappings] and [inputNeighbors]. *)
Record adjacencies := {
  ad_seen : gmap string (list GraphEdge);
  ad_used : gset string;
  ad_input : Z;
}.

Definition overlongNeighbor (n : GraphNeighbor) : bool :=
  existsb (λ field, MaxGraphFieldLength <? slen field)
    [TrimSpace (gn_PeerID n); gn_Interface n; gn_RemoteInterface n; gn_RoutingDomain n;
     gn_Source n; gn_Identity n; gn_State n].

Definition neighborKey (n : GraphNeighbor) : string :=
  peerMappingKey (TrimSpace (gn_Source n)) (TrimSpace (gn_PeerID n))
    (TrimSpace (gn_RoutingDomain n)).

Definition neighborEdge (peerMappings : gmap string PeerIdentityMapping) (local : string)
    (n : GraphNeighbor) : GraphEdge :=
  let observedPeer := TrimSpace (gn_PeerID n) in
  let source := TrimSpace (gn_Source n) in
  let routingDomain := TrimSpace (gn_RoutingDomain n) in
  let peer := match peerMappings !! neighborKey n with
              | Some mapped => pim_PhysicalID mapped
              | None => observedPeer
              end in
  let identity := TrimSpace (gn_Identity n) in
  let identity :=
    if identity == "" then
      graphEdgeIdentity local peer source (gn_Interface n) (gn_RemoteInterface n)
        (gn_RoutingDomain n)
    else identity in
  {| ge_Local := local; ge_Peer := peer;
     ge_ObservedPeer := if peer == observedPeer then "" else observedPeer;
     ge_Identity := identity; ge_Source := source;
     ge_Interface := TrimSpace (gn_Interface n);
     ge_RemoteInterface := TrimSpace (gn_RemoteInterface n);
     ge_RoutingDomain := routingDomain; ge_State := TrimSpace (gn_State n) |}.

Definition edgeKey (e : GraphEdge) : string := canonicalKey [ge_Local e; ge_Identity e].

Definition neighborStep (maxInputNeighbors maxEdges : Z)
    (peerMappings : gmap string PeerIdentityMapping) (s : adjacencies)
    (ln : string * GraphNeighbor) : adjacencies + goerror :=
  let '(local, n) := ln in
  return_if (maxInputNeighbors <? ad_input s + 1)
    (inr (EPlain "topology graph input has too many neighbors")) ;;
  return_if (overlongNeighbor n)
    (inr (EPlain "topology adjacency field exceeds its bound")) ;;
  let edge := neighborEdge peerMappings local n in
  let key := edgeKey edge in
  let seen := <[key := default [] (ad_seen s !! key) ++ [edge]]> (ad_seen s) in
  return_if (maxEdges <? mlen seen)
    (inr (EPlain "topology graph has too many unique edges")) ;;
  inl {| ad_seen := seen;
         ad_used := match peerMappings !! neighborKey n with
                    | Some _ => {[neighborKey n]} ∪ ad_used s
                    | None => ad_used s
                    end;
         ad_input := ad_input s + 1 |}.

(** The nested loops visit every neighbor of every observation in order. *)
Definition flatNeighbors (observations : list GraphObservation) : list (string * GraphNeighbor) :=
  o ← observations; map (pair (TrimSpace (gob_PhysicalID o))) (gob_Neighbors o).

Definition duplicateAdjacency (edge : GraphEdge) (conflicting : bool) : GraphDiagnostic :=
  diagnostic "DuplicateAdjacency" "Error" (ge_Local edge) (ge_Peer edge)
    (if conflicting then "the same source-qualified adjacency was observed with conflicting fields"
     else "the same source-qualified adjacency was observed more than once").

Definition unknownPeer (edge : GraphEdge) : GraphDiagnostic :=
  diagnostic "UnknownPeer" "Warning" (ge_Local edge) (ge_Peer edge)
    "peer is not present in the supplied observation set".

(** [graph.Complete], [graph.Edges] and [graph.Diagnostics] in the loop over [seen]. *)
Record resolved := {
  rs_complete : bool;
  rs_edges : list GraphEdge;
  rs_diagnostics : list GraphDiagnostic;
}.

Definition resolveStep (nodes : gset string) (s : resolved) (kv : string * list GraphEdge)
  : resolved + goerror :=
  let candidates := sort_Slice edge_text kv.2 in
  match candidates with
  | [] => inr (EPanic "index out of range")
  | edge :: _ =>
      let last := List.last candidates edge in
      let repeated := if 1 <? llen candidates
                      then [duplicateAdjacency edge (edge_text edge != edge_text last)] else [] in
      let unknown := if bool_decide (ge_Peer edge ∈ nodes) then [] else [unknownPeer edge] in
      inl {| rs_complete := rs_complete s && (repeated == []) && (unknown == []);
             rs_edges := rs_edges s ++ [edge];
             rs_diagnostics := rs_diagnostics s ++ repeated ++ unknown |}
  end.

Definition edge_le (a b : GraphEdge) : Prop :=
  if decide (ge_Local a = ge_Local b) then String.le (ge_Identity a) (ge_Identity b)
  else String.le (ge_Local a) (ge_Local b).

#[export] Instance edge_le_dec : RelDecision edge_le.
Proof. intros a b. unfold edge_le. case_decide; apply _. Defined.

(** ** Diagnostics on the whole graph *)

Definition edgeAdjacency (e : GraphEdge) : string :=
  adjacencyKey (ge_Local e) (ge_Peer e) (ge_Source e) (ge_RoutingDomain e) (ge_Interface e)
    (ge_RemoteInterface e).

Definition reverseAdjacency (e : GraphEdge) : string :=
  adjacencyKey (ge_Peer e) (ge_Local e) (ge_Source e) (ge_RoutingDomain e)
    (ge_RemoteInterface e) (ge_Interface e).

Definition asymmetricDiagnostic (nodes externalNodes seen : gset string) (edge : GraphEdge)
  : list GraphDiagnostic :=
  return_if (negb (bool_decide (ge_Peer edge ∈ nodes))) [] ;;
  return_if (bool_decide (ge_Peer edge ∈ externalNodes)) [] ;;
  return_if (ge_RemoteInterface edge == "")
    [diagnostic "ReverseIdentityInsufficient" "Warning" (ge_Local edge) (ge_Peer edge)
       "remote interface identity is absent; reverse adjacency cannot be proven"] ;;
  return_if (bool_decide (reverseAdjacency edge ∈ seen)) [] ;;
  [diagnostic "AsymmetricLink" "Warning" (ge_Local edge) (ge_Peer edge)
     "the peer does not report a reverse adjacency in the supplied snapshot"].

Definition asymmetricDiagnostics (edges : list GraphEdge) (nodes externalNodes : gset string)
  : list GraphDiagnostic :=
  let seen := list_to_set (map edgeAdjacency edges) in
  edges ≫= asymmetricDiagnostic nodes externalNodes seen.

Definition mappingDiagnostics (nodes used : gset string) (kv : string * PeerIdentityMapping)
  : list GraphDiagnostic :=
  (if bool_decide (kv.1 ∈ used) then [] else
     [diagnostic "UnusedPeerMapping" "Warning" "" (pim_PhysicalID kv.2)
        "administrator peer mapping did not match any accepted adjacency"])
  ++ (if negb (bool_decide (pim_PhysicalID kv.2 ∈ nodes)) && negb (pim_External kv.2) then
        [diagnostic "MappedPeerUnavailable" "Error" "" (pim_PhysicalID kv.2)
           "administrator peer mapping targets no manager-bound device in the selected scope"]
      else []).

Definition edgeLink (e : GraphEdge) : string :=
  linkKey (ge_Local e) (ge_Peer e) (ge_Source e) (ge_Interface e) (ge_RemoteInterface e)
    (ge_RoutingDomain e).
Definition edgeLinkWithoutSource (e : GraphEdge) : string :=
  linkKey (ge_Local e) (ge_Peer e) "" (ge_Interface e) (ge_RemoteInterface e)
    (ge_RoutingDomain e).
Definition linkWithoutSource (l : DeclaredLink) : string :=
  linkKey (dl_Local l) (dl_Peer l) "" (dl_Interface l) (dl_RemoteInterface l)
    (dl_RoutingDomain l).

Definition missingLink (observed observedWithoutSource : gset string) (link : DeclaredLink)
  : list GraphDiagnostic :=
  let ok := if dl_Source link == ""
            then bool_decide (linkWithoutSource link ∈ observedWithoutSource)
            else bool_decide (link_key link ∈ observed) in
  if ok then [] else
    [diagnostic "DeclaredLinkMissing" "Error" (dl_Local link) (dl_Peer link)
       "declared link is not present in observed topology"].

Definition unexpectedLink (declaredSet declaredSetWithoutSource : gset string) (edge : GraphEdge)
  : list GraphDiagnostic :=
  if bool_decide (edgeLink edge ∈ declaredSet)
     || bool_decide (edgeLinkWithoutSource edge ∈ declaredSetWithoutSource) then [] else
    [diagnostic "UnexpectedObservedLink" "Warning" (ge_Local edge) (ge_Peer edge)
       "observed link is outside the declared topology"].

Definition declaredDrift (edges : list GraphEdge) (declared : list DeclaredLink)
  : list GraphDiagnostic :=
  let observed : gset string := list_to_set (map edgeLink edges) in
  let observedWithoutSource : gset string := list_to_set (map edgeLinkWithoutSource edges) in
  let declaredSet : gset string :=
    list_to_set (map link_key (filter (λ l, dl_Source l ≠ "") declared)) in
  let declaredSetWithoutSource : gset string :=
    list_to_set (map linkWithoutSource (filter (λ l, dl_Source l = "") declared)) in
  (declared ≫= missingLink observed observedWithoutSource)
  ++ (if declared is [] then [] else
        edges ≫= unexpectedLink declaredSet declaredSetWithoutSource).

(** The key the diagnostics are sorted by, its parts separated by NUL. *)
Definition nul : string := of_bytes [byte_of 0].
Definition diagnostic_text (d : GraphDiagnostic) : string :=
  gd_Code d +:+ nul +:+ gd_Local d +:+ nul +:+ gd_Peer d +:+ nul +:+ gd_Message d.

(** ** BuildGraph *)

(** From the resolved edges to the graph. *)
Definition finishGraph (limits : GraphLimits) (p : GraphPolicy)
    (peerMappings : gmap string PeerIdentityMapping) (ex : externals) (used : gset string)
    (rs : resolved) : Graph + goerror :=
  let edges := merge_sort edge_le (rs_edges rs) in
  match validatedDeclaredLinks (gp_Declared p) (gl_DeclaredLinks limits) with
  | inr e => inr e
  | inl declared =>
      let diagnostics :=
        rs_diagnostics rs
        ++ asymmetricDiagnostics edges (ex_nodes ex) (ex_external ex)
        ++ (range_entries 2 peerMappings ≫= mappingDiagnostics (ex_nodes ex) used)
        ++ declaredDrift edges declared in
      let diagnostics := sort_Slice diagnostic_text diagnostics in
      let complete :=
        rs_complete rs && negb (existsb (λ d, gd_Severity d == "Error") diagnostics) in
      return_if (gl_Diagnostics limits <? llen diagnostics)
        (inr (EPlain "topology graph produced too many diagnostics")) ;;
      let nodes := sort_Strings (ex_list ex) in
      inl {| g_Nodes := nodes; g_Edges := edges; g_Diagnostics := diagnostics;
             g_Complete := complete;
             g_EvidenceHash := graphHash complete nodes edges diagnostics |}
  end.

Definition BuildGraph (observations : list GraphObservation) (p : GraphPolicy) : Graph + goerror :=
  let limits := graphLimits p in
  return_if (exceedsHardBounds limits)
    (inr (EPlain "topology graph policy exceeds hard bounds")) ;;
  return_if (gl_Nodes limits <? llen observations)
    (inr (EPlain "topology graph has too many observations")) ;;
  match fold_err (observeStep p) emptyScan observations with
  | inr e => inr e
  | inl sc =>
  match validatedPeerMappings (gp_PeerMappings p) (gl_PeerMappings limits) with
  | inr e => inr e
  | inl peerMappings =>
  match fold_err (externalStep (gl_Nodes limits))
          {| ex_list := sc_list sc; ex_nodes := sc_nodes sc; ex_external := ∅ |}
          (range_entries 0 peerMappings) with
  | inr e => inr e
  | inl ex =>
  match fold_err (neighborStep (gl_InputNeighbors limits) (gl_Edges limits) peerMappings)
          {| ad_seen := ∅; ad_used := ∅; ad_input := 0 |} (flatNeighbors observations) with
  | inr e => inr e
  | inl ad =>
  match fold_err (resolveStep (ex_nodes ex))
          {| rs_complete := sc_complete sc; rs_edges := []; rs_diagnostics := sc_diagnostics sc |}
          (range_entries 1 (ad_seen ad)) with
  | inr e => inr e
  | inl rs => finishGraph limits p peerMappings ex (ad_used ad) rs
  end end end end end.

End build.
