(* ===== verification/GraphProofs.v ===== *)
(** * The observed topology graph: its loops

    What every loop of src/internal/topologygraph/graph.go computes, in terms that
    do not depend on the order in which it visits its input. *)

From S2P Require Import Prelude GoLib GoTime Json JsonProofs Interfaces LedgerData AdminPolicyHash AdminPolicyHashProofs Identity Health Graph.

(** ** Loops that may fail *)

(** A loop whose errors depend on the element only. *)
Lemma fold_err_guarded {A B} (f : B → A → B + goerror) (ok : A → Prop) (g : B → A → B) s l s' :
  (∀ s x, (ok x ∧ f s x = inl (g s x)) ∨ (¬ ok x ∧ ∃ e, f s x = inr e)) →
  fold_err f s l = inl s' ↔ (∀ x, x ∈ l → ok x) ∧ s' = foldl g s l.
Proof.
  intros Hf. revert s. induction l as [|x l IH]; intros s; simpl; [split; [intros [= ->]; set_solver|by intros [_ ->]]|].
  destruct (Hf s x) as [[Hx ->]|(Hx & e & ->)].
  - rewrite IH. split; intros [Hall ->]; (split; [|done]); intros y Hy; [|apply Hall; by right].
    apply elem_of_cons in Hy as [->|Hy]; auto.
  - split; [done|]. intros [Hall _]. destruct Hx. apply Hall. by left.
Qed.

(** A loop with an invariant. *)
Lemma fold_err_inv {A B} (f : B → A → B + goerror) (I : list A → B → Prop) s l s' :
  I [] s → (∀ done x s s', I done s → f s x = inl s' → I (done ++ [x]) s') →
  fold_err f s l = inl s' → I l s'.
Proof.
  intros H0 Hstep. rewrite <- (app_nil_l l) at 2. revert H0. generalize (@nil A) as d.
  revert s. induction l as [|x l IH]; intros s d Hs; simpl; [rewrite app_nil_r; by intros [= <-]|].
  destruct (f s x) as [s1|] eqn:Hf; [|done]. intros Hl.
  rewrite cons_middle, app_assoc. eapply IH; [|done]. by eapply Hstep.
Qed.

(** ** The observations *)

Definition local_id (o : GraphObservation) : string := TrimSpace (gob_PhysicalID o).

(** The guards of the loop over the observations. *)
Record observation_valid (p : GraphPolicy) (o : GraphObservation) : Prop := {
  ov_named : local_id o ≠ "";
  ov_bounded : slen (local_id o) ≤ MaxGraphFieldLength
    ∧ slen (gob_UnknownReason o) ≤ MaxGraphFieldLength;
  ov_clock : 0 < gp_MaxObservationAge p → gp_Now p ≠ 0;
}.

(** What the loop does with a valid observation. *)
Definition observe (p : GraphPolicy) (s : scan) (o : GraphObservation) : scan :=
  let local := local_id o in
  let s := scan_report s (freshnessDiagnostics p local o) in
  if bool_decide (local ∈ sc_nodes s) then
    {| sc_complete := false; sc_list := sc_list s; sc_nodes := sc_nodes s;
       sc_duplicates := {[local]} ∪ sc_duplicates s;
       sc_diagnostics := sc_diagnostics s ++
         (if bool_decide (local ∈ sc_duplicates s) then [] else [duplicateDiagnostic local]) |}
  else
    scan_report
      {| sc_complete := sc_complete s; sc_list := sc_list s ++ [local];
         sc_nodes := {[local]} ∪ sc_nodes s; sc_duplicates := sc_duplicates s;
         sc_diagnostics := sc_diagnostics s |}
      (if gob_Complete o then [] else [incompleteDiagnostic local o]).

Lemma observeStep_guarded p s o :
  (observation_valid p o ∧ observeStep p s o = inl (observe p s o))
  ∨ (¬ observation_valid p o ∧ ∃ e, observeStep p s o = inr e).
Proof.
  unfold observeStep, observe. fold (local_id o).
  case_bool_decide as Hn; [right; split; [by intros []|eauto]|].
  destruct (_ || _) eqn:Hb; go_bool; [right; split; [intros [_ ? _]; lia|eauto]|].
  destruct (_ && _) eqn:Hc; go_bool.
  { right. split; [|eauto]. intros [_ _ Ho]. destruct Hc as [Ha Hz]. by apply Ho. }
  left. split; [|by case_bool_decide]. split; [done|lia|]. intros Ha. destruct Hc; [lia|done].
Qed.

Lemma observations_spec p obs s :
  fold_err (observeStep p) emptyScan obs = inl s ↔
  (∀ o, o ∈ obs → observation_valid p o) ∧ s = foldl (observe p) emptyScan obs.
Proof. apply fold_err_guarded. intros. apply observeStep_guarded. Qed.

Lemma foldl_inv {A B} (f : B → A → B) (I : list A → B → Prop) s l :
  I [] s → (∀ done x s, I done s → I (done ++ [x]) (f s x)) → I l (foldl f s l).
Proof.
  intros H0 Hstep. induction l as [|x l IH] using rev_ind; [done|].
  rewrite foldl_app. by apply Hstep.
Qed.

Lemma map_snoc {A B} (f : A → B) l x : map f (l ++ [x]) = map f l ++ [f x].
Proof. by rewrite map_app. Qed.

Lemma NoDup_snoc {A} (l : list A) x : NoDup (l ++ [x]) ↔ NoDup l ∧ x ∉ l.
Proof.
  rewrite NoDup_app. split.
  - intros (? & Hd & _). split; [done|]. intros Hx. apply (Hd x Hx). by left.
  - intros [? Hx]. split_and!; [done| |apply NoDup_singleton].
    intros y Hy ->%list_elem_of_singleton. done.
Qed.

(** The nodes are the devices, each once. *)
Lemma observe_nodes p obs :
  let s := foldl (observe p) emptyScan obs in
  sc_nodes s = list_to_set (map local_id obs)
  ∧ NoDup (sc_list s) ∧ (∀ x, x ∈ sc_list s ↔ x ∈ sc_nodes s)
  ∧ (length (sc_list s) ≤ length obs)%nat.
Proof.
  apply (foldl_inv (observe p) (λ d s, sc_nodes s = list_to_set (map local_id d)
    ∧ NoDup (sc_list s) ∧ (∀ x, x ∈ sc_list s ↔ x ∈ sc_nodes s)
    ∧ (length (sc_list s) ≤ length d)%nat)).
  { split_and!; [done|constructor|set_solver|done]. }
  intros d o s (Hn & Hnd & He & Hl). rewrite map_snoc, list_to_set_app_L, length_app. simpl.
  unfold observe. simpl. case_bool_decide as Hin; simpl.
  - split_and!; [set_solver|done|done|lia].
  - rewrite NoDup_snoc, length_app. simpl. by split_and!; [set_solver|done|rewrite He|set_solver|lia].
Qed.

(** The diagnostics of an observation of a device seen for the first time. *)
Definition observationDiagnostics (p : GraphPolicy) (o : GraphObservation) : list GraphDiagnostic :=
  freshnessDiagnostics p (local_id o) o
  ++ (if gob_Complete o then [] else [incompleteDiagnostic (local_id o) o]).

Lemma observe_diagnostics p obs :
  NoDup (map local_id obs) →
  let s := foldl (observe p) emptyScan obs in
  sc_diagnostics s = obs ≫= observationDiagnostics p ∧ sc_list s = map local_id obs
  ∧ sc_duplicates s = ∅.
Proof.
  intros Hnd s. subst s. revert Hnd. induction obs as [|o obs IH] using rev_ind; intros Hnd; [done|].
  rewrite map_snoc, NoDup_snoc in Hnd. destruct Hnd as [Hnd Hx].
  destruct (IH Hnd) as (Hd & Hl & Hdup). rewrite foldl_app, map_snoc, bind_app. simpl.
  destruct (observe_nodes p obs) as (Hn & _). revert Hd Hl Hdup Hn.
  generalize (foldl (observe p) emptyScan obs) as s. intros s Hd Hl Hdup Hn.
  unfold observe. simpl. rewrite bool_decide_eq_false_2 by (rewrite Hn; set_solver). simpl.
  rewrite Hd, Hl. split_and!; [|done|done].
  unfold observationDiagnostics. by rewrite app_nil_r, <- app_assoc.
Qed.

(** An observation that is fresh and complete. *)
Definition observation_current (p : GraphPolicy) (o : GraphObservation) : Prop :=
  gob_Complete o = true
  ∧ (0 < gp_MaxObservationAge p →
       gob_ObservedAt o ≠ 0 ∧ gob_ObservedAt o ≤ gp_Now p + clockSkew
       ∧ time_Sub (gp_Now p) (gob_ObservedAt o) ≤ gp_MaxObservationAge p).

Lemma freshnessDiagnostics_nil p local o :
  freshnessDiagnostics p local o = [] ↔
  (0 < gp_MaxObservationAge p →
     gob_ObservedAt o ≠ 0 ∧ gob_ObservedAt o ≤ gp_Now p + clockSkew
     ∧ time_Sub (gp_Now p) (gob_ObservedAt o) ≤ gp_MaxObservationAge p).
Proof.
  unfold freshnessDiagnostics. destruct (Z.leb_spec (gp_MaxObservationAge p) 0); [split; [lia|done]|].
  case_bool_decide as Hz; [split; [done|]; intros Ho; by destruct Ho|].
  destruct (_ || _) eqn:Hs; go_bool; split; try done; intros; try lia.
Qed.

(** [graph.Complete] after the loop: one current observation of every device. *)
Lemma observe_complete p obs :
  let s := foldl (observe p) emptyScan obs in
  (sc_complete s = true ↔
     NoDup (map local_id obs) ∧ ∀ o, o ∈ obs → observation_current p o)
  ∧ (sc_complete s = true ↔ sc_diagnostics s = [])
  ∧ sc_duplicates s ⊆ sc_nodes s ∧ (sc_duplicates s ≠ ∅ → sc_diagnostics s ≠ []).
Proof.
  induction obs as [|o obs IH] using rev_ind.
  { simpl. split_and!; [|done|done|done]. split; [|done]. split; [constructor|set_solver]. }
  destruct (observe_nodes p obs) as (Hn & _). cbv zeta. rewrite foldl_app, map_snoc, NoDup_snoc. simpl.
  revert IH Hn. generalize (foldl (observe p) emptyScan obs) as s. intros s (IH & Hcd & Hsub & Hdup) Hn.
  assert (local_id o ∈ sc_nodes s ↔ local_id o ∈ map local_id obs) as Hin
    by (rewrite Hn; apply elem_of_list_to_set).
  unfold observe. simpl. case_bool_decide as Hm; simpl.
  - split_and!; [split; [done|]; intros [[_ Hx] _]; by destruct Hx; apply Hin| |set_solver|].
    + split; [done|]. intros Hnil. apply app_eq_nil in Hnil as [[Hd _]%app_eq_nil Hnil].
      case_bool_decide; [|done]. exfalso. apply Hdup; [set_solver|done].
    + intros _ Hnil. apply app_eq_nil in Hnil as [[Hd _]%app_eq_nil Hnil].
      case_bool_decide; [|done]. apply Hdup; [set_solver|done].
  - rewrite !andb_true_iff, !bool_decide_eq_true, IH, freshnessDiagnostics_nil.
    assert ((if gob_Complete o then [] else [incompleteDiagnostic (local_id o) o]) = []
            ↔ gob_Complete o = true) as Hc by (by destruct (gob_Complete o)).
    split_and!; [| |set_solver|intros Hne Hnil; apply app_eq_nil in Hnil as [[Hd _]%app_eq_nil _]; by apply Hdup].
    + rewrite Hc. unfold observation_current. split.
      * intros [ [ [Hnd Hall] Hf] Hcc]. split; [by rewrite <- Hin|].
        intros o' [Ho'| ->%list_elem_of_singleton]%elem_of_app; auto.
      * intros [[Hnd Hx] Hall]. destruct (Hall o) as [? ?]; [set_solver|].
        split_and!; try done. intros o' Ho'. apply Hall. set_solver.
    + rewrite <- freshnessDiagnostics_nil with (local := local_id o), <- IH, Hcd. split.
      * by intros [[-> ->] ->].
      * by intros [[-> ->]%app_eq_nil ->]%app_eq_nil.
Qed.

(** ** The peer mappings *)

(** A mapping as the code normalises it, with its key. *)
Definition normalMapping (m : PeerIdentityMapping) (physicalID : string) : PeerIdentityMapping := {|
  pim_Source := TrimSpace (pim_Source m); pim_ObservedPeer := TrimSpace (pim_ObservedPeer m);
  pim_RoutingDomain := TrimSpace (pim_RoutingDomain m); pim_PhysicalID := physicalID;
  pim_External := pim_External m;
|}.

Definition mappingKey (m : PeerIdentityMapping) : string :=
  peerMappingKey (TrimSpace (pim_Source m)) (TrimSpace (pim_ObservedPeer m))
    (TrimSpace (pim_RoutingDomain m)).

Lemma peerMappingStep_inv result m result' :
  peerMappingStep result m = inl result' →
  ∃ id, CanonicalPhysicalIdentity (pim_PhysicalID m) = inl id ∧ result !! mappingKey m = None
    ∧ result' = <[mappingKey m := normalMapping m id]> result.
Proof.
  unfold peerMappingStep. fold (mappingKey m). do 2 (case_match; [done|]).
  destruct (CanonicalPhysicalIdentity _) as [id|]; [|done].
  destruct (result !! mappingKey m) eqn:Hk; [done|]. intros [= <-]. by exists id.
Qed.

Lemma peerMappings_spec ms pm :
  fold_err peerMappingStep ∅ ms = inl pm →
  ∀ k x, pm !! k = Some x ↔ ∃ m id, m ∈ ms ∧ CanonicalPhysicalIdentity (pim_PhysicalID m) = inl id
    ∧ mappingKey m = k ∧ x = normalMapping m id.
Proof.
  apply (fold_err_inv peerMappingStep (λ d s, ∀ k x, s !! k = Some x ↔
    ∃ m id, m ∈ d ∧ CanonicalPhysicalIdentity (pim_PhysicalID m) = inl id
      ∧ mappingKey m = k ∧ x = normalMapping m id)).
  { intros k x. rewrite lookup_empty. split; [done|]. intros (? & ? & Hm & _). by apply not_elem_of_nil in Hm. }
  intros d m s s' IH (id & Hid & Hk & ->)%peerMappingStep_inv k x.
  rewrite lookup_insert_Some. setoid_rewrite elem_of_app. split.
  - intros [[<- <-]|[Hne (m' & id' & ? & ?)%IH]].
    + exists m, id. split_and!; [right; by left|done..].
    + exists m', id'. split; [by left|done].
  - intros (m' & id' & [Hm|Hm] & Hid' & <- & ->).
    + right. assert (s !! mappingKey m' = Some (normalMapping m' id')) as Hs by (apply IH; by exists m', id').
      split; [|done]. intros He. congruence.
    + apply list_elem_of_singleton in Hm as ->. left. split; [done|]. congruence.
Qed.

(** ** The external nodes *)

Definition externalIDs (l : list (string * PeerIdentityMapping)) : gset string :=
  list_to_set (map (λ kv, pim_PhysicalID kv.2) (filter (λ kv, pim_External kv.2 = true) l)).

Lemma externalIDs_elem x l :
  x ∈ externalIDs l ↔ ∃ k m, (k, m) ∈ l ∧ pim_External m = true ∧ pim_PhysicalID m = x.
Proof.
  unfold externalIDs. rewrite elem_of_list_to_set, list_elem_of_fmap.
  setoid_rewrite list_elem_of_filter. split.
  - intros ([k m] & -> & He & Hm). by exists k, m.
  - intros (k & m & Hm & He & <-). by exists (k, m).
Qed.

Lemma externalIDs_cons kv l :
  externalIDs (kv :: l) = (if pim_External kv.2 then {[pim_PhysicalID kv.2]} else ∅) ∪ externalIDs l.
Proof.
  unfold externalIDs. rewrite filter_cons. destruct (pim_External kv.2); simpl.
  - done.
  - by rewrite (left_id_L ∅ _).
Qed.

Lemma externalIDs_perm l l' : l ≡ₚ l' → externalIDs l = externalIDs l'.
Proof.
  intros Hp. apply set_eq. intros x. rewrite !externalIDs_elem. by setoid_rewrite Hp.
Qed.

(** The devices [N] and the external nodes so far. *)
Definition externals_of (N : gset string) (L : list string) (s : externals) : Prop :=
  ex_nodes s = N ∪ ex_external s ∧ N ## ex_external s ∧ ex_list s ≡ₚ L ++ elements (ex_external s).

Lemma externals_spec N L max s l :
  externals_of N L s → Z.of_nat (size (ex_nodes s)) ≤ max →
  (N ## externalIDs l ∧ Z.of_nat (size (ex_nodes s ∪ externalIDs l)) ≤ max ↔
     ∃ s', fold_err (externalStep max) s l = inl s')
  ∧ (∀ s', fold_err (externalStep max) s l = inl s' →
       externals_of N L s' ∧ ex_external s' = ex_external s ∪ externalIDs l).
Proof.
  revert s. induction l as [|kv l IH]; intros s Hs Hmax.
  { unfold externalIDs. simpl. rewrite !(right_id_L ∅ _). split; [|by intros s' [= <-]].
    split; [eauto|]. intros _. split; [set_solver|done]. }
  simpl. rewrite externalIDs_cons. unfold externalStep at 1 3.
  destruct (pim_External kv.2); simpl; [|rewrite (left_id_L ∅ _); by apply IH].
  set (id := pim_PhysicalID kv.2). case_bool_decide as Hext.
  { assert (ex_nodes s ∪ ({[id]} ∪ externalIDs l) = ex_nodes s ∪ externalIDs l) as ->
      by (destruct Hs as (-> & _); set_solver).
    destruct (IH s Hs Hmax) as [Hiff Hres]. split.
    - rewrite <- Hiff. destruct Hs as (_ & Hd & _). set_solver.
    - intros s' Hs'. destruct (Hres s' Hs') as [? ->]. split; [done|set_solver]. }
  case_bool_decide as Hin.
  { split; [|done]. split; [|by intros [? ?]]. intros [Hd _]. destruct Hs as (Hn & _). set_solver. }
  assert (size (ex_nodes s ∪ {[id]}) = S (size (ex_nodes s))) as Hsize.
  { rewrite size_union by set_solver. rewrite size_singleton. lia. }
  destruct (Z.leb_spec max (Z.of_nat (size (ex_nodes s)))) as [Hle|Hlt].
  { split; [|done]. split; [|by intros [? ?]]. intros [_ Hsz].
    assert (size (ex_nodes s ∪ {[id]}) ≤ size (ex_nodes s ∪ ({[id]} ∪ externalIDs l)))%nat
      by (apply subseteq_size; set_solver). lia. }
  edestruct (IH {| ex_list := ex_list s ++ [id]; ex_nodes := {[id]} ∪ ex_nodes s;
                   ex_external := {[id]} ∪ ex_external s |}) as [Hiff Hres].
  { destruct Hs as (Hn & Hd & Hp). split_and!; simpl; [set_solver|set_solver|].
    rewrite elements_union_singleton, Hp by done. solve_Permutation. }
  { simpl. rewrite (comm_L (∪)), Hsize. lia. }
  simpl in Hiff. split.
  - rewrite <- Hiff. rewrite (assoc_L (∪)), (comm_L (∪) (ex_nodes s) {[id]}).
    destruct Hs as (Hn & Hd & _). split; intros [? ?]; (split; [set_solver|done]).
  - intros s' Hs'. destruct (Hres s' Hs') as [? ->]. split; [done|]. simpl. set_solver.
Qed.
