(* ===== verification/GraphEdges.v ===== *)
(** * The observed topology graph: its edges and diagnostics

    src/internal/topologygraph/graph.go: how [BuildGraph] groups adjacencies, picks
    one edge of each group and sorts edges and diagnostics. *)

From S2P Require Import Prelude GoLib GoTime Json JsonProofs Interfaces LedgerData LedgerSpec AdminPolicyHash AdminPolicyHashProofs Identity Health Graph GraphProofs.

Section edges.
Context `{HL : HashLib}.

(** ** Grouping the adjacencies *)

(** What the loop does with a neighbor it accepts. *)
Definition gather (pm : gmap string PeerIdentityMapping) (s : adjacencies)
    (ln : string * GraphNeighbor) : adjacencies :=
  let edge := neighborEdge pm ln.1 ln.2 in
  {| ad_seen := <[edgeKey edge := default [] (ad_seen s !! edgeKey edge) ++ [edge]]> (ad_seen s);
     ad_used := match pm !! neighborKey ln.2 with
                | Some _ => {[neighborKey ln.2]} ∪ ad_used s
                | None => ad_used s
                end;
     ad_input := ad_input s + 1 |}.

Definition edges_of (pm : gmap string PeerIdentityMapping) (l : list (string * GraphNeighbor))
  : list GraphEdge :=
  map (λ ln, neighborEdge pm ln.1 ln.2) l.

Lemma gather_size pm l s : mlen (ad_seen s) ≤ mlen (ad_seen (foldl (gather pm) s l)).
Proof.
  revert s. induction l as [|ln l IH]; intros s; simpl; [lia|]. etrans; [|apply IH].
  unfold mlen. simpl. destruct (ad_seen s !! edgeKey (neighborEdge pm ln.1 ln.2)) eqn:He.
  - rewrite map_size_insert_Some by eauto. lia.
  - rewrite map_size_insert_None by done. lia.
Qed.

Lemma neighborStep_eq maxIn maxEdges pm s local n :
  neighborStep maxIn maxEdges pm s (local, n) =
  if maxIn <? ad_input s + 1 then inr (EPlain "topology graph input has too many neighbors") else
  if overlongNeighbor n then inr (EPlain "topology adjacency field exceeds its bound") else
  if maxEdges <? mlen (ad_seen (gather pm s (local, n)))
  then inr (EPlain "topology graph has too many unique edges")
  else inl (gather pm s (local, n)).
Proof. done. Qed.

Lemma neighbors_spec maxIn maxEdges pm s l s' :
  ad_input s ≤ maxIn → mlen (ad_seen s) ≤ maxEdges →
  fold_err (neighborStep maxIn maxEdges pm) s l = inl s' ↔
  (ad_input s + llen l ≤ maxIn ∧ (∀ ln, ln ∈ l → overlongNeighbor ln.2 = false)
   ∧ mlen (ad_seen (foldl (gather pm) s l)) ≤ maxEdges) ∧ s' = foldl (gather pm) s l.
Proof.
  revert s. induction l as [|[local n] l IH]; intros s Hin Hsz; cbn [fold_err foldl].
  { unfold llen. simpl. split; [intros [= <-]|by intros [_ ->]].
    split_and!; [lia|set_solver|done|done]. }
  assert (llen ((local, n) :: l) = llen l + 1) as -> by (unfold llen; simpl; lia).
  pose proof (Nat2Z.is_nonneg (length l)) as Hl. fold (llen l) in Hl.
  rewrite neighborStep_eq. destruct (Z.ltb_spec maxIn (ad_input s + 1)); [split; [done|lia]|].
  assert ((∀ ln, ln ∈ (local, n) :: l → overlongNeighbor ln.2 = false)
          ↔ overlongNeighbor n = false ∧ ∀ ln, ln ∈ l → overlongNeighbor ln.2 = false) as ->.
  { setoid_rewrite elem_of_cons. split; [|naive_solver]. intros Ho. split; [by apply (Ho (local, n)); left|auto]. }
  destruct (overlongNeighbor n); [split; [done|]; by intros [(_ & [? _] & _) _]|].
  pose proof (gather_size pm l (gather pm s (local, n))) as Hmono.
  destruct (Z.ltb_spec maxEdges (mlen (ad_seen (gather pm s (local, n))))) as [Hlt|Hle];
    [split; [done|lia]|].
  rewrite IH; [|simpl; lia|done]. simpl.
  split; intros [(? & ? & ?) ->]; (split; [|done]); split_and!; try done; try lia; naive_solver.
Qed.

(** The adjacencies with a given key. *)
Definition group (k : string) (es : list GraphEdge) : list GraphEdge :=
  filter (λ e, edgeKey e = k) es.

Definition noAdjacencies : adjacencies := {| ad_seen := ∅; ad_used := ∅; ad_input := 0 |}.

Lemma gather_seen pm l k :
  ad_seen (foldl (gather pm) noAdjacencies l) !! k
  = match group k (edges_of pm l) with [] => None | es => Some es end.
Proof.
  apply (foldl_inv (gather pm) (λ d s, ad_seen s !! k
    = match group k (edges_of pm d) with [] => None | es => Some es end)); [done|].
  intros d [local n] s IH. unfold edges_of, group in *. rewrite map_snoc, filter_app. simpl.
  rewrite filter_cons, filter_nil. set (e := neighborEdge pm local n) in *. case_decide as Hk.
  - rewrite Hk, lookup_insert_eq. rewrite IH. by destruct (filter _ _).
  - rewrite lookup_insert_ne by done. rewrite app_nil_r. done.
Qed.

Lemma gather_used pm l x :
  x ∈ ad_used (foldl (gather pm) noAdjacencies l) ↔
  is_Some (pm !! x) ∧ ∃ ln, ln ∈ l ∧ neighborKey ln.2 = x.
Proof.
  apply (foldl_inv (gather pm) (λ d s, x ∈ ad_used s ↔
    is_Some (pm !! x) ∧ ∃ ln, ln ∈ d ∧ neighborKey ln.2 = x)); [set_solver|].
  intros d [local n] s IH. simpl. setoid_rewrite elem_of_app. setoid_rewrite list_elem_of_singleton.
  destruct (pm !! neighborKey n) as [m|] eqn:Hm.
  - rewrite elem_of_union, elem_of_singleton, IH. split.
    + intros [->|(? & ln & ? & ?)]; [|naive_solver]. split; [by eauto|]. exists (local, n). naive_solver.
    + intros [? (ln & [?| ->] & Hx)]; [right; eauto|]. by left.
  - rewrite IH. split; [naive_solver|]. intros [Hx (ln & [?| ->] & Hx')]; [eauto|].
    simpl in Hx'. subst. by rewrite Hm in Hx.
Qed.

(** ** Choosing an edge of each group *)

Definition chosen (es : list GraphEdge) : option GraphEdge := head (sort_Slice edge_text es).

(** The diagnostics of one group. *)
Definition groupDiagnostics (nodes : gset string) (es : list GraphEdge) : list GraphDiagnostic :=
  match sort_Slice edge_text es with
  | [] => []
  | (edge :: _) as sorted =>
      (if 1 <? llen sorted
       then [duplicateAdjacency edge (edge_text edge != edge_text (List.last sorted edge))] else [])
      ++ (if bool_decide (ge_Peer edge ∈ nodes) then [] else [unknownPeer edge])
  end.

Definition settle (nodes : gset string) (s : resolved) (kv : string * list GraphEdge) : resolved := {|
  rs_complete := rs_complete s && (groupDiagnostics nodes kv.2 == []);
  rs_edges := rs_edges s ++ option_list (chosen kv.2);
  rs_diagnostics := rs_diagnostics s ++ groupDiagnostics nodes kv.2;
|}.

Lemma app_nil_decide {A} `{EqDecision A} (l k : list A) :
  bool_decide (l ++ k = []) = bool_decide (l = []) && bool_decide (k = []).
Proof. destruct l, k; done. Qed.

Lemma resolveStep_guarded nodes s kv :
  (kv.2 ≠ [] ∧ resolveStep nodes s kv = inl (settle nodes s kv))
  ∨ (¬ kv.2 ≠ [] ∧ ∃ e, resolveStep nodes s kv = inr e).
Proof.
  unfold resolveStep, settle, groupDiagnostics, chosen.
  pose proof (sort_Slice_perm edge_text kv.2) as Hp.
  destruct (sort_Slice edge_text kv.2) as [|e l] eqn:Hs.
  - right. apply Permutation_nil in Hp as ->. split; [by intros []|eauto].
  - left. split; [by intros Hn; rewrite Hn in Hp; apply Permutation_nil_r in Hp|].
    cbn [head option_list]. by rewrite app_nil_decide, andb_assoc.
Qed.

Lemma resolve_spec nodes s l s' :
  fold_err (resolveStep nodes) s l = inl s' ↔
  (∀ kv, kv ∈ l → kv.2 ≠ []) ∧ s' = foldl (settle nodes) s l.
Proof. apply fold_err_guarded. intros. apply resolveStep_guarded. Qed.

Lemma settle_spec nodes s l :
  let s' := foldl (settle nodes) s l in
  let diagnostics := l ≫= λ kv, groupDiagnostics nodes kv.2 in
  (rs_complete s' = true ↔ rs_complete s = true ∧ diagnostics = [])
  ∧ rs_edges s' = rs_edges s ++ (l ≫= λ kv, option_list (chosen kv.2))
  ∧ rs_diagnostics s' = rs_diagnostics s ++ diagnostics.
Proof.
  cbv zeta. induction l as [|kv l IH] using rev_ind.
  { simpl. rewrite !app_nil_r. naive_solver. }
  rewrite foldl_app, !bind_app. destruct IH as (IHc & IHe & IHd). simpl.
  rewrite andb_true_iff, IHc, IHe, IHd, bool_decide_eq_true, !app_nil_r, <- !app_assoc.
  split; [|done]. split; [by intros [[? ->] ->]|]. by intros [? [? ->]%app_eq_nil].
Qed.

(** ** One edge per group *)

Lemma chosen_elem es e : chosen es = Some e → e ∈ es.
Proof.
  unfold chosen. intros Hh. rewrite <- (sort_Slice_perm edge_text es).
  destruct (sort_Slice edge_text es); simplify_eq/=. by left.
Qed.

Lemma chosen_nonempty es : es ≠ [] → ∃ e, chosen es = Some e.
Proof.
  unfold chosen. intros Hne. pose proof (sort_Slice_perm edge_text es) as Hp.
  destruct (sort_Slice edge_text es) as [|e l]; [|by exists e].
  by apply Permutation_nil in Hp.
Qed.

Lemma groupDiagnostics_nil nodes es :
  es ≠ [] → groupDiagnostics nodes es = [] ↔ ∃ e, es = [e] ∧ ge_Peer e ∈ nodes.
Proof.
  intros Hne. unfold groupDiagnostics. pose proof (sort_Slice_perm edge_text es) as Hp.
  destruct (sort_Slice edge_text es) as [|e l]; [by apply Permutation_nil in Hp|].
  destruct l as [|e' l].
  - apply Permutation_singleton_l in Hp as <-. cbn [llen length].
    change (1 <? llen [e]) with false. cbn [app].
    case_bool_decide as Hk; (split; [intros Hd; try done|]).
    + by exists e.
    + done.
    + by intros (? & [= <-] & ?).
  - rewrite (proj2 (Z.ltb_lt 1 _)) by (unfold llen; simpl; lia). split; [done|].
    intros (e0 & -> & _). apply Permutation_length in Hp. done.
Qed.

(** The edges of all groups, in the order [entries] of the map. *)
Definition picked (entries : list (string * list GraphEdge)) : list GraphEdge :=
  entries ≫= λ kv, option_list (chosen kv.2).

Definition grouped (pm : gmap string PeerIdentityMapping) (l : list (string * GraphNeighbor))
  : gmap string (list GraphEdge) :=
  ad_seen (foldl (gather pm) noAdjacencies l).

Lemma grouped_lookup pm l k es :
  grouped pm l !! k = Some es ↔ es = group k (edges_of pm l) ∧ es ≠ [].
Proof.
  unfold grouped. rewrite gather_seen. destruct (group k (edges_of pm l)); naive_solver.
Qed.

Lemma group_elem e k es : e ∈ group k es ↔ e ∈ es ∧ edgeKey e = k.
Proof. unfold group. rewrite list_elem_of_filter. tauto. Qed.

Lemma option_list_elem {A} (x : A) mx : x ∈ option_list mx ↔ mx = Some x.
Proof. destruct mx; simpl; [rewrite list_elem_of_singleton|]; set_solver. Qed.

Lemma picked_elem pm l entries e :
  entries ≡ₚ map_to_list (grouped pm l) →
  e ∈ picked entries ↔ chosen (group (edgeKey e) (edges_of pm l)) = Some e.
Proof.
  intros Hp. unfold picked. rewrite list_elem_of_bind. setoid_rewrite option_list_elem.
  setoid_rewrite Hp. split.
  - intros ([k es] & Hc & [-> _]%elem_of_map_to_list%grouped_lookup). simpl in Hc.
    by pose proof (chosen_elem _ _ Hc) as [_ ->]%group_elem.
  - intros Hc. exists (edgeKey e, group (edgeKey e) (edges_of pm l)). split; [done|].
    apply elem_of_map_to_list, grouped_lookup. split; [done|].
    intros Hn. rewrite Hn in Hc. done.
Qed.

Lemma picked_keys pm l entries :
  entries ≡ₚ map_to_list (grouped pm l) → map edgeKey (picked entries) = entries.*1.
Proof.
  intros Hp. assert (∀ k es, (k, es) ∈ entries → ∃ e, chosen es = Some e ∧ edgeKey e = k) as He.
  { intros k es. rewrite Hp. intros [-> Hne]%elem_of_map_to_list%grouped_lookup.
    destruct (chosen_nonempty _ Hne) as [e Hc]. exists e. split; [done|].
    by apply chosen_elem, group_elem in Hc as [_ ?]. }
  clear Hp. unfold picked. induction entries as [|[k es] entries IH]; [done|]. csimpl.
  destruct (He k es) as (e & -> & <-); [by left|]. simpl. f_equal. apply IH.
  intros. apply He. by right.
Qed.

Lemma picked_NoDup pm l entries :
  entries ≡ₚ map_to_list (grouped pm l) → NoDup (map edgeKey (picked entries)).
Proof.
  intros Hp. rewrite (picked_keys pm l) by done. rewrite Hp. apply NoDup_fst_map_to_list.
Qed.

(** ** The order of the edges *)

Definition edge_lt (a b : GraphEdge) : Prop :=
  str_lt (ge_Local a) (ge_Local b)
  ∨ (ge_Local a = ge_Local b ∧ str_lt (ge_Identity a) (ge_Identity b)).

Lemma edge_le_iff a b :
  edge_le a b ↔ str_lt (ge_Local a) (ge_Local b)
    ∨ (ge_Local a = ge_Local b ∧ String.le (ge_Identity a) (ge_Identity b)).
Proof.
  unfold edge_le. rewrite <- (str_le_lt (ge_Local a)). case_decide; intuition.
Qed.

#[export] Instance edge_le_total : Total edge_le.
Proof.
  intros a b. unfold edge_le. destruct (decide (ge_Local a = ge_Local b)) as [He|He].
  - rewrite decide_True by done. apply (total String.le).
  - rewrite decide_False by congruence. apply (total String.le).
Qed.

#[export] Instance edge_le_trans : Transitive edge_le.
Proof.
  intros a b c. rewrite !edge_le_iff. intros [Hab|[Hab Iab]] [Hbc|[Hbc Ibc]].
  - left. by etrans.
  - left. by rewrite <- Hbc.
  - left. by rewrite Hab.
  - right. split; [congruence|]. by etrans.
Qed.

Lemma edge_le_lt a b : edge_le a b → edgeKey a ≠ edgeKey b → edge_lt a b.
Proof.
  rewrite edge_le_iff. intros [?|[Hl Hi]] Hk; [by left|]. right. split; [done|].
  apply str_le_lt. split; [done|]. intros He. destruct Hk. unfold edgeKey. by rewrite Hl, He.
Qed.

Lemma edges_sorted es : NoDup (map edgeKey es) → StronglySorted edge_lt (merge_sort edge_le es).
Proof.
  pose proof (StronglySorted_merge_sort edge_le es) as Hs. intros Hnd.
  assert (NoDup (map edgeKey (merge_sort edge_le es))) as Hnd'.
  { assert (map edgeKey (merge_sort edge_le es) ≡ₚ map edgeKey es) as ->; [|done].
    apply (fmap_Permutation edgeKey), merge_sort_Permutation. }
  clear Hnd. induction Hs as [|e l _ IH Hall]; [constructor|]. simpl in Hnd'.
  apply NoDup_cons in Hnd' as [Hx Hnd]. constructor; [by apply IH|].
  rewrite Forall_forall in Hall. apply Forall_forall. intros e' He'.
  apply edge_le_lt; [by apply Hall|]. intros Hk. apply Hx. rewrite Hk.
  apply list_elem_of_fmap. by exists e'.
Qed.

Lemma edge_le_antisym a b : edge_le a b → edge_le b a → edgeKey a = edgeKey b.
Proof.
  rewrite !edge_le_iff. intros [Hab|[Hl Hab]] [Hba|[Hl' Hba]].
  - by destruct (irreflexivity str_lt (ge_Local a)); etrans.
  - rewrite Hl' in Hab. by apply irreflexivity in Hab; [|apply _].
  - rewrite Hl in Hba. by apply irreflexivity in Hba; [|apply _].
  - unfold edgeKey. by rewrite Hl, (anti_symm String.le _ _ Hab Hba).
Qed.

Lemma NoDup_map_inj {A B} (f : A → B) l a b :
  NoDup (map f l) → a ∈ l → b ∈ l → f a = f b → a = b.
Proof.
  induction l as [|x l IH]; simpl; [by intros _ ?%not_elem_of_nil|].
  rewrite NoDup_cons, !elem_of_cons. intros [Hx Hnd] [->|Ha] [->|Hb] Hf; auto.
  - destruct Hx. rewrite Hf. by apply list_elem_of_fmap_2.
  - destruct Hx. rewrite <- Hf. by apply list_elem_of_fmap_2.
Qed.

(** Which order the edges were in before sorting does not matter. *)
Lemma edges_sorted_perm es es' :
  NoDup (map edgeKey es) → es ≡ₚ es' → merge_sort edge_le es = merge_sort edge_le es'.
Proof.
  intros Hnd Hp. apply (StronglySorted_unique_strong edge_le).
  - intros a b Ha Hb Hab Hba. rewrite merge_sort_Permutation in Ha.
    rewrite merge_sort_Permutation, <- Hp in Hb.
    apply (NoDup_map_inj edgeKey es); auto using edge_le_antisym.
  - apply StronglySorted_merge_sort; apply _.
  - apply StronglySorted_merge_sort; apply _.
  - by rewrite !merge_sort_Permutation.
Qed.
End edges.
