(* ===== verification/GraphBuild.v ===== *)
(** * The observed topology graph: BuildGraph as a whole

    src/internal/topologygraph/graph.go: when [BuildGraph] succeeds, and what the
    graph it returns consists of, for every order of its loops over maps. *)

From S2P Require Import Prelude GoLib GoTime Json JsonProofs Interfaces LedgerData LedgerSpec AdminPolicyHash AdminPolicyHashProofs Identity Health Graph GraphProofs GraphEdges.

Section build.
Context `{HL : HashLib}.

(** The devices that were observed, and with them the external nodes. *)
Definition devices (obs : list GraphObservation) : gset string := list_to_set (map local_id obs).

Definition known_nodes (obs : list GraphObservation) (pm : gmap string PeerIdentityMapping)
  : gset string :=
  devices obs ∪ externalIDs (map_to_list pm).

(** Everything the guards of [BuildGraph] require, before the diagnostics. *)
Record accepted (obs : list GraphObservation) (p : GraphPolicy)
    (pm : gmap string PeerIdentityMapping) : Prop := {
  ac_limits : exceedsHardBounds (graphLimits p) = false;
  ac_count : llen obs ≤ gl_Nodes (graphLimits p);
  ac_observations o : o ∈ obs → observation_valid p o;
  ac_mappings : validatedPeerMappings (gp_PeerMappings p) (gl_PeerMappings (graphLimits p)) = inl pm;
  ac_external : devices obs ## externalIDs (map_to_list pm);
  ac_nodes : Z.of_nat (size (known_nodes obs pm)) ≤ gl_Nodes (graphLimits p);
  ac_input : llen (flatNeighbors obs) ≤ gl_InputNeighbors (graphLimits p);
  ac_fields ln : ln ∈ flatNeighbors obs → overlongNeighbor ln.2 = false;
  ac_edges : mlen (grouped pm (flatNeighbors obs)) ≤ gl_Edges (graphLimits p);
}.

(** The diagnostics before they are sorted, for given orders of the maps. *)
Definition rawDiagnostics (obs : list GraphObservation) (p : GraphPolicy)
    (pm : gmap string PeerIdentityMapping) (declared : list DeclaredLink)
    (edges : list GraphEdge) (entries : list (string * list GraphEdge))
    (mappings : list (string * PeerIdentityMapping)) : list GraphDiagnostic :=
  let nodes := known_nodes obs pm in
  (sc_diagnostics (foldl (observe p) emptyScan obs)
   ++ (entries ≫= λ kv, groupDiagnostics nodes kv.2))
  ++ asymmetricDiagnostics edges nodes (externalIDs (map_to_list pm))
  ++ (mappings ≫= mappingDiagnostics nodes
        (ad_used (foldl (gather pm) noAdjacencies (flatNeighbors obs))))
  ++ declaredDrift edges declared.

(** The graph for given orders of the maps. *)
Record assembled (obs : list GraphObservation) (p : GraphPolicy)
    (pm : gmap string PeerIdentityMapping) (declared : list DeclaredLink)
    (entries : list (string * list GraphEdge)) (mappings : list (string * PeerIdentityMapping))
    (g : Graph) : Prop := {
  as_nodes : g_Nodes g = sort_Strings (sc_list (foldl (observe p) emptyScan obs)
                                        ++ elements (externalIDs (map_to_list pm)));
  as_edges : g_Edges g = merge_sort edge_le (picked entries);
  as_diagnostics : g_Diagnostics g =
    sort_Slice diagnostic_text (rawDiagnostics obs p pm declared (g_Edges g) entries mappings);
  as_complete : g_Complete g = true ↔
    (sc_complete (foldl (observe p) emptyScan obs) = true
     ∧ (entries ≫= λ kv, groupDiagnostics (known_nodes obs pm) kv.2) = [])
    ∧ ∀ d, d ∈ g_Diagnostics g → gd_Severity d ≠ "Error";
  as_hash : g_EvidenceHash g =
    graphHash (g_Complete g) (g_Nodes g) (g_Edges g) (g_Diagnostics g);
}.

Lemma or_default_pos v d : 0 < d → 0 < or_default v d.
Proof. unfold or_default. destruct (Z.leb_spec v 0); lia. Qed.

Lemma limits_pos p :
  0 < gl_Nodes (graphLimits p) ∧ 0 < gl_InputNeighbors (graphLimits p) ∧ 0 < gl_Edges (graphLimits p).
Proof. split_and!; by apply or_default_pos. Qed.

Lemma noAdjacencies_ok p :
  ad_input noAdjacencies ≤ gl_InputNeighbors (graphLimits p)
  ∧ mlen (ad_seen noAdjacencies) ≤ gl_Edges (graphLimits p).
Proof.
  destruct (limits_pos p) as (_ & Hi & He). change (ad_input noAdjacencies) with 0.
  change (mlen (ad_seen noAdjacencies)) with 0. lia.
Qed.

Lemma no_errors (ds : list GraphDiagnostic) :
  existsb (λ d, gd_Severity d == "Error") ds = false ↔ ∀ d, d ∈ ds → gd_Severity d ≠ "Error".
Proof.
  rewrite <- not_true_iff_false, existsb_exists. setoid_rewrite bool_decide_eq_true.
  setoid_rewrite <- list_elem_of_In. naive_solver.
Qed.

Lemma grouped_entries pm l kv :
  kv ∈ map_to_list (grouped pm l) → kv.2 ≠ [].
Proof. destruct kv as [k es]. by intros [_ ?]%elem_of_map_to_list%grouped_lookup. Qed.

(** What the loops before the diagnostics leave. *)
Definition beforeDiagnostics `{MapRange} (obs : list GraphObservation) (p : GraphPolicy)
    (pm : gmap string PeerIdentityMapping) (ex : externals) : Graph + goerror :=
  finishGraph (graphLimits p) p pm ex
    (ad_used (foldl (gather pm) noAdjacencies (flatNeighbors obs)))
    (foldl (settle (ex_nodes ex))
       {| rs_complete := sc_complete (foldl (observe p) emptyScan obs); rs_edges := [];
          rs_diagnostics := sc_diagnostics (foldl (observe p) emptyScan obs) |}
       (range_entries 1 (grouped pm (flatNeighbors obs)))).

Lemma devices_externals p obs :
  externals_of (devices obs) (sc_list (foldl (observe p) emptyScan obs))
    {| ex_list := sc_list (foldl (observe p) emptyScan obs);
       ex_nodes := sc_nodes (foldl (observe p) emptyScan obs); ex_external := ∅ |}.
Proof.
  destruct (observe_nodes p obs) as (-> & _). split_and!; simpl; [set_solver|set_solver|].
  by rewrite elements_empty, app_nil_r.
Qed.

Lemma devices_size p obs max :
  llen obs ≤ max → Z.of_nat (size (sc_nodes (foldl (observe p) emptyScan obs))) ≤ max.
Proof.
  intros Hl. destruct (observe_nodes p obs) as (Hn & Hnd & He & Hlen).
  assert (sc_nodes (foldl (observe p) emptyScan obs)
          = list_to_set (sc_list (foldl (observe p) emptyScan obs))) as ->.
  { apply set_eq. intros x. by rewrite elem_of_list_to_set, He. }
  rewrite size_list_to_set by done. unfold llen in Hl. lia.
Qed.

Lemma BuildGraph_loops `{MR : MapRange, !MapRangeSpec MR} obs p g :
  BuildGraph obs p = inl g ↔
  ∃ pm ex, accepted obs p pm ∧ ex_nodes ex = known_nodes obs pm
    ∧ ex_external ex = externalIDs (map_to_list pm)
    ∧ ex_list ex ≡ₚ sc_list (foldl (observe p) emptyScan obs)
                     ++ elements (externalIDs (map_to_list pm))
    ∧ fold_err (externalStep (gl_Nodes (graphLimits p)))
        {| ex_list := sc_list (foldl (observe p) emptyScan obs);
           ex_nodes := sc_nodes (foldl (observe p) emptyScan obs); ex_external := ∅ |}
        (range_entries 0 pm) = inl ex
    ∧ beforeDiagnostics obs p pm ex = inl g.
Proof.
  unfold BuildGraph. destruct (limits_pos p) as (Hpn & Hpi & Hpe).
  destruct (noAdjacencies_ok p) as [Hok1 Hok2]. split.
  - destruct (exceedsHardBounds _) eqn:Hb; [done|].
    destruct (Z.ltb_spec (gl_Nodes (graphLimits p)) (llen obs)) as [|Hc]; [done|].
    destruct (fold_err (observeStep p) _ _) as [sc|] eqn:Ho; [|done].
    apply observations_spec in Ho as [Hov ->].
    destruct (validatedPeerMappings _ _) as [pm|] eqn:Hm; [|done].
    destruct (fold_err (externalStep _) _ _) as [ex|] eqn:Hx; [|done].
    destruct (externals_spec (devices obs) _ (gl_Nodes (graphLimits p)) _ (range_entries 0 pm)
                (devices_externals p obs) (devices_size p obs _ Hc)) as [Hiff Hres].
    destruct (proj2 Hiff (ex_intro _ ex Hx)) as [Hd Hs].
    destruct (Hres ex Hx) as ((Hn & _ & Hl) & He).
    destruct (observe_nodes p obs) as (Hsn & _). fold (devices obs) in Hsn. simpl in Hs, He.
    rewrite (left_id_L ∅ _) in He. rewrite Hsn in Hs.
    rewrite (externalIDs_perm _ _ (range_entries_perm 0 _ pm)) in Hd, Hs, He.
    rewrite He in Hl, Hn.
    destruct (fold_err (neighborStep _ _ _) _ _) as [ad|] eqn:Ha; [|done].
    apply neighbors_spec in Ha as [(Hin & Hf & Hed) ->]; [|exact Hok1|exact Hok2].
    destruct (fold_err (resolveStep _) _ _) as [rs|] eqn:Hr; [|done].
    apply resolve_spec in Hr as [_ ->]. intros Hg.
    exists pm, ex. by split_and!.
  - intros (pm & ex & [Hb Hc Hov Hm Hd Hs Hin Hf Hed] & Hn & He & Hl & Hx & Hg).
    rewrite Hb, (proj2 (Z.ltb_ge _ _)) by done.
    rewrite (proj2 (observations_spec p obs _) (conj Hov eq_refl)), Hm, Hx.
    change {| ad_seen := ∅; ad_used := ∅; ad_input := 0 |} with noAdjacencies.
    rewrite (proj2 (neighbors_spec _ _ pm noAdjacencies _ _ Hok1 Hok2)
               (conj (conj Hin (conj Hf Hed)) eq_refl)).
    assert (∀ kv, kv ∈ range_entries 1 (grouped pm (flatNeighbors obs)) → kv.2 ≠ []) as Hne.
    { intros kv. rewrite (range_entries_perm 1). apply grouped_entries. }
    by rewrite (proj2 (resolve_spec (ex_nodes ex) _ _ _) (conj Hne eq_refl)).
Qed.

Lemma finishGraph_spec `{MR : MapRange} limits p pm ex used rs g :
  finishGraph limits p pm ex used rs = inl g ↔
  ∃ declared, validatedDeclaredLinks (gp_Declared p) (gl_DeclaredLinks limits) = inl declared
    ∧ llen (g_Diagnostics g) ≤ gl_Diagnostics limits
    ∧ g_Nodes g = sort_Strings (ex_list ex) ∧ g_Edges g = merge_sort edge_le (rs_edges rs)
    ∧ g_Diagnostics g = sort_Slice diagnostic_text
        (rs_diagnostics rs ++ asymmetricDiagnostics (g_Edges g) (ex_nodes ex) (ex_external ex)
         ++ (range_entries 2 pm ≫= mappingDiagnostics (ex_nodes ex) used)
         ++ declaredDrift (g_Edges g) declared)
    ∧ g_Complete g = rs_complete rs
        && negb (existsb (λ d, gd_Severity d == "Error") (g_Diagnostics g))
    ∧ g_EvidenceHash g = graphHash (g_Complete g) (g_Nodes g) (g_Edges g) (g_Diagnostics g).
Proof.
  unfold finishGraph. destruct (validatedDeclaredLinks _ _) as [declared|];
    [|split; [done|by intros (? & ? & _)]].
  destruct (Z.ltb_spec (gl_Diagnostics limits) (llen (sort_Slice diagnostic_text
    (rs_diagnostics rs ++ asymmetricDiagnostics (merge_sort edge_le (rs_edges rs)) (ex_nodes ex) (ex_external ex)
         ++ (range_entries 2 pm ≫= mappingDiagnostics (ex_nodes ex) used)
         ++ declaredDrift (merge_sort edge_le (rs_edges rs)) declared)))) as [Hlt|Hle].
  - split; [done|]. intros (? & [= <-] & Hd & _ & He & Hds & _). rewrite Hds, He in Hd. lia.
  - split; [intros [= <-]; by exists declared|].
    intros (? & [= <-] & _ & Hn & He & Hd & Hc & Hh). destruct g as [n e d c h]. simpl in *.
    subst e. subst d. subst c. by subst.
Qed.

(** [BuildGraph] succeeds exactly on accepted input with valid links and not too
    many diagnostics, and returns the assembled graph. *)
Lemma BuildGraph_spec `{MR : MapRange, !MapRangeSpec MR} obs p g :
  BuildGraph obs p = inl g ↔
  ∃ pm declared, accepted obs p pm
    ∧ validatedDeclaredLinks (gp_Declared p) (gl_DeclaredLinks (graphLimits p)) = inl declared
    ∧ llen (g_Diagnostics g) ≤ gl_Diagnostics (graphLimits p)
    ∧ assembled obs p pm declared (range_entries 1 (grouped pm (flatNeighbors obs)))
        (range_entries 2 pm) g.
Proof.
  rewrite BuildGraph_loops. split.
  - intros (pm & ex & Hac & Hn & He & Hl & _ & Hg). unfold beforeDiagnostics in Hg.
    apply finishGraph_spec in Hg as (declared & Hd & Hlen & Hnodes & Hedges & Hdiag & Hc & Hh).
    destruct (settle_spec (ex_nodes ex)
      {| rs_complete := sc_complete (foldl (observe p) emptyScan obs); rs_edges := [];
          rs_diagnostics := sc_diagnostics (foldl (observe p) emptyScan obs) |}
      (range_entries 1 (grouped pm (flatNeighbors obs)))) as (Hsc & Hse & Hsd).
    rewrite Hsd in Hdiag. rewrite Hse in Hedges. simpl in *. rewrite Hn in Hdiag, Hsc. rewrite He in Hdiag.
    exists pm, declared. split_and!; try done. split; try done.
    + rewrite Hnodes. by apply sort_Strings_perm_eq.
    + rewrite Hc, andb_true_iff, negb_true_iff, no_errors, Hn, Hsc. done.
  - intros (pm & declared & Hac & Hd & Hlen & [Hnodes Hedges Hdiag Hc Hh]).
    destruct (externals_spec (devices obs) _ (gl_Nodes (graphLimits p)) _ (range_entries 0 pm)
                (devices_externals p obs) (devices_size p obs _ (ac_count _ _ _ Hac))) as [Hiff Hres].
    destruct (observe_nodes p obs) as (Hsn & _). fold (devices obs) in Hsn.
    rewrite (externalIDs_perm _ _ (range_entries_perm 0 _ pm)) in Hiff, Hres.
    destruct (proj1 Hiff) as [ex Hx].
    { simpl. rewrite Hsn. split; apply Hac. }
    destruct (Hres ex Hx) as ((Hn & _ & Hl) & He). simpl in He. rewrite (left_id_L ∅ _) in He.
    rewrite He in Hl, Hn.
    exists pm, ex. split_and!; try done. unfold beforeDiagnostics.
    apply finishGraph_spec. exists declared.
    destruct (settle_spec (ex_nodes ex)
      {| rs_complete := sc_complete (foldl (observe p) emptyScan obs); rs_edges := [];
          rs_diagnostics := sc_diagnostics (foldl (observe p) emptyScan obs) |}
      (range_entries 1 (grouped pm (flatNeighbors obs)))) as (Hsc & Hse & Hsd).
    rewrite Hsd, Hse. simpl in *. split_and!; try done.
    + rewrite Hnodes. symmetry. by apply sort_Strings_perm_eq.
    + rewrite Hdiag at 1. unfold rawDiagnostics. by rewrite Hn, He.
    + apply eq_true_iff_eq. by rewrite Hc, andb_true_iff, negb_true_iff, no_errors, Hsc, Hn.
Qed.
End build.
