(* ===== verification/GraphTheorems.v ===== *)
(** * The observed topology graph: properties

    src/internal/topologygraph/graph.go: what a graph that [BuildGraph] returns
    promises, and that it does not depend on the order of its input. *)

From S2P Require Import Prelude GoLib GoTime Json JsonProofs Interfaces LedgerData LedgerSpec AdminPolicyProofs AdminPolicyHash AdminPolicyHashProofs Identity Health Graph GraphProofs GraphEdges GraphBuild.

Lemma bind_nil {A B} (f : A → list B) l : l ≫= f = [] ↔ ∀ x, x ∈ l → f x = [].
Proof.
  induction l as [|x l IH]; csimpl; [set_solver|]. split.
  - intros [Hx Hl]%app_eq_nil y [->|Hy]%elem_of_cons; [done|]. by apply IH.
  - intros Hall. rewrite (Hall x) by (by left). apply IH. intros y Hy. apply Hall. by right.
Qed.

(** An element of a list of at most one. *)
Ltac at_most_one H :=
  first [by apply not_elem_of_nil in H | apply list_elem_of_singleton in H as ->].

Section sound.
Context `{HL : HashLib}.

(** ** The diagnostics *)

(** Every diagnostic of the loop over the observations is an error. *)
Lemma observe_errors p obs d :
  d ∈ sc_diagnostics (foldl (observe p) emptyScan obs) → gd_Severity d = "Error".
Proof.
  apply (foldl_inv (observe p) (λ _ s, ∀ d, d ∈ sc_diagnostics s → gd_Severity d = "Error"));
    [by intros ? ?%not_elem_of_nil|]. clear d. intros done o s IH d.
  assert (∀ d, d ∈ freshnessDiagnostics p (local_id o) o → gd_Severity d = "Error") as Hf.
  { intros d'. unfold freshnessDiagnostics. repeat case_match; intros Hd; by at_most_one Hd. }
  unfold observe. simpl. case_bool_decide; simpl; rewrite !elem_of_app;
    (intros [[?|?]|Hd]; [auto..|]); case_match; by at_most_one Hd.
Qed.

(** The diagnostics that keep a graph from being complete. *)
Definition blocking (d : GraphDiagnostic) : Prop :=
  gd_Severity d = "Error" ∨ gd_Code d = "UnknownPeer".

Lemma group_blocking nodes es d : d ∈ groupDiagnostics nodes es → blocking d.
Proof.
  unfold groupDiagnostics, blocking. destruct (sort_Slice edge_text es) as [|e l];
    [by intros ?%not_elem_of_nil|].
  rewrite elem_of_app. intros [Hd|Hd]; case_match; at_most_one Hd; simpl; auto.
Qed.

Lemma asymmetric_harmless edges nodes ext d : d ∈ asymmetricDiagnostics edges nodes ext → ¬ blocking d.
Proof.
  unfold asymmetricDiagnostics, asymmetricDiagnostic, blocking. rewrite list_elem_of_bind.
  intros (e & Hd & _). repeat case_match; at_most_one Hd; by intros [?|?].
Qed.

Lemma mapping_blocking nodes used (mappings : list (string * PeerIdentityMapping)) :
  (∀ d, d ∈ mappings ≫= mappingDiagnostics nodes used → ¬ blocking d) ↔
  ∀ kv, kv ∈ mappings → pim_External kv.2 = false → pim_PhysicalID kv.2 ∈ nodes.
Proof.
  setoid_rewrite list_elem_of_bind. unfold mappingDiagnostics, blocking. split.
  - intros Hall kv Hkv He. destruct (decide (pim_PhysicalID kv.2 ∈ nodes)) as [|Hn]; [done|].
    exfalso. eapply Hall.
    { exists kv. split; [|done]. apply elem_of_app. right.
      rewrite bool_decide_eq_false_2, He by done. by left. }
    by left.
  - intros Hall d (kv & Hd & Hkv). rewrite elem_of_app in Hd. destruct Hd as [Hd|Hd].
    + case_match; at_most_one Hd. by intros [?|?].
    + case_match eqn:Hc; [|by at_most_one Hd]. rewrite andb_true_iff, !negb_true_iff, bool_decide_eq_false in Hc.
      destruct Hc as [Hn He]. by destruct Hn; apply Hall.
Qed.

(** A declared link is seen on an edge; a link without a source matches any. *)
Definition link_observed (link : DeclaredLink) (e : GraphEdge) : Prop :=
  if decide (dl_Source link = "") then linkWithoutSource link = edgeLinkWithoutSource e
  else link_key link = edgeLink e.

Lemma missingLink_nil edges link d :
  d ∈ missingLink (list_to_set (map edgeLink edges)) (list_to_set (map edgeLinkWithoutSource edges)) link →
  gd_Severity d = "Error".
Proof. unfold missingLink. case_match; intros Hd; by at_most_one Hd. Qed.

Lemma missingLink_observed edges link :
  missingLink (list_to_set (map edgeLink edges)) (list_to_set (map edgeLinkWithoutSource edges)) link = []
  ↔ ∃ e, e ∈ edges ∧ link_observed link e.
Proof.
  unfold missingLink, link_observed. destruct (decide (dl_Source link = "")) as [He|He].
  - rewrite (bool_decide_eq_true_2 _ He). case_bool_decide as Hin; rewrite elem_of_list_to_set, list_elem_of_fmap in Hin;
      naive_solver.
  - rewrite (bool_decide_eq_false_2 _ He). case_bool_decide as Hin; rewrite elem_of_list_to_set, list_elem_of_fmap in Hin;
      naive_solver.
Qed.

Lemma drift_blocking edges declared :
  (∀ d, d ∈ declaredDrift edges declared → ¬ blocking d) ↔
  ∀ link, link ∈ declared → ∃ e, e ∈ edges ∧ link_observed link e.
Proof.
  setoid_rewrite <- missingLink_observed. rewrite <- bind_nil. unfold declaredDrift.
  setoid_rewrite elem_of_app. set (missing := declared ≫= _). split.
  - intros Hall. destruct missing as [|d l] eqn:Hm; [done|]. exfalso.
    apply (Hall d); [left; by left|]. left.
    assert (d ∈ missing) as (link & Hd & _)%list_elem_of_bind by (rewrite Hm; by left).
    by apply missingLink_nil in Hd.
  - intros -> d [Hd|Hd]; [by at_most_one Hd|]. destruct declared; [by at_most_one Hd|].
    apply list_elem_of_bind in Hd as (e & Hd & _). unfold unexpectedLink in Hd.
    case_match; at_most_one Hd. by intros [?|?].
Qed.

(** Past the loop over the groups an error is all that blocks. *)
Lemma later_codes edges nodes ext used mappings declared d :
  d ∈ asymmetricDiagnostics edges nodes ext ++ (mappings ≫= mappingDiagnostics nodes used)
      ++ declaredDrift edges declared →
  gd_Code d ≠ "UnknownPeer".
Proof.
  rewrite !elem_of_app. unfold declaredDrift. rewrite elem_of_app, !list_elem_of_bind.
  intros [Hd|[(kv & Hd & _)|[(link & Hd & _)|Hd]]].
  - apply asymmetric_harmless in Hd. intros Hc. apply Hd. by right.
  - unfold mappingDiagnostics in Hd. apply elem_of_app in Hd as [Hd|Hd]; case_match; by at_most_one Hd.
  - unfold missingLink in Hd. repeat case_match; by at_most_one Hd.
  - destruct declared; [by at_most_one Hd|]. apply list_elem_of_bind in Hd as (e & Hd & _).
    unfold unexpectedLink in Hd. case_match; by at_most_one Hd.
Qed.

(** ** Adjacencies observed once *)

Lemma group_nil k es : k ∉ map edgeKey es → group k es = [].
Proof.
  intros Hk. destruct (group k es) as [|e l] eqn:Hg; [done|].
  assert (e ∈ group k es) as [He <-]%group_elem by (rewrite Hg; by left).
  by destruct Hk; apply list_elem_of_fmap_2.
Qed.

Lemma groups_single es :
  NoDup (map edgeKey es) ↔ ∀ k, (length (group k es) ≤ 1)%nat.
Proof.
  induction es as [|e es IH]; simpl; [split; [simpl; lia|constructor]|].
  rewrite NoDup_cons, IH. unfold group. setoid_rewrite filter_cons. split.
  - intros [Hx Hall] k. case_decide as Hk; [|apply Hall]. subst. fold (group (edgeKey e) es).
    by rewrite (group_nil _ _ Hx).
  - intros Hall. split.
    + intros (e' & He' & Hin)%list_elem_of_fmap. specialize (Hall (edgeKey e)).
      rewrite decide_True in Hall by done. simpl in Hall.
      assert (e' ∈ filter (λ e0, edgeKey e0 = edgeKey e) es) as Hf by (by apply list_elem_of_filter).
      destruct (filter _ es); [by apply not_elem_of_nil in Hf|]. simpl in Hall. lia.
    + intros k. specialize (Hall k). case_decide; simpl in Hall; lia.
Qed.

Lemma groups_clean pm l entries nodes :
  entries ≡ₚ map_to_list (grouped pm l) →
  (entries ≫= λ kv, groupDiagnostics nodes kv.2) = [] ↔
  NoDup (map edgeKey (edges_of pm l)) ∧ ∀ e, e ∈ edges_of pm l → ge_Peer e ∈ nodes.
Proof.
  intros Hp. rewrite bind_nil, groups_single. setoid_rewrite Hp. split.
  - intros Hall.
    assert (∀ k, group k (edges_of pm l) ≠ [] →
              ∃ e, group k (edges_of pm l) = [e] ∧ ge_Peer e ∈ nodes) as Hg.
    { intros k Hne. apply groupDiagnostics_nil; [done|]. apply (Hall (k, group k (edges_of pm l))).
      by apply elem_of_map_to_list, grouped_lookup. }
    split.
    + intros k. destruct (decide (group k (edges_of pm l) = [])) as [->|Hne]; [simpl; lia|].
      by destruct (Hg k Hne) as (e & -> & _).
    + intros e He. assert (e ∈ group (edgeKey e) (edges_of pm l)) as Hin by (by apply group_elem).
      destruct (Hg (edgeKey e)) as (e' & Hs & Hk); [by intros Hn; rewrite Hn in Hin; apply not_elem_of_nil in Hin|].
      rewrite Hs in Hin. by apply list_elem_of_singleton in Hin as ->.
  - intros [Hone Hpeer] [k es] [-> Hne]%elem_of_map_to_list%grouped_lookup. simpl.
    apply groupDiagnostics_nil; [done|]. specialize (Hone k).
    destruct (group k (edges_of pm l)) as [|e [|e' r]] eqn:Hg; [done| |simpl in Hone; lia].
    exists e. split; [done|]. apply Hpeer.
    assert (e ∈ group k (edges_of pm l)) as [? _]%group_elem by (rewrite Hg; by left). done.
Qed.

(** ** What a graph promises *)

(** The evidence is complete: one current observation of every device, every
    adjacency reported once and by a known peer, every mapped device in scope and
    every declared link observed. *)
Record evidence_complete (obs : list GraphObservation) (p : GraphPolicy)
    (pm : gmap string PeerIdentityMapping) (declared : list DeclaredLink) (g : Graph) : Prop := {
  ec_devices : NoDup (map local_id obs);
  ec_current o : o ∈ obs → observation_current p o;
  ec_adjacencies : NoDup (map edgeKey (edges_of pm (flatNeighbors obs)));
  ec_peers e : e ∈ edges_of pm (flatNeighbors obs) → ge_Peer e ∈ g_Nodes g;
  ec_mapped k m : pm !! k = Some m → pim_External m = false → pim_PhysicalID m ∈ g_Nodes g;
  ec_declared link : link ∈ declared → ∃ e, e ∈ g_Edges g ∧ link_observed link e;
}.

Record graph_sound (obs : list GraphObservation) (p : GraphPolicy)
    (pm : gmap string PeerIdentityMapping) (declared : list DeclaredLink) (g : Graph) : Prop := {
  gs_nodes_sorted : StronglySorted str_lt (g_Nodes g);
  gs_nodes x : x ∈ g_Nodes g ↔
    (∃ o, o ∈ obs ∧ local_id o = x)
    ∨ (∃ m, m ∈ gp_PeerMappings p ∧ pim_External m = true
         ∧ CanonicalPhysicalIdentity (pim_PhysicalID m) = inl x);
  gs_edges_sorted : StronglySorted edge_lt (g_Edges g);
  gs_edges_observed e : e ∈ g_Edges g → e ∈ edges_of pm (flatNeighbors obs);
  gs_edges_all e : e ∈ edges_of pm (flatNeighbors obs) →
    ∃ e', e' ∈ g_Edges g ∧ edgeKey e' = edgeKey e;
  gs_bounds : llen (g_Nodes g) ≤ gl_Nodes (graphLimits p) ≤ MaxGraphNodes
    ∧ llen (g_Edges g) ≤ gl_Edges (graphLimits p) ≤ MaxGraphEdges
    ∧ llen (g_Diagnostics g) ≤ gl_Diagnostics (graphLimits p) ≤ DefaultGraphMaxDiagnostics;
  gs_complete : g_Complete g = true ↔ evidence_complete obs p pm declared g;
  gs_diagnosed : g_Complete g = true ↔ ∀ d, d ∈ g_Diagnostics g → ¬ blocking d;
}.

Lemma mapped_externals p limit pm x :
  validatedPeerMappings (gp_PeerMappings p) limit = inl pm →
  x ∈ externalIDs (map_to_list pm) ↔
  ∃ m, m ∈ gp_PeerMappings p ∧ pim_External m = true
    ∧ CanonicalPhysicalIdentity (pim_PhysicalID m) = inl x.
Proof.
  unfold validatedPeerMappings. case_match; [done|]. intros Hpm.
  pose proof (peerMappings_spec _ _ Hpm) as Hs. rewrite externalIDs_elem.
  setoid_rewrite elem_of_map_to_list. setoid_rewrite Hs. split.
  - intros (k & m & (m' & id & ? & ? & _ & ->) & ? & <-). by exists m'.
  - intros (m & ? & ? & ?). exists (mappingKey m), (normalMapping m x). split_and!; [|done|done].
    by exists m, x.
Qed.

Section assembled.
Context (obs : list GraphObservation) (p : GraphPolicy) (pm : gmap string PeerIdentityMapping).
Context (declared : list DeclaredLink) (entries : list (string * list GraphEdge)).
Context (mappings : list (string * PeerIdentityMapping)) (g : Graph).
Context (Hac : accepted obs p pm) (Hg : assembled obs p pm declared entries mappings g).
Context (Hentries : entries ≡ₚ map_to_list (grouped pm (flatNeighbors obs))).
Context (Hmappings : mappings ≡ₚ map_to_list pm).

Lemma assembled_nodes : NoDup (g_Nodes g) ∧ ∀ x, x ∈ g_Nodes g ↔ x ∈ known_nodes obs pm.
Proof using Hac Hg Hentries Hmappings.
  destruct Hg as [-> _ _ _ _]. destruct (observe_nodes p obs) as (Hn & Hnd & He & _).
  split.
  - rewrite sort_Strings_Permutation. apply NoDup_app. split_and!; [done| |apply NoDup_elements].
    intros x. rewrite He, Hn, elem_of_elements. pose proof (ac_external _ _ _ Hac).
    unfold devices in *. set_solver.
  - intros x. rewrite sort_Strings_elem, elem_of_app, He, Hn, elem_of_elements.
    unfold known_nodes, devices. by rewrite elem_of_union.
Qed.

Lemma assembled_edges e : e ∈ g_Edges g ↔ chosen (group (edgeKey e) (edges_of pm (flatNeighbors obs))) = Some e.
Proof using Hg Hentries.
  destruct Hg as [_ -> _ _ _]. rewrite merge_sort_Permutation. by apply picked_elem.
Qed.

Lemma assembled_edges_length : llen (g_Edges g) = mlen (grouped pm (flatNeighbors obs)).
Proof using Hg Hentries.
  destruct Hg as [_ -> _ _ _]. unfold llen, mlen. rewrite merge_sort_Permutation.
  rewrite <- (length_map edgeKey), (picked_keys pm _ _ Hentries), length_fmap, Hentries.
  by rewrite length_map_to_list.
Qed.

Lemma assembled_diagnostics d :
  d ∈ g_Diagnostics g ↔ d ∈ rawDiagnostics obs p pm declared (g_Edges g) entries mappings.
Proof using Hg.
  rewrite (as_diagnostics _ _ _ _ _ _ _ Hg) at 1. by rewrite sort_Slice_perm.
Qed.

Lemma assembled_diagnosed : g_Complete g = true ↔ ∀ d, d ∈ g_Diagnostics g → ¬ blocking d.
Proof using Hg.
  rewrite (as_complete _ _ _ _ _ _ _ Hg). destruct (observe_complete p obs) as (_ & -> & _).
  setoid_rewrite assembled_diagnostics. unfold rawDiagnostics. split.
  - intros [[-> ->] Hne] d Hin [He|Hc]; [by apply (Hne d)|]. by apply later_codes in Hin.
  - intros Hall. split; [|intros d Hd He; apply (Hall d Hd); by left].
    split; match goal with |- ?l = [] => destruct l as [|d l'] eqn:Hl; [done|exfalso] end;
      apply (Hall d).
    + apply elem_of_app. left. apply elem_of_app. left. by left.
    + left. apply (observe_errors p obs). rewrite Hl. by left.
    + apply elem_of_app. left. apply elem_of_app. right. by left.
    + assert (d ∈ entries ≫= λ kv, groupDiagnostics (known_nodes obs pm) kv.2)
        as (kv & Hd & _)%list_elem_of_bind by (rewrite Hl; by left).
      by eapply group_blocking.
Qed.

Lemma assembled_complete : g_Complete g = true ↔ evidence_complete obs p pm declared g.
Proof using Hac Hg Hentries Hmappings.
  destruct assembled_nodes as [_ Hnodes].
  assert ((∀ d, d ∈ g_Diagnostics g → ¬ blocking d) ↔
    (sc_diagnostics (foldl (observe p) emptyScan obs) = []
     ∧ (entries ≫= λ kv, groupDiagnostics (known_nodes obs pm) kv.2) = [])
    ∧ (∀ kv, kv ∈ mappings → pim_External kv.2 = false → pim_PhysicalID kv.2 ∈ known_nodes obs pm)
    ∧ (∀ link, link ∈ declared → ∃ e, e ∈ g_Edges g ∧ link_observed link e)) as Hsplit.
  { rewrite <- mapping_blocking, <- drift_blocking. split.
    - intros Hall. split.
      + destruct (observe_complete p obs) as (_ & <- & _).
        by apply (as_complete _ _ _ _ _ _ _ Hg), assembled_diagnosed.
      + setoid_rewrite assembled_diagnostics in Hall. unfold rawDiagnostics in Hall.
        split; intros d Hd; apply Hall; rewrite !elem_of_app; eauto.
    - intros [[Hs He] [Hm Hd]] d. rewrite assembled_diagnostics. unfold rawDiagnostics.
      rewrite Hs, He, !elem_of_app.
      intros [[?%not_elem_of_nil|?%not_elem_of_nil]|[Ha|[Hx|Hx]]]; auto.
      by eapply asymmetric_harmless. }
  rewrite assembled_diagnosed, Hsplit. destruct (observe_complete p obs) as (Hsc & Hsd & _).
  rewrite <- Hsd, Hsc, (groups_clean pm (flatNeighbors obs)) by done. setoid_rewrite Hmappings. split.
  - intros [[[? ?] [? ?]] [Hm ?]]. split; try done; [by setoid_rewrite Hnodes|].
    intros k m Hk He. apply Hnodes. apply (Hm (k, m)); [by apply elem_of_map_to_list|done].
  - intros [? ? ? Hp Hm ?]. setoid_rewrite Hnodes in Hp. split_and!; try done.
    intros [k m] Hk He. apply Hnodes. by apply (Hm k), He; apply elem_of_map_to_list.
Qed.

Lemma assembled_sound :
  llen (g_Diagnostics g) ≤ gl_Diagnostics (graphLimits p) → graph_sound obs p pm declared g.
Proof using Hac Hg Hentries Hmappings.
  intros Hdiag. destruct assembled_nodes as [Hnd Hnodes]. pose proof (ac_limits _ _ _ Hac) as Hb.
  unfold exceedsHardBounds in Hb. rewrite !orb_false_iff, !Z.ltb_ge in Hb. split.
  - apply sorted_strict; [|done]. rewrite (as_nodes _ _ _ _ _ _ _ Hg). apply sort_Strings_sorted.
  - intros x. rewrite Hnodes. unfold known_nodes, devices.
    rewrite elem_of_union, elem_of_list_to_set, list_elem_of_fmap.
    rewrite (mapped_externals _ _ _ x (ac_mappings _ _ _ Hac)). naive_solver.
  - rewrite (as_edges _ _ _ _ _ _ _ Hg). by eapply edges_sorted, picked_NoDup.
  - intros e He%assembled_edges. by apply chosen_elem, group_elem in He as [? _].
  - intros e He. destruct (chosen_nonempty (group (edgeKey e) (edges_of pm (flatNeighbors obs))))
      as [e' He'].
    { intros Hn. assert (e ∈ group (edgeKey e) (edges_of pm (flatNeighbors obs))) as Hin
        by (by apply group_elem). rewrite Hn in Hin. by apply not_elem_of_nil in Hin. }
    pose proof (chosen_elem _ _ He') as [_ Hk]%group_elem. exists e'. split; [|done].
    apply assembled_edges. by rewrite Hk.
  - rewrite assembled_edges_length. pose proof (ac_edges _ _ _ Hac).
    pose proof (ac_nodes _ _ _ Hac) as Hsz.
    assert (llen (g_Nodes g) = Z.of_nat (size (known_nodes obs pm))) as ->; [|lia].
    unfold llen. rewrite <- (size_list_to_set (C := gset string)) by done. do 2 f_equal.
    apply set_eq. intros x. by rewrite elem_of_list_to_set, Hnodes.
  - apply assembled_complete.
  - apply assembled_diagnosed.
Qed.
End assembled.

(** C35: a graph that [BuildGraph] returns, in whatever order Go visits its maps, has
    the observed devices and the administrator's external peers as its nodes, each
    once and sorted; exactly one observed edge for every reported adjacency, sorted;
    and stays within the hard bounds.  It is marked complete exactly when every device
    has one complete and fresh observation, every adjacency was reported once and
    names a known peer, every mapped device is in scope and every declared link was
    observed; equivalently, when it carries neither an error nor an unknown peer. *)
Theorem BuildGraph_sound `{MR : MapRange, !MapRangeSpec MR} obs p g :
  BuildGraph obs p = inl g →
  ∃ pm declared,
    validatedPeerMappings (gp_PeerMappings p) (gl_PeerMappings (graphLimits p)) = inl pm
    ∧ validatedDeclaredLinks (gp_Declared p) (gl_DeclaredLinks (graphLimits p)) = inl declared
    ∧ graph_sound obs p pm declared g.
Proof.
  intros (pm & declared & Hac & Hd & Hl & Hg)%BuildGraph_spec. exists pm, declared.
  split_and!; [apply Hac|done|]. eapply assembled_sound; [done|exact Hg|..|done].
  - apply range_entries_perm.
  - apply range_entries_perm.
Qed.
End sound.
