(* ===== verification/GraphText.v ===== *)
(** * The observed topology graph: its sort keys

    src/internal/topologygraph/graph.go sorts candidate edges by their JSON text and
    diagnostics by their fields separated by NUL.  On ASCII texts without NUL both
    keys tell different values apart. *)

From S2P Require Import Prelude GoLib GoTime Json JsonProofs Interfaces LedgerData LedgerSpec AdminPolicyHash AdminPolicyHashProofs Identity Health Graph GraphProofs GraphEdges GraphBuild GraphTheorems.

(** ** Plain texts *)

(** ASCII without NUL. *)
Definition plain_byte (c : Ascii.ascii) : Prop := 0 < byte_val c < 128.
Definition plain (s : string) : Prop := Forall plain_byte (bytes_of s).

#[export] Instance plain_byte_dec c : Decision (plain_byte c).
Proof. unfold plain_byte. apply _. Defined.
#[export] Instance plain_dec s : Decision (plain s).
Proof. unfold plain. apply _. Defined.

Lemma plain_ascii s : plain s → ascii_string s.
Proof.
  intros Hs. eapply Forall_impl; [exact Hs|]. unfold plain_byte, ascii_byte. simpl. lia.
Qed.

Lemma printable_plain s : all_bytes printable s = true → plain s.
Proof.
  rewrite all_bytes_spec. intros Hp. apply Forall_forall. intros c Hc. specialize (Hp c Hc).
  unfold printable in Hp. unfold plain_byte. go_bool. lia.
Qed.

Lemma Canonical_plain v c : CanonicalPhysicalIdentity v = inl c → plain c.
Proof.
  intros [Hs _]%Canonical_idemp%CanonicalPhysicalIdentity_spec.
  by apply printable_plain, identity_shape_printable.
Qed.

Lemma strip_prefix_app p l l' : strip_prefix p l = Some l' → l = p ++ l'.
Proof.
  revert l. induction p as [|a p IH]; intros [|b l]; simpl; try done; [naive_solver..|].
  case_bool_decide; [|done]. intros Hs%IH. by subst.
Qed.

Lemma strip_any_suffix ps l l' : strip_any ps l = Some l' → l' `suffix_of` l.
Proof.
  induction ps as [|p ps IH]; simpl; [done|]. destruct (strip_prefix p l) as [k|] eqn:Hs; [|done].
  intros [= ->]. apply strip_prefix_app in Hs as ->. by exists p.
Qed.

Lemma trim_front_suffix fuel ps l : trim_front fuel ps l `suffix_of` l.
Proof.
  revert l. induction fuel as [|n IH]; intros l; simpl; [done|].
  destruct (strip_any ps l) as [l'|] eqn:Hs; [|done]. etrans; [apply IH|].
  by eapply strip_any_suffix.
Qed.

Lemma TrimSpace_plain s : plain s → plain (TrimSpace s).
Proof.
  unfold plain, TrimSpace. rewrite bytes_of_of. intros Hs. apply Forall_rev.
  assert (∀ fuel ps l, Forall plain_byte l → Forall plain_byte (trim_front fuel ps l)) as Ht.
  { intros fuel ps l Hl. destruct (trim_front_suffix fuel ps l) as [k Hk].
    rewrite Hk in Hl. by apply Forall_app in Hl as [_ ?]. }
  by apply Ht, Forall_rev, Ht.
Qed.

Lemma bytes_of_app s t : bytes_of (s +:+ t) = bytes_of s ++ bytes_of t.
Proof. induction s; simpl; [done|]. by f_equal. Qed.

(** ** JSON of ASCII texts is ASCII *)

Lemma enc_ascii_bytes c : ascii_byte c → Forall ascii_byte (enc_ascii c).
Proof.
  unfold ascii_byte. destruct c as [[] [] [] [] [] [] [] []]; intros H;
    first [by exfalso; vm_compute in H | repeat constructor].
Qed.

Lemma enc_string_bytes s : ascii_string s → Forall ascii_byte (enc_string s).
Proof.
  intros Ha. rewrite enc_string_ascii by done. constructor; [done|]. apply Forall_app.
  split; [|by constructor]. unfold ascii_string in Ha.
  induction Ha as [|c l Hc _ IH]; simpl; [constructor|]. apply Forall_app. auto using enc_ascii_bytes.
Qed.

Lemma sep_by_bytes sep ls :
  ascii_byte sep → Forall (Forall ascii_byte) ls → Forall ascii_byte (sep_by sep ls).
Proof.
  intros Hsep. induction 1 as [|l ls Hl Hls IH]; [constructor|]. destruct ls as [|l' ls]; [done|].
  rewrite sep_by_cons. apply Forall_app. split; [done|]. by constructor.
Qed.

Lemma canonicalKey_ascii values : Forall ascii_string values → ascii_string (canonicalKey values).
Proof.
  intros Ha. unfold canonicalKey, Marshal, ascii_string. rewrite bytes_of_of. cbn [enc].
  constructor; [done|]. apply Forall_app. split; [|by constructor].
  apply sep_by_bytes; [done|]. rewrite map_map. apply Forall_map.
  eapply Forall_impl; [exact Ha|]. apply enc_string_bytes.
Qed.

Lemma hex_digit_ascii n : 0 ≤ n < 16 → ascii_byte (hex_digit n).
Proof.
  intros Hn. assert (forallb (λ n, byte_val (hex_digit n) <? 128) (seqZ 0 16) = true) as Hall by done.
  rewrite forallb_forall in Hall. apply Z.ltb_lt, Hall, list_elem_of_In, elem_of_seqZ. lia.
Qed.

Section text.
Context `{HL : HashLib, HS : !HashLibSpec HL}.

Lemma sum_hex_ascii s : Forall ascii_byte (bytes_of (hex_EncodeToString (Sum256 s))).
Proof using HS.
  unfold hex_EncodeToString. rewrite bytes_of_of. pose proof (Sum256_bytes s) as Hb.
  induction Hb as [|b l Hb _ IH]; csimpl; [constructor|].
  constructor; [apply hex_digit_ascii; split; [apply Z.div_pos|apply Z.div_lt_upper_bound]; lia|].
  constructor; [apply hex_digit_ascii; apply Z.mod_pos_bound; lia|done].
Qed.

Lemma graphEdgeIdentity_ascii local peer source iface remote domain :
  ascii_string (TrimSpace local) → ascii_string (TrimSpace peer) → ascii_string (TrimSpace source) →
  ascii_string (TrimSpace iface) → ascii_string (TrimSpace remote) → ascii_string (TrimSpace domain) →
  ascii_string (graphEdgeIdentity local peer source iface remote domain).
Proof using HS.
  intros. unfold graphEdgeIdentity. case_match.
  - apply canonicalKey_ascii. repeat constructor; done.
  - unfold ascii_string. rewrite bytes_of_app. apply Forall_app. split; [|apply sum_hex_ascii].
    repeat constructor.
Qed.

(** ** Plain observations *)

Record plain_neighbor (n : GraphNeighbor) : Prop := {
  pn_identity : plain (gn_Identity n);
  pn_peer : plain (gn_PeerID n);
  pn_source : plain (gn_Source n);
  pn_interface : plain (gn_Interface n);
  pn_remote : plain (gn_RemoteInterface n);
  pn_domain : plain (gn_RoutingDomain n);
  pn_state : plain (gn_State n);
}.

Record plain_observation (o : GraphObservation) : Prop := {
  po_id : plain (gob_PhysicalID o);
  po_neighbors n : n ∈ gob_Neighbors o → plain_neighbor n;
}.

Record plain_edge (e : GraphEdge) : Prop := {
  pe_local : plain (ge_Local e);
  pe_peer : plain (ge_Peer e);
  pe_observed : plain (ge_ObservedPeer e);
  pe_identity : ascii_string (ge_Identity e);
  pe_source : plain (ge_Source e);
  pe_interface : plain (ge_Interface e);
  pe_remote : plain (ge_RemoteInterface e);
  pe_domain : plain (ge_RoutingDomain e);
  pe_state : plain (ge_State e);
}.

(** The mappings name canonical identities. *)
Definition canonical_mappings (pm : gmap string PeerIdentityMapping) : Prop :=
  ∀ k m, pm !! k = Some m → plain (pim_PhysicalID m).

Lemma validated_canonical ms limit pm : validatedPeerMappings ms limit = inl pm → canonical_mappings pm.
Proof.
  unfold validatedPeerMappings. case_match; [done|]. intros Hpm k m Hm.
  apply (peerMappings_spec _ _ Hpm) in Hm as (m' & id & _ & Hid & _ & ->). by eapply Canonical_plain.
Qed.

Lemma neighborEdge_plain pm local n :
  canonical_mappings pm → plain local → plain_neighbor n → plain_edge (neighborEdge pm local n).
Proof using HS.
  intros Hpm Hl [Hi Hp Hs Hif Hr Hd Hst].
  assert (∀ x : string, plain x → ascii_string (TrimSpace x)) as Ht
    by (intros; by apply plain_ascii, TrimSpace_plain).
  assert (plain (ge_Peer (neighborEdge pm local n))) as Hpeer.
  { unfold neighborEdge. simpl. destruct (pm !! neighborKey n) eqn:Hm; [by eapply Hpm|by apply TrimSpace_plain]. }
  split; try done; try by apply TrimSpace_plain.
  - unfold neighborEdge. simpl. case_bool_decide; [constructor|by apply TrimSpace_plain].
  - unfold neighborEdge in Hpeer |- *. simpl in Hpeer |- *.
    case_bool_decide; [|by apply Ht]. apply graphEdgeIdentity_ascii; auto using TrimSpace_plain.
Qed.

Lemma flatNeighbors_elem obs local n :
  (local, n) ∈ flatNeighbors obs ↔ ∃ o, o ∈ obs ∧ local = local_id o ∧ n ∈ gob_Neighbors o.
Proof.
  unfold flatNeighbors. rewrite list_elem_of_bind. setoid_rewrite list_elem_of_fmap. naive_solver.
Qed.

Lemma edges_plain pm obs e :
  canonical_mappings pm → (∀ o, o ∈ obs → plain_observation o) →
  e ∈ edges_of pm (flatNeighbors obs) → plain_edge e.
Proof using HS.
  intros Hpm Hobs ([local n] & -> & (o & Ho & -> & Hn)%flatNeighbors_elem)%list_elem_of_fmap.
  destruct (Hobs o Ho) as [Hid Hns]. apply neighborEdge_plain; auto. by apply TrimSpace_plain.
Qed.

(** ** The text of an edge determines it *)

Lemma edge_json_clean e : plain_edge e → clean (edge_json e).
Proof.
  intros [Hl%plain_ascii Hp%plain_ascii Ho%plain_ascii Hi Hs%plain_ascii Hif%plain_ascii
    Hr%plain_ascii Hd%plain_ascii Hst%plain_ascii].
  unfold edge_json. case_bool_decide; simpl; split_and!; try done; repeat constructor.
Qed.

Lemma edge_text_inj e e' : plain_edge e → plain_edge e' → edge_text e = edge_text e' → e = e'.
Proof.
  intros He%edge_json_clean He'%edge_json_clean Ht.
  assert (edge_json e = edge_json e') as Hj.
  { apply (inj Some). rewrite <- (parse_document_Marshal _ He), <- (parse_document_Marshal _ He').
    unfold edge_text in Ht. by rewrite Ht. }
  clear -Hj. destruct e, e'. unfold edge_json in Hj. simpl in Hj.
  repeat case_bool_decide; simplify_eq/=; done.
Qed.
End text.

(** ** The text of a diagnostic determines it *)

Definition warningCodes : list string :=
  ["UnknownPeer"; "ReverseIdentityInsufficient"; "AsymmetricLink"; "UnusedPeerMapping";
   "UnexpectedObservedLink"].

(** The severity goes with the code, and the names have no NUL. *)
Record wf_diagnostic (d : GraphDiagnostic) : Prop := {
  wd_severity : gd_Severity d = if bool_decide (gd_Code d ∈ warningCodes) then "Warning" else "Error";
  wd_code : plain (gd_Code d);
  wd_local : plain (gd_Local d);
  wd_peer : plain (gd_Peer d);
}.

Lemma plain_split s t r r' :
  plain s → plain t → bytes_of s ++ byte_of 0 :: r = bytes_of t ++ byte_of 0 :: r' → s = t ∧ r = r'.
Proof.
  unfold plain. intros Hs Ht He.
  assert (bytes_of s = bytes_of t ∧ r = r') as [Hb ->].
  { revert Ht He. generalize (bytes_of t) as lt. induction Hs as [|a ls Ha _ IH]; intros [|b lt] Ht He;
      simpl in He.
    - by injection He as ->.
    - injection He as He1 He2. apply Forall_cons in Ht as [[Hb _] _]. rewrite <- He1 in Hb. by vm_compute in Hb.
    - injection He as He1 He2. destruct Ha as [Ha _]. rewrite He1 in Ha. by vm_compute in Ha.
    - injection He as He1 He2. apply Forall_cons in Ht as [_ Ht]. destruct (IH lt Ht He2) as [-> ->]. by rewrite He1. }
  split; [|done]. by rewrite <- (of_bytes_of s), Hb, of_bytes_of.
Qed.

Lemma diagnostic_text_inj d d' :
  wf_diagnostic d → wf_diagnostic d' → diagnostic_text d = diagnostic_text d' → d = d'.
Proof.
  intros [Hs Hc Hl Hp] [Hs' Hc' Hl' Hp'] Ht%(f_equal bytes_of). unfold diagnostic_text, nul in Ht.
  rewrite !bytes_of_app, !bytes_of_of in Ht. cbn [app] in Ht.
  apply plain_split in Ht as [Ec Ht]; [|done..]. apply plain_split in Ht as [El Ht]; [|done..].
  apply plain_split in Ht as [Ep Ht]; [|done..]. apply (f_equal of_bytes) in Ht.
  rewrite !of_bytes_of in Ht. rewrite Ec in Hs. destruct d, d'. simpl in *. congruence.
Qed.

Lemma wf_error code local peer message :
  plain code → code ∉ warningCodes → plain local → plain peer →
  wf_diagnostic (diagnostic code "Error" local peer message).
Proof. intros. split; try done. simpl. by rewrite bool_decide_eq_false_2. Qed.

Lemma wf_warning code local peer message :
  plain code → code ∈ warningCodes → plain local → plain peer →
  wf_diagnostic (diagnostic code "Warning" local peer message).
Proof. intros. split; try done. simpl. by rewrite bool_decide_eq_true_2. Qed.

(** One of the diagnostics of the code, on plain names. *)
Ltac wf_one :=
  first [apply wf_error | apply wf_warning];
  [by apply printable_plain | by apply (bool_decide_unpack _); vm_compute | done || constructor..].

Lemma observation_wf p o d : plain_observation o → d ∈ observationDiagnostics p o → wf_diagnostic d.
Proof.
  intros [Hid%TrimSpace_plain _]. unfold observationDiagnostics, freshnessDiagnostics.
  fold (local_id o) in Hid. rewrite elem_of_app.
  intros [Hd|Hd]; repeat case_match; at_most_one Hd; wf_one.
Qed.

Lemma group_wf `{HashLib} nodes es d :
  (∀ e, e ∈ es → plain_edge e) → d ∈ groupDiagnostics nodes es → wf_diagnostic d.
Proof.
  intros He. unfold groupDiagnostics. pose proof (sort_Slice_perm edge_text es) as Hp.
  destruct (sort_Slice edge_text es) as [|e l]; [by intros ?%not_elem_of_nil|].
  destruct (He e) as [Hl Hpe _ _ _ _ _ _ _]; [rewrite <- Hp; by left|]. rewrite elem_of_app.
  intros [Hd|Hd]; case_match; at_most_one Hd; wf_one.
Qed.

Lemma asymmetric_wf edges nodes ext d :
  (∀ e, e ∈ edges → plain_edge e) → d ∈ asymmetricDiagnostics edges nodes ext → wf_diagnostic d.
Proof.
  intros He. unfold asymmetricDiagnostics, asymmetricDiagnostic. rewrite list_elem_of_bind.
  intros (e & Hd & Hin). destruct (He e Hin) as [Hl Hp _ _ _ _ _ _ _].
  repeat case_match; at_most_one Hd; wf_one.
Qed.

Lemma mapping_wf nodes used kv d :
  plain (pim_PhysicalID kv.2) → d ∈ mappingDiagnostics nodes used kv → wf_diagnostic d.
Proof.
  intros Hp. unfold mappingDiagnostics. rewrite elem_of_app.
  intros [Hd|Hd]; case_match; at_most_one Hd; wf_one.
Qed.

Lemma declared_plain links limit declared link :
  validatedDeclaredLinks links limit = inl declared → link ∈ declared →
  plain (dl_Local link) ∧ plain (dl_Peer link).
Proof.
  unfold validatedDeclaredLinks. case_match; [done|].
  destruct (fold_err declaredLinkStep ([], ∅) links) as [[normalized seen]|] eqn:Hf; [|done].
  intros [= <-]. revert link. change normalized with (normalized, seen).1. revert Hf.
  apply (fold_err_inv declaredLinkStep
    (λ _ s, ∀ link, link ∈ s.1 → plain (dl_Local link) ∧ plain (dl_Peer link)));
    [by intros ? ?%not_elem_of_nil|].
  intros d x [acc sn] s' IH. unfold declaredLinkStep.
  destruct (CanonicalPhysicalIdentity (TrimSpace (dl_Local x))) as [local|] eqn:Hl; [|done].
  destruct (CanonicalPhysicalIdentity (TrimSpace (dl_Peer x))) as [peer|] eqn:Hp; [|done].
  repeat (case_match; [done|]). intros [= <-] link. simpl.
  intros [Hk|Hk]%elem_of_app; [by apply IH|]. apply list_elem_of_singleton in Hk as ->. simpl.
  eauto using Canonical_plain.
Qed.

Lemma drift_wf edges declared d :
  (∀ e, e ∈ edges → plain_edge e) →
  (∀ link, link ∈ declared → plain (dl_Local link) ∧ plain (dl_Peer link)) →
  d ∈ declaredDrift edges declared → wf_diagnostic d.
Proof.
  intros He Hl. unfold declaredDrift. rewrite elem_of_app, list_elem_of_bind.
  intros [(link & Hd & Hin)|Hd].
  - destruct (Hl link Hin) as [Hll Hlp]. unfold missingLink in Hd. repeat case_match; at_most_one Hd; wf_one.
  - destruct declared; [by at_most_one Hd|]. apply list_elem_of_bind in Hd as (e & Hd & Hin).
    destruct (He e Hin) as [Hll Hlp _ _ _ _ _ _ _]. unfold unexpectedLink in Hd.
    case_match; at_most_one Hd; wf_one.
Qed.
