(* ===== verification/GraphOrder.v ===== *)
(** * The observed topology graph does not depend on order

    src/internal/topologygraph/graph.go: neither the order of the observations and
    their neighbors nor the order in which Go visits maps changes the graph. *)

From S2P Require Import Prelude GoLib GoTime Json JsonProofs Interfaces LedgerData LedgerSpec AdminPolicyHash AdminPolicyHashProofs PolicyExamples Identity Health Graph GraphProofs GraphEdges GraphBuild GraphTheorems GraphText.

(** The same observation, its neighbors in another order. *)
Definition same_evidence (o o' : GraphObservation) : Prop :=
  gob_PhysicalID o = gob_PhysicalID o' ∧ gob_ObservedAt o = gob_ObservedAt o'
  ∧ gob_Complete o = gob_Complete o' ∧ gob_UnknownReason o = gob_UnknownReason o'
  ∧ gob_Neighbors o ≡ₚ gob_Neighbors o'.

Lemma permuted_bind {A B} (R : relation A) (f : A → list B) l l' :
  (∀ a b, R a b → f a ≡ₚ f b) → permuted R l l' → l ≫= f ≡ₚ l' ≫= f.
Proof.
  intros HR (m & -> & Hf). induction Hf as [|a b m l' Hab _ IH]; csimpl; [done|].
  by rewrite (HR a b Hab), IH.
Qed.

Lemma permuted_elem {A} (R : relation A) (P : A → Prop) l l' :
  (∀ a b, R a b → P a → P b) → permuted R l l' → (∀ a, a ∈ l → P a) → ∀ b, b ∈ l' → P b.
Proof.
  intros HR (m & Hm & Hf) Hall b [i Hi]%list_elem_of_lookup_1.
  destruct (Forall2_lookup_r _ _ _ _ _ Hf Hi) as (a & Ha & Hab). apply (HR a b Hab), Hall.
  rewrite Hm. by eapply list_elem_of_lookup_2.
Qed.

Section order.
Context `{HL : HashLib, HS : !HashLibSpec HL}.
Context (obs obs' : list GraphObservation) (p : GraphPolicy) (pm : gmap string PeerIdentityMapping).
Context (Hobs : permuted same_evidence obs obs') (Hdistinct : NoDup (map local_id obs)).
Context (Hplain : ∀ o, o ∈ obs → plain_observation o) (Hpm : canonical_mappings pm).

(** ** The input *)

Lemma locals_perm : map local_id obs ≡ₚ map local_id obs'.
Proof using Hobs.
  eapply permuted_map; [|exact Hobs]. intros o o' (Hid & _). unfold local_id. by rewrite Hid.
Qed.

Lemma devices_eq : devices obs = devices obs'.
Proof using Hobs. unfold devices. apply list_to_set_perm_L, locals_perm. Qed.

Lemma known_nodes_eq : known_nodes obs pm = known_nodes obs' pm.
Proof using Hobs. unfold known_nodes. by rewrite devices_eq. Qed.

Lemma flat_perm : flatNeighbors obs ≡ₚ flatNeighbors obs'.
Proof using Hobs.
  eapply permuted_bind; [|exact Hobs]. intros o o' (-> & _ & _ & _ & Hn).
  by apply (fmap_Permutation (pair (TrimSpace (gob_PhysicalID o')))).
Qed.

Lemma distinct' : NoDup (map local_id obs').
Proof using Hobs Hdistinct. by rewrite <- locals_perm. Qed.

Lemma scan_diagnostics_perm :
  sc_diagnostics (foldl (observe p) emptyScan obs) ≡ₚ sc_diagnostics (foldl (observe p) emptyScan obs').
Proof using Hobs Hdistinct.
  destruct (observe_diagnostics p obs Hdistinct) as (-> & _).
  destruct (observe_diagnostics p obs' distinct') as (-> & _).
  eapply permuted_bind; [|exact Hobs]. intros o o' (Hid & Ht & Hc & Hu & _).
  unfold observationDiagnostics, freshnessDiagnostics, incompleteDiagnostic, local_id.
  by rewrite Hid, Ht, Hc, Hu.
Qed.

Lemma scan_list_perm :
  sc_list (foldl (observe p) emptyScan obs) ≡ₚ sc_list (foldl (observe p) emptyScan obs').
Proof using Hobs Hdistinct.
  destruct (observe_diagnostics p obs Hdistinct) as (_ & -> & _).
  destruct (observe_diagnostics p obs' distinct') as (_ & -> & _). apply locals_perm.
Qed.

Lemma valid_transfer : (∀ o, o ∈ obs → observation_valid p o) → ∀ o, o ∈ obs' → observation_valid p o.
Proof using Hobs.
  apply (permuted_elem same_evidence); [|exact Hobs].
  intros o o' (Hid & _ & _ & Hu & _) [? ? ?]. unfold local_id in *.
  split; unfold local_id; rewrite <- ?Hid, <- ?Hu; done.
Qed.

(** ** The groups *)

Lemma edges_perm : edges_of pm (flatNeighbors obs) ≡ₚ edges_of pm (flatNeighbors obs').
Proof using Hobs. apply (fmap_Permutation (λ ln, neighborEdge pm ln.1 ln.2)), flat_perm. Qed.

Lemma group_perm k : group k (edges_of pm (flatNeighbors obs)) ≡ₚ group k (edges_of pm (flatNeighbors obs')).
Proof using Hobs. unfold group. by rewrite edges_perm. Qed.

(** The candidates of a group are sorted to one list. *)
Lemma group_sorted k :
  sort_Slice edge_text (group k (edges_of pm (flatNeighbors obs)))
  = sort_Slice edge_text (group k (edges_of pm (flatNeighbors obs'))).
Proof using Hobs Hplain Hpm HS.
  pose proof (sort_Slice_image edge_text id edge_text
    (group k (edges_of pm (flatNeighbors obs))) (group k (edges_of pm (flatNeighbors obs')))) as Hs.
  rewrite !map_id in Hs. apply Hs; [done|apply group_perm|].
  intros x y [Hx _]%group_elem [Hy _]%group_elem. apply edge_text_inj; by eapply edges_plain.
Qed.

Lemma grouped_keys :
  (map_to_list (grouped pm (flatNeighbors obs))).*1 ≡ₚ (map_to_list (grouped pm (flatNeighbors obs'))).*1.
Proof using Hobs.
  apply NoDup_Permutation; [apply NoDup_fst_map_to_list..|]. intros k.
  assert (∀ l, k ∈ (map_to_list (grouped pm l)).*1 ↔ group k (edges_of pm l) ≠ []) as Hk.
  { intros l. rewrite list_elem_of_fmap. split.
    - intros ([k' es] & -> & [-> ?]%elem_of_map_to_list%grouped_lookup). done.
    - intros Hne. exists (k, group k (edges_of pm l)). split; [done|].
      by apply elem_of_map_to_list, grouped_lookup. }
  rewrite !Hk. pose proof (group_perm k) as Hp.
  split; intros Hne Hn; rewrite Hn in Hp;
    [apply Permutation_nil_r in Hp|apply Permutation_nil in Hp]; done.
Qed.

(** A function of the groups, over their keys. *)
Lemma entries_keys {B} (f : list GraphEdge → list B) l entries :
  entries ≡ₚ map_to_list (grouped pm l) →
  (entries ≫= λ kv, f kv.2) = entries.*1 ≫= λ k, f (group k (edges_of pm l)).
Proof.
  intros Hp. assert (∀ kv, kv ∈ entries → kv.2 = group kv.1 (edges_of pm l)) as He.
  { intros [k es]. rewrite Hp. by intros [-> _]%elem_of_map_to_list%grouped_lookup. }
  clear Hp. induction entries as [|kv entries IH]; csimpl; [done|].
  rewrite (He kv) by (by left). f_equal. apply IH. intros kv' ?. apply He. by right.
Qed.

Lemma entries_perm {B} (f : list GraphEdge → list B) entries entries' :
  (∀ k, f (group k (edges_of pm (flatNeighbors obs))) = f (group k (edges_of pm (flatNeighbors obs')))) →
  entries ≡ₚ map_to_list (grouped pm (flatNeighbors obs)) →
  entries' ≡ₚ map_to_list (grouped pm (flatNeighbors obs')) →
  (entries ≫= λ kv, f kv.2) ≡ₚ (entries' ≫= λ kv, f kv.2).
Proof using Hobs.
  intros Hf Hp Hp'. rewrite (entries_keys f _ _ Hp), (entries_keys f _ _ Hp').
  assert (entries.*1 ≡ₚ entries'.*1) as -> by (rewrite Hp, Hp'; apply grouped_keys).
  induction (entries'.*1) as [|k ks IH]; csimpl; [done|]. by rewrite Hf, IH.
Qed.

Lemma accepted_transfer : accepted obs p pm → accepted obs' p pm.
Proof using Hobs.
  intros [Hb Hc Hv Hm Hx Hn Hi Hf He]. split; try done.
  - unfold llen in *. rewrite <- (length_map local_id), <- locals_perm, length_map. done.
  - by apply valid_transfer.
  - by rewrite <- devices_eq.
  - by rewrite <- known_nodes_eq.
  - unfold llen in *. by rewrite <- flat_perm.
  - intros ln. rewrite <- flat_perm. apply Hf.
  - unfold mlen in *. rewrite <- length_map_to_list, <- (length_fmap fst), <- grouped_keys.
    by rewrite length_fmap, length_map_to_list.
Qed.

(** ** The output *)

Context (declared : list DeclaredLink) (g : Graph).
Context (entries entries' : list (string * list GraphEdge)).
Context (mappings mappings' : list (string * PeerIdentityMapping)).
Context (Hlinks : ∀ link, link ∈ declared → plain (dl_Local link) ∧ plain (dl_Peer link)).
Context (Hentries : entries ≡ₚ map_to_list (grouped pm (flatNeighbors obs))).
Context (Hentries' : entries' ≡ₚ map_to_list (grouped pm (flatNeighbors obs'))).
Context (Hmappings : mappings ≡ₚ map_to_list pm) (Hmappings' : mappings' ≡ₚ map_to_list pm).

Lemma picked_perm : picked entries ≡ₚ picked entries'.
Proof using Hobs Hplain Hpm HS Hentries Hentries'.
  apply (entries_perm (λ es, option_list (chosen es))); [|done|done].
  intros k. unfold chosen. by rewrite group_sorted.
Qed.

Lemma groups_perm nodes :
  (entries ≫= λ kv, groupDiagnostics nodes kv.2) ≡ₚ (entries' ≫= λ kv, groupDiagnostics nodes kv.2).
Proof using Hobs Hplain Hpm HS Hentries Hentries'.
  apply (entries_perm (groupDiagnostics nodes)); [|done|done].
  intros k. unfold groupDiagnostics. by rewrite group_sorted.
Qed.

Lemma used_eq :
  ad_used (foldl (gather pm) noAdjacencies (flatNeighbors obs))
  = ad_used (foldl (gather pm) noAdjacencies (flatNeighbors obs')).
Proof using Hobs. apply set_eq. intros x. rewrite !gather_used. by setoid_rewrite flat_perm. Qed.

Lemma raw_perm edges :
  rawDiagnostics obs p pm declared edges entries mappings
  ≡ₚ rawDiagnostics obs' p pm declared edges entries' mappings'.
Proof using Hobs Hdistinct Hplain Hpm HS Hentries Hentries' Hmappings Hmappings'.
  unfold rawDiagnostics. rewrite scan_diagnostics_perm, known_nodes_eq, groups_perm, used_eq.
  assert (mappings ≡ₚ mappings') as Hm by (by rewrite Hmappings, Hmappings'). by rewrite Hm.
Qed.

Lemma raw_wf edges d :
  (∀ e, e ∈ edges → plain_edge e) →
  d ∈ rawDiagnostics obs p pm declared edges entries mappings → wf_diagnostic d.
Proof using Hdistinct Hplain Hpm HS Hlinks Hentries Hmappings.
  intros He. unfold rawDiagnostics. destruct (observe_diagnostics p obs Hdistinct) as (-> & _).
  rewrite !elem_of_app, !list_elem_of_bind.
  intros [[(o & Hd & Ho)|([k es] & Hd & Hk)]|[Hd|[([k m] & Hd & Hk)|Hd]]].
  - eapply observation_wf; eauto.
  - rewrite Hentries in Hk. apply elem_of_map_to_list, grouped_lookup in Hk as [-> _].
    eapply group_wf; [|exact Hd]. intros e [? _]%group_elem. by eapply edges_plain.
  - by eapply asymmetric_wf.
  - rewrite Hmappings in Hk. apply elem_of_map_to_list in Hk.
    eapply mapping_wf; [|exact Hd]. by apply (Hpm k).
  - by eapply drift_wf.
Qed.

Lemma assembled_transfer :
  assembled obs p pm declared entries mappings g → assembled obs' p pm declared entries' mappings' g.
Proof using Hobs Hdistinct Hplain Hpm HS Hlinks Hentries Hentries' Hmappings Hmappings'.
  intros Hg. pose proof Hg as [Hn He Hd Hc Hh].
  assert (∀ e, e ∈ g_Edges g → plain_edge e) as Hpe.
  { intros e Hin%(assembled_edges _ _ _ _ _ _ _ Hg Hentries). apply chosen_elem, group_elem in Hin as [Hin _].
    by eapply edges_plain. }
  split.
  - rewrite Hn. apply sort_Strings_perm_eq. by rewrite scan_list_perm.
  - rewrite He. apply edges_sorted_perm; [by eapply picked_NoDup|apply picked_perm].
  - rewrite Hd at 1. rewrite <- (map_id (sort_Slice _ _)), <- (map_id (sort_Slice _ (rawDiagnostics obs' _ _ _ _ _ _))).
    apply (sort_Slice_image diagnostic_text id diagnostic_text); [done| |].
    + rewrite !map_id. apply raw_perm.
    + rewrite map_id. intros x y Hx Hy. apply diagnostic_text_inj; by eapply raw_wf.
  - rewrite Hc. destruct (observe_complete p obs) as (_ & -> & _).
    destruct (observe_complete p obs') as (_ & -> & _). rewrite known_nodes_eq.
    assert (∀ l l' : list GraphDiagnostic, l ≡ₚ l' → l = [] ↔ l' = []) as Hnil.
    { intros l l' Hp. split; intros ->; [by apply Permutation_nil in Hp|by apply Permutation_nil_r in Hp]. }
    rewrite (Hnil _ _ scan_diagnostics_perm), (Hnil _ _ (groups_perm (known_nodes obs' pm))). done.
  - done.
Qed.
End order.

(** C36: the graph is deterministic.  For observations of distinct devices whose names
    are ASCII without NUL, any other order of the observations, of the neighbors in
    each of them, and of the maps Go ranges over gives the same graph, diagnostics and
    evidence hash; in particular none of these orders makes [BuildGraph] fail. *)
Theorem BuildGraph_deterministic `{HL : HashLib, !HashLibSpec HL} (R R' : MapRange)
    `{!MapRangeSpec R, !MapRangeSpec R'} obs obs' p g :
  permuted same_evidence obs obs' → NoDup (map local_id obs) →
  (∀ o, o ∈ obs → plain_observation o) →
  BuildGraph (MR := R) obs p = inl g → BuildGraph (MR := R') obs' p = inl g.
Proof.
  intros Hobs Hnd Hplain. rewrite !BuildGraph_spec.
  intros (pm & declared & Hac & Hd & Hl & Hg). exists pm, declared.
  pose proof (validated_canonical _ _ _ (ac_mappings _ _ _ Hac)) as Hpm.
  split_and!; [by eapply accepted_transfer|done|done|].
  eapply (assembled_transfer obs obs'); [exact Hobs|done|done|done| |..|exact Hg].
  - intros link Hlink. by eapply declared_plain.
  - apply range_entries_perm.
  - apply range_entries_perm.
  - apply range_entries_perm.
  - apply range_entries_perm.
Qed.

(** ** A small network *)

(** Two orders of the maps. *)
Definition range_forward : MapRange := {| range_entries _ V m := map_to_list m |}.
Definition range_backward : MapRange := {| range_entries _ V m := rev (map_to_list m) |}.

#[export] Instance range_forward_spec : MapRangeSpec range_forward.
Proof. by split. Qed.
#[export] Instance range_backward_spec : MapRangeSpec range_backward.
Proof. split. intros. simpl. symmetry. apply Permutation_rev. Qed.

Definition exNeighbor (peer iface remote : string) : GraphNeighbor := {|
  gn_Identity := ""; gn_PeerID := peer; gn_Source := "lldp"; gn_Interface := iface;
  gn_RemoteInterface := remote; gn_RoutingDomain := ""; gn_State := " up ";
|}.

Definition exObservationOf (id : string) (neighbors : list GraphNeighbor) : GraphObservation := {|
  gob_PhysicalID := id; gob_ObservedAt := 1000; gob_Complete := true; gob_UnknownReason := "";
  gob_Neighbors := neighbors;
|}.

Definition exGraphObservations : list GraphObservation :=
  [exObservationOf "sw-a" [exNeighbor "sw-b" "Gi1" "Gi2"; exNeighbor "isp" "Gi9" "x"];
   exObservationOf "sw-b" [exNeighbor "sw-a" "Gi2" "Gi1"]].

Definition exGraphObservations' : list GraphObservation :=
  [exObservationOf "sw-b" [exNeighbor "sw-a" "Gi2" "Gi1"];
   exObservationOf "sw-a" [exNeighbor "isp" "Gi9" "x"; exNeighbor "sw-b" "Gi1" "Gi2"]].

Definition exGraphPolicy : GraphPolicy := {|
  gp_MaxNodes := 0; gp_MaxEdges := 0; gp_MaxInputNeighbors := 0; gp_MaxDeclaredLinks := 0;
  gp_MaxPeerMappings := 0; gp_MaxDiagnostics := 0; gp_Now := 2000; gp_MaxObservationAge := 5000;
  gp_Declared := [{| dl_Local := "SW-A"; dl_Peer := "sw-b"; dl_Source := "";
                     dl_Interface := "Gi1"; dl_RemoteInterface := "Gi2"; dl_RoutingDomain := "" |}];
  gp_PeerMappings := [{| pim_Source := "lldp"; pim_ObservedPeer := "isp"; pim_RoutingDomain := "";
                         pim_PhysicalID := "ISP-1"; pim_External := true |}];
|}.

Definition exGraph : Graph :=
  match BuildGraph (HL := hash_reference) (MR := range_forward) exGraphObservations exGraphPolicy with
  | inl g => g
  | inr _ => {| g_Nodes := []; g_Edges := []; g_Diagnostics := []; g_Complete := false;
                g_EvidenceHash := "" |}
  end.

Lemma exGraph_built :
  BuildGraph (HL := hash_reference) (MR := range_forward) exGraphObservations exGraphPolicy
  = inl exGraph.
Proof. vm_compute. reflexivity. Qed.

Lemma exGraph_shape :
  g_Nodes exGraph = ["isp-1"; "sw-a"; "sw-b"] ∧ llen (g_Edges exGraph) = 3 ∧ g_Complete exGraph = true.
Proof. vm_compute. auto. Qed.

Lemma exObservations_permuted : permuted same_evidence exGraphObservations exGraphObservations'.
Proof.
  exists (rev exGraphObservations). split; [apply Permutation_rev|].
  constructor; [by split_and!|]. constructor; [|constructor]. split_and!; try done.
  apply perm_swap.
Qed.

Lemma exNeighbor_plain peer iface remote :
  plain peer → plain iface → plain remote → plain_neighbor (exNeighbor peer iface remote).
Proof. intros. split; try done; by apply (bool_decide_unpack _). Qed.

Lemma exObservations_plain o : o ∈ exGraphObservations → plain_observation o.
Proof.
  assert (plain "sw-a" ∧ plain "sw-b" ∧ plain "isp" ∧ plain "Gi1" ∧ plain "Gi2" ∧ plain "Gi9" ∧ plain "x")
    as (? & ? & ? & ? & ? & ? & ?) by (by apply (bool_decide_unpack _)).
  unfold exGraphObservations. rewrite !elem_of_cons. intros [->|[->|?%not_elem_of_nil]]; [..|done].
  - split; [done|]. intros n. simpl. rewrite !elem_of_cons.
    intros [->|[->|?%not_elem_of_nil]]; [..|done]; by apply exNeighbor_plain.
  - split; [done|]. intros n. simpl. rewrite !elem_of_cons.
    intros [->|?%not_elem_of_nil]; [|done]. by apply exNeighbor_plain.
Qed.

Lemma BuildGraph_sound_witness :
  g_Complete exGraph = true ∧
  ∃ pm declared,
    validatedPeerMappings (gp_PeerMappings exGraphPolicy)
      (gl_PeerMappings (graphLimits exGraphPolicy)) = inl pm
    ∧ validatedDeclaredLinks (gp_Declared exGraphPolicy)
        (gl_DeclaredLinks (graphLimits exGraphPolicy)) = inl declared
    ∧ @graph_sound hash_reference exGraphObservations exGraphPolicy pm declared exGraph.
Proof.
  split; [exact (proj2 (proj2 exGraph_shape))|].
  exact (BuildGraph_sound (HL := hash_reference) (MR := range_forward)
           exGraphObservations exGraphPolicy exGraph exGraph_built).
Defined.

Lemma BuildGraph_deterministic_witness :
  BuildGraph (HL := hash_reference) (MR := range_backward) exGraphObservations' exGraphPolicy
  = inl exGraph.
Proof.
  apply (BuildGraph_deterministic (HL := hash_reference) range_forward range_backward
           exGraphObservations exGraphObservations' exGraphPolicy exGraph).
  - exact exObservations_permuted.
  - apply (bool_decide_unpack _). vm_compute. exact I.
  - exact exObservations_plain.
  - exact exGraph_built.
Defined.

(** ** Two observations of one device *)

Definition exIncomplete : GraphObservation := {|
  gob_PhysicalID := "sw-a"; gob_ObservedAt := 1000; gob_Complete := false;
  gob_UnknownReason := "lldp timed out"; gob_Neighbors := [];
|}.

(** The hypothesis on distinct devices is needed: of two observations of one device
    only the first one's incompleteness is reported, so the diagnostics and the
    evidence hash depend on which one comes first. *)
Lemma BuildGraph_duplicates_order :
  BuildGraph (HL := hash_reference) (MR := range_forward)
    [exObservationOf "sw-a" []; exIncomplete] exGraphPolicy
  ≠ BuildGraph (HL := hash_reference) (MR := range_forward)
      [exIncomplete; exObservationOf "sw-a" []] exGraphPolicy.
Proof. vm_compute. discriminate. Qed.
