(* ===== verification/SortKeys.v ===== *)
(** * Sorting by several keys

    The comparison functions that the sources pass to sort.Slice compare one key after
    another: the first that differs decides.  Go's sort is not stable, so the theorems
    about its result ask that no two elements agree on all keys. *)

From S2P Require Import Prelude GoLib LedgerSpec GraphEdges.

(** The first key that differs decides. *)
Fixpoint keys_less (a b : list string) : bool :=
  match a, b with
  | x :: a, y :: b => if x != y then String.ltb x y else keys_less a b
  | [], _ :: _ => true
  | _, [] => false
  end.

Definition keys_le {A} (keys : A → list string) (a b : A) : Prop :=
  keys_less (keys b) (keys a) = false.

#[export] Instance keys_le_dec {A} (keys : A → list string) : RelDecision (keys_le keys).
Proof. intros a b. unfold keys_le. apply _. Defined.

Definition sort_by_keys {A} (keys : A → list string) (l : list A) : list A :=
  merge_sort (keys_le keys) l.

(** ** The order *)

Lemma keys_less_irrefl a : keys_less a a = false.
Proof. induction a as [|x a IH]; simpl; [done|]. by rewrite bool_decide_true. Qed.

Lemma str_tricho (x y : string) : str_lt x y ∨ x = y ∨ str_lt y x.
Proof.
  destruct (decide (x = y)) as [->|Hne]; [by right; left|].
  destruct (total String.le x y); [left|right; right]; by apply str_le_lt.
Qed.

Lemma keys_less_cons x y a b :
  keys_less (x :: a) (y :: b) = true ↔ str_lt x y ∨ (x = y ∧ keys_less a b = true).
Proof.
  simpl. case_bool_decide as He; simpl; unfold str_lt; [|naive_solver].
  subst. split; [by right|]. intros [H|[_ H]]; [|done]. by destruct (irreflexivity str_lt y).
Qed.

Lemma keys_less_trans a b c : keys_less a b = true → keys_less b c = true → keys_less a c = true.
Proof.
  revert b c. induction a as [|x a IH]; intros [|y b] [|z c]; try done.
  rewrite !keys_less_cons. intros [?|[-> ?]] [?|[-> ?]]; eauto. left. by etrans.
Qed.

Lemma keys_less_tricho a b : keys_less a b = true ∨ a = b ∨ keys_less b a = true.
Proof.
  revert b. induction a as [|x a IH]; intros [|y b]; auto.
  rewrite !keys_less_cons. destruct (str_tricho x y) as [?|[->|?]]; auto.
  destruct (IH b) as [?|[->|?]]; auto.
Qed.

Lemma keys_less_false a b : keys_less a b = false ↔ keys_less b a = true ∨ a = b.
Proof.
  split.
  - intros H. destruct (keys_less_tricho a b) as [?|[?|?]]; auto. congruence.
  - intros [H| ->]; [|apply keys_less_irrefl]. apply not_true_is_false. intros H'.
    pose proof (keys_less_trans _ _ _ H H') as Hc. by rewrite keys_less_irrefl in Hc.
Qed.

#[export] Instance keys_le_total {A} (keys : A → list string) : Total (keys_le keys).
Proof.
  intros a b. unfold keys_le. rewrite !keys_less_false.
  destruct (keys_less_tricho (keys a) (keys b)) as [?|[?|?]]; auto.
Qed.

#[export] Instance keys_le_trans {A} (keys : A → list string) : Transitive (keys_le keys).
Proof.
  intros a b c. unfold keys_le. rewrite !keys_less_false. intros [?|Hab] [?|Hbc].
  - left. by eapply keys_less_trans.
  - left. congruence.
  - left. congruence.
  - right. congruence.
Qed.

Lemma keys_le_antisym {A} (keys : A → list string) a b :
  keys_le keys a b → keys_le keys b a → keys a = keys b.
Proof. unfold keys_le. rewrite keys_less_false. intros [?|?]; congruence. Qed.

(** ** The sorted list *)

Lemma sort_by_keys_perm {A} (keys : A → list string) l : sort_by_keys keys l ≡ₚ l.
Proof. apply merge_sort_Permutation. Qed.

(** The sorted list depends on the elements only, when no two agree on all keys. *)
Lemma sort_by_keys_perm_eq {A} (keys : A → list string) l l' :
  NoDup (map keys l) → l ≡ₚ l' → sort_by_keys keys l = sort_by_keys keys l'.
Proof.
  intros Hnd Hp. apply (StronglySorted_unique_strong (keys_le keys)).
  - intros a b Ha Hb Hab Hba. rewrite sort_by_keys_perm in Ha.
    rewrite sort_by_keys_perm, <- Hp in Hb.
    apply (NoDup_map_inj keys l); auto using keys_le_antisym.
  - apply StronglySorted_merge_sort; apply _.
  - apply StronglySorted_merge_sort; apply _.
  - by rewrite !sort_by_keys_perm.
Qed.

(** Its head is a least element. *)
Lemma sort_by_keys_head {A} (keys : A → list string) l x r :
  sort_by_keys keys l = x :: r → x ∈ l ∧ ∀ y, y ∈ l → keys_le keys x y.
Proof.
  intros Hs. pose proof (StronglySorted_merge_sort (keys_le keys) l) as Hsort.
  pose proof (sort_by_keys_perm keys l) as Hp. unfold sort_by_keys in *. rewrite Hs in Hsort, Hp.
  split; [rewrite <- Hp; by left|]. intros y. rewrite <- Hp, elem_of_cons.
  apply StronglySorted_inv in Hsort as [_ Hall]. rewrite Forall_forall in Hall.
  intros [->|?]; [|by apply Hall]. unfold keys_le. apply keys_less_irrefl.
Qed.
