(* ===== verification/Lease.v ===== *)
(** * Family leases

    src/internal/drivers/iosxe/configdriver/engine/lease.go: [FamilyLeaser] serialises
    the writers of one part of a device by a Kubernetes Lease, and
    src/internal/devicecoordination/mutation.go names the devices and holders.

    The API server is a parameter ([LeaseAPI], [LeaseAPISpec]), as is the loop of
    retry.RetryOnConflict.  Other writers act between any two calls: [env n] is what
    they do before call number [n]. *)

From S2P Require Import Prelude GoLib GoTime Json Interfaces LedgerData Store AdminPolicyHash.

(** ** coordination.k8s.io/v1 *)

Record Lease := {
  lse_UID : string;
  lse_ResourceVersion : string;
  lse_Labels : gmap string string;
  lse_Annotations : gmap string string;
  lse_HolderIdentity : option string;
  lse_LeaseDurationSeconds : option Z;
  lse_AcquireTime : option Time;
  lse_RenewTime : option Time;
  lse_LeaseTransitions : option Z;
}.

(** The errors the code tells apart, by [apierrors.IsNotFound] and the like. *)
Inductive apierror := NotFound | AlreadyExists | Conflict | OtherError.

#[export] Instance apierror_eq_dec : EqDecision apierror.
Proof. solve_decision. Defined.

Class LeaseAPI := {
  LeaseState : Type;
  (** The stored object. *)
  lease_object : LeaseState → NamespacedName → option Lease;
  lease_Get : LeaseState → NamespacedName → Lease + apierror;
  lease_Create : LeaseState → NamespacedName → Lease → LeaseState * option apierror;
  lease_Update : LeaseState → NamespacedName → Lease → LeaseState * option apierror;
  (** [Delete] with the UID and the resourceVersion as preconditions. *)
  lease_Delete : LeaseState → NamespacedName → string → string → LeaseState * option apierror;
}.

(** A MicroTime is stored to the microsecond. *)
Definition micro (t : Time) : Time := t / 1000 * 1000.

(** [new] is what the server stores of [l]. *)
Record lease_stored (new l : Lease) : Prop := {
  st_annotations : lse_Annotations new = lse_Annotations l;
  st_holder : lse_HolderIdentity new = lse_HolderIdentity l;
  st_duration : lse_LeaseDurationSeconds new = lse_LeaseDurationSeconds l;
  st_renew : lse_RenewTime new = micro <$> lse_RenewTime l;
  st_transitions : lse_LeaseTransitions new = lse_LeaseTransitions l;
}.

(** What a write leaves: a successful one was written; a failed one was not, unless
    its answer may have been lost. *)
Definition lease_written {S : Type} (written : Prop) (s s' : S) (r : option apierror) : Prop :=
  match r with
  | None => written
  | Some OtherError => s' = s ∨ written
  | Some _ => s' = s
  end.

(** [lease_after s s']: the server may go from [s] to [s'] by writes of anyone. *)
Class LeaseAPISpec (L : LeaseAPI) (lease_after : LeaseState → LeaseState → Prop) : Prop := {
  lease_after_preorder :: PreOrder lease_after;
  (** Reads may come from a cache. *)
  lease_get_past s k o :
    lease_Get s k = inl o → ∃ s0, lease_after s0 s ∧ lease_object s0 k = Some o;
  (** A resourceVersion names one content of an object for ever. *)
  lease_version_unique s s' k o o' :
    lease_after s s' → lease_object s k = Some o → lease_object s' k = Some o' →
    lse_ResourceVersion o = lse_ResourceVersion o' → o = o';
  lease_create_spec s k l s' r :
    lease_Create s k l = (s', r) →
    lease_after s s' ∧ lease_written (lease_object s k = None
      ∧ ∃ new, lease_object s' k = Some new ∧ lease_stored new l) s s' r;
  (** An update is refused unless the server holds the version it was made from. *)
  lease_update_spec s k l s' r :
    lease_Update s k l = (s', r) →
    lease_after s s' ∧ lease_written (∃ cur new, lease_object s k = Some cur
      ∧ lse_ResourceVersion cur = lse_ResourceVersion l
      ∧ lease_object s' k = Some new ∧ lease_stored new l) s s' r;
  lease_delete_spec s k uid rv s' r :
    lease_Delete s k uid rv = (s', r) →
    lease_after s s' ∧ lease_written (∃ cur, lease_object s k = Some cur
      ∧ lse_UID cur = uid ∧ lse_ResourceVersion cur = rv ∧ lease_object s' k = None) s s' r;
}.

(** retry.RetryOnConflict on API errors: attempts that end in a conflict are repeated
    until one does not or the backoff gives up. *)
Inductive lease_attempts {S : Type} (f : nat → S → S * option apierror)
    : nat → S → S → option apierror → Prop :=
  | LeaseAttemptLast i s s' e : f i s = (s', e) → lease_attempts f i s s' e
  | LeaseAttemptAgain i s s1 s' e :
      f i s = (s1, Some Conflict) → lease_attempts f (1 + i)%nat s1 s' e →
      lease_attempts f i s s' e.

Class LeaseRetry := {
  lease_RetryOnConflict : ∀ {S : Type}, (nat → S → S * option apierror) → S → S * option apierror;
}.

Class LeaseRetrySpec (R : LeaseRetry) : Prop := {
  lease_retry_attempts {S : Type} (f : nat → S → S * option apierror) s s' e :
    lease_RetryOnConflict f s = (s', e) → lease_attempts f 0 s s' e;
}.

(** ** devicecoordination *)

Definition MutationLeaseFamily : string := "device-disruptive-mutation".
Definition RetainLeaseAnnotation : string := "topology.cisco.vk/retain-lease".

(** [namespace + "\x00" + name]. *)
Definition qualifiedName (namespace name : string) : string :=
  namespace +:+ of_bytes [byte_of 0] +:+ name.

Definition DeviceKey `{HashLib} (namespace name : string) : string :=
  "device-" +:+ hex_EncodeToString (take 8 (Sum256 (qualifiedName namespace name))).

Definition HolderIdentity `{HashLib} (workflow namespace name uid : string) : string :=
  if uid != "" then workflow +:+ "/" +:+ uid
  else workflow +:+ "/" +:+ hex_EncodeToString (take 16 (Sum256 (qualifiedName namespace name))).

(** ** Lease names *)

(** One byte of a segment: lower case, digits, and a dash for everything else. *)
Definition sanitiseByte (c : Ascii.ascii) : Ascii.ascii :=
  let b := byte_val c in
  if (97 <=? b) && (b <=? 122) then c
  else if (65 <=? b) && (b <=? 90) then Ascii.ascii_of_N (Z.to_N (b + 32))
  else if (48 <=? b) && (b <=? 57) then c
  else byte_of 45.

Definition dash : Ascii.ascii := byte_of 45.

(** Collapse runs of dashes. *)
Fixpoint collapseDashes (prevDash : bool) (l : list Ascii.ascii) : list Ascii.ascii :=
  match l with
  | [] => []
  | c :: l =>
      if c == dash then
        if prevDash then collapseDashes true l else c :: collapseDashes true l
      else c :: collapseDashes false l
  end.

(** [strings.TrimLeft(s, "-")], [strings.TrimRight] and [strings.Trim]. *)
Fixpoint trimLeftDash (l : list Ascii.ascii) : list Ascii.ascii :=
  match l with
  | c :: l' => if c == dash then trimLeftDash l' else l
  | [] => []
  end.
Definition trimRightDash (l : list Ascii.ascii) : list Ascii.ascii := rev (trimLeftDash (rev l)).
Definition trimDash (l : list Ascii.ascii) : list Ascii.ascii := trimRightDash (trimLeftDash l).

Definition sanitiseLeaseSegment (s : string) : string :=
  let result := of_bytes (trimDash (collapseDashes false (map sanitiseByte (bytes_of s)))) in
  if result == "" then "x" else result.

Definition shortLeaseHash `{HashLib} (s : string) : string :=
  hex_EncodeToString (take 4 (Sum256 s)).

Definition maxNameLen : Z := 253.

Definition leaseName `{HashLib} (device family : string) : string :=
  let d := sanitiseLeaseSegment device in
  let f := sanitiseLeaseSegment family in
  let hash := shortLeaseHash (device +:+ "/" +:+ family) in
  let name := "cvk-" +:+ d +:+ "-" +:+ f +:+ "-" +:+ hash in
  if maxNameLen <? slen name then
    let head := "cvk-" in
    let tail := "-" +:+ hash in
    let room := maxNameLen - slen head - slen tail in
    let middle := bytes_of (d +:+ "-" +:+ f) in
    let middle := if room <? llen middle then take (Z.to_nat room) middle else middle in
    head +:+ of_bytes (trimRightDash middle) +:+ tail
  else name.

(** ** FamilyLeaser *)

Record FamilyLeaser := {
  fl_Client : bool;          (* Client != nil *)
  fl_Namespace : string;
  fl_DeviceKey : string;
  fl_RequireExisting : bool;
  fl_TTL : Duration;
}.

Record LeaseResult := {
  lr_Owned : bool;
  lr_Holder : string;
}.

Definition owned (identity : string) : LeaseResult := {| lr_Owned := true; lr_Holder := identity |}.
Definition notOwned (holder : string) : LeaseResult := {| lr_Owned := false; lr_Holder := holder |}.

Definition int32 (z : Z) : Z := (z + 2 ^ 31) mod 2 ^ 32 - 2 ^ 31.

Definition ttlSeconds (l : FamilyLeaser) : Z :=
  let ttl := if fl_TTL l <=? 0 then 30 * nsPerSecond else fl_TTL l in
  let seconds := int32 (Z.quot ttl nsPerSecond) in
  if seconds <? 1 then 1 else seconds.

Definition leaseDeviceKey (l : FamilyLeaser) (device : string) : string :=
  if fl_DeviceKey l != "" then fl_DeviceKey l else device.

Definition holderOf (lease : Lease) : string := default "" (lse_HolderIdentity lease).

Definition maintenanceRequestKeys : list string :=
  ["topology.cisco.vk/maintenance-request-version"; "topology.cisco.vk/maintenance-session-token";
   "topology.cisco.vk/maintenance-requested-at"; "topology.cisco.vk/maintenance-operation-namespace";
   "topology.cisco.vk/maintenance-operation-name"; "topology.cisco.vk/maintenance-operation-uid";
   "topology.cisco.vk/maintenance-control-revision"; "topology.cisco.vk/maintenance-purpose"].

Definition clearMaintenanceRequest (lease : Lease) : Lease :=
  return_if (mget (lse_Annotations lease) RetainLeaseAnnotation != "true") lease ;;
  {| lse_UID := lse_UID lease; lse_ResourceVersion := lse_ResourceVersion lease;
     lse_Labels := lse_Labels lease;
     lse_Annotations := foldl (λ m k, delete k m) (lse_Annotations lease) maintenanceRequestKeys;
     lse_HolderIdentity := lse_HolderIdentity lease;
     lse_LeaseDurationSeconds := lse_LeaseDurationSeconds lease;
     lse_AcquireTime := lse_AcquireTime lease; lse_RenewTime := lse_RenewTime lease;
     lse_LeaseTransitions := lse_LeaseTransitions lease |}.

Definition leaseExpired (lease : Lease) (now : Time) : bool :=
  match lse_RenewTime lease, lse_LeaseDurationSeconds lease with
  | Some renew, Some seconds => renew + seconds * nsPerSecond <? now
  | _, _ => true
  end.

(** Renewal by the holder. *)
Definition renewed (lease : Lease) (seconds : Z) (now : Time) : Lease :=
  {| lse_UID := lse_UID lease; lse_ResourceVersion := lse_ResourceVersion lease;
     lse_Labels := lse_Labels lease; lse_Annotations := lse_Annotations lease;
     lse_HolderIdentity := lse_HolderIdentity lease; lse_LeaseDurationSeconds := Some seconds;
     lse_AcquireTime := lse_AcquireTime lease; lse_RenewTime := Some now;
     lse_LeaseTransitions := lse_LeaseTransitions lease |}.

(** Renewal by [AcquireIfFree], which writes the holder again. *)
Definition reheld (lease : Lease) (identity : string) (seconds : Z) (now : Time) : Lease :=
  {| lse_UID := lse_UID lease; lse_ResourceVersion := lse_ResourceVersion lease;
     lse_Labels := lse_Labels lease; lse_Annotations := lse_Annotations lease;
     lse_HolderIdentity := Some identity; lse_LeaseDurationSeconds := Some seconds;
     lse_AcquireTime := lse_AcquireTime lease; lse_RenewTime := Some now;
     lse_LeaseTransitions := lse_LeaseTransitions lease |}.

(** Acquisition by another holder. *)
Definition takenOver (lease : Lease) (identity : string) (seconds : Z) (now : Time) : Lease :=
  let lease := clearMaintenanceRequest lease in
  {| lse_UID := lse_UID lease; lse_ResourceVersion := lse_ResourceVersion lease;
     lse_Labels := lse_Labels lease; lse_Annotations := lse_Annotations lease;
     lse_HolderIdentity := Some identity; lse_LeaseDurationSeconds := Some seconds;
     lse_AcquireTime := Some now; lse_RenewTime := Some now;
     lse_LeaseTransitions := Some (match lse_LeaseTransitions lease with
                                   | Some n => int32 (n + 1)
                                   | None => 1
                                   end) |}.

Definition newLease (device family identity : string) (seconds : Z) (now : Time) : Lease :=
  {| lse_UID := ""; lse_ResourceVersion := "";
     lse_Labels := {[ "cisco.vk/device" := device; "cisco.vk/family" := family ]};
     lse_Annotations := ∅; lse_HolderIdentity := Some identity;
     lse_LeaseDurationSeconds := Some seconds; lse_AcquireTime := Some now;
     lse_RenewTime := Some now; lse_LeaseTransitions := Some 1 |}.

(** What [Release] writes on a retained Lease. *)
Definition released (lease : Lease) (family : string) : Lease :=
  clearMaintenanceRequest
    {| lse_UID := lse_UID lease; lse_ResourceVersion := lse_ResourceVersion lease;
       lse_Labels := lse_Labels lease; lse_Annotations := lse_Annotations lease;
       lse_HolderIdentity := None; lse_LeaseDurationSeconds := None; lse_AcquireTime := None;
       lse_RenewTime := None;
       lse_LeaseTransitions := if family == MutationLeaseFamily then lse_LeaseTransitions lease
                               else None |}.

Section leaser.
Context `{HL : HashLib, LA : LeaseAPI, LR : LeaseRetry}.
Context (env : nat → LeaseState → LeaseState).

Definition leaseKey (l : FamilyLeaser) (device family : string) : NamespacedName :=
  (fl_Namespace l, leaseName (leaseDeviceKey l device) family).

(** [Client.Update] of a Lease that [holder] held when it was read. *)
Definition updateOwned (key : NamespacedName) (lease : Lease) (holder identity what : string)
    (s : LeaseState) : LeaseState * (LeaseResult + goerror) :=
  match lease_Update (env 3%nat s) key lease with
  | (s, None) => (s, inl (owned identity))
  | (s, Some Conflict) => (s, inl (notOwned holder))
  | (s, Some _) => (s, inr (EPlain what))
  end.

Definition renewOrReport (key : NamespacedName) (lease : Lease) (identity : string) (seconds : Z)
    (now : Time) (s : LeaseState) : LeaseState * (LeaseResult + goerror) :=
  let holder := holderOf lease in
  return_if (holder == identity)
    (updateOwned key (renewed lease seconds now) holder identity "renew lease" s) ;;
  return_if (leaseExpired lease now)
    (updateOwned key (takenOver lease identity seconds now) holder identity "takeover lease" s) ;;
  (s, inl (notOwned holder)).

(** The tail of [AcquireIfFree] for a Lease that exists. *)
Definition acquireExisting (key : NamespacedName) (lease : Lease) (identity : string) (seconds : Z)
    (now : Time) (s : LeaseState) : LeaseState * (LeaseResult + goerror) :=
  let holder := holderOf lease in
  return_if ((holder == "") || (holder == identity))
    (updateOwned key
       (if holder != identity then takenOver lease identity seconds now
        else reheld lease identity seconds now)
       holder identity "renew lease" s) ;;
  (s, inl (notOwned holder)).

(** [Acquire] and [AcquireIfFree] differ only in what they do with a Lease that
    exists. *)
Definition acquireWith
    (existing : NamespacedName → Lease → string → Z → Time → LeaseState →
                LeaseState * (LeaseResult + goerror))
    (l : FamilyLeaser) (device family identity : string) (now : Time) (s : LeaseState)
  : LeaseState * (LeaseResult + goerror) :=
  return_if (negb (fl_Client l)) (s, inr (EPlain "FamilyLeaser: nil Client")) ;;
  return_if (fl_Namespace l == "") (s, inr (EPlain "FamilyLeaser: empty Namespace")) ;;
  let key := leaseKey l device family in
  let seconds := ttlSeconds l in
  let s := env 0%nat s in
  match lease_Get s key with
  | inl lease => existing key lease identity seconds now s
  | inr NotFound =>
      return_if (fl_RequireExisting l)
        (s, inr (EPlain "required pre-created lease is missing")) ;;
      match lease_Create (env 1%nat s) key
              (newLease (leaseDeviceKey l device) family identity seconds now) with
      | (s, None) => (s, inl (owned identity))
      | (s, Some AlreadyExists) =>
          let s := env 2%nat s in
          match lease_Get s key with
          | inl lease => existing key lease identity seconds now s
          | inr _ => (s, inr (EPlain "re-read lease after conflict"))
          end
      | (s, Some _) => (s, inr (EPlain "create lease"))
      end
  | inr _ => (s, inr (EPlain "get lease"))
  end.

Definition Acquire := acquireWith renewOrReport.
Definition AcquireIfFree := acquireWith acquireExisting.

Definition releaseAttempt (l : FamilyLeaser) (key : NamespacedName) (family identity : string)
    (i : nat) (s : LeaseState) : LeaseState * option apierror :=
  let s := env (2 * i)%nat s in
  match lease_Get s key with
  | inr NotFound => (s, if fl_RequireExisting l then Some NotFound else None)
  | inr e => (s, Some e)
  | inl lease =>
      return_if (lse_HolderIdentity lease != Some identity) (s, None) ;;
      let s := env (2 * i + 1)%nat s in
      if mget (lse_Annotations lease) RetainLeaseAnnotation == "true" then
        lease_Update s key (released lease family)
      else
        match lease_Delete s key (lse_UID lease) (lse_ResourceVersion lease) with
        | (s, Some NotFound) | (s, Some Conflict) => (s, None)
        | r => r
        end
  end.

Definition Release (l : FamilyLeaser) (device family identity : string) (s : LeaseState)
  : LeaseState * option goerror :=
  return_if (negb (fl_Client l)) (s, Some (EPlain "FamilyLeaser: nil Client")) ;;
  return_if (fl_Namespace l == "") (s, Some (EPlain "FamilyLeaser: empty Namespace")) ;;
  match lease_RetryOnConflict (releaseAttempt l (leaseKey l device family) family identity) s with
  | (s, None) => (s, None)
  | (s, Some NotFound) =>
      (s, Some (EPlain (if fl_RequireExisting l then "required pre-created lease is missing during release"
                        else "release lease")))
  | (s, Some _) => (s, Some (EPlain "release lease"))
  end.

End leaser.
