(* ===== verification/LeaseTheorems.v ===== *)
(** * Family leases: one holder at a time

    src/internal/drivers/iosxe/configdriver/engine/lease.go.  The writers of a Lease
    take steps of a protocol ([lease_step]); every operation of [FamilyLeaser] is such
    a step whatever the others do meanwhile, and under the protocol a holder keeps the
    Lease until it expires or the holder gives it up. *)

From S2P Require Import Prelude GoLib GoTime Json Interfaces LedgerData Store AdminPolicyHash Lease.

(** ** The protocol *)

(** When a Lease expires. *)
Definition lease_until (l : Lease) (until : Time) : Prop :=
  ∃ renew seconds, lse_RenewTime l = Some renew ∧ lse_LeaseDurationSeconds l = Some seconds
    ∧ until = renew + seconds * nsPerSecond.

Lemma leaseExpired_false l now :
  leaseExpired l now = false ↔ ∃ until, lease_until l until ∧ now ≤ until.
Proof.
  unfold leaseExpired, lease_until. destruct (lse_RenewTime l), (lse_LeaseDurationSeconds l);
    try rewrite Z.ltb_ge; naive_solver.
Qed.

(** The Lease is held by [id] until [until]. *)
Definition held (o : option Lease) (id : string) (until : Time) : Prop :=
  ∃ l, o = Some l ∧ lse_HolderIdentity l = Some id ∧ lease_until l until.

(** Nothing of the previous holder's maintenance request is left on a retained Lease. *)
Definition no_request (l : Lease) : Prop :=
  mget (lse_Annotations l) RetainLeaseAnnotation = "true" →
  ∀ k, k ∈ maintenanceRequestKeys → lse_Annotations l !! k = None.

(** What the writer [id] may do at time [now]. *)
Inductive lease_step (now : Time) (id : string) : option Lease → option Lease → Prop :=
  (** Create the Lease, held by [id] or by nobody. *)
  | StepCreate new : holderOf new = id ∨ holderOf new = "" → lease_step now id None (Some new)
  (** Renew its own Lease. *)
  | StepRenew old new :
      holderOf old = id → lse_HolderIdentity new = Some id → lse_RenewTime new = Some (micro now) →
      lease_step now id (Some old) (Some new)
  (** Take a Lease that is free or expired. *)
  | StepTake old new :
      holderOf old = "" ∨ leaseExpired old now = true →
      lse_HolderIdentity new = Some id → lse_RenewTime new = Some (micro now) → no_request new →
      lease_step now id (Some old) (Some new)
  (** Give up its own Lease. *)
  | StepRelease old new :
      lse_HolderIdentity old = Some id → lse_HolderIdentity new = None → no_request new →
      lease_step now id (Some old) (Some new)
  | StepDelete old : lse_HolderIdentity old = Some id → lease_step now id (Some old) None
  (** Annotate it. *)
  | StepTouch old new :
      lse_HolderIdentity new = lse_HolderIdentity old → lse_RenewTime new = lse_RenewTime old →
      lse_LeaseDurationSeconds new = lse_LeaseDurationSeconds old →
      lease_step now id (Some old) (Some new).

(** Any number of steps of writers and times that [P] allows. *)
Definition lease_steps (P : Time → string → Prop) : option Lease → option Lease → Prop :=
  rtc (λ o o', ∃ now id, P now id ∧ lease_step now id o o').

(** The holder keeps the Lease as long as only others write, before it expires. *)
Lemma held_step o o' id until now id' :
  id ≠ "" → id' ≠ id → now ≤ until → held o id until → lease_step now id' o o' → held o' id until.
Proof.
  intros Hne Hid Hnow (l & -> & Hh & Hu) Hs.
  assert (holderOf l = id) as Hl by (unfold holderOf; by rewrite Hh).
  assert (leaseExpired l now = false) as Hx by (apply leaseExpired_false; eauto).
  inversion Hs; simplify_eq.
  - naive_solver congruence.
  - exists new. split_and!; [done|congruence|]. destruct Hu as (r & d & ? & ? & ?).
    exists r, d. split_and!; congruence.
Qed.

Lemma held_steps o o' id until P :
  id ≠ "" → (∀ now id', P now id' → id' ≠ id ∧ now ≤ until) →
  held o id until → lease_steps P o o' → held o' id until.
Proof.
  intros Hne HP Hh Hs. revert Hh. induction Hs as [|o o1 o' (now & id' & [? ?]%HP & Hs) _ IH]; [done|].
  intros Hh. apply IH. by eapply held_step.
Qed.

(** ** The operations are steps *)

Lemma delete_keys_lookup (m : gmap string string) ks k :
  k ∈ ks → foldl (λ m k, delete k m) m ks !! k = None.
Proof.
  assert (∀ ks (m : gmap string string), m !! k = None → foldl (λ m k, delete k m) m ks !! k = None) as Hkeep.
  { clear. induction ks as [|k' ks IH]; intros m Hm; simpl; [done|]. apply IH.
    by apply lookup_delete_None; right. }
  revert m. induction ks as [|k' ks IH]; intros m; [by intros ?%not_elem_of_nil|].
  intros [->|Hk]%elem_of_cons; simpl; [|by apply IH]. apply Hkeep, lookup_delete_eq.
Qed.

Lemma clear_no_request l new :
  lse_Annotations new = lse_Annotations (clearMaintenanceRequest l) → no_request new.
Proof.
  unfold no_request, clearMaintenanceRequest. intros ->. case_match eqn:Hr.
  - intros Hm. by rewrite Hm, bool_decide_eq_true_2 in Hr.
  - intros _ k Hk. cbn [lse_Annotations]. by apply delete_keys_lookup.
Qed.

Lemma clear_fields l :
  lse_ResourceVersion (clearMaintenanceRequest l) = lse_ResourceVersion l
  ∧ lse_HolderIdentity (clearMaintenanceRequest l) = lse_HolderIdentity l.
Proof. unfold clearMaintenanceRequest. by case_match. Qed.

Section operations.
Context `{HL : HashLib, LA : LeaseAPI}.
Context (lease_after : LeaseState → LeaseState → Prop) {LS : LeaseAPISpec LA lease_after}.
Context (env : nat → LeaseState → LeaseState) (key : NamespacedName).
Context (P : Time → string → Prop).
Context (Henv : ∀ n s, lease_after s (env n s)
                  ∧ lease_steps P (lease_object s key) (lease_object (env n s) key)).

(** [lease] was stored at some time. *)
Definition was_stored (lease : Lease) (s : LeaseState) : Prop :=
  ∃ s0, lease_after s0 s ∧ lease_object s0 key = Some lease.

Lemma lease_was_stored_after lease s s' : was_stored lease s → lease_after s s' → was_stored lease s'.
Proof using LS. intros (s0 & ? & ?) ?. exists s0. split; [by etrans|done]. Qed.

(** The version of a Lease that was read is current only if the Lease is. *)
Lemma current_version lease s cur :
  was_stored lease s → lease_object s key = Some cur →
  lse_ResourceVersion cur = lse_ResourceVersion lease → cur = lease.
Proof using LS. intros (s0 & Ha & Hs) Hc Hv. symmetry. by eapply lease_version_unique. Qed.

(** An update made from a Lease that was read is a step, if it is one on that Lease. *)
Lemma update_step lease lease' now id s s' r :
  was_stored lease s → lse_ResourceVersion lease' = lse_ResourceVersion lease → P now id →
  (∀ new, lease_stored new lease' → lease_step now id (Some lease) (Some new)) →
  lease_Update s key lease' = (s', r) →
  lease_after s s' ∧ lease_steps P (lease_object s key) (lease_object s' key)
  ∧ (r = None → ∃ new, lease_object s' key = Some new ∧ lease_stored new lease').
Proof using LS.
  intros Hw Hv HP Hstep [Ha Hr]%lease_update_spec. split; [done|].
  assert (∀ cur new, lease_object s key = Some cur → lse_ResourceVersion cur = lse_ResourceVersion lease' →
    lease_object s' key = Some new → lease_stored new lease' →
    lease_steps P (lease_object s key) (lease_object s' key)) as Hgo.
  { intros cur new Hc Hcv Hn Hst. rewrite Hv in Hcv.
    rewrite (current_version _ _ _ Hw Hc Hcv) in Hc. rewrite Hc, Hn. apply rtc_once. eauto. }
  destruct r as [[]|]; simpl in Hr.
  1-3: by subst; split; [apply rtc_refl|].
  - split; [|done]. destruct Hr as [->|(cur & new & ? & ? & ? & ?)]; [apply rtc_refl|by eapply Hgo].
  - destruct Hr as (cur & new & ? & ? & ? & ?). split; [by eapply Hgo|eauto].
Qed.

(** What an operation of [id] at [now] that returned [r] did: protocol steps, and an
    acquisition that succeeded left the Lease held for [seconds]. *)
Definition lease_outcome (id : string) (seconds : Z) (now : Time) (s s' : LeaseState)
    (r : LeaseResult + goerror) : Prop :=
  lease_after s s' ∧ lease_steps P (lease_object s key) (lease_object s' key)
  ∧ ∀ res, r = inl res → lr_Owned res = true →
      held (lease_object s' key) id (micro now + seconds * nsPerSecond).

Lemma env_first n id seconds now s s' r :
  lease_outcome id seconds now (env n s) s' r → lease_outcome id seconds now s s' r.
Proof using LS Henv.
  intros (Ha & Hs & Hr). destruct (Henv n s) as [Hae Hse]. split_and!; [by etrans| |done].
  by etrans.
Qed.

Lemma outcome_nothing id seconds now s r :
  (∀ res, r = inl res → lr_Owned res = false) → lease_outcome id seconds now s s r.
Proof using LS.
  intros Hr. split_and!; [reflexivity|apply rtc_refl|]. intros res Hres. by rewrite (Hr res Hres).
Qed.

Lemma updateOwned_outcome lease lease' holder id what seconds now s s' r :
  was_stored lease s → P now id → lse_ResourceVersion lease' = lse_ResourceVersion lease →
  lse_HolderIdentity lease' = Some id → lse_RenewTime lease' = Some now →
  lse_LeaseDurationSeconds lease' = Some seconds →
  (∀ new, lease_stored new lease' → lease_step now id (Some lease) (Some new)) →
  updateOwned env key lease' holder id what s = (s', r) → lease_outcome id seconds now s s' r.
Proof using LS Henv.
  intros Hw HP Hv Hh Hr Hd Hstep Hup. apply (env_first 3). unfold updateOwned in Hup.
  destruct (lease_Update (env 3 s) key lease') as [s1 e] eqn:Hu.
  apply (update_step lease _ now id) in Hu as (Ha & Hs & Hnew); [|by eapply lease_was_stored_after, Henv|done..].
  destruct e as [[]|]; simplify_eq; (split_and!; [done|done|]); intros res [= <-]; try done.
  intros _. destruct Hnew as (new & Hn & [_ Hnh Hnd Hnr _]); [done|].
  rewrite Hn. exists new. split_and!; [done|congruence|]. exists (micro now), seconds.
  rewrite Hnr, Hr, Hnd, Hd. done.
Qed.

Lemma renewOrReport_outcome lease id seconds now s s' r :
  id ≠ "" → P now id → was_stored lease s →
  renewOrReport env key lease id seconds now s = (s', r) → lease_outcome id seconds now s s' r.
Proof using LS Henv.
  intros Hne HP Hw. unfold renewOrReport. case_bool_decide as Hh.
  - assert (lse_HolderIdentity lease = Some id) as Hi.
    { unfold holderOf in Hh. destruct (lse_HolderIdentity lease); simplify_eq/=; done. }
    intros Hup. eapply (updateOwned_outcome lease (renewed lease seconds now)); [done..| |exact Hup].
    intros new [_ Hnh _ Hnr _]. apply StepRenew; [done|by rewrite Hnh|by rewrite Hnr].
  - destruct (leaseExpired lease now) eqn:Hx.
    + intros Hup. destruct (clear_fields lease) as [Hv _]. eapply (updateOwned_outcome lease (takenOver lease id seconds now)); [done..| |exact Hup].
      intros new [Hna Hnh _ Hnr _]. apply StepTake; [by right|by rewrite Hnh|by rewrite Hnr|].
      by eapply (clear_no_request lease).
    + intros [= <- <-]. apply outcome_nothing. by intros res [= <-].
Qed.

Lemma acquireExisting_outcome lease id seconds now s s' r :
  id ≠ "" → P now id → was_stored lease s →
  acquireExisting env key lease id seconds now s = (s', r) → lease_outcome id seconds now s s' r.
Proof using LS Henv.
  intros Hne HP Hw. unfold acquireExisting. case_match eqn:Hc.
  2: { intros [= <- <-]. apply outcome_nothing. by intros res [= <-]. }
  rewrite orb_true_iff, !bool_decide_eq_true in Hc.
  case_bool_decide as Hh; cbn [negb]; intros Hup; destruct (clear_fields lease) as [Hv _].
  - eapply (updateOwned_outcome lease (reheld lease id seconds now)); [done..| |exact Hup].
    intros new [_ Hnh _ Hnr _]. apply StepRenew; [done|by rewrite Hnh|by rewrite Hnr].
  - eapply (updateOwned_outcome lease (takenOver lease id seconds now)); [done..| |exact Hup].
    intros new [Hna Hnh _ Hnr _]. apply StepTake; [by left; destruct Hc|by rewrite Hnh|by rewrite Hnr|].
    by eapply (clear_no_request lease).
Qed.
End operations.

Section acquire.
Context `{HL : HashLib, LA : LeaseAPI}.
Context (lease_after : LeaseState → LeaseState → Prop) {LS : LeaseAPISpec LA lease_after}.
Context (env : nat → LeaseState → LeaseState) (l : FamilyLeaser) (device family : string).
Context (P : Time → string → Prop).
Context (Henv : ∀ n s, lease_after s (env n s)
  ∧ lease_steps P (lease_object s (leaseKey l device family))
                  (lease_object (env n s) (leaseKey l device family))).

Abbreviation key := (leaseKey l device family).

Lemma acquireWith_outcome existing id now s s' r :
  id ≠ "" → P now id →
  (∀ lease s s' r, was_stored lease_after key lease s →
     existing key lease id (ttlSeconds l) now s = (s', r) →
     lease_outcome lease_after key P id (ttlSeconds l) now s s' r) →
  acquireWith env existing l device family id now s = (s', r) →
  lease_outcome lease_after key P id (ttlSeconds l) now s s' r.
Proof using LS Henv.
  intros Hne HP Hex. unfold acquireWith.
  destruct (fl_Client l); [|intros [= <- <-]; by apply outcome_nothing]. cbn [negb].
  case_bool_decide; [intros [= <- <-]; by apply outcome_nothing|].
  intros Hgo. apply (env_first lease_after env key P Henv 0).
  destruct (lease_Get (env 0 s) key) as [lease|[]] eqn:Hg;
    try (injection Hgo as <- <-; by apply outcome_nothing).
  { apply lease_get_past in Hg. by eapply Hex. }
  destruct (fl_RequireExisting l); [injection Hgo as <- <-; by apply outcome_nothing|].
  apply (env_first lease_after env key P Henv 1).
  destruct (lease_Create _ _ _) as [s1 e] eqn:Hc. apply lease_create_spec in Hc as [Ha Hw].
  assert (∀ new, lease_object (env 1 (env 0 s)) key = None → lease_object s1 key = Some new →
    lease_stored new (newLease (leaseDeviceKey l device) family id (ttlSeconds l) now) →
    lease_steps P (lease_object (env 1 (env 0 s)) key) (lease_object s1 key)) as Hstep.
  { intros new -> -> [_ Hnh _ _ _]. apply rtc_once. exists now, id. split; [done|].
    apply StepCreate. left. unfold holderOf. by rewrite Hnh. }
  destruct e as [[]|]; simpl in Hw.
  - subst. injection Hgo as <- <-. by apply outcome_nothing.
  - subst. apply (env_first lease_after env key P Henv 2).
    destruct (lease_Get (env 2 _) key) as [lease|] eqn:Hg';
      [|injection Hgo as <- <-; by apply outcome_nothing].
    apply lease_get_past in Hg'. by eapply Hex.
  - subst. injection Hgo as <- <-. by apply outcome_nothing.
  - injection Hgo as <- <-. destruct Hw as [->|(Ho & new & Hn & Hst)]; [by apply outcome_nothing|].
    split_and!; [done|by eapply Hstep|done].
  - injection Hgo as <- <-. destruct Hw as (Ho & new & Hn & Hst).
    split_and!; [done|by eapply Hstep|]. intros _ _ _. rewrite Hn. exists new.
    destruct Hst as [_ Hnh Hnd Hnr _]. split_and!; [done|done|]. by exists (micro now), (ttlSeconds l).
Qed.

Lemma acquire_outcome id now s s' r :
  id ≠ "" → P now id →
  Acquire env l device family id now s = (s', r)
  ∨ AcquireIfFree env l device family id now s = (s', r) →
  lease_outcome lease_after key P id (ttlSeconds l) now s s' r.
Proof using LS Henv.
  intros Hne HP [Hr|Hr]; (eapply acquireWith_outcome; [done..| |exact Hr]); intros.
  - by eapply renewOrReport_outcome.
  - by eapply acquireExisting_outcome.
Qed.

Context {LR : LeaseRetry} {LRS : LeaseRetrySpec LR}.

Lemma releaseAttempt_steps i id now s s' e :
  P now id → releaseAttempt env l key family id i s = (s', e) →
  lease_after s s' ∧ lease_steps P (lease_object s key) (lease_object s' key).
Proof using LS Henv.
  intros HP. unfold releaseAttempt. destruct (Henv (2 * i)%nat s) as [Ha0 Hs0].
  assert (∀ s1 : LeaseState,
    lease_after (env (2 * i)%nat s) s1 ∧ lease_steps P (lease_object (env (2 * i)%nat s) key) (lease_object s1 key) →
    lease_after s s1 ∧ lease_steps P (lease_object s key) (lease_object s1 key)) as Hgo
    by (intros s1 [? ?]; split; by etrans).
  destruct (lease_Get (env (2 * i)%nat s) key) as [lease|err] eqn:Hg.
  2: { intros Hr. apply Hgo. assert (s' = env (2 * i)%nat s) as -> by (destruct err; congruence).
       split; [reflexivity|apply rtc_refl]. }
  case_bool_decide as Hh; cbn [negb]; [|intros [= <- <-]; apply Hgo; split; [reflexivity|apply rtc_refl]].
  apply lease_get_past in Hg. set (s1 := env (2 * i + 1)%nat _).
  destruct (Henv (2 * i + 1)%nat (env (2 * i)%nat s)) as [Ha1 Hs1]. fold s1 in Ha1, Hs1.
  assert (was_stored lease_after key lease s1) as Hw by (by eapply lease_was_stored_after).
  intros Hr. apply Hgo. case_bool_decide.
  - destruct (clear_fields {| lse_UID := lse_UID lease; lse_ResourceVersion := lse_ResourceVersion lease;
      lse_Labels := lse_Labels lease; lse_Annotations := lse_Annotations lease;
      lse_HolderIdentity := None; lse_LeaseDurationSeconds := None; lse_AcquireTime := None;
      lse_RenewTime := None;
      lse_LeaseTransitions := if family == MutationLeaseFamily then lse_LeaseTransitions lease else None |})
      as [Hv Hn].
    apply (update_step lease_after key P lease _ now id) in Hr as (? & ? & _); [split; by etrans|done..|].
    intros new [Hna Hnh _ _ _]. apply StepRelease; [done|by rewrite Hnh|].
    eapply clear_no_request. exact Hna.
  - destruct (lease_Delete s1 key _ _) as [s2 e2] eqn:Hd.
    apply lease_delete_spec in Hd as [Ha2 Hd].
    assert (s' = s2) as -> by (destruct e2 as [[]|]; congruence).
    assert (lease_steps P (lease_object s1 key) (lease_object s2 key)) as Hs2.
    { assert (∀ cur, lease_object s1 key = Some cur → lse_ResourceVersion cur = lse_ResourceVersion lease →
        lease_object s2 key = None → lease_steps P (lease_object s1 key) (lease_object s2 key)) as Hdel.
      { intros cur Hc Hv Hn. rewrite (current_version lease_after key _ _ _ Hw Hc Hv) in Hc.
        rewrite Hc, Hn. apply rtc_once. exists now, id. split; [done|]. by apply StepDelete. }
      destruct e2 as [[]|]; simpl in Hd; try (subst; apply rtc_refl).
      - destruct Hd as [->|(cur & ? & ? & ? & ?)]; [apply rtc_refl|by eapply Hdel].
      - destruct Hd as (cur & ? & ? & ? & ?). by eapply Hdel. }
    split; by etrans.
Qed.

Lemma Release_steps id now s s' e :
  P now id → Release env l device family id s = (s', e) →
  lease_after s s' ∧ lease_steps P (lease_object s key) (lease_object s' key).
Proof using LS LRS Henv.
  intros HP. unfold Release.
  destruct (fl_Client l); [|intros [= <- <-]; split; [reflexivity|apply rtc_refl]]. cbn [negb].
  case_bool_decide; [intros [= <- <-]; split; [reflexivity|apply rtc_refl]|].
  destruct (lease_RetryOnConflict _ s) as [s1 e1] eqn:Hr. intros Hs.
  assert (s' = s1) as -> by (destruct e1 as [[]|]; congruence). clear Hs.
  apply lease_retry_attempts in Hr.
  induction Hr as [i s s1 e1 Hf|i s s1 s2 e1 Hf _ [? ?]].
  - by eapply releaseAttempt_steps.
  - eapply releaseAttempt_steps in Hf as [? ?]; [|done]. split; by etrans.
Qed.
End acquire.

(** ** Properties *)

(** C37: every operation follows the lease protocol.  Whatever the other writers do
    between its calls, as long as they follow it, [Acquire], [AcquireIfFree] and
    [Release] change the Lease only by protocol steps of their own identity: a foreign
    Lease is taken only when it is free or has expired, and then without the previous
    holder's maintenance request; only the holder renews or releases.  This covers
    cached reads, conflicts and writes whose answer was lost.  [Owned] is reported only
    when the Lease is then held by the caller for the full TTL. *)
Theorem FamilyLeaser_protocol `{HL : HashLib, LA : LeaseAPI, LR : LeaseRetry}
    (lease_after : LeaseState → LeaseState → Prop) `{!LeaseAPISpec LA lease_after, !LeaseRetrySpec LR}
    (env : nat → LeaseState → LeaseState) (P : Time → string → Prop)
    l device family id now s :
  (∀ n s, lease_after s (env n s)
     ∧ lease_steps P (lease_object s (leaseKey l device family))
                     (lease_object (env n s) (leaseKey l device family))) →
  id ≠ "" → P now id →
  let key := leaseKey l device family in
  (∀ s' r, Acquire env l device family id now s = (s', r) ∨
           AcquireIfFree env l device family id now s = (s', r) →
     lease_steps P (lease_object s key) (lease_object s' key)
     ∧ ∀ res, r = inl res → lr_Owned res = true →
         held (lease_object s' key) id (micro now + ttlSeconds l * nsPerSecond))
  ∧ (∀ s' e, Release env l device family id s = (s', e) →
       lease_steps P (lease_object s key) (lease_object s' key)).
Proof.
  intros Henv Hne HP key. split.
  - intros s' r Hr. by eapply acquire_outcome in Hr as (_ & ? & ?).
  - intros s' e Hr. by eapply Release_steps.
Qed.

Lemma held_unique o id id' until until' : held o id until → held o id' until' → id = id'.
Proof. intros (l & -> & Hh & _) (l' & [= <-] & Hh' & _). congruence. Qed.

(** C38: mutual exclusion.  While a Lease is held, no operation of another identity,
    concurrent with any number of others that follow the protocol, takes it or reports
    that it owns it, before the Lease expires on that caller's clock. *)
Theorem FamilyLeaser_exclusive `{HL : HashLib, LA : LeaseAPI, LR : LeaseRetry}
    (lease_after : LeaseState → LeaseState → Prop) `{!LeaseAPISpec LA lease_after, !LeaseRetrySpec LR}
    (env : nat → LeaseState → LeaseState) holder until l device family id now s :
  let key := leaseKey l device family in
  (∀ n s, lease_after s (env n s)
     ∧ lease_steps (λ now id, id ≠ holder ∧ now ≤ until)
         (lease_object s key) (lease_object (env n s) key)) →
  held (lease_object s key) holder until → holder ≠ "" → id ≠ "" → id ≠ holder → now ≤ until →
  (∀ s' r, Acquire env l device family id now s = (s', r) ∨
           AcquireIfFree env l device family id now s = (s', r) →
     held (lease_object s' key) holder until ∧ ∀ res, r = inl res → lr_Owned res = false)
  ∧ (∀ s' e, Release env l device family id s = (s', e) → held (lease_object s' key) holder until).
Proof.
  intros key Henv Hheld Hh Hid Hne Hnow.
  assert (∀ s', lease_steps (λ now id, id ≠ holder ∧ now ≤ until) (lease_object s key) (lease_object s' key) →
            held (lease_object s' key) holder until) as Hkeep.
  { intros s' Hs. eapply held_steps; [done| |done|exact Hs]. done. }
  split.
  - intros s' r Hr. eapply acquire_outcome in Hr as (_ & Hs & Ho); [|done..].
    split; [by apply Hkeep|]. intros res Hres. destruct (lr_Owned res) eqn:Hown; [|done].
    destruct Hne. eapply held_unique; [by eapply Ho|by apply Hkeep].
  - intros s' e Hr. apply Hkeep. eapply (Release_steps lease_after env l device family _ Henv id now); done.
Qed.
