(* ===== verification/LeaseName.v ===== *)
(** * Family leases: their names

    src/internal/drivers/iosxe/configdriver/engine/lease.go: [leaseName] makes a valid
    Kubernetes name of any device and family. *)

From S2P Require Import Prelude GoLib GoTime Json Interfaces LedgerData AdminPolicyHash Lease GraphText.

(** The alphabet of a DNS-1123 label. *)
Definition label_byte (b : Z) : bool := lower_alnum b || (b =? 45).
Definition label_char (c : Ascii.ascii) : Prop := label_byte (byte_val c) = true.

Lemma sanitiseByte_label c : label_char (sanitiseByte c).
Proof. unfold label_char. by destruct c as [[] [] [] [] [] [] [] []]. Qed.

Lemma collapse_label prev l : Forall label_char l → Forall label_char (collapseDashes prev l).
Proof.
  intros Hl. revert prev. induction Hl as [|c l Hc _ IH]; intros prev; simpl; [constructor|].
  repeat case_match; auto.
Qed.

Lemma trimLeft_suffix l : trimLeftDash l `suffix_of` l.
Proof.
  induction l as [|c l IH]; simpl; [done|]. case_match; [|done]. by apply suffix_cons_r.
Qed.

Lemma trimRight_prefix l : trimRightDash l `prefix_of` l.
Proof.
  unfold trimRightDash. rewrite <- (rev_involutive l) at 2. destruct (trimLeft_suffix (rev l)) as [k Hk].
  exists (rev k). rewrite Hk at 1. by rewrite rev_app_distr.
Qed.

Lemma trim_label l : Forall label_char l → Forall label_char (trimDash l).
Proof.
  intros Hl. unfold trimDash. destruct (trimRight_prefix (trimLeftDash l)) as [k Hk].
  destruct (trimLeft_suffix l) as [k' Hk']. rewrite Hk' in Hl. apply Forall_app in Hl as [_ Hl].
  rewrite Hk in Hl. by apply Forall_app in Hl as [? _].
Qed.

Definition label_text (s : string) : Prop := Forall label_char (bytes_of s).

Lemma label_text_app s t : label_text (s +:+ t) ↔ label_text s ∧ label_text t.
Proof. unfold label_text. by rewrite bytes_of_app, Forall_app. Qed.

Lemma segment_label s : label_text (sanitiseLeaseSegment s).
Proof.
  unfold sanitiseLeaseSegment. case_bool_decide; [by repeat constructor|]. unfold label_text.
  rewrite bytes_of_of. apply trim_label, collapse_label, Forall_map, Forall_true. intros c.
  apply sanitiseByte_label.
Qed.

(** ** The hash *)

Lemma hex_digit_lower n : 0 ≤ n < 16 → lower_alnum (byte_val (hex_digit n)) = true.
Proof.
  intros Hn. assert (forallb (λ n, lower_alnum (byte_val (hex_digit n))) (seqZ 0 16) = true) as Hall by done.
  rewrite forallb_forall in Hall. apply Hall, list_elem_of_In, elem_of_seqZ. lia.
Qed.

Lemma hex_lower bs :
  Forall (λ b, 0 ≤ b < 256) bs →
  Forall (λ c, lower_alnum (byte_val c) = true) (bytes_of (hex_EncodeToString bs))
  ∧ slen (hex_EncodeToString bs) = 2 * llen bs.
Proof.
  intros Hb. unfold hex_EncodeToString, slen, llen. rewrite <- bytes_of_length, bytes_of_of.
  induction Hb as [|b l Hb _ [IH IHl]]; csimpl; [by split; [constructor|]|]. split; [|lia].
  constructor; [apply hex_digit_lower; split; [apply Z.div_pos|apply Z.div_lt_upper_bound]; lia|].
  constructor; [apply hex_digit_lower; apply Z.mod_pos_bound; lia|done].
Qed.

Section name.
Context `{HL : HashLib, HS : !HashLibSpec HL}.

Lemma shortLeaseHash_shape s :
  Forall (λ c, lower_alnum (byte_val c) = true) (bytes_of (shortLeaseHash s)) ∧ slen (shortLeaseHash s) = 8.
Proof using HS.
  unfold shortLeaseHash. destruct (hex_lower (take 4 (Sum256 s))) as [Hc Hl].
  { apply Forall_take, Sum256_bytes. }
  split; [done|]. rewrite Hl. unfold llen. by rewrite length_take, Sum256_length.
Qed.

Lemma hash_label s : label_text (shortLeaseHash s).
Proof using HS.
  destruct (shortLeaseHash_shape s) as [Hc _]. eapply Forall_impl; [exact Hc|].
  intros c Hl. unfold label_char, label_byte. by rewrite Hl.
Qed.

Lemma slen_app s t : slen (s +:+ t) = slen s + slen t.
Proof. unfold slen. rewrite <- !bytes_of_length, bytes_of_app, length_app. lia. Qed.

Lemma append_assoc (s t u : string) : (s +:+ t) +:+ u = s +:+ t +:+ u.
Proof.
  rewrite <- (of_bytes_of ((s +:+ t) +:+ u)), <- (of_bytes_of (s +:+ t +:+ u)).
  by rewrite !bytes_of_app, (assoc_L (++)).
Qed.

Lemma leaseName_parts device family :
  ∃ middle, label_text middle
    ∧ leaseName device family = "cvk-" +:+ middle +:+ "-" +:+ shortLeaseHash (device +:+ "/" +:+ family)
    ∧ slen (leaseName device family) ≤ 253.
Proof using HS.
  unfold leaseName, maxNameLen. set (hash := shortLeaseHash (device +:+ "/" +:+ family)).
  set (d := sanitiseLeaseSegment device). set (f := sanitiseLeaseSegment family).
  assert (label_text (d +:+ "-" +:+ f)) as Hdf.
  { rewrite !label_text_app. split_and!; [apply segment_label|by repeat constructor|apply segment_label]. }
  destruct (Z.ltb_spec 253 (slen ("cvk-" +:+ d +:+ "-" +:+ f +:+ "-" +:+ hash))) as [Hlt|Hle].
  - destruct (shortLeaseHash_shape (device +:+ "/" +:+ family)) as [_ Hh]. fold hash in Hh.
    rewrite !(slen_app _ hash), Hh. change (slen "cvk-") with 4. change (slen "-") with 1.
    set (cut := if _ <? llen (bytes_of (d +:+ "-" +:+ f)) then _ else _).
    assert (cut `prefix_of` bytes_of (d +:+ "-" +:+ f) ∧ llen cut ≤ 240) as [[k Hk] Hc].
    { unfold cut. destruct (Z.ltb_spec (253 - 4 - (1 + 8)) (llen (bytes_of (d +:+ "-" +:+ f)))).
      - split; [apply prefix_take|]. unfold llen. rewrite length_take. lia.
      - split; [done|]. lia. }
    exists (of_bytes (trimRightDash cut)). destruct (trimRight_prefix cut) as [k' Hk'].
    split_and!; [|done|].
    + unfold label_text in Hdf |- *. rewrite bytes_of_of. rewrite Hk, Hk' in Hdf.
      by apply Forall_app in Hdf as [[? _]%Forall_app _].
    + rewrite !slen_app, Hh. change (slen "cvk-") with 4. change (slen "-") with 1.
      assert (slen (of_bytes (trimRightDash cut)) ≤ llen cut); [|lia].
      unfold slen, llen. rewrite <- bytes_of_length, bytes_of_of. rewrite Hk' at 2. rewrite length_app. lia.
  - exists (d +:+ "-" +:+ f). split_and!; [done| |done].
    by rewrite !append_assoc.
Qed.

(** C39: the name of a family lease is a valid Kubernetes name for every device and
    family, however they are written: at most 253 lower-case letters, digits and
    dashes that begin and end with a letter or a digit.  It begins with cvk- and ends
    with the full hash of the pair, also where it had to be cut. *)
Theorem leaseName_valid device family :
  slen (leaseName device family) ≤ 253
  ∧ all_bytes (λ b, lower_alnum b || (b =? 45)) (leaseName device family) = true
  ∧ first_byte_ok lower_alnum (leaseName device family) = true
  ∧ last_byte_ok lower_alnum (leaseName device family) = true
  ∧ ∃ middle, leaseName device family =
      "cvk-" +:+ middle +:+ "-" +:+ shortLeaseHash (device +:+ "/" +:+ family).
Proof using HS.
  set (hash := shortLeaseHash (device +:+ "/" +:+ family)).
  destruct (leaseName_parts device family) as (middle & Hm & Hn & Hlen). rewrite Hn in Hlen |- *.
  fold hash in Hlen |- *. split_and!; [done| |done| |by exists middle].
  - assert (label_text ("cvk-" +:+ middle +:+ "-" +:+ hash)) as Hl.
    { rewrite !label_text_app.
      split_and!; [by repeat constructor|done|by repeat constructor|apply hash_label]. }
    apply all_bytes_spec. intros c Hc. unfold label_text in Hl. rewrite Forall_forall in Hl. by apply Hl.
  - unfold last_byte_ok. rewrite !bytes_of_app, !rev_app_distr.
    destruct (shortLeaseHash_shape (device +:+ "/" +:+ family)) as [Hc Hl]. fold hash in Hc, Hl.
    apply Forall_rev in Hc. destruct (rev (bytes_of hash)) as [|c r] eqn:Hr.
    { apply (f_equal length) in Hr. rewrite length_rev, bytes_of_length in Hr. unfold slen in Hl.
      simpl in Hr. lia. }
    by apply Forall_cons in Hc as [? _].
Qed.
End name.
