(* ===== verification/LeaseExamples.v ===== *)
(** * Family leases: a reference API server

    The server is the log of its writes, newest first; a resourceVersion is the
    position of a write in the log, in unary. *)

From S2P Require Import Prelude GoLib GoTime Json Interfaces LedgerData Store StoreTheorems AdminPolicyHash PolicyExamples Lease LeaseTheorems LeaseName.

Definition lease_log : Type := list (NamespacedName * option Lease).

Fixpoint llog_latest (log : lease_log) (k : NamespacedName) : option (option Lease * nat) :=
  match log with
  | [] => None
  | (k', o) :: log => if k == k' then Some (o, length log) else llog_latest log k
  end.

(** The object a write stores. *)
Definition llog_store (l : Lease) (uid version : string) : Lease :=
  {| lse_UID := uid; lse_ResourceVersion := version; lse_Labels := lse_Labels l;
     lse_Annotations := lse_Annotations l; lse_HolderIdentity := lse_HolderIdentity l;
     lse_LeaseDurationSeconds := lse_LeaseDurationSeconds l;
     lse_AcquireTime := micro <$> lse_AcquireTime l; lse_RenewTime := micro <$> lse_RenewTime l;
     lse_LeaseTransitions := lse_LeaseTransitions l |}.

Definition llog_version (log : lease_log) : string := unary (S (length log)).

(** Only writes that carry their own version are shown. *)
Definition llog_object (log : lease_log) (k : NamespacedName) : option Lease :=
  match llog_latest log k with
  | Some (Some l, n) => if lse_ResourceVersion l == unary (S n) then Some l else None
  | _ => None
  end.

Definition llog_get (log : lease_log) (k : NamespacedName) : Lease + apierror :=
  match llog_object log k with Some l => inl l | None => inr NotFound end.

Definition llog_create (log : lease_log) (k : NamespacedName) (l : Lease)
  : lease_log * option apierror :=
  match llog_object log k with
  | Some _ => (log, Some AlreadyExists)
  | None => ((k, Some (llog_store l (llog_version log) (llog_version log))) :: log, None)
  end.

Definition llog_update (log : lease_log) (k : NamespacedName) (l : Lease)
  : lease_log * option apierror :=
  match llog_object log k with
  | None => (log, Some NotFound)
  | Some cur =>
      return_if (lse_ResourceVersion cur != lse_ResourceVersion l) (log, Some Conflict) ;;
      ((k, Some (llog_store l (lse_UID cur) (llog_version log))) :: log, None)
  end.

Definition llog_delete (log : lease_log) (k : NamespacedName) (uid version : string)
  : lease_log * option apierror :=
  match llog_object log k with
  | None => (log, Some NotFound)
  | Some cur =>
      return_if ((lse_UID cur != uid) || (lse_ResourceVersion cur != version)) (log, Some Conflict) ;;
      ((k, None) :: log, None)
  end.

#[export] Instance lease_reference : LeaseAPI := {|
  LeaseState := lease_log;
  lease_object := llog_object;
  lease_Get := llog_get;
  lease_Create := llog_create;
  lease_Update := llog_update;
  lease_Delete := llog_delete;
|}.

Definition llog_after (s s' : lease_log) : Prop := s `suffix_of` s'.

Lemma llog_latest_bound s k o n : llog_latest s k = Some (o, n) → (n < length s)%nat.
Proof.
  induction s as [|[k' o'] s IH]; simpl; [done|]. case_match; intros Hl; simplify_eq; [lia|].
  apply IH in Hl. lia.
Qed.

Lemma llog_latest_app t s k o n :
  llog_latest (t ++ s) k = Some (o, n) → (n < length s)%nat → llog_latest s k = Some (o, n).
Proof.
  induction t as [|[k' o'] t IH]; simpl; [done|]. case_match; intros Hl Hn; simplify_eq; [|auto].
  rewrite length_app in Hn. lia.
Qed.

Lemma llog_object_inv s k l :
  llog_object s k = Some l → ∃ n, llog_latest s k = Some (Some l, n) ∧ lse_ResourceVersion l = unary (S n).
Proof.
  unfold llog_object. destruct (llog_latest s k) as [[[l'|] n]|]; [|done..].
  case_bool_decide; [|done]. intros [= <-]. eauto.
Qed.

Lemma llog_pushed s k l uid :
  llog_object ((k, Some (llog_store l uid (llog_version s))) :: s) k
  = Some (llog_store l uid (llog_version s)).
Proof. unfold llog_object. simpl. by rewrite !bool_decide_eq_true_2. Qed.

Lemma llog_stored l uid version : lease_stored (llog_store l uid version) l.
Proof. by split. Qed.

#[export] Instance lease_reference_spec : LeaseAPISpec lease_reference llog_after.
Proof.
  split.
  - apply _.
  - intros s k o. simpl. unfold llog_get. case_match eqn:Ho; [|done]. intros [= <-].
    exists s. by split.
  - intros s s' k o o' [t ->] (n & Hs & Hv)%llog_object_inv (n' & Hs' & Hv')%llog_object_inv He.
    rewrite Hv, Hv' in He. apply unary_inj in He as [= <-].
    apply llog_latest_app in Hs'; [|by eapply llog_latest_bound]. congruence.
  - intros s k l s' r. simpl. unfold llog_create. destruct (llog_object s k) eqn:Ho; intros [= <- <-].
    + by split.
    + split; [by apply suffix_cons_r|]. split; [done|]. eexists. split; [apply llog_pushed|apply llog_stored].
  - intros s k l s' r. simpl. unfold llog_update. destruct (llog_object s k) as [cur|] eqn:Ho.
    + case_match eqn:Hv; intros [= <- <-]; [by split|].
      apply negb_false_iff, bool_decide_eq_true in Hv. split; [by apply suffix_cons_r|].
      eexists cur, _. split_and!; [done|done|apply llog_pushed|apply llog_stored].
    + intros [= <- <-]. by split.
  - intros s k uid v s' r. simpl. unfold llog_delete. destruct (llog_object s k) as [cur|] eqn:Ho.
    + case_match eqn:Hv; intros [= <- <-]; [by split|].
      apply orb_false_iff in Hv as [Hu Hv]. rewrite negb_false_iff, bool_decide_eq_true in Hu, Hv.
      split; [by apply suffix_cons_r|]. exists cur. split_and!; [done|done|done|].
      unfold llog_object. simpl. by rewrite bool_decide_eq_true_2.
    + intros [= <- <-]. by split.
Qed.

Fixpoint llog_retry {T : Type} (steps i : nat) (f : nat → T → T * option apierror) (s : T)
  : T * option apierror :=
  match steps with
  | O => f i s
  | S steps =>
      match f i s with
      | (s1, Some Conflict) => llog_retry steps (S i) f s1
      | r => r
      end
  end.

Lemma llog_retry_attempts {T : Type} (f : nat → T → T * option apierror) steps i s s' e :
  llog_retry steps i f s = (s', e) → lease_attempts f i s s' e.
Proof.
  revert i s. induction steps as [|steps IH]; intros i s Hf; cbn [llog_retry] in Hf;
    [by apply LeaseAttemptLast|].
  destruct (f i s) as [s1 [[]|]] eqn:Hfi; try (injection Hf as <- <-; by apply LeaseAttemptLast).
  eapply LeaseAttemptAgain; [done|by apply IH].
Qed.

#[export] Instance lease_retry_reference : LeaseRetry :=
  {| lease_RetryOnConflict T := llog_retry 3 0 |}.

#[export] Instance lease_retry_reference_spec : LeaseRetrySpec lease_retry_reference.
Proof. split. intros T f s s' e. apply llog_retry_attempts. Qed.

(** ** Two workers *)

Definition exLeaser : FamilyLeaser :=
  {| fl_Client := true; fl_Namespace := "fleet"; fl_DeviceKey := ""; fl_RequireExisting := false;
     fl_TTL := 0 |}.
Definition exNow : Time := 1700000000123456789.
Definition quiet (n : nat) (s : lease_log) : lease_log := s.

Definition exHeld : lease_log :=
  (Acquire (HL := hash_reference) quiet exLeaser "sw-a" "bgp" "worker/1" exNow []).1.

Lemma exHeld_owned :
  Acquire (HL := hash_reference) quiet exLeaser "sw-a" "bgp" "worker/1" exNow []
  = (exHeld, inl (owned "worker/1")).
Proof. vm_compute. reflexivity. Qed.

Lemma quiet_protocol (P : Time → string → Prop) k (n : nat) (s : lease_log) :
  llog_after s (quiet n s) ∧ lease_steps P (llog_object s k) (llog_object (quiet n s) k).
Proof. split; [done|apply rtc_refl]. Qed.

Definition exUntil : Time := micro exNow + 30 * nsPerSecond.

Lemma exHeld_held :
  held (llog_object exHeld (leaseKey (HL := hash_reference) exLeaser "sw-a" "bgp")) "worker/1" exUntil.
Proof.
  eexists. split; [vm_compute; reflexivity|]. split; [reflexivity|].
  exists (micro exNow), 30. split_and!; vm_compute; reflexivity.
Qed.

Lemma FamilyLeaser_protocol_witness :
  held (lease_object exHeld (leaseKey (HL := hash_reference) exLeaser "sw-a" "bgp")) "worker/1"
    (micro exNow + ttlSeconds exLeaser * nsPerSecond).
Proof.
  destruct (FamilyLeaser_protocol (HL := hash_reference) (LA := lease_reference)
              (LR := lease_retry_reference) llog_after quiet (λ _ _, True)
              exLeaser "sw-a" "bgp" "worker/1" exNow [] (quiet_protocol _ _)
              ltac:(discriminate) I) as [Hacq _].
  exact (proj2 (Hacq _ _ (or_introl exHeld_owned)) _ eq_refl eq_refl).
Defined.

Lemma FamilyLeaser_exclusive_witness :
  held (lease_object (LeaseAPI := lease_reference)
          (Acquire (HL := hash_reference) quiet exLeaser "sw-a" "bgp" "worker/2"
             (exNow + nsPerSecond) exHeld).1
          (leaseKey (HL := hash_reference) exLeaser "sw-a" "bgp")) "worker/1" exUntil.
Proof.
  exact (proj1 (proj1 (FamilyLeaser_exclusive (HL := hash_reference) (LA := lease_reference)
           (LR := lease_retry_reference) llog_after quiet "worker/1" exUntil
           exLeaser "sw-a" "bgp" "worker/2" (exNow + nsPerSecond) exHeld
           (quiet_protocol _ _) exHeld_held ltac:(discriminate) ltac:(discriminate)
           ltac:(discriminate) ltac:(vm_compute; discriminate))
           _ _ (or_introl (surjective_pairing _)))).
Defined.

Lemma leaseName_valid_witness :
  slen (leaseName (H := hash_reference) "Edge Router_1" "interface_ethernet") ≤ 253.
Proof. apply (leaseName_valid (HL := hash_reference) "Edge Router_1" "interface_ethernet"). Defined.
