(* ===== verification/Quarantine.v ===== *)
(** * The mutation quarantine

    src/internal/provider/mutationguard/guard.go: upgrades and operational actions whose
    effect on a device is in doubt keep other disruptive work away from it.  Every
    controller finds the same canonical operation in doubt and takes the device's Lease
    in that operation's name. *)

From S2P Require Import Prelude GoLib GoTime Json Interfaces LedgerData Store AdminPolicyHash.
From S2P Require Import Health SortKeys Lease.

(** ** api/ops/v1alpha1 *)

Definition UpgradeExecutionModelAtMostOnceV1 : string := "AtMostOnceV1".

(** metav1.Condition. *)
Record Condition := {
  cond_Type : string;
  cond_Status : string;
  cond_Reason : string;
  cond_Message : string;
  cond_LastTransitionTime : Time;
  cond_ObservedGeneration : Z;
}.

(** The fields of the status that the guard reads; [us_TransferProgress] tells that the
    pointer is set. *)
Record IOSXESoftwareUpgradeStatus := {
  us_Phase : string;
  us_ExecutionModel : string;
  us_FailureReason : string;
  us_StartTime : option Time;
  us_InstallStartTime : option Time;
  us_ActivationStartTime : option Time;
  us_RollbackStartTime : option Time;
  us_CompletionTime : option Time;
  us_TransferProgress : bool;
  us_StagingRequested : bool;
  us_PrimarySupervisorInstallRequested : bool;
  us_PrimarySupervisorInstalled : bool;
  us_StandbySupervisorInstallRequested : bool;
  us_StandbySupervisorInstalled : bool;
  us_StandbySupervisorActivationRequested : bool;
  us_StandbySupervisorActivated : bool;
  us_PrimarySupervisorActivationRequested : bool;
  us_NoRebootActivationAccepted : bool;
  us_RollbackActivationRequested : bool;
  us_Conditions : list Condition;
}.

Record IOSXESoftwareUpgrade := {
  up_Namespace : string;
  up_Name : string;
  up_UID : string;
  up_CreationTimestamp : Time;
  up_DeviceRef : string;
  up_Status : IOSXESoftwareUpgradeStatus;
}.

(** [act_Reboot] is the pointer to the reboot input, with its DelaySeconds. *)
Record IOSXEOperationalAction := {
  act_Namespace : string;
  act_Name : string;
  act_UID : string;
  act_CreationTimestamp : Time;
  act_DeviceRef : string;
  act_Kind : string;
  act_Reboot : option Z;
  act_Phase : string;
  act_InvocationID : string;
  act_StartTime : option Time;
  act_CompletionTime : option Time;
}.

(** ** Constants and times *)

Definition hour : Duration := 3600 * nsPerSecond.
Definition LegacyIOSXEQuarantineTTL : Duration := 26 * hour.

Definition RenewalInterval (ttl : Duration) : Duration :=
  let interval := Z.quot ttl 2 in
  let interval := if 300 * nsPerSecond <? interval then 300 * nsPerSecond else interval in
  if interval <? nsPerSecond then nsPerSecond else interval.

(** [if candidate != nil && candidate.After(anchor) { anchor = candidate }]. *)
Definition laterOf (anchor : Time) (candidate : option Time) : Time :=
  match candidate with
  | Some t => if anchor <? t then t else anchor
  | None => anchor
  end.

(** The common end of [remainingUpgradeQuarantine] and [remainingTerminalQuarantine]. *)
Definition remainingSince (anchor now : Time) (duration : Duration) : Duration * bool :=
  return_if (anchor =? 0) (duration, true) ;;
  let remaining := time_Sub (anchor + duration) now in
  return_if (remaining <=? 0) (0, false) ;;
  (if duration <? remaining then duration else remaining, true).

(** ** Upgrades *)

Definition remainingUpgradeQuarantine (up : IOSXESoftwareUpgrade) (now : Time) (duration : Duration)
  : Duration * bool :=
  let st := up_Status up in
  let anchor :=
    foldl laterOf (up_CreationTimestamp up)
      [us_StartTime st; us_InstallStartTime st; us_ActivationStartTime st;
       us_RollbackStartTime st; us_CompletionTime st] in
  remainingSince anchor now duration.

Definition quietPhases : list string :=
  [""; "Pending"; "Resolving"; "Succeeded"; "StagedForNextBoot"; "PreflightFailed"; "RolledBack";
   "Cancelled"].

Definition failedPhases : list string := ["Failed"; "ValidationFailed"; "RebootTimeout"].

Definition upgradeQuarantineTTL (up : option IOSXESoftwareUpgrade) (now : Time) : Duration * bool :=
  match up with
  | None => (0, false)
  | Some up =>
      let st := up_Status up in
      return_if ((us_ExecutionModel st != "")
                 && (us_ExecutionModel st != UpgradeExecutionModelAtMostOnceV1))
        (LegacyIOSXEQuarantineTTL, true) ;;
      return_if (us_ExecutionModel st != "") (0, false) ;;
      return_if (bool_decide (us_Phase st ∈ quietPhases)) (0, false) ;;
      return_if (bool_decide (us_Phase st ∈ failedPhases))
        (remainingUpgradeQuarantine up now LegacyIOSXEQuarantineTTL) ;;
      (LegacyIOSXEQuarantineTTL, true)
  end.

Definition UpgradeRequiresQuarantineAt (up : option IOSXESoftwareUpgrade) (now : Time) : bool :=
  snd (upgradeQuarantineTTL up now).

Definition upgradePhaseMayHaveDispatchedMutation (phase : string) : bool :=
  negb (bool_decide (phase ∈ quietPhases)).

Definition conditionSubmitted (c : Condition) : bool :=
  ((cond_Type c == "Staged") && (cond_Reason c == "StagingRequested"))
  || ((cond_Type c == "DeviceMutationSettled") && (cond_Reason c == "MutationRequested"))
  || ((cond_Type c == "Transferred")
      && bool_decide (cond_Reason c ∈ ["InstallRequested"; "InstallObservationPending";
                        "InstallInProgress"; "SupervisorSync"; "Transferred"]))
  || ((cond_Type c == "Activated") && (cond_Reason c == "ActivationRequested"))
  || ((cond_Type c == "Activated") && (cond_Reason c == "StandbyActivationRequested"))
  || ((cond_Type c == "Rollback")
      && bool_decide (cond_Reason c ∈ ["RollbackRequested"; "RollbackDispatched"])).

Definition UpgradeMutationSubmitted (up : option IOSXESoftwareUpgrade) : bool :=
  match up with
  | None => false
  | Some up =>
      let status := up_Status up in
      return_if ((us_ExecutionModel status != "")
                 && (us_ExecutionModel status != UpgradeExecutionModelAtMostOnceV1)) true ;;
      return_if ((us_ExecutionModel status == "")
                 && upgradePhaseMayHaveDispatchedMutation (us_Phase status)) true ;;
      return_if (bool_decide (us_FailureReason status
                   ∈ ["LegacyStateOutcomeUnknown"; "InstallAttemptMarkerMissing";
                      "StagingOperationMissing"])) true ;;
      return_if (us_StagingRequested status || bool_decide (is_Some (us_InstallStartTime status))
                 || bool_decide (is_Some (us_ActivationStartTime status))
                 || bool_decide (is_Some (us_RollbackStartTime status))
                 || us_TransferProgress status
                 || us_PrimarySupervisorInstallRequested status || us_PrimarySupervisorInstalled status
                 || us_StandbySupervisorInstallRequested status || us_StandbySupervisorInstalled status
                 || us_StandbySupervisorActivationRequested status
                 || us_StandbySupervisorActivated status
                 || us_PrimarySupervisorActivationRequested status
                 || us_NoRebootActivationAccepted status || us_RollbackActivationRequested status) true ;;
      existsb conditionSubmitted (us_Conditions status)
  end.

Definition UpgradeHolderIdentity `{HashLib} (up : option IOSXESoftwareUpgrade) : string :=
  match up with
  | None => ""
  | Some up => HolderIdentity "software-upgrade" (up_Namespace up) (up_Name up) (up_UID up)
  end.

(** ** Operational actions *)

Definition maxLegacyDelaySeconds : Z := 7 * 24 * 60 * 60.

Definition legacyRebootDelay (act : option IOSXEOperationalAction) : Duration :=
  match act with
  | None => 0
  | Some act =>
      return_if (act_Kind act != "Reboot") 0 ;;
      match act_Reboot act with
      | None => 0
      | Some seconds =>
          return_if (seconds <=? 0) 0 ;;
          (if maxLegacyDelaySeconds <? seconds then maxLegacyDelaySeconds else seconds) * nsPerSecond
      end
  end.

Definition remainingTerminalQuarantine (act : IOSXEOperationalAction) (now : Time)
    (duration : Duration) : Duration * bool :=
  let anchor := act_CreationTimestamp act in
  let anchor := laterOf anchor (act_StartTime act) in
  let anchor := laterOf anchor (act_CompletionTime act) in
  remainingSince anchor now duration.

Definition actionQuarantineTTL (act : option IOSXEOperationalAction) (now : Time) : Duration * bool :=
  match act with
  | None => (0, false)
  | Some act =>
      return_if ((act_Kind act == "CancelReboot") || (act_InvocationID act == "")) (0, false) ;;
      let delay := legacyRebootDelay (Some act) in
      return_if (act_Phase act == "Running") (LegacyIOSXEQuarantineTTL + delay, true) ;;
      return_if (act_Phase act == "Failed")
        (remainingTerminalQuarantine act now (LegacyIOSXEQuarantineTTL + delay)) ;;
      return_if ((act_Phase act == "Succeeded") && (act_Kind act == "Reboot"))
        (remainingTerminalQuarantine act now (LegacyIOSXEQuarantineTTL + delay)) ;;
      return_if ((act_Phase act == "Succeeded") && (act_Kind act == "FactoryReset"))
        (remainingTerminalQuarantine act now LegacyIOSXEQuarantineTTL) ;;
      (0, false)
  end.

Definition ActionRequiresQuarantine (act : option IOSXEOperationalAction) : bool :=
  match act with
  | None => false
  | Some act => (act_Kind act != "CancelReboot") && (act_Phase act == "Running")
                && (act_InvocationID act != "")
  end.

Definition ActionRequiresQuarantineAt (act : option IOSXEOperationalAction) (now : Time) : bool :=
  snd (actionQuarantineTTL act now).

Definition ActionHolderIdentity `{HashLib} (act : option IOSXEOperationalAction) : string :=
  match act with
  | None => ""
  | Some act => HolderIdentity "operational-action" (act_Namespace act) (act_Name act) (act_UID act)
  end.

(** ** The canonical risk *)

Record Risk := {
  rk_Kind : string;
  rk_Namespace : string;
  rk_Name : string;
  rk_HolderIdentity : string;
  rk_LeaseTTL : Duration;
}.

(** client.Reader, for the two kinds; the answer to [List] with [InNamespace]. *)
Record RiskReader := {
  list_upgrades : string → list IOSXESoftwareUpgrade + goerror;
  list_actions : string → list IOSXEOperationalAction + goerror;
}.

Definition upgradeRisk `{HashLib} (deviceName : string) (now : Time) (up : IOSXESoftwareUpgrade)
  : list Risk :=
  return_if (up_DeviceRef up != deviceName) [] ;;
  match upgradeQuarantineTTL (Some up) now with
  | (_, false) => []
  | (leaseTTL, true) =>
      [{| rk_Kind := "IOSXESoftwareUpgrade"; rk_Namespace := up_Namespace up; rk_Name := up_Name up;
          rk_HolderIdentity := UpgradeHolderIdentity (Some up); rk_LeaseTTL := leaseTTL |}]
  end.

Definition actionRisk `{HashLib} (deviceName : string) (now : Time) (act : IOSXEOperationalAction)
  : list Risk :=
  return_if (act_DeviceRef act != deviceName) [] ;;
  match actionQuarantineTTL (Some act) now with
  | (_, false) => []
  | (leaseTTL, true) =>
      [{| rk_Kind := "IOSXEOperationalAction"; rk_Namespace := act_Namespace act;
          rk_Name := act_Name act; rk_HolderIdentity := ActionHolderIdentity (Some act);
          rk_LeaseTTL := leaseTTL |}]
  end.

Definition risk_keys (r : Risk) : list string :=
  [rk_Kind r; rk_Namespace r; rk_Name r; rk_HolderIdentity r].

Definition FindCanonicalRisk `{HashLib} (reader : option RiskReader) (namespace deviceName : string)
    (now : Time) : option Risk + goerror :=
  match reader with
  | None => inr (EPlain "legacy mutation guard requires an API reader")
  | Some reader =>
      match list_upgrades reader namespace with
      | inr _ => inr (EPlain "list IOSXESoftwareUpgrade compatibility risks")
      | inl upgrades =>
          match list_actions reader namespace with
          | inr _ => inr (EPlain "list IOSXEOperationalAction compatibility risks")
          | inl actions =>
              let risks := (upgrades ≫= upgradeRisk deviceName now)
                           ++ (actions ≫= actionRisk deviceName now) in
              match sort_by_keys risk_keys risks with
              | [] => inl None
              | risk :: _ => inl (Some risk)
              end
          end
      end
  end.

(** ** The quarantine *)

Record Result := {
  qr_Risk : option Risk;
  qr_LeaseOwned : bool;
  qr_CallerOwnsRisk : bool;
  qr_ExistingHolder : string;
}.

Definition noResult (risk : option Risk) : Result :=
  {| qr_Risk := risk; qr_LeaseOwned := false; qr_CallerOwnsRisk := false; qr_ExistingHolder := "" |}.

Definition withTTL (l : FamilyLeaser) (ttl : Duration) : FamilyLeaser :=
  {| fl_Client := fl_Client l; fl_Namespace := fl_Namespace l; fl_DeviceKey := fl_DeviceKey l;
     fl_RequireExisting := fl_RequireExisting l; fl_TTL := ttl |}.

Definition guardLeaser (l : FamilyLeaser) (risk : Risk) : FamilyLeaser :=
  if 0 <? rk_LeaseTTL risk then withTTL l (rk_LeaseTTL risk) else l.

Section quarantine.
Context `{HL : HashLib, LA : LeaseAPI}.
Context (env : nat → LeaseState → LeaseState).

(** [leaseNow] is what [Acquire] reads from the clock. *)
Definition ensureCanonicalQuarantine (reader : option RiskReader) (leaser : option FamilyLeaser)
    (namespace deviceName deviceKey callerIdentity : string) (now leaseNow : Time) (s : LeaseState)
  : LeaseState * (Result * option goerror) :=
  match FindCanonicalRisk reader namespace deviceName now with
  | inr err => (s, (noResult None, Some err))
  | inl None => (s, (noResult None, None))
  | inl (Some risk) =>
      match leaser with
      | None => (s, (noResult (Some risk), Some (EPlain "mutation leaser is not configured")))
      | Some leaser =>
          match Acquire env (guardLeaser leaser risk) deviceKey MutationLeaseFamily
                  (rk_HolderIdentity risk) leaseNow s with
          | (s, inr err) => (s, (noResult (Some risk), Some (EPlain "acquire canonical quarantine")))
          | (s, inl leaseResult) =>
              (s, ({| qr_Risk := Some risk; qr_LeaseOwned := lr_Owned leaseResult;
                      qr_CallerOwnsRisk := lr_Owned leaseResult
                                           && (callerIdentity == rk_HolderIdentity risk);
                      qr_ExistingHolder := lr_Holder leaseResult |}, None))
          end
      end
  end.

Definition EnsureCanonicalQuarantine := ensureCanonicalQuarantine.
Definition EnsureCanonicalQuarantineForDeletion := ensureCanonicalQuarantine.
End quarantine.
