(* ===== verification/QuarantineTheorems.v ===== *)
(** * The mutation quarantine: who is in doubt, and what the fence keeps away

    What src/internal/provider/mutationguard/guard.go computes, against a declarative
    account of which operations may still have an effect on the device, and the
    composition with the Leases of Lease.v. *)

From S2P Require Import Prelude GoLib GoTime Json Interfaces LedgerData Store AdminPolicyHash.
From S2P Require Import Health GraphEdges SortKeys Lease LeaseTheorems Quarantine PolicyExamples LeaseExamples.

(** ** Operations in doubt *)

(** How long an operation last heard of at [last] stays in doubt: [duration] after
    that, and without an end when it left no time at all. *)
Definition fence_left (last now : Time) (duration ttl : Duration) : Prop :=
  (last = 0 ∧ ttl = duration)
  ∨ (last ≠ 0 ∧ now < last + duration ∧ ttl = Z.min duration (last + duration - now)).

Definition latest (creation : Time) (times : list (option Time)) : Time :=
  foldr Z.max creation (omap id times).

Definition upgrade_last (up : IOSXESoftwareUpgrade) : Time :=
  let st := up_Status up in
  latest (up_CreationTimestamp up)
    [us_StartTime st; us_InstallStartTime st; us_ActivationStartTime st; us_RollbackStartTime st;
     us_CompletionTime st].

Inductive upgrade_in_doubt (up : IOSXESoftwareUpgrade) (now : Time) : Duration → Prop :=
  (** A newer controller runs it. *)
  | DoubtForeign :
      us_ExecutionModel (up_Status up) ≠ "" →
      us_ExecutionModel (up_Status up) ≠ UpgradeExecutionModelAtMostOnceV1 →
      upgrade_in_doubt up now LegacyIOSXEQuarantineTTL
  (** An older controller ran it and did not leave a phase known to be harmless. *)
  | DoubtInFlight :
      us_ExecutionModel (up_Status up) = "" →
      us_Phase (up_Status up) ∉ quietPhases → us_Phase (up_Status up) ∉ failedPhases →
      upgrade_in_doubt up now LegacyIOSXEQuarantineTTL
  (** It failed, and not long ago. *)
  | DoubtFailed ttl :
      us_ExecutionModel (up_Status up) = "" → us_Phase (up_Status up) ∈ failedPhases →
      fence_left (upgrade_last up) now LegacyIOSXEQuarantineTTL ttl →
      upgrade_in_doubt up now ttl.

Definition action_last (act : IOSXEOperationalAction) : Time :=
  latest (act_CreationTimestamp act) [act_StartTime act; act_CompletionTime act].

(** A reboot may come as late as its delay, which the API limits to seven days. *)
Definition action_fence (act : IOSXEOperationalAction) : Duration :=
  LegacyIOSXEQuarantineTTL
  + if decide (act_Kind act = "Reboot") then
      Z.max 0 (Z.min (7 * 24 * 3600) (default 0 (act_Reboot act))) * nsPerSecond
    else 0.

Definition invoked (act : IOSXEOperationalAction) : Prop :=
  act_Kind act ≠ "CancelReboot" ∧ act_InvocationID act ≠ "".

Inductive action_in_doubt (act : IOSXEOperationalAction) (now : Time) : Duration → Prop :=
  | DoubtRunning :
      invoked act → act_Phase act = "Running" → action_in_doubt act now (action_fence act)
  (** It failed, or its effect comes after it succeeded. *)
  | DoubtEnded ttl :
      invoked act →
      act_Phase act = "Failed"
      ∨ (act_Phase act = "Succeeded" ∧ act_Kind act ∈ ["Reboot"; "FactoryReset"]) →
      fence_left (action_last act) now (action_fence act) ttl →
      action_in_doubt act now ttl.

(** The risks of a device. *)
Inductive risk_of `{HashLib} (ups : list IOSXESoftwareUpgrade) (acts : list IOSXEOperationalAction)
    (deviceName : string) (now : Time) : Risk → Prop :=
  | RiskUpgrade up ttl :
      up ∈ ups → up_DeviceRef up = deviceName → upgrade_in_doubt up now ttl →
      risk_of ups acts deviceName now
        {| rk_Kind := "IOSXESoftwareUpgrade"; rk_Namespace := up_Namespace up;
           rk_Name := up_Name up;
           rk_HolderIdentity := HolderIdentity "software-upgrade" (up_Namespace up) (up_Name up) (up_UID up);
           rk_LeaseTTL := ttl |}
  | RiskAction act ttl :
      act ∈ acts → act_DeviceRef act = deviceName → action_in_doubt act now ttl →
      risk_of ups acts deviceName now
        {| rk_Kind := "IOSXEOperationalAction"; rk_Namespace := act_Namespace act;
           rk_Name := act_Name act;
           rk_HolderIdentity := HolderIdentity "operational-action" (act_Namespace act) (act_Name act) (act_UID act);
           rk_LeaseTTL := ttl |}.

(** ** The computations *)

Lemma foldr_max_init a b l : foldr Z.max (Z.max a b) l = Z.max b (foldr Z.max a l).
Proof. induction l as [|x l IH]; simpl; lia. Qed.

Lemma laterOf_latest creation times : foldl laterOf creation times = latest creation times.
Proof.
  unfold latest. revert creation. induction times as [|[t|] times IH]; intros creation; simpl; [done| |done].
  rewrite IH, <- foldr_max_init. f_equal. destruct (Z.ltb_spec creation t); lia.
Qed.

Lemma remainingSince_spec last now duration ttl :
  0 < duration ≤ maxInt64 →
  remainingSince last now duration = (ttl, true) ↔ fence_left last now duration ttl.
Proof.
  intros Hd. unfold remainingSince, fence_left, time_Sub, maxInt64 in *.
  destruct (Z.eqb_spec last 0); [naive_solver|].
  destruct (Z.leb_spec (Z.max (- 2 ^ 63) (Z.min (2 ^ 63 - 1) (last + duration - now))) 0).
  - split; [done|]. intros [?|?]; lia.
  - destruct (Z.ltb_spec duration (Z.max (- 2 ^ 63) (Z.min (2 ^ 63 - 1) (last + duration - now)))).
    + split; [intros [= <-]; right; lia|]. intros [?|?]; [lia|]. f_equal. lia.
    + split; [intros [= <-]; right; lia|]. intros [?|?]; [lia|]. f_equal. lia.
Qed.

Lemma fence_left_bounds last now duration ttl :
  0 < duration → fence_left last now duration ttl → 0 < ttl ≤ duration.
Proof. unfold fence_left. lia. Qed.

Lemma failed_not_quiet phase : phase ∈ failedPhases → phase ∉ quietPhases.
Proof.
  revert phase. apply Forall_forall. rewrite <- (bool_decide_spec (Forall _ _)). by vm_compute.
Qed.

Lemma upgradeQuarantineTTL_spec up now ttl :
  upgradeQuarantineTTL (Some up) now = (ttl, true) ↔ upgrade_in_doubt up now ttl.
Proof.
  unfold upgradeQuarantineTTL. set (st := up_Status up).
  assert (∀ ttl, remainingUpgradeQuarantine up now LegacyIOSXEQuarantineTTL = (ttl, true)
            ↔ fence_left (upgrade_last up) now LegacyIOSXEQuarantineTTL ttl) as Hrem.
  { intros ttl0. unfold remainingUpgradeQuarantine. rewrite laterOf_latest.
    apply remainingSince_spec. by vm_compute. }
  pose proof (failed_not_quiet (us_Phase st)) as Hfq.
  destruct (decide (us_ExecutionModel st = "")) as [Hm|Hm].
  - rewrite (bool_decide_true (_ = "")) by done. simpl.
    case_bool_decide as Hq; [|case_bool_decide as Hf].
    + split; [done|]. inversion 1; naive_solver.
    + rewrite Hrem. split; [by apply DoubtFailed|]. inversion 1; naive_solver.
    + split; [intros [= <-]; by apply DoubtInFlight|]. inversion 1; naive_solver.
  - rewrite (bool_decide_false (_ = "")) by done. simpl. case_bool_decide as Ha; simpl.
    + split; [done|]. inversion 1; naive_solver.
    + split; [intros [= <-]; by apply DoubtForeign|]. inversion 1; naive_solver.
Qed.

Lemma legacyRebootDelay_spec act :
  LegacyIOSXEQuarantineTTL + legacyRebootDelay (Some act) = action_fence act.
Proof.
  unfold legacyRebootDelay, action_fence, maxLegacyDelaySeconds. f_equal.
  case_bool_decide; [rewrite decide_True by done|by rewrite decide_False]. simpl.
  destruct (act_Reboot act) as [n|]; simpl; [|done].
  destruct (Z.leb_spec n 0); [|destruct (Z.ltb_spec (7 * 24 * 60 * 60) n)]; unfold nsPerSecond; lia.
Qed.

Lemma action_fence_bounds act :
  LegacyIOSXEQuarantineTTL ≤ action_fence act ≤ LegacyIOSXEQuarantineTTL + 7 * 24 * hour.
Proof. unfold action_fence, hour, nsPerSecond. case_decide; lia. Qed.

Lemma actionQuarantineTTL_spec act now ttl :
  actionQuarantineTTL (Some act) now = (ttl, true) ↔ action_in_doubt act now ttl.
Proof.
  unfold actionQuarantineTTL.
  destruct (decide (invoked act)) as [Hi|Hi]; unfold invoked in Hi.
  2: { rewrite (proj2 (orb_true_iff _ _)) by
         (rewrite !bool_decide_eq_true; destruct (decide (act_Kind act = "CancelReboot")),
            (decide (act_InvocationID act = "")); tauto).
       split; [done|]. inversion 1; unfold invoked in *; tauto. }
  rewrite (proj2 (orb_false_iff _ _)) by (rewrite !bool_decide_eq_false; tauto).
  rewrite legacyRebootDelay_spec.
  assert (∀ ttl, remainingTerminalQuarantine act now (action_fence act) = (ttl, true)
            ↔ fence_left (action_last act) now (action_fence act) ttl) as Hrem.
  { intros ttl0. unfold remainingTerminalQuarantine, action_last.
    rewrite <- (laterOf_latest (act_CreationTimestamp act) [act_StartTime act; act_CompletionTime act]).
    apply remainingSince_spec. pose proof (action_fence_bounds act).
    unfold LegacyIOSXEQuarantineTTL, hour, nsPerSecond, maxInt64 in *. lia. }
  assert (act_Kind act = "FactoryReset" → LegacyIOSXEQuarantineTTL = action_fence act) as Hf.
  { intros Hk. unfold action_fence. rewrite Hk. by vm_compute. }
  assert (∀ b : Prop, b → act_Phase act = "Failed"
            ∨ (act_Phase act = "Succeeded" ∧ act_Kind act ∈ ["Reboot"; "FactoryReset"]) →
          fence_left (action_last act) now (action_fence act) ttl ↔ action_in_doubt act now ttl) as Hend.
  { intros _ _ Hp. split; [by apply DoubtEnded|]. inversion 1; subst; [|done]. intuition congruence. }
  case_bool_decide as Hrun; [|case_bool_decide as Hfail; [|case_bool_decide as Hsucc]]; cbn [andb].
  - split; [intros [= <-]; by apply DoubtRunning|]. inversion 1; subst; [done|]. intuition congruence.
  - rewrite Hrem. apply (Hend True); [done|by left].
  - case_bool_decide as Hk; [|case_bool_decide as Hk'].
    + rewrite Hrem. apply (Hend True); [done|]. right. split; [done|]. rewrite Hk. by left.
    + rewrite (Hf Hk'), Hrem. apply (Hend True); [done|]. right. split; [done|]. rewrite Hk'. right. by left.
    + split; [done|]. inversion 1 as [|? _ [?|[_ Hin]]]; subst; [congruence..|].
      rewrite !elem_of_cons, elem_of_nil in Hin. intuition congruence.
  - split; [done|]. inversion 1; subst; intuition congruence.
Qed.

Lemma in_doubt_bounds `{HashLib} ups acts deviceName now r :
  risk_of ups acts deviceName now r →
  0 < rk_LeaseTTL r ≤ LegacyIOSXEQuarantineTTL + 7 * 24 * hour
  ∧ rk_HolderIdentity r ≠ "".
Proof.
  assert (0 < LegacyIOSXEQuarantineTTL) as Hl by done.
  assert (0 < 7 * 24 * hour) as Hh by done.
  intros [up ttl _ _ Hd|act ttl _ _ Hd]; simpl; (split; [|unfold HolderIdentity; by case_bool_decide]).
  - destruct Hd as [| |ttl _ _ Hf]; [lia|lia|]. apply fence_left_bounds in Hf; lia.
  - pose proof (action_fence_bounds act). destruct Hd as [|ttl _ _ Hf]; [lia|].
    apply fence_left_bounds in Hf; lia.
Qed.

(** ** The canonical risk *)

Section canonical.
Context `{HL : HashLib}.

Definition all_risks (ups : list IOSXESoftwareUpgrade) (acts : list IOSXEOperationalAction)
    (deviceName : string) (now : Time) : list Risk :=
  (ups ≫= upgradeRisk deviceName now) ++ (acts ≫= actionRisk deviceName now).

Lemma upgradeRisk_elem deviceName now up r :
  r ∈ upgradeRisk deviceName now up ↔ up_DeviceRef up = deviceName ∧ ∃ ttl, upgrade_in_doubt up now ttl
    ∧ r = {| rk_Kind := "IOSXESoftwareUpgrade"; rk_Namespace := up_Namespace up; rk_Name := up_Name up;
             rk_HolderIdentity := HolderIdentity "software-upgrade" (up_Namespace up) (up_Name up) (up_UID up);
             rk_LeaseTTL := ttl |}.
Proof.
  unfold upgradeRisk. case_bool_decide as Hd; cbn [negb]; [|set_solver].
  setoid_rewrite <- upgradeQuarantineTTL_spec.
  destruct (upgradeQuarantineTTL (Some up) now) as [ttl []]; [|set_solver].
  rewrite list_elem_of_singleton. naive_solver.
Qed.

Lemma actionRisk_elem deviceName now act r :
  r ∈ actionRisk deviceName now act ↔ act_DeviceRef act = deviceName ∧ ∃ ttl, action_in_doubt act now ttl
    ∧ r = {| rk_Kind := "IOSXEOperationalAction"; rk_Namespace := act_Namespace act; rk_Name := act_Name act;
             rk_HolderIdentity := HolderIdentity "operational-action" (act_Namespace act) (act_Name act) (act_UID act);
             rk_LeaseTTL := ttl |}.
Proof.
  unfold actionRisk. case_bool_decide as Hd; cbn [negb]; [|set_solver].
  setoid_rewrite <- actionQuarantineTTL_spec.
  destruct (actionQuarantineTTL (Some act) now) as [ttl []]; [|set_solver].
  rewrite list_elem_of_singleton. naive_solver.
Qed.

Lemma all_risks_elem ups acts deviceName now r :
  r ∈ all_risks ups acts deviceName now ↔ risk_of ups acts deviceName now r.
Proof.
  unfold all_risks. rewrite elem_of_app, !list_elem_of_bind.
  setoid_rewrite upgradeRisk_elem. setoid_rewrite actionRisk_elem. split.
  - intros [(up & (Hd & ttl & Hdoubt & ->) & Hup)|(act & (Hd & ttl & Hdoubt & ->) & Hact)].
    + by apply RiskUpgrade. + by apply RiskAction.
  - intros [up ttl ? ? ?|act ttl ? ? ?]; [left|right]; naive_solver.
Qed.

(** At most one risk per object: the names of the risks are those of distinct objects. *)
Lemma bind_names_NoDup {A} (f : A → list Risk) (name : A → string * string) l :
  (∀ a r, r ∈ f a → (rk_Namespace r, rk_Name r) = name a) → (∀ a, length (f a) ≤ 1)%nat →
  NoDup (map name l) → NoDup (map risk_keys (l ≫= f)).
Proof.
  intros Hf Hlen. induction l as [|a l IH]; simpl; [constructor|].
  rewrite NoDup_cons. intros [Hx Hnd]. rewrite map_app. apply NoDup_app. split_and!; [| |by apply IH].
  - specialize (Hlen a). destruct (f a) as [|r [|r' rs]]; simpl in *; [constructor| |lia].
    apply NoDup_singleton.
  - intros k Hk Hk'. apply Hx. apply list_elem_of_fmap in Hk as (r & -> & Hr).
    apply list_elem_of_fmap in Hk' as (r' & Hkeys & Hr'). injection Hkeys as _ Hns Hnm _.
    apply list_elem_of_bind in Hr' as (a' & Hr' & Ha').
    apply list_elem_of_fmap. exists a'. split; [|done].
    rewrite <- (Hf _ _ Hr), <- (Hf _ _ Hr'). by rewrite Hns, Hnm.
Qed.

Definition distinct_names (ups : list IOSXESoftwareUpgrade) (acts : list IOSXEOperationalAction) : Prop :=
  NoDup (map (λ up, (up_Namespace up, up_Name up)) ups)
  ∧ NoDup (map (λ act, (act_Namespace act, act_Name act)) acts).

Lemma all_risks_NoDup ups acts deviceName now :
  distinct_names ups acts → NoDup (map risk_keys (all_risks ups acts deviceName now)).
Proof.
  intros [Hu Ha]. unfold all_risks. rewrite map_app. apply NoDup_app. split_and!.
  - eapply bind_names_NoDup; [| |exact Hu].
    + intros up r (_ & ttl & _ & ->)%upgradeRisk_elem. done.
    + intros up. unfold upgradeRisk. repeat case_match; simpl; lia.
  - intros k Hk Hk'. apply list_elem_of_fmap in Hk as (r & -> & Hr).
    apply list_elem_of_fmap in Hk' as (r' & Hkeys & Hr'). injection Hkeys as Hkind _ _ _.
    apply list_elem_of_bind in Hr as (up & Hr & _). apply upgradeRisk_elem in Hr as (_ & ? & _ & ->).
    apply list_elem_of_bind in Hr' as (act & Hr' & _). apply actionRisk_elem in Hr' as (_ & ? & _ & ->).
    done.
  - eapply bind_names_NoDup; [| |exact Ha].
    + intros act r (_ & ttl & _ & ->)%actionRisk_elem. done.
    + intros act. unfold actionRisk. repeat case_match; simpl; lia.
Qed.

Lemma FindCanonicalRisk_head reader namespace ups acts deviceName now :
  list_upgrades reader namespace = inl ups → list_actions reader namespace = inl acts →
  FindCanonicalRisk (Some reader) namespace deviceName now
  = inl (head (sort_by_keys risk_keys (all_risks ups acts deviceName now))).
Proof.
  intros Hu Ha. unfold FindCanonicalRisk. rewrite Hu, Ha. fold (all_risks ups acts deviceName now).
  by destruct (sort_by_keys _ _).
Qed.

(** The least risk, if any. *)
Definition canonical_risk (ups : list IOSXESoftwareUpgrade) (acts : list IOSXEOperationalAction)
    (deviceName : string) (now : Time) (r : option Risk) : Prop :=
  match r with
  | None => ∀ r', ¬ risk_of ups acts deviceName now r'
  | Some r => risk_of ups acts deviceName now r
      ∧ ∀ r', risk_of ups acts deviceName now r' → r' = r ∨ keys_less (risk_keys r) (risk_keys r') = true
  end.

Lemma head_canonical ups acts deviceName now :
  distinct_names ups acts →
  canonical_risk ups acts deviceName now
    (head (sort_by_keys risk_keys (all_risks ups acts deviceName now))).
Proof.
  intros Hnd. destruct (sort_by_keys _ _) as [|r rs] eqn:Hs; simpl.
  - intros r' Hr. apply all_risks_elem in Hr.
    pose proof (sort_by_keys_perm risk_keys (all_risks ups acts deviceName now)) as Hp.
    rewrite Hs in Hp. rewrite <- Hp in Hr. by apply elem_of_nil in Hr.
  - apply sort_by_keys_head in Hs as [Hr Hleast]. split; [by apply all_risks_elem|].
    intros r' Hr'%all_risks_elem. specialize (Hleast r' Hr'). unfold keys_le in Hleast.
    apply keys_less_false in Hleast as [?|Heq]; [by right|]. left.
    by eapply NoDup_map_inj; [apply all_risks_NoDup| | |].
Qed.
End canonical.

(** What the guard fences, the workers treat as submitted. *)
Lemma in_doubt_submitted up now ttl :
  upgrade_in_doubt up now ttl → UpgradeMutationSubmitted (Some up) = true.
Proof.
  unfold UpgradeMutationSubmitted, upgradePhaseMayHaveDispatchedMutation.
  intros [Hm Ha|Hm Hq _|ttl' Hm Hf%failed_not_quiet _].
  - by rewrite (bool_decide_false (_ = "")), (bool_decide_false (_ = UpgradeExecutionModelAtMostOnceV1)).
  - by rewrite (bool_decide_true (_ = "")), (bool_decide_false (_ ∈ quietPhases)).
  - by rewrite (bool_decide_true (_ = "")), (bool_decide_false (_ ∈ quietPhases)).
Qed.

(** The Lease outlasts the fence up to a fraction of a second. *)
Lemma guard_seconds l ttl :
  0 < ttl ≤ LegacyIOSXEQuarantineTTL + 7 * 24 * hour →
  ttl - nsPerSecond < ttlSeconds (withTTL l ttl) * nsPerSecond.
Proof.
  unfold LegacyIOSXEQuarantineTTL, hour, ttlSeconds, int32, nsPerSecond. simpl fl_TTL. intros Ht.
  destruct (Z.leb_spec ttl 0); [lia|].
  pose proof (Z.quot_rem' ttl 1000000000). pose proof (Z.rem_bound_pos ttl 1000000000).
  rewrite Z.mod_small by (simpl; lia).
  destruct (Z.ltb_spec (ttl ÷ 1000000000 + 2 ^ 31 - 2 ^ 31) 1); lia.
Qed.

(** ** Properties *)

(** C40: the canonical operation in doubt.  Given the objects of the namespace,
    [FindCanonicalRisk] finds nothing exactly when no upgrade and no action of the
    device is in doubt, and otherwise the one that comes first by kind, namespace and
    name, with the time its fence has left: more than nothing, at most 26 hours and, for
    a delayed reboot, seven days.  The answer does not depend on the order in which the
    API lists the objects, so all controllers agree; every upgrade it fences is one the
    workers treat as submitted to the device. *)
Theorem FindCanonicalRisk_canonical `{HL : HashLib} reader reader' namespace ups ups' acts acts' deviceName now :
  list_upgrades reader namespace = inl ups → list_actions reader namespace = inl acts →
  list_upgrades reader' namespace = inl ups' → list_actions reader' namespace = inl acts' →
  ups ≡ₚ ups' → acts ≡ₚ acts' → distinct_names ups acts →
  (∃ r, FindCanonicalRisk (Some reader) namespace deviceName now = inl r
     ∧ FindCanonicalRisk (Some reader') namespace deviceName now = inl r
     ∧ canonical_risk ups acts deviceName now r)
  ∧ (∀ r, risk_of ups acts deviceName now r → 0 < rk_LeaseTTL r ≤ LegacyIOSXEQuarantineTTL + 7 * 24 * hour)
  ∧ ∀ up, up ∈ ups → UpgradeRequiresQuarantineAt (Some up) now = true →
      UpgradeMutationSubmitted (Some up) = true.
Proof.
  intros Hu Ha Hu' Ha' Hpu Hpa Hnd. split_and!.
  - exists (head (sort_by_keys risk_keys (all_risks ups acts deviceName now))).
    split_and!; [by apply FindCanonicalRisk_head| |by apply head_canonical].
    rewrite (FindCanonicalRisk_head _ _ ups' acts') by done. do 2 f_equal. symmetry.
    apply sort_by_keys_perm_eq; [by apply all_risks_NoDup|].
    unfold all_risks. by rewrite Hpu, Hpa.
  - intros r Hr. by eapply in_doubt_bounds.
  - intros up _. unfold UpgradeRequiresQuarantineAt.
    destruct (upgradeQuarantineTTL (Some up) now) as [ttl b] eqn:Ht. simpl. intros ->.
    by eapply in_doubt_submitted, upgradeQuarantineTTL_spec.
Qed.

(** The reader lists these objects. *)
Definition listed (reader : option RiskReader) (namespace : string)
    (ups : list IOSXESoftwareUpgrade) (acts : list IOSXEOperationalAction) : Prop :=
  ∃ rd, reader = Some rd ∧ list_upgrades rd namespace = inl ups ∧ list_actions rd namespace = inl acts.

Lemma FindCanonicalRisk_listed `{HL : HashLib} reader namespace deviceName now r :
  (∀ ups acts, listed reader namespace ups acts → distinct_names ups acts) →
  FindCanonicalRisk reader namespace deviceName now = inl r →
  ∃ ups acts, listed reader namespace ups acts ∧ canonical_risk ups acts deviceName now r.
Proof.
  intros Hnd Hf. destruct reader as [rd|]; [|done].
  destruct (list_upgrades rd namespace) as [ups|] eqn:Hu; [|by simpl in Hf; rewrite Hu in Hf].
  destruct (list_actions rd namespace) as [acts|] eqn:Ha; [|by simpl in Hf; rewrite Hu, Ha in Hf].
  rewrite (FindCanonicalRisk_head _ _ ups acts) in Hf by done. injection Hf as <-.
  assert (listed (Some rd) namespace ups acts) as Hl by (by exists rd).
  exists ups, acts. split; [done|]. by apply head_canonical, Hnd.
Qed.

(** The call, for writers whose steps [Q] allows, in the risk's name at [leaseNow] too. *)
Lemma fence_outcome `{HL : HashLib, LA : LeaseAPI}
    (lease_after : LeaseState → LeaseState → Prop) `{!LeaseAPISpec LA lease_after}
    (env : nat → LeaseState → LeaseState) (Q : Time → string → Prop)
    reader leaser namespace deviceName deviceKey caller now leaseNow s s' res err :
  let key := leaseKey leaser deviceKey MutationLeaseFamily in
  (∀ n s, lease_after s (env n s)
     ∧ lease_steps Q (lease_object s key) (lease_object (env n s) key)) →
  (∀ ups acts, listed reader namespace ups acts → distinct_names ups acts) →
  (∀ ups acts r, listed reader namespace ups acts →
     canonical_risk ups acts deviceName now (Some r) → Q leaseNow (rk_HolderIdentity r)) →
  EnsureCanonicalQuarantine env reader (Some leaser) namespace deviceName deviceKey caller
    now leaseNow s = (s', (res, err)) →
  (err = None ∨ qr_Risk res ≠ None →
     ∃ ups acts, listed reader namespace ups acts ∧ canonical_risk ups acts deviceName now (qr_Risk res))
  ∧ lease_steps Q (lease_object s key) (lease_object s' key)
  ∧ (qr_LeaseOwned res = true → err = None ∧ ∃ r until, qr_Risk res = Some r
       ∧ held (lease_object s' key) (rk_HolderIdentity r) until
       ∧ micro leaseNow + rk_LeaseTTL r - nsPerSecond < until)
  ∧ (qr_CallerOwnsRisk res = true ↔ qr_LeaseOwned res = true
       ∧ ∃ r, qr_Risk res = Some r ∧ caller = rk_HolderIdentity r).
Proof.
  intros key Henv Hnd HQ. unfold EnsureCanonicalQuarantine, ensureCanonicalQuarantine.
  destruct (FindCanonicalRisk _ _ _ _) as [[r|]|e] eqn:Hf.
  2: { intros [= <- <- <-]. apply FindCanonicalRisk_listed in Hf; [|done].
       split; [done|]. split; [apply rtc_refl|]. clear. naive_solver. }
  2: { intros [= <- <- <-]. split; [by intros [?|?]|]. split; [apply rtc_refl|]. clear. naive_solver. }
  apply FindCanonicalRisk_listed in Hf as (ups & acts & Hl & Hc); [|done].
  pose proof (in_doubt_bounds _ _ _ _ _ (proj1 Hc)) as [Hb Hne].
  unfold guardLeaser. rewrite (proj2 (Z.ltb_lt _ _)) by lia.
  destruct (Acquire _ _ _ _ _ _ _) as [s1 ar] eqn:Hacq.
  apply (or_introl (B := AcquireIfFree env (withTTL leaser (rk_LeaseTTL r)) deviceKey MutationLeaseFamily
           (rk_HolderIdentity r) leaseNow s = (s1, ar))) in Hacq.
  apply (acquire_outcome lease_after env (withTTL leaser (rk_LeaseTTL r)) _ _ Q Henv) in Hacq
    as (_ & Hs & Ho); [|done|by eapply HQ].
  destruct ar as [lr|e]; intros [= <- <- <-];
    (split; [by exists ups, acts|split; [exact Hs|simpl]]); split.
  - intros Hown. split; [done|]. exists r, (micro leaseNow + ttlSeconds (withTTL leaser (rk_LeaseTTL r)) * nsPerSecond).
    split_and!; [done|by eapply Ho|]. pose proof (guard_seconds leaser _ Hb). lia.
  - rewrite andb_true_iff, bool_decide_eq_true. clear. naive_solver.
  - done.
  - clear. naive_solver.
Qed.

(** The name in which the guard writes: that of the canonical operation in doubt. *)
Definition fence_name `{HashLib} (reader : option RiskReader) (namespace deviceName : string)
    (now : Time) (id : string) : Prop :=
  ∃ ups acts r, listed reader namespace ups acts
    ∧ canonical_risk ups acts deviceName now (Some r) ∧ id = rk_HolderIdentity r.

Lemma lease_steps_mono (P Q : Time → string → Prop) o o' :
  (∀ t id, P t id → Q t id) → lease_steps P o o' → lease_steps Q o o'.
Proof. intros HPQ. apply rtc_subrel. intros x y (t & id & ? & ?). eauto. Qed.

(** C9: the quarantine is a fence.  A caller that gets no error and no risk is told so
    because the API listed the operations and none on the device is in doubt: any failure
    is an error.  A risk it is told of is the canonical one; the Lease is reported owned
    only if the device's mutation Lease is then held in that operation's name for the time
    the fence has left, to the second; and the caller may go on only if it is itself that
    operation.  Whatever the other writers are allowed to do (steps of the lease protocol
    in the names and at the times of [P]), the call adds only protocol steps in the name
    of the canonical operation at its own time: a Lease that another holds and that has
    not run out stays with its holder.  (The API lists objects of one kind with distinct
    names.) *)
Theorem EnsureCanonicalQuarantine_fences `{HL : HashLib, LA : LeaseAPI}
    (lease_after : LeaseState → LeaseState → Prop) `{!LeaseAPISpec LA lease_after}
    (env : nat → LeaseState → LeaseState) (P : Time → string → Prop)
    reader leaser namespace deviceName deviceKey caller now leaseNow s s' res err :
  let key := leaseKey leaser deviceKey MutationLeaseFamily in
  (∀ n s, lease_after s (env n s)
     ∧ lease_steps P (lease_object s key) (lease_object (env n s) key)) →
  (∀ ups acts, listed reader namespace ups acts → distinct_names ups acts) →
  EnsureCanonicalQuarantine env reader (Some leaser) namespace deviceName deviceKey caller
    now leaseNow s = (s', (res, err)) →
  (err = None ∨ qr_Risk res ≠ None →
     ∃ ups acts, listed reader namespace ups acts ∧ canonical_risk ups acts deviceName now (qr_Risk res))
  ∧ lease_steps (λ t id, P t id ∨ t = leaseNow ∧ fence_name reader namespace deviceName now id)
      (lease_object s key) (lease_object s' key)
  ∧ (∀ id until, id ≠ "" → ¬ fence_name reader namespace deviceName now id → leaseNow ≤ until →
       (∀ t id', P t id' → id' ≠ id ∧ t ≤ until) →
       held (lease_object s key) id until → held (lease_object s' key) id until)
  ∧ (qr_LeaseOwned res = true → err = None ∧ ∃ r until, qr_Risk res = Some r
       ∧ held (lease_object s' key) (rk_HolderIdentity r) until
       ∧ micro leaseNow + rk_LeaseTTL r - nsPerSecond < until)
  ∧ (qr_CallerOwnsRisk res = true ↔ qr_LeaseOwned res = true
       ∧ ∃ r, qr_Risk res = Some r ∧ caller = rk_HolderIdentity r).
Proof.
  intros key Henv Hnd Hrun.
  set (Q := λ t id, P t id ∨ t = leaseNow ∧ fence_name reader namespace deviceName now id).
  assert (∀ n s, lease_after s (env n s)
            ∧ lease_steps Q (lease_object s key) (lease_object (env n s) key)) as HenvQ.
  { intros n s0. destruct (Henv n s0) as [? Hsteps]. split; [done|].
    revert Hsteps. apply lease_steps_mono. by left. }
  edestruct (fence_outcome lease_after env Q) as (Hrisk & Hs & Hown); [exact HenvQ|exact Hnd| |exact Hrun|].
  { intros ups acts r Hl Hc. right. split; [done|]. by exists ups, acts, r. }
  split; [done|]. split; [exact Hs|]. split; [|done]. intros id until Hid Hname Hu HP Hheld.
  eapply held_steps; [exact Hid| |exact Hheld|exact Hs].
  intros t id' [?|[-> Hf]]; [by apply HP|]. split; [|done]. by intros ->.
Qed.

(** ** Witnesses *)

Definition exStatus (phase : string) (completed : Time) : IOSXESoftwareUpgradeStatus :=
  {| us_Phase := phase; us_ExecutionModel := ""; us_FailureReason := ""; us_StartTime := None;
     us_InstallStartTime := None; us_ActivationStartTime := None; us_RollbackStartTime := None;
     us_CompletionTime := Some completed; us_TransferProgress := false; us_StagingRequested := false;
     us_PrimarySupervisorInstallRequested := false; us_PrimarySupervisorInstalled := false;
     us_StandbySupervisorInstallRequested := false; us_StandbySupervisorInstalled := false;
     us_StandbySupervisorActivationRequested := false; us_StandbySupervisorActivated := false;
     us_PrimarySupervisorActivationRequested := false; us_NoRebootActivationAccepted := false;
     us_RollbackActivationRequested := false; us_Conditions := [] |}.

Definition exUpgrade (name phase : string) : IOSXESoftwareUpgrade :=
  {| up_Namespace := "net"; up_Name := name; up_UID := name; up_CreationTimestamp := exNow - 3 * hour;
     up_DeviceRef := "sw-a"; up_Status := exStatus phase (exNow - hour) |}.

Definition exReboot : IOSXEOperationalAction :=
  {| act_Namespace := "net"; act_Name := "reboot"; act_UID := "a1"; act_CreationTimestamp := exNow - 2 * hour;
     act_DeviceRef := "sw-a"; act_Kind := "Reboot"; act_Reboot := Some 3600; act_Phase := "Succeeded";
     act_InvocationID := "i1"; act_StartTime := None; act_CompletionTime := None |}.

Definition exRiskReader : RiskReader :=
  {| list_upgrades _ := inl [exUpgrade "up-1" "Failed"; exUpgrade "up-2" "Activating"];
     list_actions _ := inl [exReboot] |}.

Definition exRiskReader' : RiskReader :=
  {| list_upgrades _ := inl [exUpgrade "up-2" "Activating"; exUpgrade "up-1" "Failed"];
     list_actions _ := inl [exReboot] |}.

Lemma exRisks_distinct :
  distinct_names [exUpgrade "up-1" "Failed"; exUpgrade "up-2" "Activating"] [exReboot].
Proof. split; apply (bool_decide_unpack _); vm_compute; done. Qed.

Lemma exRisks_listed ups acts : listed (Some exRiskReader) "net" ups acts → distinct_names ups acts.
Proof. intros (rd & [= <-] & [= <-] & [= <-]). apply exRisks_distinct. Qed.

Lemma FindCanonicalRisk_canonical_witness :
  ∃ r, FindCanonicalRisk (H := hash_reference) (Some exRiskReader) "net" "sw-a" exNow = inl r
     ∧ FindCanonicalRisk (H := hash_reference) (Some exRiskReader') "net" "sw-a" exNow = inl r
     ∧ (∃ x, r = Some x ∧ rk_Name x = "reboot" ∧ rk_LeaseTTL x = 25 * hour).
Proof.
  destruct (proj1 (FindCanonicalRisk_canonical (HL := hash_reference) exRiskReader exRiskReader' "net"
    _ _ _ _ "sw-a" exNow eq_refl eq_refl eq_refl eq_refl ltac:(apply Permutation_swap) ltac:(reflexivity)
    exRisks_distinct)) as (r & H1 & H2 & _).
  exists r. split; [exact H1|]. split; [exact H2|]. vm_compute in H1. injection H1 as <-.
  eexists. split; [reflexivity|]. split; reflexivity.
Defined.

Definition exFenced : lease_log * (Result * option goerror) :=
  EnsureCanonicalQuarantine (HL := hash_reference) quiet (Some exRiskReader) (Some exLeaser) "net" "sw-a" "sw-a"
    "operational-action/a1" exNow exNow [].

Lemma EnsureCanonicalQuarantine_fences_witness :
  qr_CallerOwnsRisk exFenced.2.1 = true
  ∧ ∃ until,
      held (llog_object exFenced.1 (leaseKey (HL := hash_reference) exLeaser "sw-a" MutationLeaseFamily))
        "operational-action/a1" until
      ∧ micro exNow + 25 * hour - nsPerSecond < until.
Proof.
  destruct (EnsureCanonicalQuarantine_fences (HL := hash_reference) (LA := lease_reference) llog_after quiet
    (λ _ _, False) (Some exRiskReader) exLeaser "net" "sw-a" "sw-a" "operational-action/a1" exNow exNow []
    exFenced.1 exFenced.2.1 exFenced.2.2 (quiet_protocol _ _) exRisks_listed
    ltac:(vm_compute; reflexivity)) as (_ & _ & _ & Howned & _).
  split; [vm_compute; reflexivity|].
  destruct (Howned ltac:(vm_compute; reflexivity)) as (_ & r & until & Hr & Hheld & Hu).
  vm_compute in Hr. injection Hr as <-. exists until. split; [exact Hheld|exact Hu].
Defined.
