(* ===== verification/LockProtocol.v ===== *)
(** * The topology lock protocol

    A device that a campaign disrupts carries a topology lock in its status; the
    reservation that allows the disruption is in the ledger, another object.  No
    transaction spans the two, so src/internal/controller/topology_lock.go orders the
    writes: lock before [Reserve], [Releasing] before the ledger's release fence, the
    fence before the lock is cleared, and [Reserve] commits only if the ledger did not
    change since the lock was checked.

    This file states that order as a protocol on the histories of the two objects and
    proves what it is for: a reservation never stands without its lock. *)

From S2P Require Import Prelude GoLib GoTime Json Interfaces LedgerData Ledger LedgerSpec LedgerOps.

(** ** The lock *)

(** api/v1alpha1, DeviceTopologyLockStatus. *)
Record DeviceTopologyLockStatus := {
  dtl_State : string;
  dtl_PolicyEpoch : Z;
  dtl_AcquisitionID : string;
  dtl_CampaignNamespace : string;
  dtl_CampaignName : string;
  dtl_CampaignUID : string;
  dtl_PlanHash : string;
  dtl_ReservationID : string;
  dtl_DeviceUID : string;
  dtl_DeviceGeneration : Z;
  dtl_NodeUID : string;
  dtl_ProjectionHash : string;
  dtl_AcquiredAt : Time;
}.

#[export] Instance DeviceTopologyLockStatus_eq_dec : EqDecision DeviceTopologyLockStatus.
Proof. solve_decision. Defined.

Definition DeviceTopologyLockActive : string := "Active".
Definition DeviceTopologyLockReleasing : string := "Releasing".

Definition with_lock_state (lk : DeviceTopologyLockStatus) (state : string) : DeviceTopologyLockStatus :=
  {| dtl_State := state; dtl_PolicyEpoch := dtl_PolicyEpoch lk; dtl_AcquisitionID := dtl_AcquisitionID lk;
     dtl_CampaignNamespace := dtl_CampaignNamespace lk; dtl_CampaignName := dtl_CampaignName lk;
     dtl_CampaignUID := dtl_CampaignUID lk; dtl_PlanHash := dtl_PlanHash lk;
     dtl_ReservationID := dtl_ReservationID lk; dtl_DeviceUID := dtl_DeviceUID lk;
     dtl_DeviceGeneration := dtl_DeviceGeneration lk; dtl_NodeUID := dtl_NodeUID lk;
     dtl_ProjectionHash := dtl_ProjectionHash lk; dtl_AcquiredAt := dtl_AcquiredAt lk |}.

(** ** Histories *)

(** What the two objects hold at one moment. *)
Record lock_view := {
  lv_ledger : Ledger;
  lv_lock : option DeviceTopologyLockStatus;
}.

(** The lock of the acquisition a reservation was requested under. *)
Definition covers (lk : DeviceTopologyLockStatus) (q : ReservationRequest) : Prop :=
  dtl_AcquisitionID lk = req_TopologyLockID q ∧ dtl_ReservationID lk = req_ID q
  ∧ dtl_PolicyEpoch lk = req_PolicyEpoch q.

Definition reserves (device : string) (l : Ledger) (r : Reservation) : Prop :=
  req_DeviceUID (rsv_Request r) = device ∧ ∃ id, reservations l !! id = Some r.

Definition fences (l : Ledger) (lockID : string) : Prop :=
  ∃ id epoch, HasReleaseFence l id epoch lockID = true.

(** The acquisition occurs in a view. *)
Definition mentions (lockID : string) (v : lock_view) : Prop :=
  (∃ lk, lv_lock v = Some lk ∧ dtl_AcquisitionID lk = lockID) ∨ fences (lv_ledger v) lockID.

Definition fresh_lock (lockID : string) (τ : list lock_view) : Prop :=
  ∀ v, v ∈ τ → ¬ mentions lockID v.

(** The acquisition an operation fences. *)
Definition op_lock (op : ledger_op) : option string :=
  match op with
  | OpSettle _ lock _ _ _ _ | OpSettleDrained _ _ lock _ _ _ _ _ _
  | OpReleaseUnclaimed _ lock _ _ _ | OpFenceUnbound _ _ lock => Some lock
  | _ => None
  end.

(** A reservation of the device is written only if its lock was seen active after the
    ledger it is added to was read.  Histories have the newest view first. *)
Definition lock_checked (device : string) (op : ledger_op) (τ : list lock_view) : Prop :=
  ∀ policy members q, op = OpReserve policy members q → req_DeviceUID q = device →
  ∃ since seen before lk, τ = since ++ seen :: before
    ∧ (∀ v v', v ∈ since ++ [seen] → head τ = Some v' → lv_ledger v = lv_ledger v')
    ∧ lv_lock seen = Some lk ∧ dtl_State lk = DeviceTopologyLockActive ∧ covers lk q.

(** An acquisition is fenced only when its lock is not active. *)
Definition release_begun (op : ledger_op) (v : lock_view) : Prop :=
  ∀ lk, lv_lock v = Some lk → op_lock op = Some (dtl_AcquisitionID lk) →
  dtl_State lk ≠ DeviceTopologyLockActive.

(** One write to either object. *)
Inductive lock_step `{K8sValidation, UuidLib} (device : string) : list lock_view → lock_view → Prop :=
  | LockAcquire v τ lk :
      lv_lock v = None → dtl_State lk = DeviceTopologyLockActive →
      fresh_lock (dtl_AcquisitionID lk) (v :: τ) →
      lock_step device (v :: τ) {| lv_ledger := lv_ledger v; lv_lock := Some lk |}
  | LockBegin v τ lk :
      lv_lock v = Some lk → dtl_State lk = DeviceTopologyLockActive →
      lock_step device (v :: τ)
        {| lv_ledger := lv_ledger v; lv_lock := Some (with_lock_state lk DeviceTopologyLockReleasing) |}
  | LockClear v τ lk seen :
      lv_lock v = Some lk → dtl_State lk = DeviceTopologyLockReleasing →
      seen ∈ v :: τ → (∀ r, ¬ reserves device (lv_ledger seen) r) →
      HasReleaseFence (lv_ledger seen) (dtl_ReservationID lk) (dtl_PolicyEpoch lk)
        (dtl_AcquisitionID lk) = true →
      lock_step device (v :: τ) {| lv_ledger := lv_ledger v; lv_lock := None |}
  | LockLedger v τ op l :
      run_op op (lv_ledger v) = (l, None) →
      lock_checked device op (v :: τ) → release_begun op v →
      lock_step device (v :: τ) {| lv_ledger := l; lv_lock := lv_lock v |}.

Inductive lock_history `{K8sValidation, UuidLib} (device : string) : list lock_view → Prop :=
  | HistoryStart v :
      lv_lock v = None → (∀ r, ¬ reserves device (lv_ledger v) r) → lock_history device [v]
  | HistoryStep τ v : lock_history device τ → lock_step device τ v → lock_history device (v :: τ).

#[export] Hint Constructors lock_step lock_history : go.

(** ** The fence of a release *)

(** A step adds a fence only for the acquisition of the operation. *)
Lemma run_op_fences `{K8sValidation, UuidLib} op l l' id epoch lockID :
  run_op op l = (l', None) → HasReleaseFence l' id epoch lockID = true →
  HasReleaseFence l id epoch lockID = true ∨ op_lock op = Some lockID.
Proof.
  destruct op; simpl.
  { intros (_ & _ & [])%Reserve_success; subst; by left. }
  all: intros Hr; unfold_op Hr; split_paths Hr; autorewrite with ledger; auto.
  all: rewrite ?HasReleaseFence_remove; auto.
  all: unfold HasReleaseFence, releaseFenceMatches; simpl; go_bool; intros; destruct_and?; subst; auto.
Qed.

(** ** The invariant *)

Section invariant.
Context `{K8sValidation, UuidLib} (device : string).

Lemma history_nonempty τ : lock_history device τ → ∃ v τ', τ = v :: τ'.
Proof. destruct 1; eauto. Qed.

Lemma history_suffix since v before :
  lock_history device (since ++ v :: before) → lock_history device (v :: before).
Proof.
  induction since as [|w since IH]; [done|]. simpl. inversion 1 as [? ? ? Hw|]; subst; [|auto].
  by destruct since.
Qed.

(** Once an acquisition is fenced its lock is never active again. *)
Lemma fenced_not_active τ v lk seen :
  lock_history device τ → head τ = Some v → seen ∈ τ → fences (lv_ledger seen) (dtl_AcquisitionID lk) →
  lv_lock v = Some lk → dtl_State lk ≠ DeviceTopologyLockActive.
Proof.
  intros Hh. revert v lk seen. induction Hh as [w Hnone _|τ w Hh IH Hstep]; intros v lk seen [= ->].
  { by rewrite Hnone. }
  rewrite elem_of_cons. intros Hseen Hf Hlk.
  destruct Hstep as [x τ lk' Hnone Ha Hfresh|x τ lk' Hx Ha|x τ lk' ? Hx Ha|x τ op l Hrun _ Hbegun];
    simplify_eq/=.
  - destruct Hseen as [->|Hseen]; simpl in Hf.
    + destruct (Hfresh x); [by left|by right].
    + destruct (Hfresh seen); [done|by right].
  - done.
  - assert (fences (lv_ledger x) (dtl_AcquisitionID lk) ∨ op_lock op = Some (dtl_AcquisitionID lk)
            ∨ ∃ y, y ∈ x :: τ ∧ fences (lv_ledger y) (dtl_AcquisitionID lk)) as Hcase.
    { destruct Hseen as [->|Hseen]; [|eauto]. destruct Hf as (id & ep & Hf). simpl in Hf.
      destruct (run_op_fences _ _ _ _ _ _ Hrun Hf); [|by auto]. left. by exists id, ep. }
    destruct Hcase as [Hc|[Hc|(y & Hy & Hc)]]; [|by eapply Hbegun|];
      (eapply IH; [done| |exact Hc|done]); [by left|done].
Qed.

(** While the ledger stays the same and does not fence it, an active lock stays. *)
Lemma window_keeps_lock since seen before l lk v :
  lock_history device (since ++ seen :: before) →
  (∀ w, w ∈ since ++ [seen] → lv_ledger w = l) →
  lv_lock seen = Some lk → dtl_State lk = DeviceTopologyLockActive →
  HasReleaseFence l (dtl_ReservationID lk) (dtl_PolicyEpoch lk) (dtl_AcquisitionID lk) = false →
  head (since ++ seen :: before) = Some v →
  ∃ lk', lv_lock v = Some lk' ∧ dtl_ReservationID lk' = dtl_ReservationID lk
    ∧ dtl_PolicyEpoch lk' = dtl_PolicyEpoch lk ∧ dtl_AcquisitionID lk' = dtl_AcquisitionID lk.
Proof.
  intros Hh Hl Hs Ha Hnf. revert v Hh Hl. induction since as [|w since IH]; intros v Hh Hl [= ->].
  { by exists lk. }
  inversion Hh as [|τ' w Hh' Hstep]; subst; [by destruct since|].
  destruct (history_nonempty _ Hh') as (x & τ & Heq).
  destruct (IH x) as (lk' & Hx & Hid & Hep & Hac); [done|set_solver|by rewrite Heq|].
  rewrite Heq in Hstep.
  inversion Hstep as [? ? ? Hnone|? ? ? Hb|? ? ? y Hc _ Hy _ Hf|]; subst; simpl.
  - congruence.
  - simplify_eq. eexists. by split_and!.
  - simplify_eq. rewrite Hid, Hep, Hac in Hf. rewrite <- Heq in Hy. exfalso.
    apply elem_of_app in Hy as [Hy|[->|Hy]%elem_of_cons].
    + rewrite (Hl y) in Hf by set_solver. congruence.
    + rewrite (Hl seen) in Hf by set_solver. congruence.
    + eapply (fenced_not_active (seen :: before) seen lk y); [by eapply history_suffix|done| | |done|done].
      { by right. } by eexists _, _.
  - eauto.
Qed.

Lemma same_identity_covers r r' lk :
  same_identity r r' → covers lk (rsv_Request r') ↔ covers lk (rsv_Request r).
Proof. intros [Hq _]. unfold covers. rewrite Hq. done. Qed.

Lemma same_identity_device r r' :
  same_identity r r' → req_DeviceUID (rsv_Request r') = req_DeviceUID (rsv_Request r).
Proof. intros [Hq _]. by rewrite Hq. Qed.

(** [Reserve] refuses a fenced acquisition. *)
Lemma Reserve_unfenced policy members q l l' :
  Reserve policy members q l = (l', None) →
  HasReleaseFence l (req_ID q) (req_PolicyEpoch q) (req_TopologyLockID q) = false.
Proof.
  unfold Reserve, HasReleaseFence. destruct (validateInputs l policy q); [done|]. by case_match.
Qed.

(** A reservation of the device after a step was there before, or was just made and
    the ledger, since its lock was checked, has not fenced its acquisition. *)
Lemma step_reserves op v τ l' r' :
  run_op op (lv_ledger v) = (l', None) → lock_checked device op (v :: τ) → reserves device l' r' →
  (∃ r, reserves device (lv_ledger v) r ∧ ∀ lk, covers lk (rsv_Request r') ↔ covers lk (rsv_Request r))
  ∨ ∃ since seen before lk, v :: τ = since ++ seen :: before
      ∧ (∀ w, w ∈ since ++ [seen] → lv_ledger w = lv_ledger v)
      ∧ lv_lock seen = Some lk ∧ dtl_State lk = DeviceTopologyLockActive ∧ covers lk (rsv_Request r')
      ∧ HasReleaseFence (lv_ledger v) (dtl_ReservationID lk) (dtl_PolicyEpoch lk)
          (dtl_AcquisitionID lk) = false.
Proof.
  intros Hrun Hchk [Hdev [id Hid']]. destruct (reservations (lv_ledger v) !! id) as [r|] eqn:Hid.
  - left. exists r. destruct (run_op_lifecycle _ _ _ _ _ _ Hrun Hid Hid') as (Hs & _).
    split; [|intros lk; by apply same_identity_covers].
    split; [by rewrite <- (same_identity_device _ _ Hs)|eauto].
  - right. destruct (run_op_creates _ _ _ _ _ _ Hrun Hid Hid') as (p & ms & q & -> & _ & ->).
    simpl in Hdev. destruct (Hchk p ms q eq_refl Hdev) as (since & seen & before & lk & Heq & Hw & Hl & Ha & Hc).
    apply Reserve_unfenced in Hrun. destruct (Hc) as (H1 & H2 & H3).
    exists since, seen, before, lk. split_and!; [done| |done|done|done|by rewrite H1, H2, H3].
    intros w Hin. by eapply Hw.
Qed.

(** After a view that fences an acquisition and has no reservation of the device,
    there is none under that acquisition. *)
Lemma fenced_stays_free since seen before lk v r :
  lock_history device (since ++ seen :: before) →
  (∀ r, ¬ reserves device (lv_ledger seen) r) →
  HasReleaseFence (lv_ledger seen) (dtl_ReservationID lk) (dtl_PolicyEpoch lk) (dtl_AcquisitionID lk) = true →
  head (since ++ seen :: before) = Some v → reserves device (lv_ledger v) r →
  ¬ covers lk (rsv_Request r).
Proof.
  intros Hh Hnone Hf. revert v r Hh. induction since as [|w since IH]; intros v r Hh [= ->] Hr Hc.
  { by eapply Hnone. }
  inversion Hh as [|τ' w Hh' Hstep]; subst; [by destruct since|].
  destruct (history_nonempty _ Hh') as (x & τ & Heq).
  assert (∀ r, reserves device (lv_ledger x) r → ¬ covers lk (rsv_Request r)) as IHx.
  { intros r0. apply IH; [done|by rewrite Heq]. }
  rewrite Heq in Hstep. clear IH.
  inversion Hstep as [| | |? ? op l Hrun Hchk _]; subst; simpl in *; [by eapply IHx..|].
  destruct (step_reserves _ _ _ _ _ Hrun Hchk Hr) as [(r0 & Hr0 & Hcov)|Hnew].
  { eapply IHx; [exact Hr0|by apply Hcov]. }
  destruct Hnew as (s' & seen' & b' & lk' & Heq' & Hw & Hl' & Ha' & Hc' & Hnf).
  assert (seen ∈ s' ++ seen' :: b') as Hin.
  { rewrite <- Heq', <- Heq. set_solver. }
  destruct Hc as (C1 & C2 & C3), Hc' as (C1' & C2' & C3').
  rewrite C1', C2', C3' in Hnf. rewrite C1, C2, C3 in Hf.
  apply elem_of_app in Hin as [Hin|[->|Hin]%elem_of_cons].
  - rewrite (Hw seen) in Hf by set_solver. congruence.
  - rewrite (Hw seen') in Hf by set_solver. congruence.
  - eapply (fenced_not_active (seen' :: b') seen' lk' seen); [|done|by right| |done|done].
    { eapply (history_suffix s'). by rewrite <- Heq', <- Heq. }
    rewrite C1'. by eexists _, _.
Qed.

(** Every reservation of the device stands under its lock. *)
Lemma reservations_locked τ v r :
  lock_history device τ → head τ = Some v → reserves device (lv_ledger v) r →
  ∃ lk, lv_lock v = Some lk ∧ covers lk (rsv_Request r).
Proof.
  intros Hh. revert v r. induction Hh as [w _ Hnone|τ w Hh IH Hstep]; intros v r [= ->] Hr.
  { by destruct (Hnone r). }
  destruct Hstep as [x τ lk Hx _ _|x τ lk Hx _|x τ lk seen Hx _ Hseen Hn Hf|x τ op l Hrun Hchk _]; simpl in *.
  - destruct (IH x r eq_refl Hr) as (? & ? & _). congruence.
  - destruct (IH x r eq_refl Hr) as (lk' & ? & Hc). simplify_eq. by eexists.
  - exfalso. destruct (IH x r eq_refl Hr) as (lk' & ? & Hc). simplify_eq.
    apply list_elem_of_split in Hseen as (s' & b' & Heq). rewrite Heq in Hh.
    eapply fenced_stays_free; [exact Hh|exact Hn|exact Hf| |exact Hr|exact Hc]. by rewrite <- Heq.
  - destruct (step_reserves _ _ _ _ _ Hrun Hchk Hr) as [(r0 & Hr0 & Hcov)|Hnew].
    { destruct (IH x r0 eq_refl Hr0) as (lk & Hl & Hc). exists lk. split; [done|by apply Hcov]. }
    destruct Hnew as (s' & seen' & b' & lk' & Heq' & Hw & Hl' & Ha' & Hc' & Hnf). rewrite Heq' in Hh.
    destruct (window_keeps_lock s' seen' b' (lv_ledger x) lk' x) as (lk & Hlk & E1 & E2 & E3);
      [done|done|done|done|done|by rewrite <- Heq'|].
    exists lk. split; [done|]. destruct Hc' as (? & ? & ?). split_and!; congruence.
Qed.
End invariant.
