(* ===== verification/TopologyLock.v ===== *)
(** * Topology locks

    src/internal/controller/topology_lock.go, and the places of
    src/internal/controller/iosxesoftwarerollout_execution.go where a reservation is made
    and settled under a lock.  The protocol these operations follow is in LockProtocol.v.

    The API server holds the ledger's ConfigMap (Store.v) and the CiscoDevice objects
    ([DeviceAPI]); others write between any two calls: every operation takes the function
    [env], of which [env n] is what they do before its call number [n]. *)

From S2P Require Import Prelude GoLib GoTime Json Interfaces LedgerData Ledger LedgerOps Store.
From S2P Require Import AdminPolicyHash LockProtocol.

(** ** Objects *)

Definition DeviceDriverXE : string := "XE".

(** Status.NodeIdentity. *)
Record DeviceNodeIdentityStatus := {
  ni_DeviceUID : string;
  ni_NodeName : string;
  ni_NodeUID : string;
}.

(** The fields of a CiscoDevice that the lock is about; the projection is its
    EffectiveLabelHash. *)
Record CiscoDevice := {
  dev_UID : string;
  dev_ResourceVersion : string;
  dev_Deleting : bool;       (* DeletionTimestamp is set *)
  dev_Generation : Z;
  dev_Driver : string;
  dev_NodeIdentity : option DeviceNodeIdentityStatus;
  dev_TopologyProjection : option string;
  dev_TopologyLock : option DeviceTopologyLockStatus;
}.

Definition withTopologyLock (d : CiscoDevice) (lock : option DeviceTopologyLockStatus) : CiscoDevice :=
  {| dev_UID := dev_UID d; dev_ResourceVersion := dev_ResourceVersion d; dev_Deleting := dev_Deleting d;
     dev_Generation := dev_Generation d; dev_Driver := dev_Driver d;
     dev_NodeIdentity := dev_NodeIdentity d; dev_TopologyProjection := dev_TopologyProjection d;
     dev_TopologyLock := lock |}.

(** A planned target of a campaign. *)
Record PlannedTarget := {
  pt_DeviceName : string;
  pt_DeviceUID : string;
  pt_DeviceGeneration : Z;
  pt_PhysicalIdentity : string;
  pt_NodeName : string;
  pt_NodeUID : string;
  pt_ProjectionHash : string;
  pt_ChildName : string;
  pt_RiskGroups : list string;
  pt_Topology : list (string * string);
}.

Record DomainBudget := {
  db_TopologyKey : string;
  db_MaxConcurrentTransfers : option Z;
  db_MaxUnavailable : option Z;
}.

(** Status.EffectivePolicy. *)
Record EffectivePolicy := {
  ep_Epoch : Z;
  ep_UID : string;
  ep_ResourceVersion : string;
}.

(** A campaign with a frozen plan. *)
Record SoftwareRollout := {
  ro_Namespace : string;
  ro_Name : string;
  ro_UID : string;
  ro_PlanHash : string;
  ro_LedgerNamespace : string;
  ro_LedgerName : string;
  ro_LedgerUID : string;
  ro_EffectivePolicy : option EffectivePolicy;
  ro_MaxConcurrentTransfers : Z;
  ro_MaxUnavailable : Z;
  ro_Domains : list DomainBudget;
  ro_ControlRevision : Z;
}.

(** ** The API server's devices *)

Class DeviceAPI `{KubeAPI} := {
  dev_object : KubeState → NamespacedName → option CiscoDevice;
  dev_reader_Get : KubeState → NamespacedName → CiscoDevice + goerror;
  dev_client_Get : KubeState → NamespacedName → CiscoDevice + goerror;
  (** [Status().Patch] as a merge from the object that was read, with the optimistic
      lock. *)
  dev_PatchStatus : KubeState → NamespacedName → CiscoDevice → CiscoDevice → KubeState * option goerror;
  (** [apierrors.IsNotFound]. *)
  IsNotFound : goerror → bool;
}.

(** A metav1.Time is stored to the second. *)
Definition stored_lock (lk : DeviceTopologyLockStatus) : DeviceTopologyLockStatus :=
  {| dtl_State := dtl_State lk; dtl_PolicyEpoch := dtl_PolicyEpoch lk; dtl_AcquisitionID := dtl_AcquisitionID lk;
     dtl_CampaignNamespace := dtl_CampaignNamespace lk; dtl_CampaignName := dtl_CampaignName lk;
     dtl_CampaignUID := dtl_CampaignUID lk; dtl_PlanHash := dtl_PlanHash lk;
     dtl_ReservationID := dtl_ReservationID lk; dtl_DeviceUID := dtl_DeviceUID lk;
     dtl_DeviceGeneration := dtl_DeviceGeneration lk; dtl_NodeUID := dtl_NodeUID lk;
     dtl_ProjectionHash := dtl_ProjectionHash lk;
     dtl_AcquiredAt := dtl_AcquiredAt lk / nsPerSecond * nsPerSecond |}.

Definition dev_patched `{DeviceAPI} (kube_after : KubeState → KubeState → Prop) (s : KubeState)
    (k : NamespacedName) (before after : CiscoDevice) (s' : KubeState) : Prop :=
  kube_after s s' ∧ (∀ k', kube_object s' k' = kube_object s k')
  ∧ ∃ cur new, dev_object s k = Some cur ∧ dev_ResourceVersion cur = dev_ResourceVersion before
    ∧ dev_object s' k = Some new
    ∧ (cur = before → dev_TopologyLock new = stored_lock <$> dev_TopologyLock after).

Class DeviceAPISpec `{D : DeviceAPI} (kube_after : KubeState → KubeState → Prop) : Prop := {
  dev_reader_current s k d : dev_reader_Get s k = inl d → dev_object s k = Some d;
  (** The reader says that an object is not found only when it is not there. *)
  dev_reader_absent s k e : dev_reader_Get s k = inr e → IsNotFound e = true → dev_object s k = None;
  (** Times are stored to the second and numbers in their width. *)
  dev_lock_stored s k d lk :
    dev_object s k = Some d → dev_TopologyLock d = Some lk →
    stored_lock lk = lk ∧ dtl_PolicyEpoch lk ≤ maxInt64;
  dev_version_unique s s' k d d' :
    kube_after s s' → dev_object s k = Some d → dev_object s' k = Some d' →
    dev_ResourceVersion d = dev_ResourceVersion d' → d = d';
  dev_patch_ok s k before after s' :
    dev_PatchStatus s k before after = (s', None) → dev_patched kube_after s k before after s';
  dev_patch_error s k before after s' e :
    dev_PatchStatus s k before after = (s', Some e) →
    s' = s ∨ (IsConflict e = false ∧ dev_patched kube_after s k before after s');
  (** An object that is as it was has not been written in between: versions are not
      used again. *)
  kube_object_between s1 s2 s3 k o :
    kube_after s1 s2 → kube_after s2 s3 →
    kube_object s1 k = Some o → kube_object s3 k = Some o → kube_object s2 k = Some o;
  (** A patch of a ConfigMap leaves the devices alone. *)
  kube_patch_devices s k before after s' r :
    kube_Patch s k before after = (s', r) → ∀ k', dev_object s' k' = dev_object s k';
}.

(** ** Names and identities *)

Definition reservationID `{HashLib} (rolloutUID deviceUID : string) : string :=
  hex_EncodeToString (take 16 (Sum256 (rolloutUID +:+ "/" +:+ deviceUID))).

Definition targetDomains (target : PlannedTarget) : gmap string string :=
  foldl (λ out t, <[t.1 := t.2]> out) ∅ (pt_Topology target).

Definition defaultInt32 (value fallback : Z) : Z := if 0 <? value then value else fallback.

Fixpoint campaignDomainLimits (domains : list DomainBudget) (policy : Policy)
    (transfers unavailable : gmap string Z) : (gmap string Z * gmap string Z) + goerror :=
  match domains with
  | [] => inl (transfers, unavailable)
  | d :: domains =>
      return_if (negb (bool_decide (is_Some (pol_DomainTransferBudgets policy !! db_TopologyKey d)))
                 && bool_decide (is_Some (db_MaxConcurrentTransfers d)))
        (inr (EPlain "campaign transfer domain is not administrator-controlled")) ;;
      return_if (negb (bool_decide (is_Some (pol_DomainBudgets policy !! db_TopologyKey d)))
                 && bool_decide (is_Some (db_MaxUnavailable d)))
        (inr (EPlain "campaign unavailable domain is not administrator-controlled")) ;;
      campaignDomainLimits domains policy
        (match db_MaxConcurrentTransfers d with
         | Some n => <[db_TopologyKey d := n]> transfers | None => transfers end)
        (match db_MaxUnavailable d with
         | Some n => <[db_TopologyKey d := n]> unavailable | None => unavailable end)
  end.

(** The request without its lock, which [admitTarget] adds. *)
Definition rolloutReservationRequest `{HashLib} (rollout : SoftwareRollout) (effectivePolicy : Policy)
    (target : PlannedTarget) : ReservationRequest + goerror :=
  match campaignDomainLimits (ro_Domains rollout) effectivePolicy ∅ ∅ with
  | inr e => inr e
  | inl (transferLimits, unavailableLimits) =>
      inl {| req_ID := reservationID (ro_UID rollout) (pt_DeviceUID target);
             req_CampaignUID := ro_UID rollout; req_PlanHash := ro_PlanHash rollout;
             req_PolicyUID := pol_UID effectivePolicy; req_PolicyVersion := pol_Version effectivePolicy;
             req_PolicyEpoch := pol_Epoch effectivePolicy; req_TopologyLockID := "";
             req_PhysicalID := pt_PhysicalIdentity target; req_DeviceUID := pt_DeviceUID target;
             req_NodeUID := pt_NodeUID target; req_ChildNamespace := ro_Namespace rollout;
             req_ChildName := pt_ChildName target; req_Domains := targetDomains target;
             req_RiskGroups := pt_RiskGroups target;
             req_CampaignMaxConcurrentTransfers := defaultInt32 (ro_MaxConcurrentTransfers rollout) 1;
             req_CampaignMaxUnavailable := defaultInt32 (ro_MaxUnavailable rollout) 1;
             req_CampaignTransferLimits := transferLimits; req_CampaignLimits := unavailableLimits;
             req_ControlRevision := ro_ControlRevision rollout |}
  end.

Definition withTopologyLockID (q : ReservationRequest) (lockID : string) : ReservationRequest :=
  {| req_ID := req_ID q; req_CampaignUID := req_CampaignUID q; req_PlanHash := req_PlanHash q;
     req_PolicyUID := req_PolicyUID q; req_PolicyVersion := req_PolicyVersion q;
     req_PolicyEpoch := req_PolicyEpoch q; req_TopologyLockID := lockID;
     req_PhysicalID := req_PhysicalID q; req_DeviceUID := req_DeviceUID q; req_NodeUID := req_NodeUID q;
     req_ChildNamespace := req_ChildNamespace q; req_ChildName := req_ChildName q;
     req_Domains := req_Domains q; req_RiskGroups := req_RiskGroups q;
     req_CampaignMaxConcurrentTransfers := req_CampaignMaxConcurrentTransfers q;
     req_CampaignMaxUnavailable := req_CampaignMaxUnavailable q;
     req_CampaignTransferLimits := req_CampaignTransferLimits q; req_CampaignLimits := req_CampaignLimits q;
     req_ControlRevision := req_ControlRevision q |}.

(** ** Locks *)

Definition expectedDeviceTopologyLock `{HashLib} (rollout : SoftwareRollout) (target : PlannedTarget)
    (policyEpoch : Z) (acquisitionID : string) (acquiredAt : Time) : DeviceTopologyLockStatus :=
  {| dtl_State := DeviceTopologyLockActive; dtl_PolicyEpoch := policyEpoch;
     dtl_AcquisitionID := acquisitionID; dtl_CampaignNamespace := ro_Namespace rollout;
     dtl_CampaignName := ro_Name rollout; dtl_CampaignUID := ro_UID rollout;
     dtl_PlanHash := ro_PlanHash rollout;
     dtl_ReservationID := reservationID (ro_UID rollout) (pt_DeviceUID target);
     dtl_DeviceUID := pt_DeviceUID target; dtl_DeviceGeneration := pt_DeviceGeneration target;
     dtl_NodeUID := pt_NodeUID target; dtl_ProjectionHash := pt_ProjectionHash target;
     dtl_AcquiredAt := acquiredAt |}.

(** A copy of a lock with the state, the acquisition time and possibly the acquisition
    cleared, for [reflect.DeepEqual]. *)
Definition comparedLock (lk : DeviceTopologyLockStatus) (acquisitionID : string) : DeviceTopologyLockStatus :=
  {| dtl_State := ""; dtl_PolicyEpoch := dtl_PolicyEpoch lk; dtl_AcquisitionID := acquisitionID;
     dtl_CampaignNamespace := dtl_CampaignNamespace lk; dtl_CampaignName := dtl_CampaignName lk;
     dtl_CampaignUID := dtl_CampaignUID lk; dtl_PlanHash := dtl_PlanHash lk;
     dtl_ReservationID := dtl_ReservationID lk; dtl_DeviceUID := dtl_DeviceUID lk;
     dtl_DeviceGeneration := dtl_DeviceGeneration lk; dtl_NodeUID := dtl_NodeUID lk;
     dtl_ProjectionHash := dtl_ProjectionHash lk; dtl_AcquiredAt := 0 |}.

Definition topologyLockAcquisitionEqual (actual : option DeviceTopologyLockStatus)
    (expected : DeviceTopologyLockStatus) : bool :=
  match actual with
  | None => false
  | Some actual =>
      return_if (dtl_AcquiredAt actual =? 0) false ;;
      comparedLock actual (dtl_AcquisitionID actual) == comparedLock expected (dtl_AcquisitionID expected)
  end.

Definition topologyLockIdentityEqual (actual : option DeviceTopologyLockStatus)
    (expected : DeviceTopologyLockStatus) : bool :=
  match actual with
  | None => false
  | Some lk =>
      return_if (dtl_AcquiredAt lk =? 0) false ;;
      (dtl_State lk == dtl_State expected) && topologyLockAcquisitionEqual actual expected
  end.

Definition topologyLockCoordinatesEqual (actual : option DeviceTopologyLockStatus)
    (expected : DeviceTopologyLockStatus) : bool :=
  match actual with
  | None => false
  | Some actual =>
      return_if (dtl_AcquiredAt actual =? 0) false ;;
      comparedLock actual "" == comparedLock expected ""
  end.

(** [random] is what crypto/rand delivered. *)
Definition newTopologyLockAcquisitionID (random : option (list Z)) : string + goerror :=
  match random with
  | None => inr (EPlain "generate topology lock acquisition identity")
  | Some value => inl (hex_EncodeToString value)
  end.

Definition topologyLockAcquisitionIDValid (value : string) : bool :=
  return_if ((slen value != 32) || (value != ToLower value)) false ;;
  match hex_DecodeString value with
  | Some decoded => llen decoded =? 16
  | None => false
  end.

Definition validateTopologyLockTarget (device : CiscoDevice) (target : PlannedTarget) : option goerror :=
  return_if (dev_Deleting device || (dev_UID device != pt_DeviceUID target)
             || (dev_Generation device != pt_DeviceGeneration target)
             || (dev_Driver device != DeviceDriverXE))
    (Some (EPlain "CiscoDevice incarnation, generation, or driver changed before topology reservation")) ;;
  return_if (match dev_NodeIdentity device with
             | None => true
             | Some ni => (ni_DeviceUID ni != pt_DeviceUID target) || (ni_NodeName ni != pt_NodeName target)
                          || (ni_NodeUID ni != pt_NodeUID target)
             end)
    (Some (EPlain "CiscoDevice Node identity changed before topology reservation")) ;;
  return_if (dev_TopologyProjection device != Some (pt_ProjectionHash target))
    (Some (EPlain "CiscoDevice topology projection changed before topology reservation")) ;;
  None.

(** ** Operations *)

(** The reconciler: whether it has an uncached APIReader besides its client. *)
Record RolloutReconciler := { rec_APIReader : bool }.

Section operations.
Context `{HL : HashLib, K8V : K8sValidation, UL : UuidLib}.
Context {KA : KubeAPI} {RL : @RetryLib KA} {DA : @DeviceAPI KA}.
Context (r : RolloutReconciler) (rollout : SoftwareRollout) (target : PlannedTarget).

(** [r.reader().Get]. *)
Definition reader_Get (k : KubeState) (key : NamespacedName) : CiscoDevice + goerror :=
  if rec_APIReader r then dev_reader_Get k key else dev_client_Get k key.

Definition ledgerStore : Store :=
  {| store_Client := true; store_APIReader := rec_APIReader r;
     store_Key := (ro_LedgerNamespace rollout, ro_LedgerName rollout);
     store_ExpectedUID := ro_LedgerUID rollout |}.

Definition deviceKey : NamespacedName := (ro_Namespace rollout, pt_DeviceName target).

Definition targetReservationID : string := reservationID (ro_UID rollout) (pt_DeviceUID target).

Definition revalidateDeviceTopologyLock (env : nat → KubeState → KubeState) (policyEpoch : Z)
    (acquisitionID : string) (k : KubeState) : KubeState * option goerror :=
  let k := env 0%nat k in
  match reader_Get k deviceKey with
  | inr e => (k, Some e)
  | inl device =>
      match validateTopologyLockTarget device target with
      | Some e => (k, Some e)
      | None =>
          return_if (negb (topologyLockIdentityEqual (dev_TopologyLock device)
                             (expectedDeviceTopologyLock rollout target policyEpoch acquisitionID 0)))
            (k, Some (EPlain "topology lock no longer matches the reservation transaction")) ;;
          (k, None)
      end
  end.

Definition beginReleaseAttempt (env : nat → KubeState → KubeState) (expected : DeviceTopologyLockStatus)
    (i : nat) (k : KubeState) : KubeState * option goerror :=
  let k := env (2 * i)%nat k in
  match reader_Get k deviceKey with
  | inr e => (k, if IsNotFound e then None else Some e)
  | inl device =>
      match dev_TopologyLock device with
      | None => (k, None)
      | Some lock =>
          return_if (negb (topologyLockAcquisitionEqual (Some lock) expected))
            (k, Some (EPlain "refusing to release a different CiscoDevice topology lock")) ;;
          return_if (dtl_State lock == DeviceTopologyLockReleasing) (k, None) ;;
          return_if (dtl_State lock == DeviceTopologyLockActive)
            (dev_PatchStatus (env (2 * i + 1)%nat k) deviceKey device
               (withTopologyLock device (Some (with_lock_state lock DeviceTopologyLockReleasing)))) ;;
          (k, Some (EPlain "CiscoDevice topology lock has invalid state"))
      end
  end.

Definition beginDeviceTopologyLockRelease (env : nat → KubeState → KubeState) (policyEpoch : Z)
    (acquisitionID : string) (k : KubeState) : KubeState * option goerror :=
  return_if (acquisitionID == "") (k, None) ;;
  RetryOnConflict
    (beginReleaseAttempt env (expectedDeviceTopologyLock rollout target policyEpoch acquisitionID 0)) k.

Definition releaseAttempt (env : nat → KubeState → KubeState) (policyEpoch : Z) (acquisitionID : string)
    (expected : DeviceTopologyLockStatus) (i : nat) (k : KubeState) : KubeState * option goerror :=
  let k := env (3 * i)%nat k in
  match Read ledgerStore k with
  | inr e => (k, Some e)
  | inl (_, ledger) =>
      return_if (0 <? mcount (λ reservation, req_DeviceUID (rsv_Request reservation) == pt_DeviceUID target)
                   (reservations ledger))
        (k, Some (EPlain "topology lock cannot be released while a reservation remains")) ;;
      return_if (negb (HasReleaseFence ledger (dtl_ReservationID expected) policyEpoch acquisitionID))
        (k, Some (EPlain "topology lock cannot be cleared before its exact ledger release fence is durable")) ;;
      let k := env (3 * i + 1)%nat k in
      match reader_Get k deviceKey with
      | inr e => (k, if IsNotFound e then None else Some e)
      | inl device =>
          match dev_TopologyLock device with
          | None => (k, None)
          | Some lock =>
              return_if (negb (topologyLockAcquisitionEqual (Some lock) expected))
                (k, Some (EPlain "refusing to release a different CiscoDevice topology lock")) ;;
              return_if (dtl_State lock != DeviceTopologyLockReleasing)
                (k, Some (EPlain "refusing to clear a topology lock before its durable release fence")) ;;
              dev_PatchStatus (env (3 * i + 2)%nat k) deviceKey device (withTopologyLock device None)
          end
      end
  end.

Definition releaseDeviceTopologyLock (env : nat → KubeState → KubeState) (policyEpoch : Z)
    (acquisitionID : string) (k : KubeState) : KubeState * option goerror :=
  return_if (acquisitionID == "") (k, None) ;;
  RetryOnConflict
    (releaseAttempt env policyEpoch acquisitionID
       (expectedDeviceTopologyLock rollout target policyEpoch acquisitionID 0)) k.

(** One attempt to publish the lock; the variables [created] and [recovered] are those
    the callback captures. *)
Definition acquireAttempt (env : nat → KubeState → KubeState) (expected : DeviceTopologyLockStatus)
    (i : nat) (state : KubeState * (bool * option DeviceTopologyLockStatus))
  : KubeState * (bool * option DeviceTopologyLockStatus) * option goerror :=
  let '(k, (created, recovered)) := state in
  let k := env (2 * i)%nat k in
  match reader_Get k deviceKey with
  | inr e => ((k, (created, recovered)), Some e)
  | inl device =>
      match validateTopologyLockTarget device target with
      | Some e => ((k, (created, recovered)), Some e)
      | None =>
          match dev_TopologyLock device with
          | Some lock =>
              return_if (negb (topologyLockCoordinatesEqual (Some lock) expected))
                ((k, (created, recovered)), Some (EPlain "device already has a different active topology lock")) ;;
              return_if (dtl_State lock == DeviceTopologyLockReleasing)
                ((k, (created, recovered)), Some (EPlain "topology lock is being released")) ;;
              return_if (dtl_State lock != DeviceTopologyLockActive)
                ((k, (created, recovered)), Some (EPlain "topology lock has invalid state")) ;;
              ((k, (created, Some lock)), None)
          | None =>
              match dev_PatchStatus (env (2 * i + 1)%nat k) deviceKey device
                      (withTopologyLock device (Some expected)) with
              | (k, Some e) => ((k, (created, recovered)), Some e)
              | (k, None) => ((k, (true, recovered)), None)
              end
          end
      end
  end.

(** Whether the reservation is the one of this campaign, target and acquisition. *)
Definition recoveredReservation (q : ReservationRequest) (policyEpoch : Z) (acquisitionID : string) : bool :=
  (req_CampaignUID q == ro_UID rollout) && (req_PlanHash q == ro_PlanHash rollout)
  && (req_PolicyEpoch q =? policyEpoch) && (req_TopologyLockID q == acquisitionID)
  && match ro_EffectivePolicy rollout with
     | None => false
     | Some policy => (ep_Epoch policy =? policyEpoch) && (req_PolicyUID q == ep_UID policy)
                      && (req_PolicyVersion q == ep_ResourceVersion policy)
     end
  && (req_PhysicalID q == pt_PhysicalIdentity target) && (req_DeviceUID q == pt_DeviceUID target)
  && (req_NodeUID q == pt_NodeUID target) && (req_ChildNamespace q == ro_Namespace rollout)
  && (req_ChildName q == pt_ChildName target) && (req_Domains q == targetDomains target).

(** The order of every release: it is begun on the device, the ledger records it with
    its fence, the lock is cleared. *)
Definition releaseInOrder (begin ledger clear : nat → KubeState → KubeState) (op : ledger_op)
    (policyEpoch : Z) (acquisitionID : string) (k : KubeState) : KubeState * option goerror :=
  match beginDeviceTopologyLockRelease begin policyEpoch acquisitionID k with
  | (k, Some e) => (k, Some e)
  | (k, None) =>
      match Mutate ledger ledgerStore (run_op op) k with
      | (k, Some e) => (k, Some e)
      | (k, None) => releaseDeviceTopologyLock clear policyEpoch acquisitionID k
      end
  end.

(** An acquisition that was published but never reserved is retired. *)
Definition retireIncompleteLock (env : nat → nat → KubeState → KubeState) (policyEpoch : Z)
    (acquisitionID : string) (k : KubeState) : KubeState * goerror :=
  match releaseInOrder (env 3%nat) (env 4%nat) (env 5%nat)
          (OpFenceUnbound targetReservationID policyEpoch acquisitionID) policyEpoch acquisitionID k with
  | (k, Some e) => (k, e)
  | (k, None) => (k, EIs ErrStaleControlRevision "retired incomplete topology-lock acquisition")
  end.

(** The end of [acquireDeviceTopologyLock]: the answer if the lock revalidates. *)
Definition revalidated (env : nat → KubeState → KubeState) (policyEpoch : Z) (acquisitionID : string)
    (k : KubeState) : KubeState * (string + goerror) :=
  match revalidateDeviceTopologyLock env policyEpoch acquisitionID k with
  | (k, Some e) => (k, inr e)
  | (k, None) => (k, inl acquisitionID)
  end.

(** [env 0] to [env 5]: the others during the publication, the ledger read, the
    revalidation and the three steps of a retirement. *)
Definition acquireDeviceTopologyLock (env : nat → nat → KubeState → KubeState) (random : option (list Z))
    (policyEpoch : Z) (now : Time) (k : KubeState) : KubeState * (string + goerror) :=
  match newTopologyLockAcquisitionID random with
  | inr e => (k, inr e)
  | inl acquisitionID =>
      let expected := expectedDeviceTopologyLock rollout target policyEpoch acquisitionID now in
      match RetryOnConflict (acquireAttempt (env 0%nat) expected) (k, (false, None)) with
      | ((k, _), Some e) => (k, inr e)
      | ((k, (false, Some recovered)), None) =>
          let acquisitionID := dtl_AcquisitionID recovered in
          let k := env 1%nat 0%nat k in
          match Read ledgerStore k with
          | inr e => (k, inr e)
          | inl (_, ledger) =>
              match reservations ledger !! targetReservationID with
              | Some reservation =>
                  return_if (negb (recoveredReservation (rsv_Request reservation) policyEpoch acquisitionID))
                    (k, inr (EIs ErrLedgerIdentity "existing reservation does not match the device topology lock")) ;;
                  revalidated (env 2%nat) policyEpoch acquisitionID k
              | None =>
                  let '(k, e) := retireIncompleteLock env policyEpoch acquisitionID k in (k, inr e)
              end
          end
      | ((k, _), None) => revalidated (env 2%nat) policyEpoch acquisitionID k
      end
  end.

Definition topologyLockAcquisitionForRelease (env : nat → KubeState → KubeState) (expectedPolicyEpoch : Z)
    (expectedAcquisitionID : option string) (k : KubeState) : KubeState * (Z * string + goerror) :=
  let fallbackID := default "" expectedAcquisitionID in
  return_if ((fallbackID != "") && negb (topologyLockAcquisitionIDValid fallbackID))
    (k, inr (EIs ErrLedgerIdentity "fallback topology-lock identity is invalid")) ;;
  let k := env 0%nat k in
  match Read ledgerStore k with
  | inr e => (k, inr e)
  | inl (_, ledger) =>
      match reservations ledger !! targetReservationID with
      | Some reservation =>
          let q := rsv_Request reservation in
          return_if ((req_DeviceUID q != pt_DeviceUID target) || (req_TopologyLockID q == "")
                     || ((0 <? expectedPolicyEpoch) && negb (req_PolicyEpoch q =? expectedPolicyEpoch))
                     || ((fallbackID != "") && (req_TopologyLockID q != fallbackID)))
            (k, inr (EIs ErrLedgerIdentity "reservation topology-lock identity changed")) ;;
          (k, inl (req_PolicyEpoch q, req_TopologyLockID q))
      | None =>
          let k := env 1%nat k in
          match reader_Get k deviceKey with
          | inr e => (k, if IsNotFound e then inl (expectedPolicyEpoch, fallbackID) else inr e)
          | inl device =>
              match dev_TopologyLock device with
              | None => (k, inl (expectedPolicyEpoch, fallbackID))
              | Some lock =>
                  let expected := expectedDeviceTopologyLock rollout target (dtl_PolicyEpoch lock)
                                    (dtl_AcquisitionID lock) 0 in
                  return_if (negb (topologyLockAcquisitionEqual (Some lock) expected)
                             || ((0 <? expectedPolicyEpoch) && negb (dtl_PolicyEpoch lock =? expectedPolicyEpoch))
                             || ((fallbackID != "") && (dtl_AcquisitionID lock != fallbackID)))
                    (k, inr (EPlain "refusing to recover a different CiscoDevice topology lock")) ;;
                  (k, inl (dtl_PolicyEpoch lock, dtl_AcquisitionID lock))
              end
          end
      end
  end.

(** ** Reserving and settling under the lock *)

(** The callback with which [admitTarget] reserves.  [evidence] stands for the checks it
    repeats before the lock (policy, health, workloads, campaign, authorisation), which
    yield the members or an error: any function of the server's state. *)
Definition reserveCallback (env : nat → KubeState → KubeState)
    (evidence : nat → KubeState → list Member + goerror) (effectivePolicy : Policy) (lockID : string)
    (request : ReservationRequest) : LedgerCallback := λ i k ledger,
  let k := env (2 * i)%nat k in
  match evidence i k with
  | inr e => (k, (ledger, Some e))
  | inl members =>
      match revalidateDeviceTopologyLock (λ _, env (2 * i + 1)%nat) (pol_Epoch effectivePolicy) lockID k with
      | (k, Some e) => (k, (ledger, Some e))
      | (k, None) => (k, Reserve effectivePolicy members request ledger)
      end
  end.

(** [releaseUnclaimedReservationAtEpoch] before a child is bound (an empty child UID,
    for which it neither patches nor revokes one).  [retained] is the check that no
    retained drain session forbids the release: any function of the server's state. *)
Definition releaseUnclaimedReservationAtEpoch (env : nat → nat → KubeState → KubeState)
    (retained : KubeState → option goerror) (revision policyEpoch : Z) (expectedLockID : option string)
    (k : KubeState) : KubeState * option goerror :=
  let k := env 8%nat 0%nat k in
  match retained k with
  | Some e => (k, Some e)
  | None =>
      let release (lockID : string) (k : KubeState) :=
        return_if (lockID == "") (k, None) ;;
        releaseInOrder (env 10%nat) (env 11%nat) (env 12%nat)
          (OpReleaseUnclaimed targetReservationID lockID "" revision policyEpoch) policyEpoch lockID k in
      let lockID := default "" expectedLockID in
      return_if (lockID != "") (release lockID k) ;;
      match topologyLockAcquisitionForRelease (env 9%nat) policyEpoch None k with
      | (k, inr e) => (k, Some e)
      | (k, inl (_, resolved)) => release resolved k
      end
  end.

(** [errors.Join] of an error with that of the release it calls for. *)
Definition giveUpReservation (env : nat → nat → KubeState → KubeState) (retained : KubeState → option goerror)
    (policyEpoch : Z) (lockID : string) (e : goerror) (k : KubeState) : KubeState * (string + list goerror) :=
  let '(k, e') := releaseUnclaimedReservationAtEpoch env retained (ro_ControlRevision rollout) policyEpoch
                    (Some lockID) k in
  (k, inr (e :: option_list e')).

(** [admitTarget] from the request to the reservation, with the release of what it may
    have reserved when it fails.  [authority] stands for the campaign and activation
    checks between the reservation and the creation of the child.  [env 6] are the others
    between the calls of the store, [env 7] during the callback, [env 13] and [env 14]
    during the checks after it.  The errors are those that it joins. *)
Definition reserveTarget (env : nat → nat → KubeState → KubeState) (random : option (list Z))
    (evidence : nat → KubeState → list Member + goerror) (authority retained : KubeState → option goerror)
    (effectivePolicy : Policy) (now : Time) (k : KubeState) : KubeState * (string + list goerror) :=
  match rolloutReservationRequest rollout effectivePolicy target with
  | inr e => (k, inr [e])
  | inl request =>
      match acquireDeviceTopologyLock env random (pol_Epoch effectivePolicy) now k with
      | (k, inr e) => (k, inr [e])
      | (k, inl lockID) =>
          let giveUp := giveUpReservation env retained (pol_Epoch effectivePolicy) lockID in
          let request := withTopologyLockID request lockID in
          match MutateWith (env 6%nat) ledgerStore
                  (reserveCallback (env 7%nat) evidence effectivePolicy lockID request) k with
          | (k, Some e) => giveUp e k
          | (k, None) =>
              match revalidateDeviceTopologyLock (env 13%nat) (pol_Epoch effectivePolicy) lockID k with
              | (k, Some e) => giveUp e k
              | (k, None) =>
                  let k := env 14%nat 0%nat k in
                  match authority k with
                  | Some e => giveUp e k
                  | None => (k, inl lockID)
                  end
              end
          end
      end
  end.

(** [trySettleLeaf] once the gates have passed, to the release of the lock. *)
Definition settleTarget (env : nat → nat → KubeState → KubeState) (childUID : string)
    (policyEpoch : Z) (topologyLockID : string) (k : KubeState) : KubeState * option goerror :=
  match topologyLockAcquisitionForRelease (env 0%nat) policyEpoch (Some topologyLockID) k with
  | (k, inr e) => (k, Some e)
  | (k, inl (lockEpoch, lockID)) =>
      releaseInOrder (env 1%nat) (env 2%nat) (env 3%nat)
        (OpSettle targetReservationID lockID childUID lockEpoch true true) lockEpoch lockID k
  end.
End operations.
