(* ===== verification/TopologyLockProofs.v ===== *)
(** * Topology locks: the operations follow the protocol

    Every operation of TopologyLock.v extends the history of the two objects by steps of
    LockProtocol.v, whatever the others do, as long as they follow the protocol too. *)

From S2P Require Import Prelude GoLib GoTime Json JsonProofs Interfaces LedgerData Ledger LedgerSpec LedgerOps.
From S2P Require Import LedgerHistory LedgerCodec Store StoreHistory AdminPolicyHash LockProtocol TopologyLock.

(** ** Loops *)

Section retry.
Context {KA : KubeAPI} {RL : @RetryLib KA} {RS : RetryLibSpec RL} {S : Type}.

(** What every attempt establishes from the invariant, and re-establishes after a
    conflict, the loop establishes, along growing histories. *)
Lemma retry_follows (f : nat → S → S * option goerror) (I : list lock_view → S → Prop)
    (Q : list lock_view → S → option goerror → Prop) s s' e τ :
  (∀ i s s' e τ, I τ s → f i s = (s', e) →
     ∃ τ', τ `suffix_of` τ' ∧ Q τ' s' e ∧ (∀ e', e = Some e' → IsConflict e' = true → I τ' s')) →
  RetryOnConflict f s = (s', e) → I τ s → ∃ τ', τ `suffix_of` τ' ∧ Q τ' s' e.
Proof using RS.
  intros Hstep Ha%retry_attempts. revert τ.
  induction Ha as [i s s' e Hf|i s s1 e1 s' e Hf Hc _ IH]; intros τ HI.
  - destruct (Hstep _ _ _ _ _ HI Hf) as (τ' & ? & ? & _). eauto.
  - destruct (Hstep _ _ _ _ _ HI Hf) as (τ1 & Hs1 & _ & HI1).
    destruct (IH τ1) as (τ' & ? & ?); [by eapply HI1|]. exists τ'. split; [by etrans|done].
Qed.
End retry.

(** ** Histories of the server *)

Lemma fresh_lock_suffix lockID τ τ' : τ `suffix_of` τ' → fresh_lock lockID τ' → fresh_lock lockID τ.
Proof. intros [since ->] Hf v Hv. apply Hf. set_solver. Qed.

(** The newest lock is not an active one of this acquisition. *)
Definition not_active (lockID : string) (τ : list lock_view) : Prop :=
  ∀ v lk, head τ = Some v → lv_lock v = Some lk → dtl_AcquisitionID lk = lockID →
  dtl_State lk ≠ DeviceTopologyLockActive.

Lemma not_active_stays `{K8sValidation, UuidLib} device lockID τ τ' :
  lock_history device τ' → τ `suffix_of` τ' → τ ≠ [] →
  (fresh_lock lockID τ → fresh_lock lockID τ') → not_active lockID τ → not_active lockID τ'.
Proof.
  intros Hh [since ->] Hne Hfresh Hna. induction since as [|w since IH]; [done|].
  assert (fresh_lock lockID τ → fresh_lock lockID (since ++ τ)) as Hf'.
  { intros Hf. eapply (fresh_lock_suffix _ _ (w :: since ++ τ)); [by apply suffix_cons_r|]. by apply Hfresh. }
  simpl in Hh. inversion Hh as [? ? ? Heq|? ? Hh' Hstep]; subst.
  { destruct since; [|done]. by destruct τ. }
  specialize (IH Hh' Hf'). clear Hf'. intros v lk [= <-] Hlk Hid.
  destruct (history_nonempty _ _ Hh') as (x & τx & Heq). rewrite Heq in Hstep.
  inversion Hstep as [? ? lk' Hnone Ha Hfr|? ? lk' Hx Ha| |? ? op l Hrun]; subst; simplify_eq/=.
  - exfalso. assert (fresh_lock (dtl_AcquisitionID lk) τ) as Hf.
    { eapply (fresh_lock_suffix _ _ (since ++ τ)); [by eexists|]. by rewrite Heq. }
    apply Hfresh in Hf. eapply Hf; [by left|]. left. by exists lk.
  - done.
  - eapply IH; [by rewrite Heq|done|done].
Qed.

Section operations.
Context `{HL : HashLib, K8V : K8sValidation, UL : UuidLib} {US : UuidLibSpec UL} {VS : K8sValidationSpec K8V}.
Context {KA : KubeAPI} {RL : @RetryLib KA} {RS : RetryLibSpec RL} {DA : @DeviceAPI KA}.
Context (kube_after : KubeState → KubeState → Prop) {KS : KubeAPISpec KA kube_after}
        {DS : DeviceAPISpec kube_after}.
Context (r : RolloutReconciler) (rollout : SoftwareRollout) (target : PlannedTarget).
Context (Hreader : rec_APIReader r = true).

Abbreviation ledgerKey := (ro_LedgerNamespace rollout, ro_LedgerName rollout).
Abbreviation device := (pt_DeviceUID target).
Abbreviation devKey := (deviceKey rollout target).

(** What the server holds. *)
Definition view_of (k : KubeState) (v : lock_view) : Prop :=
  stores ledgerKey (ro_LedgerUID rollout) k (lv_ledger v)
  ∧ lv_lock v = dev_object k devKey ≫= dev_TopologyLock.

Definition traced (τ : list lock_view) (k : KubeState) : Prop :=
  lock_history device τ ∧ ∃ v, head τ = Some v ∧ view_of k v.

(** The acquisitions only this caller may introduce. *)
Context (own : string → Prop).

(** The server went from [k] to [k'], along the history: the views of a time in which
    the ledger's object did not change have the same ledger. *)
Definition advances (τ : list lock_view) (k : KubeState) (τ' : list lock_view) (k' : KubeState) : Prop :=
  kube_after k k' ∧ traced τ' k' ∧ (∀ lockID, own lockID → fresh_lock lockID τ → fresh_lock lockID τ')
  ∧ ∃ since, τ' = since ++ τ
    ∧ (kube_object k' ledgerKey = kube_object k ledgerKey →
       ∀ v l, v ∈ since → stores ledgerKey (ro_LedgerUID rollout) k l → lv_ledger v = l).

(** The others follow the protocol. *)
Definition others (env : nat → KubeState → KubeState) : Prop :=
  ∀ n k τ, traced τ k → ∃ τ', advances τ k τ' (env n k).

Lemma advances_suffix τ k τ' k' : advances τ k τ' k' → τ `suffix_of` τ'.
Proof. intros (_ & _ & _ & since & -> & _). by eexists. Qed.

Lemma stores_inj k l l' :
  stores ledgerKey (ro_LedgerUID rollout) k l → stores ledgerKey (ro_LedgerUID rollout) k l' → l = l'.
Proof. intros (cm & Ho & _ & Hd & _) (cm' & Ho' & _ & Hd' & _). simplify_eq. congruence. Qed.

Lemma stores_object k k' l :
  kube_object k' ledgerKey = kube_object k ledgerKey →
  stores ledgerKey (ro_LedgerUID rollout) k l → stores ledgerKey (ro_LedgerUID rollout) k' l.
Proof. intros Ho (cm & ? & ?). exists cm. by rewrite Ho. Qed.

Lemma advances_trans τ1 k1 τ2 k2 τ3 k3 :
  traced τ1 k1 → advances τ1 k1 τ2 k2 → advances τ2 k2 τ3 k3 → advances τ1 k1 τ3 k3.
Proof using KS DS.
  intros (_ & v1 & _ & [Hs1 _]) (Ha & Ht2 & Hf & s & -> & Hl) (Ha' & Ht3 & Hf' & s' & -> & Hl'). split_and!.
  - by etrans.
  - done.
  - intros X HX HfX. auto.
  - exists (s' ++ s). split; [by rewrite <- app_assoc|]. intros Ho v l Hv Hst.
    destruct Hst as (cm & Hcm & Hrest).
    assert (kube_object k2 ledgerKey = Some cm) as H2.
    { eapply kube_object_between; [exact Ha|exact Ha'|done|congruence]. }
    apply elem_of_app in Hv as [Hv|Hv].
    + eapply Hl'; [congruence|done|]. by exists cm.
    + eapply Hl; [congruence|done|]. by exists cm.
Qed.

Lemma advances_refl τ k : traced τ k → advances τ k τ k.
Proof using KS.
  intros Ht. split_and!; [reflexivity|done|done|]. exists []. split; [done|]. intros _ v l Hv. by apply not_elem_of_nil in Hv.
Qed.

Lemma traced_nonempty τ k : traced τ k → τ ≠ [].
Proof. by intros (_ & v & Hv & _) ->. Qed.

(** ** The device's lock *)

(** A patch of the lock, of a device read at [k1], is the step that it is on that
    device. *)
Lemma patch_lock_follows k1 d lock τ k k' e :
  dev_object k1 devKey = Some d → kube_after k1 k → traced τ k →
  dev_PatchStatus k devKey d (withTopologyLock d lock) = (k', e) →
  (∀ v, head τ = Some v → lv_lock v = dev_TopologyLock d →
     lock_step device τ {| lv_ledger := lv_ledger v; lv_lock := stored_lock <$> lock |}) →
  kube_after k k'
  ∧ (k' = k ∧ e ≠ None
     ∨ (∀ e', e = Some e' → IsConflict e' = false)
       ∧ ∃ v, head τ = Some v ∧ lv_lock v = dev_TopologyLock d
         ∧ traced ({| lv_ledger := lv_ledger v; lv_lock := stored_lock <$> lock |} :: τ) k').
Proof using KS DS.
  intros Hd Ha (Hh & v & Hv & Hst & Hlk) Hp Hstep.
  assert (dev_patched kube_after k devKey d (withTopologyLock d lock) k' →
    kube_after k k' ∧ lv_lock v = dev_TopologyLock d
    ∧ traced ({| lv_ledger := lv_ledger v; lv_lock := stored_lock <$> lock |} :: τ) k') as Hgo.
  { intros (Hak & Hobj & cur & new & Hcur & Hrv & Hnew & Hlock).
    assert (d = cur) as <- by (eapply dev_version_unique; [exact Ha|done|done|congruence]).
    assert (lv_lock v = dev_TopologyLock d) as Hvd by (by rewrite Hlk, Hcur).
    split; [done|]. split; [done|]. split.
    - apply HistoryStep; [done|by apply Hstep].
    - eexists. split; [done|]. split; simpl; [eapply stores_object; [apply Hobj|exact Hst]|].
      rewrite Hnew. simpl. by rewrite Hlock. }
  destruct e as [e|].
  - apply dev_patch_error in Hp as [->|[Hc Hp]]; [split; [reflexivity|by left]|].
    destruct (Hgo Hp) as (? & ? & ?). split; [done|]. right. split; [by intros ? [= <-]|eauto].
  - apply dev_patch_ok in Hp. destruct (Hgo Hp) as (? & ? & ?). split; [done|]. right. split; [done|eauto].
Qed.

Lemma reader_get k d : reader_Get r k devKey = inl d → dev_object k devKey = Some d.
Proof using Hreader DS. unfold reader_Get. rewrite Hreader. apply dev_reader_current. Qed.

Lemma traced_lock τ k d v :
  traced τ k → dev_object k devKey = Some d → head τ = Some v → lv_lock v = dev_TopologyLock d.
Proof. intros (_ & v' & Hv' & _ & Hl) Hd Hv. simplify_eq. by rewrite Hl, Hd. Qed.

Lemma acquisition_equal lk expected :
  topologyLockAcquisitionEqual (Some lk) expected = true →
  dtl_AcquisitionID lk = dtl_AcquisitionID expected ∧ dtl_ReservationID lk = dtl_ReservationID expected
  ∧ dtl_PolicyEpoch lk = dtl_PolicyEpoch expected.
Proof.
  simpl. case_match; [done|]. rewrite bool_decide_eq_true. intros [=]. by split_and!.
Qed.

Lemma identity_equal lk expected :
  topologyLockIdentityEqual (Some lk) expected = true →
  dtl_State lk = dtl_State expected ∧ topologyLockAcquisitionEqual (Some lk) expected = true.
Proof.
  unfold topologyLockIdentityEqual. case_match; [done|]. by rewrite andb_true_iff, bool_decide_eq_true.
Qed.

Lemma coordinates_equal lk expected :
  topologyLockCoordinatesEqual (Some lk) expected = true →
  dtl_ReservationID lk = dtl_ReservationID expected ∧ dtl_PolicyEpoch lk = dtl_PolicyEpoch expected.
Proof. simpl. case_match; [done|]. rewrite bool_decide_eq_true. intros [=]. by split_and!. Qed.

(** ** Following the protocol *)

Definition follows (τ : list lock_view) (k : KubeState) (τ' : list lock_view) (k' : KubeState) : Prop :=
  kube_after k k' ∧ traced τ' k' ∧ τ `suffix_of` τ'.

(** Without using a new acquisition. *)
Definition extends (τ : list lock_view) (k : KubeState) (τ' : list lock_view) (k' : KubeState) : Prop :=
  follows τ k τ' k' ∧ ∀ lockID, own lockID → fresh_lock lockID τ → fresh_lock lockID τ'.

Lemma follows_refl τ k : traced τ k → follows τ k τ k.
Proof using KS. intros Ht. split; [reflexivity|]. by split. Qed.

Lemma follows_trans τ1 k1 τ2 k2 τ3 k3 :
  follows τ1 k1 τ2 k2 → follows τ2 k2 τ3 k3 → follows τ1 k1 τ3 k3.
Proof using KS. intros (? & _ & ?) (? & ? & ?). split; [by etrans|]. split; [done|by etrans]. Qed.

Lemma extends_refl τ k : traced τ k → extends τ k τ k.
Proof using KS. intros Ht. split; [by apply follows_refl|done]. Qed.

Lemma extends_trans τ1 k1 τ2 k2 τ3 k3 :
  extends τ1 k1 τ2 k2 → extends τ2 k2 τ3 k3 → extends τ1 k1 τ3 k3.
Proof using KS. intros [? ?] [? ?]. split; [by eapply follows_trans|auto]. Qed.

Lemma advances_extends τ k τ' k' : advances τ k τ' k' → extends τ k τ' k'.
Proof. intros Ha. pose proof (advances_suffix _ _ _ _ Ha). by destruct Ha as (? & ? & ? & _). Qed.

Lemma others_extend env n k τ :
  others env → traced τ k → ∃ τ', extends τ k τ' (env n k) ∧ traced τ' (env n k).
Proof.
  intros Henv Ht. destruct (Henv n k τ Ht) as (τ' & Ha%advances_extends). exists τ'. split; [done|apply Ha].
Qed.

(** A loop whose attempts extend the history does. *)
Lemma retry_extends (f : nat → KubeState → KubeState * option goerror) (Q : list lock_view → option goerror → Prop)
    τ k k' e :
  (∀ i τ k k' e, traced τ k → f i k = (k', e) → ∃ τ', extends τ k τ' k' ∧ Q τ' e) →
  RetryOnConflict f k = (k', e) → traced τ k → ∃ τ', extends τ k τ' k' ∧ Q τ' e.
Proof using KS RS.
  intros Hf Hr Ht.
  eapply (retry_follows _ (λ τ1 k1, extends τ k τ1 k1) (λ τ1 k1 e1, extends τ k τ1 k1 ∧ Q τ1 e1)) in Hr
    as (τ' & _ & Hq); [by exists τ'| |by apply extends_refl].
  intros i k0 k1 e1 τ0 Hext Hat. destruct (Hf i τ0 k0 k1 e1) as (τ' & Hext' & Hq); [apply Hext|done|].
  exists τ'. split; [apply Hext'|]. split; [split; [by eapply extends_trans|done]|].
  intros. by eapply extends_trans.
Qed.

(** The acquisition cannot become active behind our back. *)
Definition mine (lockID : string) (τ : list lock_view) : Prop := own lockID ∨ ¬ fresh_lock lockID τ.

Lemma mine_suffix lockID τ τ' : τ `suffix_of` τ' → mine lockID τ → mine lockID τ'.
Proof. intros Hs [?|Hf]; [by left|right]. intros Hf'. by eapply Hf, fresh_lock_suffix. Qed.

Lemma not_active_extends lockID τ k τ' k' :
  mine lockID τ → traced τ k → extends τ k τ' k' → not_active lockID τ → not_active lockID τ'.
Proof.
  intros Hm Ht [(_ & [Hh _] & Hs) Hf]. eapply not_active_stays; [done|done|by eapply traced_nonempty|].
  intros Hfr. destruct Hm; [auto|done].
Qed.

(** A patch of a lock that was there mentions nothing new. *)
Lemma patched_extends τ k v lock k' :
  traced τ k → head τ = Some v → kube_after k k' →
  traced ({| lv_ledger := lv_ledger v; lv_lock := lock |} :: τ) k' →
  (∀ lk, lock = Some lk → ∃ lk0, lv_lock v = Some lk0 ∧ dtl_AcquisitionID lk0 = dtl_AcquisitionID lk) →
  extends τ k ({| lv_ledger := lv_ledger v; lv_lock := lock |} :: τ) k'.
Proof.
  intros Ht Hv Ha Ht' Hlock. split; [split; [done|split; [exact Ht'|by apply suffix_cons_r]]|].
  intros X _ Hf w [->|Hw]%elem_of_cons; [|by apply Hf]. intros [(lk & Hl & <-)|Hfe]; simpl in *.
  - destruct (Hlock lk Hl) as (lk0 & Hl0 & Hid). destruct (Hf v).
    { destruct τ; simplify_eq/=. by left. } left. by exists lk0.
  - destruct (Hf v); [|by right]. destruct τ; simplify_eq/=. by left.
Qed.

(** ** Beginning a release *)

Lemma beginRelease_follows env lockID epoch τ k k' e :
  others env → traced τ k →
  beginDeviceTopologyLockRelease r rollout target env epoch lockID k = (k', e) →
  ∃ τ', extends τ k τ' k' ∧ (e = None → lockID ≠ "" → not_active lockID τ').
Proof using KS DS RS Hreader.
  intros Henv Ht. unfold beginDeviceTopologyLockRelease.
  case_bool_decide as Hne; [intros [= <- <-]; exists τ; split; [by apply extends_refl|done]|]. intros Hr.
  set (expected := expectedDeviceTopologyLock rollout target epoch lockID 0) in *.
  apply (retry_extends _ (λ τ1 e1, e1 = None → not_active lockID τ1)) with (τ := τ) in Hr;
    [destruct Hr as (τ1 & ? & ?); exists τ1; auto| |done].
  clear Hr k' e Ht τ k. intros i τ0 k0 k' e Ht0 Hat. unfold beginReleaseAttempt in Hat.
  destruct (others_extend env (2 * i)%nat k0 τ0 Henv Ht0) as (τ1 & Hx1 & Ht1).
  set (k1 := env (2 * i)%nat k0) in *.
  assert (dev_object k1 devKey ≫= dev_TopologyLock = None → not_active lockID τ1) as Hnone.
  { intros Hno v lk Hv. destruct Ht1 as (_ & v' & Hv' & _ & Hl). simplify_eq. rewrite Hl, Hno. done. }
  destruct (reader_Get r k1 devKey) as [d|e1] eqn:Hg.
  2: { exists τ1. destruct (IsNotFound e1) eqn:Hnf; injection Hat as <- <-; split; try done.
       intros _. apply Hnone. unfold reader_Get in Hg. rewrite Hreader in Hg.
       by rewrite (dev_reader_absent _ _ _ Hg Hnf). }
  apply reader_get in Hg as Hd. destruct (dev_TopologyLock d) as [lk|] eqn:Hlk.
  2: { injection Hat as <- <-. exists τ1. split; [done|]. intros _. apply Hnone. by rewrite Hd. }
  destruct (topologyLockAcquisitionEqual (Some lk) expected) eqn:Heq; cbn [negb] in Hat;
    [|injection Hat as <- <-; by exists τ1].
  apply acquisition_equal in Heq as (Hid & _ & _).
  assert (∀ v lk', head τ1 = Some v → lv_lock v = Some lk' → lk' = lk) as Hhead.
  { intros v lk' Hv Hl. rewrite (traced_lock τ1 k1 d v) in Hl by done. congruence. }
  case_bool_decide as Hrel.
  { injection Hat as <- <-. exists τ1. split; [done|]. intros _ v lk' Hv Hl _.
    rewrite (Hhead v lk' Hv Hl), Hrel. done. }
  case_bool_decide as Hact; [|injection Hat as <- <-; by exists τ1].
  destruct (others_extend env (2 * i + 1)%nat k1 τ1 Henv Ht1) as (τ2 & Hx2 & Ht2).
  set (k2 := env (2 * i + 1)%nat k1) in *.
  eapply (patch_lock_follows k1 d) in Hat as (Ha3 & [[-> Hc]|[_ (v & Hv & Hl & Ht3)]]); [..|done|apply Hx2|done|].
  - exists τ2. split; [by eapply extends_trans|done].
  - eexists. split; [eapply extends_trans; [exact Hx1|]; eapply extends_trans; [exact Hx2|];
      eapply (patched_extends τ2 k2 v); [done|done|done|exact Ht3|]|].
    + intros lk' [= <-]. exists lk. split; [by rewrite Hl|done].
    + intros _ w lk' [= <-] [= <-] _. done.
  - intros v Hv Hl. destruct τ2 as [|v' τ2]; simplify_eq/=. rewrite Hlk in Hl.
    change (stored_lock (with_lock_state lk DeviceTopologyLockReleasing))
      with (with_lock_state (stored_lock lk) DeviceTopologyLockReleasing).
    rewrite (proj1 (dev_lock_stored _ _ _ _ Hd Hlk)). by apply LockBegin.
Qed.

(** ** Clearing the lock *)

Lemma read_view τ k v cm l :
  traced τ k → head τ = Some v → Read (ledgerStore r rollout) k = inl (cm, l) →
  lv_ledger v = l ∧ kube_object k ledgerKey = Some cm ∧ cm_UID cm = ro_LedgerUID rollout.
Proof using KS Hreader.
  intros (_ & v' & Hv' & (cm' & Ho & Hu & Hd & _) & _) Hv Hr. simplify_eq.
  apply (Read_ok kube_after) in Hr as (_ & Ho' & Hu' & Hd'). specialize (Ho' Hreader). simpl in *.
  simplify_eq. rewrite Hd in Hd'. by simplify_eq.
Qed.

Lemma no_reserves l :
  (0 <? mcount (λ reservation, req_DeviceUID (rsv_Request reservation) == device) (reservations l)) = false →
  ∀ rsv, ¬ reserves device l rsv.
Proof.
  rewrite Z.ltb_ge. intros Hc rsv [Hd [id Hid]].
  pose proof (mcount_delete (λ x, req_DeviceUID (rsv_Request x) == device) (reservations l) id rsv Hid) as Hm.
  simpl in Hm. rewrite bool_decide_true in Hm by done.
  pose proof (mcount_nonneg (λ x, req_DeviceUID (rsv_Request x) == device) (delete id (reservations l))). lia.
Qed.

(** What a release that reports success leaves: the lock is gone, and before that the
    ledger, fenced for the acquisition, had no reservation of the device. *)
Definition cleared (lockID : string) (epoch : Z) (τ : list lock_view) : Prop :=
  (∀ v, head τ = Some v → lv_lock v = None)
  ∧ ∃ seen, seen ∈ τ ∧ (∀ rsv, ¬ reserves device (lv_ledger seen) rsv)
    ∧ HasReleaseFence (lv_ledger seen) (targetReservationID rollout target) epoch lockID = true.

Lemma release_follows env lockID epoch τ k k' e :
  others env → traced τ k →
  releaseDeviceTopologyLock r rollout target env epoch lockID k = (k', e) →
  ∃ τ', extends τ k τ' k' ∧ (e = None → lockID ≠ "" → cleared lockID epoch τ').
Proof using KS DS RS US VS Hreader.
  intros Henv Ht. unfold releaseDeviceTopologyLock.
  case_bool_decide as Hne; [intros [= <- <-]; exists τ; split; [by apply extends_refl|done]|]. intros Hr.
  set (expected := expectedDeviceTopologyLock rollout target epoch lockID 0) in *.
  apply (retry_extends _ (λ τ1 e1, e1 = None → cleared lockID epoch τ1)) with (τ := τ) in Hr;
    [destruct Hr as (τ1 & ? & ?); exists τ1; auto| |done].
  clear Hr k' e Ht τ k. intros i τ0 k0 k' e Ht0 Hat. unfold releaseAttempt in Hat.
  destruct (others_extend env (3 * i)%nat k0 τ0 Henv Ht0) as (τ1 & Hx1 & Ht1).
  set (k1 := env (3 * i)%nat k0) in *.
  destruct (Read _ k1) as [[cm l]|] eqn:Hread; [|injection Hat as <- <-; by exists τ1].
  destruct (Ht1) as (_ & v1 & Hv1 & _).
  destruct (read_view τ1 k1 v1 cm l Ht1 Hv1 Hread) as (Hl1 & _ & _).
  destruct (0 <? _) eqn:Hcount; [injection Hat as <- <-; by exists τ1|].
  pose proof (no_reserves l Hcount) as Hfree.
  destruct (HasReleaseFence l _ epoch lockID) eqn:Hfence; cbn [negb] in Hat;
    [|injection Hat as <- <-; by exists τ1].
  assert (v1 ∈ τ1) as Hin by (destruct τ1; simplify_eq/=; by left).
  destruct (others_extend env (3 * i + 1)%nat k1 τ1 Henv Ht1) as (τ2 & Hx2 & Ht2).
  set (k2 := env (3 * i + 1)%nat k1) in *. subst l.
  assert (extends τ0 k0 τ2 k2) as Hx02 by (by eapply extends_trans).
  assert (∀ τ3, τ2 `suffix_of` τ3 → (∀ v, head τ3 = Some v → lv_lock v = None) → cleared lockID epoch τ3) as Hdone.
  { intros τ3 Hs Hn. split; [done|]. exists v1. split_and!; [|done|done].
    destruct (Hs) as [s3 ->]. destruct Hx2 as [(_ & _ & [s2 ->]) _]. set_solver. }
  assert (dev_object k2 devKey ≫= dev_TopologyLock = None → cleared lockID epoch τ2) as Hnone.
  { intros Hno. apply Hdone; [done|]. intros v Hv. destruct Ht2 as (_ & v' & Hv' & _ & Hl). simplify_eq.
    by rewrite Hl. }
  destruct (reader_Get r k2 devKey) as [d|e1] eqn:Hg.
  2: { exists τ2. destruct (IsNotFound e1) eqn:Hnf; injection Hat as <- <-; split; try done.
       intros _. apply Hnone. unfold reader_Get in Hg. rewrite Hreader in Hg.
       by rewrite (dev_reader_absent _ _ _ Hg Hnf). }
  apply reader_get in Hg as Hd. destruct (dev_TopologyLock d) as [lk|] eqn:Hlk.
  2: { injection Hat as <- <-. exists τ2. split; [done|]. intros _. apply Hnone. by rewrite Hd. }
  destruct (topologyLockAcquisitionEqual (Some lk) expected) eqn:Heq; cbn [negb] in Hat;
    [|injection Hat as <- <-; by exists τ2].
  apply acquisition_equal in Heq as (Hid & Hrid & Hep).
  case_bool_decide as Hrel; cbn [negb] in Hat; [|injection Hat as <- <-; by exists τ2].
  destruct (others_extend env (3 * i + 2)%nat k2 τ2 Henv Ht2) as (τ3 & Hx3 & Ht3).
  set (k3 := env (3 * i + 2)%nat k2) in *.
  eapply (patch_lock_follows k2 d) in Hat as (Ha4 & [[-> Hc]|[_ (v & Hv & Hl & Ht4)]]); [..|done|apply Hx3|done|].
  - exists τ3. split; [by eapply extends_trans|done].
  - eexists. split; [eapply extends_trans; [exact Hx02|]; eapply extends_trans; [exact Hx3|];
      eapply (patched_extends τ3 k3 v); [done|done|done|exact Ht4|done]|].
    intros _. apply Hdone; [apply suffix_cons_r, Hx3|]. by intros w [= <-].
  - intros v Hv Hl. destruct τ3 as [|v' τ3]; [done|]. injection Hv as ->. rewrite Hlk in Hl.
    eapply (LockClear _ v τ3 lk v1); [done|done| |done|].
    + destruct Hx2 as [(_ & _ & [s2 ->]) _]. destruct Hx3 as [(_ & _ & [s3 Heq3]) _]. rewrite Heq3. set_solver.
    + by rewrite Hrid, Hep, Hid.
Qed.

(** ** Changing the ledger *)

(** A commit of an operation. *)
Lemma commit_stores k k' cm l l' text new op :
  kube_object k ledgerKey = Some cm → cm_UID cm = ro_LedgerUID rollout →
  stores ledgerKey (ro_LedgerUID rollout) k l → op_typed op → run_op op l = (l', None) →
  ledger_wf l' → led_UID l' = ro_LedgerUID rollout → Encode l' DefaultMaxSerializedBytes = inl text →
  kube_patched kube_after k ledgerKey cm (withLedgerData cm text) k' new →
  stores ledgerKey (ro_LedgerUID rollout) k' l'.
Proof using KS US VS.
  intros Hcm Hu (cm' & Hcm' & _ & _ & Hty) Hop Hrun Hw Hu' He (_ & Hnew & _ & cur & Hcur & _ & Hnu & Hdata).
  simplify_eq. destruct (Hdata eq_refl) as [Hdata' _]. exists new. split_and!; [done|by rewrite Hnu| |].
  - rewrite Hdata'. simpl. unfold mget. rewrite lookup_insert_eq. simpl.
    rewrite <- Hu'. eapply Decode_Encode_lemma; [done| |done]. by eapply run_op_typed.
  - by eapply run_op_typed.
Qed.

(** The patch of a ledger that was read at [k1] is a step, or it changed nothing. *)
Lemma commit_follows k1 cm l op l' text τ k k' p :
  kube_object k1 ledgerKey = Some cm → cm_UID cm = ro_LedgerUID rollout →
  stores ledgerKey (ro_LedgerUID rollout) k1 l → kube_after k1 k → traced τ k →
  run_op op l = (l', None) → op_typed op → ledger_wf l' → led_UID l' = ro_LedgerUID rollout →
  Encode l' DefaultMaxSerializedBytes = inl text →
  (∀ v, kube_object k ledgerKey = kube_object k1 ledgerKey → head τ = Some v →
     lock_checked device op τ ∧ release_begun op v) →
  kube_Patch k ledgerKey cm (withLedgerData cm text) = (k', p) →
  ∃ τ', follows τ k τ' k' ∧ (∀ e, p = inr e → IsConflict e = true → τ' = τ ∧ k' = k).
Proof using KS DS US VS.
  intros Hcm Hcu Hst H1k Ht Hrun Hty Hw Hu He Hallow Hp.
  assert (k' = k ∨ (∀ e1, p = inr e1 → IsConflict e1 = false)
            ∧ ∃ new, kube_patched kube_after k ledgerKey cm (withLedgerData cm text) k' new) as Hout.
  { destruct p as [new|e1].
    - right. split; [done|]. exists new. by apply kube_patch_ok.
    - apply kube_patch_error in Hp as [->|[Hc Hpt]]; [by left|right]. split; [|done]. by intros ? [= <-]. }
  destruct Hout as [->|(Hnc & new & Hpt)]; [exists τ; split; [by apply follows_refl|done]|].
  destruct (Ht) as (Hh & v & Hv & Hstk & Hlk).
  assert (kube_object k ledgerKey = Some cm) as Hcmk.
  { destruct (Hpt) as (_ & _ & _ & cur & Hcur & Hrv & _).
    by rewrite (kube_version_unique k1 k ledgerKey cm cur H1k Hcm Hcur (eq_sym Hrv)). }
  assert (lv_ledger v = l) as Hl.
  { eapply stores_inj; [exact Hstk|]. eapply stores_object; [|exact Hst]. congruence. }
  destruct (Hallow v) as [Hlc Hrb]; [congruence|done|]. rewrite Hl in Hstk.
  exists ({| lv_ledger := l'; lv_lock := lv_lock v |} :: τ). split.
  2: { intros e1 -> Hc. by rewrite (Hnc _ eq_refl) in Hc. }
  split; [apply Hpt|]. split; [|by apply suffix_cons_r]. split.
  - apply HistoryStep; [done|]. destruct τ as [|w τ]; [done|]. injection Hv as ->.
    eapply LockLedger; [by rewrite Hl|done|done].
  - eexists. split; [done|]. split; simpl.
    + eapply commit_stores; [exact Hcmk|exact Hcu|exact Hstk|done..].
    + rewrite (kube_patch_devices _ _ _ _ _ _ Hp). done.
Qed.

(** The callback of a mutation follows the protocol: called with the stored ledger, it
    only reads, and what it does to the ledger is an operation that the protocol allows
    as long as the ledger stays as it was read. *)
Definition callback_follows (J : list lock_view → Prop) (cb : LedgerCallback) : Prop :=
  ∀ i k l τ k' res, J τ → traced τ k → stores ledgerKey (ro_LedgerUID rollout) k l → cb i k l = (k', res) →
  ∃ τ', advances τ k τ' k' ∧ J τ'
    ∧ ∀ l', res = (l', None) → ∃ op, run_op op l = (l', None) ∧ op_typed op
        ∧ ∀ τ2 k2 v2, advances τ' k' τ2 k2 → J τ2 → kube_object k2 ledgerKey = kube_object k ledgerKey →
            head τ2 = Some v2 → lock_checked device op τ2 ∧ release_begun op v2.

Lemma mutate_follows J cb env τ k k' e :
  (∀ τ k τ' k', J τ → traced τ k → advances τ k τ' k' → J τ') →
  callback_follows J cb → others env → traced τ k → J τ →
  MutateWith env (ledgerStore r rollout) cb k = (k', e) →
  ∃ τ', follows τ k τ' k' ∧ (e = None → ∃ i k1 l k2 l', cb i k1 l = (k2, (l', None))).
Proof using KS DS RS US VS Hreader.
  intros HJ Hcb Henv Ht HJτ Hm. unfold MutateWith in Hm.
  eapply (retry_follows _ (λ τ1 k1, follows τ k τ1 k1 ∧ J τ1) (λ τ1 k1 e1, follows τ k τ1 k1
              ∧ (e1 = None → ∃ i k1 l k2 l', cb i k1 l = (k2, (l', None))))) in Hm
    as (τ' & _ & Hq); [by exists τ'| |split; [by apply follows_refl|done]].
  clear Hm HJτ k' e. intros i k0 k' e τ0 [Hfol HJ0] Hat.
  assert (traced τ0 k0) as Ht0 by apply Hfol. clear Ht. unfold mutateAttempt in Hat.
  destruct (Henv (2 * i)%nat k0 τ0 Ht0) as (τ1 & Hadv1). set (k1 := env (2 * i)%nat k0) in *.
  assert (traced τ1 k1) as Ht1 by apply Hadv1. assert (J τ1) as HJ1 by (by eapply HJ).
  assert (∀ τ3 k3, follows τ1 k1 τ3 k3 → follows τ k τ3 k3) as Hfrom.
  { intros τ3 k3 H3. eapply follows_trans; [exact Hfol|]. eapply follows_trans; [|exact H3].
    apply (advances_extends _ _ _ _ Hadv1). }
  assert (τ0 `suffix_of` τ1) as Hs1 by (by eapply advances_suffix).
  destruct (Read _ k1) as [[cm l]|] eqn:Hread.
  2: { injection Hat as <- <-. exists τ1. split; [done|]. split; [split; [by apply Hfrom, follows_refl|done]|].
       intros. split; [by apply Hfrom, follows_refl|done]. }
  destruct (Ht1) as (_ & v1 & Hv1 & Hst1 & _).
  destruct (read_view τ1 k1 v1 cm l Ht1 Hv1 Hread) as (Hl1 & Hcm & Hcu). rewrite Hl1 in Hst1.
  destruct (cb i k1 l) as [k2 [l' err]] eqn:Hcbk.
  destruct (Hcb i k1 l τ1 k2 (l', err) HJ1 Ht1 Hst1 Hcbk) as (τ2 & Hadv2 & HJ2 & Hop).
  assert (traced τ2 k2) as Ht2 by apply Hadv2.
  assert (τ0 `suffix_of` τ2) as Hs2 by (etrans; [exact Hs1|by eapply advances_suffix]).
  assert (follows τ k τ2 k2) as Hf2 by (apply Hfrom, (advances_extends _ _ _ _ Hadv2)).
  assert (∀ e', (k', e) = (k2, e') → (e' = None → err = None) → ∃ τ', τ0 `suffix_of` τ'
    ∧ (follows τ k τ' k' ∧ (e = None → ∃ i k1 l k2 l', cb i k1 l = (k2, (l', None))))
    ∧ (∀ e1, e = Some e1 → IsConflict e1 = true → follows τ k τ' k' ∧ J τ')) as Hstop.
  { intros e' [= -> ->] He'. exists τ2. split; [done|]. split; [split; [done|]|done].
    intros ->. rewrite (He' eq_refl) in Hcbk. eauto 6. }
  destruct (match err with Some e => Some e | None => _ end) eqn:Hchk; [by eapply Hstop|].
  destruct err; [done|]. go_none. destruct Hchk as (Hv & Hu & _).
  apply negb_false_iff, bool_decide_eq_true in Hu. apply validatePersistedLedger_iff in Hv.
  destruct (Encode l' _) as [text|] eqn:Henc; [|by eapply Hstop].
  case_match; [by eapply Hstop|]. clear Hstop.
  destruct (Hop l' eq_refl) as (op & Hrun & Hty & Hallow).
  destruct (Henv (2 * i + 1)%nat k2 τ2 Ht2) as (τ3 & Hadv3). set (k3 := env (2 * i + 1)%nat k2) in *.
  assert (traced τ3 k3) as Ht3 by apply Hadv3. assert (J τ3) as HJ3 by (by eapply HJ).
  assert (follows τ k τ3 k3) as Hf3.
  { eapply follows_trans; [exact Hf2|]. apply (advances_extends _ _ _ _ Hadv3). }
  assert (τ0 `suffix_of` τ3) as Hs3 by (etrans; [exact Hs2|by eapply advances_suffix]).
  destruct (kube_Patch k3 _ cm _) as [k4 p] eqn:Hp. injection Hat as <- <-.
  eapply (commit_follows k1 cm l op l' text τ3 k3) in Hp as (τ4 & Hf4 & Hsame); try done;
    [|etrans; [apply Hadv2|apply Hadv3]|intros v3 Ho Hv3; by eapply Hallow].
  exists τ4. split; [etrans; [exact Hs3|apply Hf4]|]. split; [split; [by eapply follows_trans|eauto 6]|].
  intros e1 He Hc. destruct p; [done|]. injection He as <-. by destruct (Hsame _ eq_refl Hc) as [-> ->].
Qed.

(** The lock of a named acquisition is not active, and will not be. *)
Definition retired (lockID : string) (τ : list lock_view) : Prop :=
  lockID ≠ "" → mine lockID τ ∧ not_active lockID τ.

Lemma retired_advances lockID τ k τ' k' :
  retired lockID τ → traced τ k → extends τ k τ' k' → retired lockID τ'.
Proof.
  intros Hr Ht Hx Hne. destruct (Hr Hne) as [Hm Hna]. split; [eapply mine_suffix, Hm; apply Hx|].
  by eapply not_active_extends.
Qed.

(** An operation that fences a retired acquisition. *)
Lemma fence_callback op lockID :
  op_lock op = Some lockID → op_typed op → (∀ l l', run_op op l = (l', None) → lockID ≠ "") →
  callback_follows (retired lockID) (pureCallback (run_op op)).
Proof using KS.
  intros Hop Hty Hne i k l τ k' res HJ Ht Hst [= <- <-]. exists τ. split; [by apply advances_refl|]. split; [done|].
  intros l' Hrun. exists op. split_and!; [done|done|]. intros τ2 k2 v2 _ Hret _ Hv. split.
  - intros p ms q ->. done.
  - intros lk Hlk Hl. rewrite Hop in Hl. injection Hl as ->. destruct Hret as [_ Hna]; [by eapply Hne|].
    by eapply Hna.
Qed.

Lemma fence_follows env op lockID τ k k' e :
  op_lock op = Some lockID → op_typed op → (∀ l l', run_op op l = (l', None) → lockID ≠ "") →
  others env → traced τ k → retired lockID τ →
  Mutate env (ledgerStore r rollout) (run_op op) k = (k', e) →
  ∃ τ', follows τ k τ' k' ∧ (e = None → lockID ≠ "").
Proof using KS DS RS US VS Hreader.
  intros Hop Hty Hne Henv Ht Hret Hm. unfold Mutate in Hm.
  apply (mutate_follows (retired lockID)) with (τ := τ) in Hm as (τ' & Hf & Hran);
    [|clear Hm|by apply fence_callback|done..].
  { exists τ'. split; [done|]. intros He. destruct (Hran He) as (i & k1 & l & k2 & l' & [= _ Hrun]). by eapply Hne. }
  intros τ1 k1 τ2 k2 Hr1 Ht1 Hadv%advances_extends. by eapply retired_advances.
Qed.

Lemma FenceUnbound_named id epoch lockID l l' :
  run_op (OpFenceUnbound id epoch lockID) l = (l', None) → lockID ≠ "".
Proof. intros Hr ->. simpl in Hr. unfold_op Hr. split_paths Hr; go_bool; naive_solver. Qed.

Lemma Settle_named id lockID child epoch o h l l' :
  run_op (OpSettle id lockID child epoch o h) l = (l', None) → lockID ≠ "".
Proof. intros Hr ->. simpl in Hr. unfold_op Hr. split_paths Hr; go_bool; naive_solver. Qed.

Lemma ReleaseUnclaimed_named id lockID child rev epoch l l' :
  run_op (OpReleaseUnclaimed id lockID child rev epoch) l = (l', None) → lockID ≠ "".
Proof. intros Hr ->. simpl in Hr. unfold_op Hr. split_paths Hr; go_bool; naive_solver. Qed.

(** A release in order, of an acquisition that only this caller may introduce or that
    is already in the history. *)
Lemma releaseInOrder_follows env1 env2 env3 op epoch lockID τ k k' e :
  others env1 → others env2 → others env3 → traced τ k → (lockID ≠ "" → mine lockID τ) →
  op_lock op = Some lockID → op_typed op → (∀ l l', run_op op l = (l', None) → lockID ≠ "") →
  releaseInOrder r rollout target env1 env2 env3 op epoch lockID k = (k', e) →
  ∃ τ', follows τ k τ' k' ∧ (e = None → cleared lockID epoch τ').
Proof using KS DS RS US VS Hreader.
  intros H1 H2 H3 Ht Hm Hop Hty Hnamed. unfold releaseInOrder.
  destruct (beginDeviceTopologyLockRelease _ _ _ _ _ _ _) as [k1 e1] eqn:Hb.
  destruct (beginRelease_follows _ _ _ _ _ _ _ H1 Ht Hb) as (τ1 & Hx1 & Hna).
  destruct e1; [intros [= <- <-]; exists τ1; split; [apply Hx1|done]|].
  assert (retired lockID τ1) as Hret.
  { intros Hne. split; [eapply mine_suffix, Hm, Hne; apply Hx1|auto]. }
  destruct (Mutate _ _ _ _) as [k2 e2] eqn:Hmu.
  apply (fence_follows _ _ lockID τ1) in Hmu as (τ2 & Hf2 & Hne); [|done|done|done|done|apply Hx1|done].
  assert (follows τ k τ2 k2) as Hf02 by (eapply follows_trans; [apply Hx1|done]).
  destruct e2; [intros [= <- <-]; by exists τ2|]. intros Hre.
  destruct (release_follows _ _ _ τ2 _ _ _ H3 ltac:(apply Hf2) Hre) as (τ3 & Hx3 & Hcl).
  exists τ3. split; [eapply follows_trans; [done|apply Hx3]|]. intros ->. by apply Hcl; [|apply Hne].
Qed.

(** ** Checking the lock *)

Definition seen_active (epoch : Z) (lockID : string) (v : lock_view) : Prop :=
  ∃ lk, lv_lock v = Some lk ∧ dtl_State lk = DeviceTopologyLockActive ∧ dtl_AcquisitionID lk = lockID
    ∧ dtl_ReservationID lk = targetReservationID rollout target ∧ dtl_PolicyEpoch lk = epoch.

Lemma revalidate_follows env epoch lockID τ k k' e :
  others env → traced τ k →
  revalidateDeviceTopologyLock r rollout target env epoch lockID k = (k', e) →
  ∃ τ', advances τ k τ' k' ∧ (e = None → ∃ v, head τ' = Some v ∧ seen_active epoch lockID v).
Proof using DS Hreader.
  intros Henv Ht. unfold revalidateDeviceTopologyLock.
  destruct (Henv 0%nat k τ Ht) as (τ1 & Hadv). set (k1 := env 0%nat k) in *.
  intros Hr. assert (k' = k1) as -> by (repeat case_match; congruence). exists τ1. split; [done|].
  intros ->. destruct (reader_Get r k1 _) as [d|] eqn:Hg; [|done]. apply reader_get in Hg.
  case_match; [done|]. case_match eqn:Heq; [done|]. apply negb_false_iff in Heq.
  assert (traced τ1 k1) as Ht1 by apply Hadv. destruct (Ht1) as (_ & v & Hv & _). exists v. split; [done|].
  destruct (dev_TopologyLock d) as [lk|] eqn:Hlk; [|done].
  apply identity_equal in Heq as [Ha (Hid & Hrid & Hep)%acquisition_equal].
  exists lk. split_and!; try done. by rewrite (traced_lock τ1 k1 d v).
Qed.

Lemma revalidated_follows env epoch lockID τ k k' res :
  others env → traced τ k → revalidated r rollout target env epoch lockID k = (k', res) →
  ∃ τ', follows τ k τ' k' ∧ (∀ id, res = inl id → id = lockID ∧ ∃ v, v ∈ τ' ∧ seen_active epoch id v).
Proof using DS Hreader.
  intros Henv Ht. unfold revalidated.
  destruct (revalidateDeviceTopologyLock _ _ _ _ _ _ _) as [k1 e] eqn:Hr.
  destruct (revalidate_follows _ _ _ _ _ _ _ Henv Ht Hr) as (τ' & Hadv & Hseen).
  destruct e as [e|]; intros [= <- <-]; exists τ'; (split; [apply (advances_extends _ _ _ _ Hadv)|]); [done|].
  intros id [= <-]. destruct (Hseen eq_refl) as (v & Hv & Hs). split; [done|]. exists v. split; [|done].
  destruct τ'; simplify_eq/=. by left.
Qed.

(** ** Acquiring the lock *)

(** What the attempts to publish the lock leave. *)
Definition published (τ0 : list lock_view) (k0 : KubeState) (expected : DeviceTopologyLockStatus)
    (τ : list lock_view) (s : KubeState * (bool * option DeviceTopologyLockStatus)) (e : option goerror) : Prop :=
  follows τ0 k0 τ s.1
  ∧ (e = None → ∀ lk, s.2 = (false, Some lk) → extends τ0 k0 τ s.1 ∧ ¬ fresh_lock (dtl_AcquisitionID lk) τ).

Lemma acquireAttempt_follows env expected i τ0 k0 τ s s' e :
  others env → own (dtl_AcquisitionID expected) → fresh_lock (dtl_AcquisitionID expected) τ0 →
  dtl_State expected = DeviceTopologyLockActive →
  extends τ0 k0 τ s.1 ∧ s.2 = (false, None) → acquireAttempt r rollout target env expected i s = (s', e) →
  ∃ τ', τ `suffix_of` τ' ∧ published τ0 k0 expected τ' s' e
    ∧ (∀ e', e = Some e' → IsConflict e' = true → extends τ0 k0 τ' s'.1 ∧ s'.2 = (false, None)).
Proof using KS DS Hreader.
  intros Henv Hown Hfresh Hact. destruct s as [k [c rec]]. cbn [fst snd]. intros [Hx [= -> ->]] Hat.
  unfold acquireAttempt in Hat. assert (traced τ k) as Ht by apply Hx.
  destruct (others_extend env (2 * i)%nat k τ Henv Ht) as (τ1 & Hx1 & Ht1). set (k1 := env (2 * i)%nat k) in *.
  assert (extends τ0 k0 τ1 k1) as Hx01 by (by eapply extends_trans).
  assert (∀ e1, (k1, (false, None), Some e1) = (s', e) → ∃ τ', τ `suffix_of` τ' ∧ published τ0 k0 expected τ' s' e
    ∧ (∀ e', e = Some e' → IsConflict e' = true → extends τ0 k0 τ' s'.1 ∧ s'.2 = (false, None))) as Hstop.
  { intros e1 [= <- <-]. exists τ1. split; [apply Hx1|]. split; [split; [apply Hx01|done]|]. done. }
  destruct (reader_Get r k1 devKey) as [d|] eqn:Hg; [|by eapply Hstop]. apply reader_get in Hg.
  case_match; [by eapply Hstop|]. destruct (dev_TopologyLock d) as [lk|] eqn:Hlk.
  - do 3 (case_match; [by eapply Hstop|]). injection Hat as <- <-.
    exists τ1. split; [apply Hx1|]. split; [|done]. split; [apply Hx01|].
    intros _ lk' [= <-]. split; [done|]. intros Hf. destruct (Ht1) as (_ & v & Hv & _).
    eapply (Hf v); [destruct τ1; simplify_eq/=; by left|]. left. exists lk. split; [|done].
    by rewrite (traced_lock τ1 k1 d v).
  - clear Hstop. destruct (others_extend env (2 * i + 1)%nat k1 τ1 Henv Ht1) as (τ2 & Hx2 & Ht2).
    set (k2 := env (2 * i + 1)%nat k1) in *.
    assert (extends τ0 k0 τ2 k2) as Hx02 by (by eapply extends_trans).
    assert (τ `suffix_of` τ2) as Hs2 by (etrans; [apply Hx1|apply Hx2]).
    destruct (dev_PatchStatus _ _ _ _) as [k3 pe] eqn:Hp.
    assert (s' = (k3, (match pe with None => true | _ => false end, None)) ∧ e = pe) as [-> ->].
    { destruct pe; injection Hat as <- <-; done. }
    eapply (patch_lock_follows k1 d) in Hp as (Ha3 & [[-> Hc]|[Hnc (v & Hv & Hl & Ht3)]]); [..|done|apply Hx2|done|].
    + exists τ2. destruct pe; [|done]. split; [done|]. split; [split; [apply Hx02|done]|]. done.
    + eexists. split; [by apply suffix_cons_r|]. split.
      * split; [|by destruct pe]. eapply follows_trans; [apply Hx02|]. split; [done|].
        split; [exact Ht3|by apply suffix_cons_r].
      * intros e' -> Hc. by rewrite (Hnc e' eq_refl) in Hc.
    + intros v Hv Hl. destruct τ2 as [|v' τ2]; [done|]. injection Hv as ->. rewrite Hlk in Hl. simpl.
      apply LockAcquire; [done|done|]. by apply Hx02.
Qed.

Lemma retire_follows env epoch lockID τ k k' e :
  (∀ n, others (env n)) → traced τ k → mine lockID τ → epoch ≤ maxInt64 →
  retireIncompleteLock r rollout target env epoch lockID k = (k', e) → ∃ τ', follows τ k τ' k'.
Proof using KS DS RS US VS Hreader.
  intros Henv Ht Hm Hep. unfold retireIncompleteLock.
  destruct (releaseInOrder _ _ _ _ _ _ _ _ _ _) as [k1 e1] eqn:Hre. intros Hk.
  assert (k' = k1) as -> by (destruct e1; congruence).
  apply (releaseInOrder_follows _ _ _ _ _ _ τ) in Hre as (τ' & Hf & _); try done.
  - by exists τ'.
  - split_and!; [done|by intros ? [= <-]|done].
  - by apply FenceUnbound_named.
Qed.

(** The acquisition of a lock follows the protocol, and the acquisition it reports was
    seen active, with the coordinates of the target. *)
Lemma acquire_follows env random epoch now τ k k' res :
  (∀ n, others (env n)) → traced τ k → epoch ≤ maxInt64 →
  (∀ bytes, random = Some bytes → own (hex_EncodeToString bytes) ∧ fresh_lock (hex_EncodeToString bytes) τ) →
  acquireDeviceTopologyLock r rollout target env random epoch now k = (k', res) →
  ∃ τ', follows τ k τ' k' ∧ ∀ id, res = inl id → ∃ v, v ∈ τ' ∧ seen_active epoch id v.
Proof using KS DS RS US VS Hreader.
  intros Henv Ht Hep Hrandom. unfold acquireDeviceTopologyLock, newTopologyLockAcquisitionID.
  destruct random as [bytes|]; [|intros [= <- <-]; exists τ; split; [by apply follows_refl|done]].
  destruct (Hrandom bytes eq_refl) as [Ho Hf]. set (id0 := hex_EncodeToString bytes) in *. clear Hrandom.
  set (expected := expectedDeviceTopologyLock rollout target epoch id0 now).
  destruct (RetryOnConflict _ _) as [[k1 [c rec]] e1] eqn:Hr.
  eapply (retry_follows _ (λ τ1 s1, extends τ k τ1 s1.1 ∧ s1.2 = (false, None)) (published τ k expected)) in Hr
    as (τ1 & _ & Hf1 & Hrec);
    [|intros; by eapply acquireAttempt_follows|split; [by apply extends_refl|done]]. simpl in Hf1, Hrec.
  destruct e1 as [e1|].
  { intros Hk. assert (k' = k1 ∧ res = inr e1) as [-> ->] by (destruct c, rec; by simplify_eq). by exists τ1. }
  assert (traced τ1 k1) as Ht1 by apply Hf1.
  assert (∀ id, revalidated r rollout target (env 2%nat) epoch id k1 = (k', res) →
    ∃ τ', follows τ k τ' k' ∧ ∀ id, res = inl id → ∃ v, v ∈ τ' ∧ seen_active epoch id v) as Hend.
  { intros id Hv. apply (revalidated_follows _ _ _ τ1) in Hv as (τ2 & Hf2 & Hs); [|apply Henv|done].
    exists τ2. split; [by eapply follows_trans|]. intros id' ->. by destruct (Hs id' eq_refl). }
  destruct c; [by apply Hend|]. destruct rec as [lk|]; [|by apply Hend]. clear Hend.
  destruct (Hrec eq_refl lk eq_refl) as [Hx1 Hnf]. clear Hrec.
  destruct (others_extend (env 1%nat) 0%nat k1 τ1 (Henv 1%nat) Ht1) as (τ2 & Hx2 & Ht2).
  set (k2 := env 1%nat 0%nat k1) in *.
  assert (follows τ k τ2 k2) as Hf2 by (eapply follows_trans; [exact Hf1|apply Hx2]).
  destruct (Read _ k2) as [[cm l]|]; [|intros [= <- <-]; by exists τ2].
  destruct (reservations l !! _) as [rsv|].
  { case_match; [intros [= <- <-]; by exists τ2|]. intros Hv.
    apply (revalidated_follows _ _ _ τ2) in Hv as (τ3 & Hf3 & Hs); [|apply Henv|done].
    exists τ3. split; [by eapply follows_trans|]. intros id' ->. by destruct (Hs id' eq_refl). }
  destruct (retireIncompleteLock _ _ _ _ _ _ _) as [k3 e3] eqn:Hret. intros [= <- <-].
  apply (retire_follows _ _ _ τ2) in Hret as (τ3 & Hf3); [|done|done| |done].
  - exists τ3. split; [by eapply follows_trans|done].
  - eapply mine_suffix; [apply Hx2|by right].
Qed.

(** ** Reserving under the lock *)

Lemma reserve_callback env evidence policy lockID request :
  others env → req_ID request = targetReservationID rollout target →
  req_PolicyEpoch request = pol_Epoch policy → req_TopologyLockID request = lockID →
  0 ≤ req_PolicyEpoch request ≤ maxInt64 → 0 ≤ req_ControlRevision request < 2 ^ 64 →
  callback_follows (λ _, True) (reserveCallback r rollout target env evidence policy lockID request).
Proof using KS DS Hreader.
  intros Henv Hid Hep Hlid Hte Htr i k l τ k' res _ Ht Hst. unfold reserveCallback.
  destruct (Henv (2 * i)%nat k τ Ht) as (τ1 & Hadv1). set (k1 := env (2 * i)%nat k) in *.
  assert (traced τ1 k1) as Ht1 by apply Hadv1.
  destruct (evidence i k1) as [members|e]; [|intros [= <- <-]; by exists τ1].
  destruct (revalidateDeviceTopologyLock _ _ _ _ _ _ _) as [k2 e2] eqn:Hr.
  apply (revalidate_follows _ _ _ τ1) in Hr as (τ2 & Hadv2 & Hseen); [|intros n; apply Henv|done].
  assert (advances τ k τ2 k2) as Hadv by (by eapply advances_trans).
  destruct e2; intros [= <- <-]; exists τ2; (split; [done|split; [done|]]); [done|].
  intros l' Hrun. exists (OpReserve policy members request).
  split; [done|]. split; [split_and!; try done; by intros p ms q [= <- <- <-]|].
  intros τ3 k3 v3 Hadv3 _ Hobj Hv3. split; [|done]. intros p ms q [= <- <- <-] _.
  destruct (Hseen eq_refl) as (v & Hv & lk & Hlk & Ha & Hac & Hrid & Hpe).
  destruct (Hst) as (cm & Hcm & _).
  assert (kube_object k2 ledgerKey = Some cm) as Hcm2.
  { eapply kube_object_between; [apply Hadv|apply Hadv3|exact Hcm|congruence]. }
  assert (stores ledgerKey (ro_LedgerUID rollout) k3 l) as Hst3 by (by eapply stores_object).
  assert (stores ledgerKey (ro_LedgerUID rollout) k2 l) as Hst2 by (eapply stores_object, Hst; congruence).
  destruct (Hadv3) as (_ & (_ & v3' & Hv3' & Hs3 & _) & _ & since & -> & Hwin).
  rewrite Hv3 in Hv3'. injection Hv3' as <-.
  destruct Hadv2 as (_ & (_ & v' & Hv' & Hs2 & _) & _). rewrite Hv in Hv'. injection Hv' as <-.
  destruct τ2 as [|w τ2]; [done|]. injection Hv as ->. exists since, v, τ2, lk.
  split_and!; [done| |done|done|split_and!; congruence].
  intros w w' Hw Hw'. rewrite Hv3 in Hw'. injection Hw' as <-. rewrite (stores_inj _ _ _ Hs3 Hst3).
  apply elem_of_app in Hw as [Hw|Hw%list_elem_of_singleton]; [|subst; by eapply stores_inj].
  eapply Hwin; [congruence|done|exact Hst2].
Qed.

Lemma request_coordinates policy q :
  rolloutReservationRequest rollout policy target = inl q →
  req_ID q = targetReservationID rollout target ∧ req_PolicyEpoch q = pol_Epoch policy
  ∧ req_DeviceUID q = device ∧ req_ControlRevision q = ro_ControlRevision rollout.
Proof. unfold rolloutReservationRequest. case_match; [|done]. case_match. by intros [= <-]. Qed.

(** ** Releasing what was reserved *)

Lemma mentioned_mine τ v lk lockID :
  v ∈ τ → lv_lock v = Some lk → dtl_AcquisitionID lk = lockID → mine lockID τ.
Proof. intros Hin Hlk Hid. right. intros Hf. eapply Hf; [exact Hin|]. left. by exists lk. Qed.

Lemma forRelease_follows env epoch fallback τ k k' res :
  others env → traced τ k → (default "" fallback ≠ "" → own (default "" fallback)) → epoch ≤ maxInt64 →
  topologyLockAcquisitionForRelease r rollout target env epoch fallback k = (k', res) →
  ∃ τ', extends τ k τ' k' ∧ ∀ epoch' lockID, res = inl (epoch', lockID) →
    (lockID ≠ "" → mine lockID τ') ∧ epoch' ≤ maxInt64.
Proof using KS DS US VS Hreader.
  intros Henv Ht Hown Hep. unfold topologyLockAcquisitionForRelease. set (id0 := default "" fallback) in *.
  case_match; [intros [= <- <-]; exists τ; split; [by apply extends_refl|done]|].
  destruct (others_extend env 0%nat k τ Henv Ht) as (τ1 & Hx1 & Ht1). set (k1 := env 0%nat k) in *.
  destruct (Read _ k1) as [[cm l]|] eqn:Hread; [|intros [= <- <-]; by exists τ1].
  destruct (Ht1) as (Hh1 & v1 & Hv1 & Hst1 & _).
  destruct (read_view τ1 k1 v1 cm l Ht1 Hv1 Hread) as (Hl1 & _ & _).
  destruct (reservations l !! _) as [rsv|] eqn:Hrsv.
  - case_match eqn:Hc; [intros [= <- <-]; by exists τ1|]. intros [= <- <-]. exists τ1. split; [done|].
    intros ep lid [= <- <-]. rewrite !orb_false_iff, negb_false_iff, bool_decide_eq_true in Hc. destruct Hc as [[[Hd _] _] _].
    assert (reserves device (lv_ledger v1) rsv) as Hres by (split; [done|rewrite Hl1; eauto]).
    destruct (reservations_locked _ _ _ _ Hh1 Hv1 Hres) as (lk & Hlk & Hid & _). split.
    + intros _. eapply mentioned_mine; [|exact Hlk|done]. destruct τ1; simplify_eq/=. by left.
    + destruct Hst1 as (? & _ & _ & _ & [Hty _]). rewrite Hl1 in Hty. destruct (Hty _ _ Hrsv) as (? & _). lia.
  - destruct (others_extend env 1%nat k1 τ1 Henv Ht1) as (τ2 & Hx2 & Ht2). set (k2 := env 1%nat k1) in *.
    assert (extends τ k τ2 k2) as Hx02 by (by eapply extends_trans).
    assert (id0 ≠ "" → mine id0 τ2) as Hm by (left; auto).
    destruct (reader_Get r k2 devKey) as [d|e1] eqn:Hg.
    2: { case_match; intros [= <- <-]; exists τ2; (split; [done|]); naive_solver. }
    apply reader_get in Hg as Hd. destruct (dev_TopologyLock d) as [lk|] eqn:Hlk.
    2: { intros [= <- <-]. exists τ2. split; [done|]. naive_solver. }
    case_match; [intros [= <- <-]; by exists τ2|]. intros [= <- <-]. exists τ2. split; [done|].
    intros ep lid [= <- <-]. split; [intros _|by eapply dev_lock_stored].
    destruct (Ht2) as (_ & v2 & Hv2 & _). eapply (mentioned_mine _ v2 lk); [destruct τ2; simplify_eq/=; by left| |done].
    by rewrite (traced_lock τ2 k2 d v2).
Qed.

Lemma releaseUnclaimed_follows env retained revision epoch lockID τ k k' e :
  (∀ n, others (env n)) → traced τ k → (default "" lockID ≠ "" → mine (default "" lockID) τ) →
  epoch ≤ maxInt64 → 0 ≤ revision < 2 ^ 64 →
  releaseUnclaimedReservationAtEpoch r rollout target env retained revision epoch lockID k = (k', e) →
  ∃ τ', follows τ k τ' k'.
Proof using KS DS RS US VS Hreader.
  intros Henv Ht Hm Hep Hrev. unfold releaseUnclaimedReservationAtEpoch.
  destruct (others_extend (env 8%nat) 0%nat k τ (Henv _) Ht) as (τ1 & Hx1 & Ht1).
  set (k1 := env 8%nat 0%nat k) in *. cbn zeta. case_match; [intros [= <- <-]; exists τ1; apply Hx1|].
  assert (∀ id τ2 k2, follows τ k τ2 k2 → (id ≠ "" → mine id τ2) →
    (if id == "" then (k2, None)
     else releaseInOrder r rollout target (env 10%nat) (env 11%nat) (env 12%nat)
            (OpReleaseUnclaimed (targetReservationID rollout target) id "" revision epoch) epoch id k2) = (k', e) →
    ∃ τ', follows τ k τ' k') as Hrelease.
  { intros id τ2 k2 Hf2 Hm2. case_match; [intros [= <- <-]; by exists τ2|]. intros Hre.
    apply (releaseInOrder_follows _ _ _ _ _ _ τ2) in Hre as (τ3 & Hf3 & _); try done.
    - exists τ3. by eapply follows_trans.
    - apply Hf2.
    - split_and!; [by intros ? [= <-]|by intros ? [= <-]|done].
    - by apply ReleaseUnclaimed_named. }
  case_match.
  - apply (Hrelease _ τ1); [apply Hx1|]. intros Hne. eapply mine_suffix, Hm, Hne. apply Hx1.
  - destruct (topologyLockAcquisitionForRelease _ _ _ _ _ _ _) as [k2 res] eqn:Hr.
    apply (forRelease_follows _ _ _ τ1) in Hr as (τ2 & Hx2 & Hmine); [|apply Henv|done|done|done].
    assert (follows τ k τ2 k2) as Hf2 by (eapply follows_trans; [apply Hx1|apply Hx2]).
    destruct res as [[ep id]|e1]; [|intros [= <- <-]; by exists τ2].
    apply (Hrelease _ τ2); [done|]. by eapply Hmine.
Qed.

Lemma reserve_follows env random evidence authority retained policy now τ k k' res :
  (∀ n, others (env n)) → traced τ k → 0 ≤ pol_Epoch policy ≤ maxInt64 → 0 ≤ ro_ControlRevision rollout < 2 ^ 64 →
  (∀ bytes, random = Some bytes → own (hex_EncodeToString bytes) ∧ fresh_lock (hex_EncodeToString bytes) τ) →
  reserveTarget r rollout target env random evidence authority retained policy now k = (k', res) →
  ∃ τ', follows τ k τ' k'.
Proof using KS DS RS US VS Hreader.
  intros Henv Ht Hep Hrev Hrandom. unfold reserveTarget.
  destruct (rolloutReservationRequest _ _ _) as [q|] eqn:Hq;
    [|intros [= <- <-]; exists τ; by apply follows_refl].
  apply request_coordinates in Hq as (Hid & Hqe & _ & Hqr).
  destruct (acquireDeviceTopologyLock _ _ _ _ _ _ _ _) as [k1 [lockID|e]] eqn:Hacq;
    apply (acquire_follows _ _ _ _ τ) in Hacq as (τ1 & Hf1 & Hseen); try done; try lia;
    [|intros [= <- <-]; by exists τ1].
  destruct (Hseen lockID eq_refl) as (v & Hv & lk & Hlk & _ & Hac & _). clear Hseen.
  cbn zeta.
  assert (∀ e τ2 k2, follows τ1 k1 τ2 k2 →
    giveUpReservation r rollout target env retained (pol_Epoch policy) lockID e k2 = (k', res) →
    ∃ τ', follows τ k τ' k') as Hgive.
  { intros e τ2 k2 Hf2. unfold giveUpReservation.
    destruct (releaseUnclaimedReservationAtEpoch _ _ _ _ _ _ _ _ _) as [k3 e3] eqn:Hre. intros [= <- _].
    apply (releaseUnclaimed_follows _ _ _ _ _ τ2) in Hre as (τ3 & Hf3); try done; try lia.
    - exists τ3. eapply follows_trans; [exact Hf1|by eapply follows_trans].
    - apply Hf2.
    - intros _. eapply mine_suffix, (mentioned_mine _ _ _ _ Hv Hlk Hac). apply Hf2. }
  destruct (MutateWith _ _ _ _) as [k2 e2] eqn:Hm.
  apply (mutate_follows (λ _, True)) with (τ := τ1) in Hm as (τ2 & Hf2 & _);
    [|done|apply reserve_callback; [apply Henv|done|done|done|simpl; lia|simpl; lia]|apply Henv|apply Hf1|done].
  destruct e2 as [e2|]; [by eapply Hgive|].
  destruct (revalidateDeviceTopologyLock _ _ _ _ _ _ _) as [k3 e3] eqn:Hr.
  apply (revalidate_follows _ _ _ τ2) in Hr as (τ3 & Hx3%advances_extends & _); [|apply Henv|apply Hf2].
  assert (follows τ1 k1 τ3 k3) as Hf3 by (eapply follows_trans; [exact Hf2|apply Hx3]).
  destruct e3 as [e3|]; [by eapply Hgive|].
  destruct (others_extend (env 14%nat) 0%nat k3 τ3 (Henv _)) as (τ4 & Hx4 & Ht4); [apply Hf3|].
  assert (follows τ1 k1 τ4 (env 14%nat 0%nat k3)) as Hf4 by (eapply follows_trans; [exact Hf3|apply Hx4]).
  case_match; [by eapply Hgive|]. intros [= <- _]. exists τ4. by eapply follows_trans.
Qed.

(** ** Settling under the lock *)

Lemma settle_follows env childUID epoch lockID τ k k' e :
  (∀ n, others (env n)) → traced τ k → own lockID → epoch ≤ maxInt64 →
  settleTarget r rollout target env childUID epoch lockID k = (k', e) →
  ∃ τ', follows τ k τ' k' ∧ (e = None → ∃ epoch' id, cleared id epoch' τ').
Proof using KS DS RS US VS Hreader.
  intros Henv Ht Hown Hep. unfold settleTarget.
  destruct (topologyLockAcquisitionForRelease _ _ _ _ _ _ _) as [k1 res] eqn:Hr.
  apply (forRelease_follows _ _ _ τ) in Hr as (τ1 & Hx1 & Hmine); [|apply Henv|done..].
  destruct res as [[ep id]|e1]; [|intros [= <- <-]; exists τ1; split; [apply Hx1|done]].
  destruct (Hmine ep id eq_refl) as [Hm Hpe]. intros Hre.
  apply (releaseInOrder_follows _ _ _ _ _ _ τ1) in Hre as (τ2 & Hf2 & Hcl); try done.
  - exists τ2. split; [eapply follows_trans; [apply Hx1|done]|]. intros He. exists ep, id. auto.
  - apply Hx1.
  - split_and!; [done|by intros ? [= <-]|done].
  - by apply Settle_named.
Qed.
End operations.
