(* ===== verification/TopologyLockTheorems.v ===== *)
(** * Topology locks: properties

    The invariant of the protocol, and that the operations of
    src/internal/controller/topology_lock.go follow it, with a reference server of
    ConfigMaps and devices for the witnesses. *)

From S2P Require Import Prelude GoLib GoTime Json JsonProofs Interfaces LedgerData Ledger LedgerSpec LedgerOps.
From S2P Require Import LedgerHistory LedgerCodec LedgerExamples Store StoreHistory StoreTheorems.
From S2P Require Import AdminPolicyHash PolicyExamples LockProtocol TopologyLock TopologyLockProofs.

(** C12: a reservation never stands without its lock.  In every history in which locks
    are published, released and cleared, and ledger operations committed, in the order
    the protocol asks for, at every moment each reservation of the device in the ledger
    has the lock of exactly its acquisition, reservation and policy epoch on the device,
    active or being released. *)
Theorem reservation_keeps_lock `{K8sValidation, UuidLib} device τ v r :
  lock_history device τ → head τ = Some v → reserves device (lv_ledger v) r →
  ∃ lk, lv_lock v = Some lk ∧ covers lk (rsv_Request r).
Proof. apply reservations_locked. Qed.

(** Every stored reservation of the target's device has its lock on the stored device. *)
Definition stored_locked `{K8sValidation, UuidLib} {KA : KubeAPI} {DA : @DeviceAPI KA} (rollout : SoftwareRollout)
    (target : PlannedTarget) (k : KubeState) : Prop :=
  ∀ l rsv, stores (ro_LedgerNamespace rollout, ro_LedgerName rollout) (ro_LedgerUID rollout) k l →
  reserves (pt_DeviceUID target) l rsv →
  ∃ d lk, dev_object k (deviceKey rollout target) = Some d ∧ dev_TopologyLock d = Some lk
    ∧ covers lk (rsv_Request rsv).

Lemma traced_locked `{K8sValidation, UuidLib} {KA : KubeAPI} {DA : @DeviceAPI KA} rollout target τ k :
  traced rollout target τ k → stored_locked rollout target k.
Proof.
  intros (Hh & v & Hv & (cm & Ho & _ & Hd & _) & Hl) l rsv (cm' & Ho' & _ & Hd' & _) Hr. simplify_eq.
  assert (lv_ledger v = l) as <- by congruence.
  destruct (reservations_locked _ _ _ _ Hh Hv Hr) as (lk & Hlk & Hc). rewrite Hl in Hlk.
  destruct (dev_object k _) as [d|]; [|done]. by exists d, lk.
Qed.

(** C32: the operations follow the protocol.  With an uncached reader, and while the
    others follow it, whatever they do between any two calls: acquiring a lock (which
    recovers or retires an acquisition that was interrupted), reserving under it, with
    the release of the reservation when the admission fails, and settling, extend the history of the two objects only by protocol steps.  A reported
    acquisition was seen active for the target; a reported settlement has removed the
    lock, after the ledger, fenced for that acquisition, held no reservation of the
    device.  Whatever the outcome, conflicts and lost answers included, every stored
    reservation of the device has its lock on the device. *)
Theorem topology_lock_protocol `{HL : HashLib, K8V : K8sValidation, UL : UuidLib, US : !UuidLibSpec UL,
      VS : !K8sValidationSpec K8V} {KA : KubeAPI} {RL : @RetryLib KA} {RS : RetryLibSpec RL}
    {DA : @DeviceAPI KA} (kube_after : KubeState → KubeState → Prop) {KS : KubeAPISpec KA kube_after}
    {DS : DeviceAPISpec kube_after} r rollout target (own : string → Prop) env τ k :
  rec_APIReader r = true → (∀ n, others kube_after rollout target own (env n)) →
  traced rollout target τ k → 0 ≤ ro_ControlRevision rollout < 2 ^ 64 →
  (∀ random epoch now k' res,
     epoch ≤ maxInt64 →
     (∀ bytes, random = Some bytes →
        own (hex_EncodeToString bytes) ∧ fresh_lock (hex_EncodeToString bytes) τ) →
     acquireDeviceTopologyLock r rollout target env random epoch now k = (k', res) →
     ∃ τ', follows kube_after rollout target τ k τ' k' ∧ stored_locked rollout target k'
       ∧ ∀ id, res = inl id → ∃ v, v ∈ τ' ∧ seen_active rollout target epoch id v)
  ∧ (∀ random evidence authority retained policy now k' res,
       0 ≤ pol_Epoch policy ≤ maxInt64 →
       (∀ bytes, random = Some bytes →
          own (hex_EncodeToString bytes) ∧ fresh_lock (hex_EncodeToString bytes) τ) →
       reserveTarget r rollout target env random evidence authority retained policy now k = (k', res) →
       ∃ τ', follows kube_after rollout target τ k τ' k' ∧ stored_locked rollout target k')
  ∧ (∀ childUID epoch lockID k' e,
       own lockID → epoch ≤ maxInt64 →
       settleTarget r rollout target env childUID epoch lockID k = (k', e) →
       ∃ τ', follows kube_after rollout target τ k τ' k' ∧ stored_locked rollout target k'
         ∧ (e = None → ∃ epoch' id, cleared rollout target id epoch' τ')).
Proof.
  intros Hr Henv Ht Hrev. split_and!.
  - intros random epoch now k' res Hep Hrandom Hacq.
    eapply acquire_follows in Hacq as (τ' & Hf & Hs); try done.
    exists τ'. split_and!; [apply Hf|eapply traced_locked, Hf|done].
  - intros random evidence authority retained policy now k' res Hep Hrandom Hres.
    eapply reserve_follows in Hres as (τ' & Hf); try done.
    exists τ'. split; [done|eapply traced_locked, Hf].
  - intros childUID epoch lockID k' e Hown Hep Hset.
    eapply settle_follows in Hset as (τ' & Hf & Hc); try done.
    exists τ'. split_and!; [apply Hf|eapply traced_locked, Hf|done].
Qed.
