(* ===== verification/TopologyLockExamples.v ===== *)
(** * Topology locks: a reference server

    A server of ConfigMaps and devices: two logs of writes, newest first.  The witnesses
    of the topology lock's properties reserve a device on it. *)

From S2P Require Import Prelude GoLib GoTime Json JsonProofs Interfaces LedgerData Ledger LedgerSpec LedgerOps.
From S2P Require Import LedgerHistory LedgerCodec LedgerExamples Store StoreHistory StoreTheorems.
From S2P Require Import AdminPolicyHash PolicyExamples LockProtocol TopologyLock TopologyLockProofs TopologyLockTheorems.

(** ** Devices *)

Definition dev_log : Type := list (NamespacedName * CiscoDevice).

Fixpoint devlog_latest (log : dev_log) (k : NamespacedName) : option (CiscoDevice * nat) :=
  match log with
  | [] => None
  | (k', d) :: log => if k == k' then Some (d, length log) else devlog_latest log k
  end.

Definition lock_typed (d : CiscoDevice) : bool :=
  match dev_TopologyLock d with
  | None => true
  | Some lk => (stored_lock lk == lk) && (dtl_PolicyEpoch lk <=? maxInt64)
  end.

Definition devlog_version (d : CiscoDevice) (version : string) : CiscoDevice :=
  {| dev_UID := dev_UID d; dev_ResourceVersion := version; dev_Deleting := dev_Deleting d;
     dev_Generation := dev_Generation d; dev_Driver := dev_Driver d; dev_NodeIdentity := dev_NodeIdentity d;
     dev_TopologyProjection := dev_TopologyProjection d; dev_TopologyLock := dev_TopologyLock d |}.

(** Writes with a lock that is not in its stored form are not shown. *)
Definition devlog_object (log : dev_log) (k : NamespacedName) : option CiscoDevice :=
  '(d, n) ← devlog_latest log k;
  if lock_typed d then Some (devlog_version d (unary (S n))) else None.

Definition notFound : goerror := EPlain "not found".

Definition devlog_get (log : dev_log) (k : NamespacedName) : CiscoDevice + goerror :=
  match devlog_object log k with Some d => inl d | None => inr notFound end.

Definition devlog_patch (log : dev_log) (k : NamespacedName) (before after : CiscoDevice)
  : dev_log * option goerror :=
  match devlog_object log k with
  | None => (log, Some notFound)
  | Some cur =>
      return_if (dev_ResourceVersion cur != dev_ResourceVersion before) (log, Some (EPlain "conflict")) ;;
      let new := withTopologyLock cur (stored_lock <$> dev_TopologyLock after) in
      return_if (negb (lock_typed new)) (log, Some (EPlain "invalid")) ;;
      ((k, new) :: log, None)
  end.

Lemma devlog_latest_bound s k d n : devlog_latest s k = Some (d, n) → (n < length s)%nat.
Proof.
  induction s as [|[k' d'] s IH]; simpl; [done|]. case_match; intros Hl; simplify_eq; [lia|].
  apply IH in Hl. lia.
Qed.

Lemma devlog_latest_app t s k d n :
  devlog_latest (t ++ s) k = Some (d, n) → (n < length s)%nat → devlog_latest s k = Some (d, n).
Proof.
  induction t as [|[k' d'] t IH]; simpl; [done|]. case_match; intros Hl Hn; simplify_eq; [|auto].
  rewrite length_app in Hn. lia.
Qed.

(** ** The server *)

Definition lock_server : Type := list (NamespacedName * ConfigMap) * dev_log.

Definition lock_reference : KubeAPI := {|
  KubeState := lock_server;
  kube_object s := ref_object s.1;
  kube_reader_Get s := ref_get s.1;
  kube_client_Get s := ref_get s.1;
  kube_Patch s k before after := let '(log, res) := ref_patch s.1 k before after in ((log, s.2), res);
  IsConflict e := e == EPlain "conflict";
|}.

Definition lock_devices : @DeviceAPI lock_reference :=
  {| dev_object (s : @KubeState lock_reference) := devlog_object s.2;
     dev_reader_Get (s : @KubeState lock_reference) := devlog_get s.2;
     dev_client_Get (s : @KubeState lock_reference) := devlog_get s.2;
     dev_PatchStatus (s : @KubeState lock_reference) k before after :=
       let '(log, e) := devlog_patch s.2 k before after in ((s.1, log) : @KubeState lock_reference, e);
     IsNotFound e := e == notFound |}.

Definition lock_after (s s' : lock_server) : Prop := ref_after s.1 s'.1 ∧ s.2 `suffix_of` s'.2.

#[export] Instance lock_reference_spec : KubeAPISpec lock_reference lock_after.
Proof.
  destruct kube_reference_spec as [Hpre Hrc Hcp Huid Hvu Hok Herr]. split; simpl in *.
  - split.
    + intros s. split; reflexivity.
    + intros s1 s2 s3 [? ?] [? ?]. split; by etrans.
  - auto.
  - intros s k o Ho. exists s. split; [split; reflexivity|]. by apply ref_get_object.
  - eauto.
  - intros s s' k o o' [Ha _]. by apply Hvu.
  - intros s k b a s' new. destruct (ref_patch s.1 k b a) as [log res] eqn:Hp. intros [= <- ->].
    destruct (Hok _ _ _ _ _ _ Hp) as (Ha & ? & ? & ?). by split_and!.
  - intros s k b a s' e. destruct (ref_patch s.1 k b a) as [log res] eqn:Hp. intros [= <- ->]. left.
    unfold ref_patch in Hp. destruct s. by repeat case_match; simplify_eq/=.
Qed.

(** ConfigMaps keep their version until they are written. *)
Lemma ref_object_between s1 s2 s3 k o :
  ref_after s1 s2 → ref_after s2 s3 → ref_object s1 k = Some o → ref_object s3 k = Some o →
  ref_object s2 k = Some o.
Proof.
  intros [t2 ->] [t3 ->]. unfold ref_object at 1.
  destruct (ref_latest s1 k) as [[cm n]|] eqn:H1; [|done]. simpl. case_match; [|done]. intros [= <-].
  unfold ref_object at 1. destruct (ref_latest (t3 ++ t2 ++ s1) k) as [[cm3 n3]|] eqn:H3; [|done]. simpl.
  case_match eqn:Hv; [|done]. intros Heq.
  assert (n3 = n) as ->.
  { apply (f_equal (λ o, cm_ResourceVersion <$> o)) in Heq. simpl in Heq. injection Heq as Hn.
    by apply unary_inj in Hn as [= ->]. }
  pose proof (ref_latest_bound _ _ _ _ H1).
  apply ref_latest_app in H3; [|rewrite length_app; lia]. unfold ref_object. rewrite H3. simpl. by rewrite Hv.
Qed.

#[export] Instance lock_devices_spec : @DeviceAPISpec lock_reference lock_devices lock_after.
Proof.
  split; simpl.
  - intros s k d. unfold devlog_get. case_match; naive_solver.
  - intros s k e. unfold devlog_get. case_match; naive_solver.
  - intros s k d lk. unfold devlog_object. destruct (devlog_latest s.2 k) as [[d0 n]|]; [|done]. simpl.
    case_match eqn:Ht; [|done]. intros [= <-] Hlk. simpl in Hlk. unfold lock_typed in Ht. rewrite Hlk in Ht.
    by rewrite andb_true_iff, bool_decide_eq_true, Z.leb_le in Ht.
  - intros s s' k d d' [_ [t Hs]]. rewrite Hs. unfold devlog_object.
    destruct (devlog_latest s.2 k) as [[d0 n]|] eqn:H1; [|done].
    destruct (devlog_latest (t ++ s.2) k) as [[d1 n1]|] eqn:H2; [|done].
    simpl. do 2 case_match; try done. intros [= <-] [= <-] [= Hn]. apply unary_inj in Hn as [= ->].
    pose proof (devlog_latest_bound _ _ _ _ H1). apply devlog_latest_app in H2; [|done]. congruence.
  - intros s k b a s'. destruct (devlog_patch s.2 k b a) as [log e] eqn:Hp. intros [= <- ->].
    unfold devlog_patch in Hp. destruct (devlog_object s.2 k) as [cur|] eqn:Hcur; [|done].
    case_match eqn:Hv; [done|]. case_match eqn:Hty; [done|]. injection Hp as <-.
    apply negb_false_iff, bool_decide_eq_true in Hv. apply negb_false_iff in Hty.
    split; [split; [reflexivity|by apply suffix_cons_r]|]. split; [done|]. eexists cur, _.
    split_and!; [done|done| |]; simpl.
    + unfold devlog_object. simpl. rewrite bool_decide_true by done. simpl. by rewrite Hty.
    + done.
  - intros s k b a s' e. destruct (devlog_patch s.2 k b a) as [log e0] eqn:Hp. intros [= <- ->]. left.
    unfold devlog_patch in Hp. destruct s. by repeat case_match; simplify_eq/=.
  - intros s1 s2 s3 k o [Ha _] [Ha' _]. by apply ref_object_between.
  - intros s k b a s' res. destruct (ref_patch s.1 k b a) as [log e]. by intros [= <- <-].
Qed.

(** Four attempts, as [retry.DefaultBackoff] has. *)
Definition lock_retry : @RetryLib lock_reference :=
  @Build_RetryLib lock_reference (λ T f s, @ref_retry lock_reference T 3 0 f s).

#[export] Instance lock_retry_spec : @RetryLibSpec lock_reference lock_retry.
Proof. split. intros T f s s' e. apply (@ref_retry_attempts lock_reference). Qed.

(** ** A campaign on one device *)

Definition exRollout : SoftwareRollout :=
  {| ro_Namespace := "fleet"; ro_Name := "campaign"; ro_UID := "campaign"; ro_PlanHash := exHash;
     ro_LedgerNamespace := "fleet"; ro_LedgerName := "ledger"; ro_LedgerUID := "ledger-uid";
     ro_EffectivePolicy := Some {| ep_Epoch := 3; ep_UID := "policy-uid"; ep_ResourceVersion := "v7" |};
     ro_MaxConcurrentTransfers := 2; ro_MaxUnavailable := 2; ro_Domains := []; ro_ControlRevision := 1 |}.

Definition exTarget : PlannedTarget :=
  {| pt_DeviceName := "sw-1"; pt_DeviceUID := "dev-1"; pt_DeviceGeneration := 4;
     pt_PhysicalIdentity := "phys-1"; pt_NodeName := "node-1"; pt_NodeUID := "node-1";
     pt_ProjectionHash := "p1"; pt_ChildName := "child-1"; pt_RiskGroups := ["rg-a"];
     pt_Topology := [("zone", "east")] |}.

Definition exDevice : CiscoDevice :=
  {| dev_UID := "dev-1"; dev_ResourceVersion := ""; dev_Deleting := false; dev_Generation := 4;
     dev_Driver := DeviceDriverXE;
     dev_NodeIdentity := Some {| ni_DeviceUID := "dev-1"; ni_NodeName := "node-1"; ni_NodeUID := "node-1" |};
     dev_TopologyProjection := Some "p1"; dev_TopologyLock := None |}.

Definition exLockServer : @KubeState lock_reference := (exServer, [(("fleet", "sw-1"), exDevice)]).
Definition exReconciler : RolloutReconciler := {| rec_APIReader := true |}.
Definition exRandom : list Z := [0; 17; 34; 51; 68; 85; 102; 119; 136; 153; 170; 187; 204; 221; 238; 255].

(** The campaign may lose its authority after the reservation. *)
Definition exReserveWith (authority : option goerror) : @KubeState lock_reference * (string + list goerror) :=
  reserveTarget (KA := lock_reference) (RL := lock_retry) (DA := lock_devices) exReconciler exRollout exTarget
    (λ _ _ k, k) (Some exRandom) (λ _ _, inl exMembers) (λ _, authority) (λ _, None) exPolicy (5 * nsPerSecond)
    exLockServer.
Definition exReserveTarget := exReserveWith None.

(** What is stored: the devices of the reservations, and the state of the device's lock. *)
Definition exStored (s : @KubeState lock_reference) : option (list string) * option string :=
  (match Read (KA := lock_reference) (ledgerStore exReconciler exRollout) s with
   | inl (_, l) => Some ((λ r, req_DeviceUID (rsv_Request r.2)) <$> map_to_list (reservations l))
   | inr _ => None
   end,
   dtl_State <$> (devlog_object s.2 ("fleet", "sw-1") ≫= dev_TopologyLock)).

Example exReserveTarget_ok :
  exReserveTarget.2 = inl exLock ∧ exStored exReserveTarget.1 = (Some ["dev-1"], Some "Active").
Proof. vm_compute. split; reflexivity. Qed.

Example exReserveTarget_gives_up :
  (exReserveWith (Some (EPlain "paused"))).2 = inr [EPlain "paused"]
  ∧ exStored (exReserveWith (Some (EPlain "paused"))).1 = (Some [], None).
Proof. vm_compute. split; reflexivity. Qed.

(** ** Witnesses *)

(** The lock of the first device's request. *)
Definition exDeviceLock : DeviceTopologyLockStatus :=
  {| dtl_State := DeviceTopologyLockActive; dtl_PolicyEpoch := 3; dtl_AcquisitionID := exLock;
     dtl_CampaignNamespace := "fleet"; dtl_CampaignName := "campaign"; dtl_CampaignUID := "campaign";
     dtl_PlanHash := exHash; dtl_ReservationID := "rsv-1"; dtl_DeviceUID := "dev-1";
     dtl_DeviceGeneration := 4; dtl_NodeUID := "node-1"; dtl_ProjectionHash := "p1";
     dtl_AcquiredAt := 5 * nsPerSecond |}.

Definition exFreeView : lock_view := {| lv_ledger := exNew; lv_lock := None |}.
Definition exLockedView : lock_view := {| lv_ledger := exNew; lv_lock := Some exDeviceLock |}.
Definition exReservedView : lock_view := {| lv_ledger := exReserved; lv_lock := Some exDeviceLock |}.

Lemma exNew_free device r : ¬ reserves device exNew r.
Proof.
  intros [_ [id Hid]]. change (reservations exNew) with (∅ : gmap string Reservation) in Hid.
  by rewrite lookup_empty in Hid.
Qed.

Lemma exFree_fresh lockID : fresh_lock lockID [exFreeView].
Proof. intros v ->%list_elem_of_singleton [(lk & ? & _)|(id & ep & ?)]; done. Qed.

Lemma exLockHistory : lock_history "dev-1" [exReservedView; exLockedView; exFreeView].
Proof.
  apply HistoryStep; [apply HistoryStep; [apply HistoryStart|]|].
  - done.
  - apply exNew_free.
  - apply (LockAcquire "dev-1" exFreeView [] exDeviceLock); [done|done|apply exFree_fresh].
  - eapply (LockLedger "dev-1" exLockedView [exFreeView]); [exact exReserved_step| |done].
    intros policy members q [= <- <- <-] _. exists [], exLockedView, [exFreeView], exDeviceLock.
    split_and!; [done| |done|done|by vm_compute].
    intros v v' ->%list_elem_of_singleton [= <-]. done.
Qed.

Lemma reservation_keeps_lock_witness :
  ∃ lk, lv_lock exReservedView = Some lk ∧ covers lk (exRequest "1" "east").
Proof.
  apply (reservation_keeps_lock "dev-1" [exReservedView; exLockedView; exFreeView] exReservedView
           (freshReservation (exRequest "1" "east"))).
  - exact exLockHistory.
  - reflexivity.
  - split; [reflexivity|]. exists "rsv-1". vm_compute. reflexivity.
Defined.

Lemma exLockServer_traced :
  traced (KA := lock_reference) (DA := lock_devices) exRollout exTarget [exFreeView] exLockServer.
Proof.
  split; [apply HistoryStart; [done|apply exNew_free]|]. exists exFreeView. split; [done|].
  split; [exact exServer_stores|reflexivity].
Qed.

(** The reservation stands under its lock. *)
Lemma topology_lock_protocol_witness :
  stored_locked (KA := lock_reference) (DA := lock_devices) exRollout exTarget exReserveTarget.1
  ∧ exReserveTarget.2 = inl exLock.
Proof.
  split; [|vm_compute; reflexivity].
  destruct (topology_lock_protocol (RL := lock_retry) (DA := lock_devices) lock_after exReconciler
    exRollout exTarget (λ _, True) (λ _ _ k, k) [exFreeView] exLockServer) as (_ & Hreserve & _).
  - reflexivity.
  - intros n m k τ Hk. exists τ. by apply (advances_refl _).
  - exact exLockServer_traced.
  - simpl. lia.
  - destruct (Hreserve (Some exRandom) (λ _ _, inl exMembers) (λ _, None) (λ _, None) exPolicy (5 * nsPerSecond) exReserveTarget.1
      exReserveTarget.2) as (τ' & _ & Hl); [simpl; unfold maxInt64; lia| | |exact Hl].
    + intros bytes _. split; [done|apply exFree_fresh].
    + apply surjective_pairing.
Defined.
