(* ===== verification/Leaf.v ===== *)
(** * Managed upgrade leaves

    src/internal/provider/softwareupgrade/managed.go and reconciler.go: the record of one
    device's upgrade (a leaf of a campaign), and the functions of that record alone: the
    durable markers of requested device mutations, the claims that cover them, the
    compare-and-swap token, and what the worker acknowledges.  LeafClaim.v has the
    functions that read and write it on the API server. *)

From S2P Require Import Prelude GoLib GoTime Json Interfaces LedgerData AdminPolicyHash SortKeys Quarantine.

(** ** api/ops/v1alpha1 *)

(** The stages of device mutations. *)
Definition UpgradeManagedMutationStaging : string := "Staging".
Definition UpgradeManagedMutationPrimaryInstall : string := "PrimaryInstall".
Definition UpgradeManagedMutationStandbyInstall : string := "StandbyInstall".
Definition UpgradeManagedMutationStandbyActivation : string := "StandbyActivation".
Definition UpgradeManagedMutationPrimaryActivation : string := "PrimaryActivation".
Definition UpgradeManagedMutationRollbackActivation : string := "RollbackActivation".

Definition UpgradeManagerAdmissionPending : string := "Pending".
Definition UpgradeManagerAdmissionGranted : string := "Granted".
Definition UpgradeManagerAdmissionRevoked : string := "Revoked".
Definition UpgradeManagerAdmissionSettled : string := "Settled".

Definition UpgradeWorkerControlDenied : string := "Denied".
Definition UpgradeWorkerControlReady : string := "Ready".
Definition UpgradeWorkerControlPaused : string := "Paused".
Definition UpgradeWorkerControlCancelled : string := "Cancelled".
Definition UpgradeWorkerControlClaimed : string := "Claimed".
Definition UpgradeWorkerControlSettled : string := "Settled".

Definition ManagedDrainProtocolPDBV1 : string := "pdb-drain-v1".
Definition UpgradeManagerDrainPromoted : string := "Promoted".

Record UpgradeManagerAdmissionStatus := {
  adm_ProtocolVersion : string;
  adm_State : string;
  adm_CampaignUID : string;
  adm_PlanHash : string;
  adm_PolicyUID : string;
  adm_PolicyResourceVersion : string;
  adm_PolicyEpoch : Z;
  adm_RevocationReason : string;
  adm_LedgerUID : string;
  adm_ReservationID : string;
  adm_TopologyLockID : string;
  adm_LeafUID : string;
  adm_DeviceUID : string;
  adm_DeviceGeneration : Z;
  adm_PhysicalIdentity : string;
  adm_NodeUID : string;
  adm_ControlRevision : option Z;
  adm_NetworkEvidenceHash : string;
  adm_NetworkEvidenceProducerRevision : string;
  adm_NetworkEvidenceWorkerPodUID : string;
  adm_NetworkEvidenceSampleSequence : option Z;
  adm_NetworkEvidenceNotAfter : option Time;
  adm_UpdatedAt : Time;
}.

Record UpgradeManagerControlStatus := {
  ctl_Revision : Z;
  ctl_Pause : bool;
  ctl_Cancel : bool;
  ctl_UpdatedAt : Time;
  ctl_Reason : string;
}.

Record UpgradeWorkerControlStatus := {
  wc_ObservedAdmissionState : string;
  wc_ObservedPolicyEpoch : Z;
  wc_ObservedControlRevision : Z;
  wc_ObservedWorkerConfigRevision : string;
  wc_EffectiveState : string;
  wc_UpdatedAt : Time;
  wc_Message : string;
}.

(** [ObjectReference] and [PodDisruptionBudget] of a drain's evidence. *)
Record UpgradeDrainObjectReference := {
  ref_APIVersion : string;
  ref_Kind : string;
  ref_Namespace : string;
  ref_Name : string;
  ref_UID : string;
  ref_Generation : Z;
}.

Record UpgradeDrainPDBStatus := {
  pdb_Reference : UpgradeDrainObjectReference;
  pdb_ObservedGeneration : Z;
  pdb_DisruptionsAllowed : Z;
  pdb_CurrentHealthy : Z;
  pdb_DesiredHealthy : Z;
  pdb_ExpectedPods : Z;
}.

(** The fields of a drained Pod before its progress times. *)
Record UpgradeDrainPodStatus := {
  dpod_Namespace : string;
  dpod_Name : string;
  dpod_UID : string;
  dpod_EligibilityHash : string;
  dpod_PlacementHash : string;
  dpod_Controller : UpgradeDrainObjectReference;
  dpod_WorkloadController : option UpgradeDrainObjectReference;
  dpod_PDBs : list UpgradeDrainPDBStatus;
  dpod_TerminationGracePeriodSeconds : Z;
  dpod_Phase : string;
}.

(** The fields of a drain session that authorise a claim or a retirement. *)
Record UpgradeManagerDrainStatus := {
  drn_ProtocolVersion : string;
  drn_State : string;
  drn_SessionToken : string;
  drn_ReservationID : string;
  drn_PolicyEpoch : Z;
  drn_ControlRevision : Z;
  drn_NodeUID : string;
  drn_StartedAt : Time;
  drn_RecoveryDeadline : option Time;
  drn_UpdatedAt : Time;
  drn_Pods : list UpgradeDrainPodStatus;
}.

Record UpgradeManagedMutationClaimStatus := {
  clm_Stage : string;
  clm_ReservationID : string;
  clm_PolicyEpoch : Z;
  clm_ControlRevision : Z;
  clm_ClaimedAt : Time;
}.

(** The receipt of a preparation: what was installed where, under which authority. *)
Record UpgradePreparedReceiptStatus := {
  rcp_ProtocolVersion : string;
  rcp_UpgradeUID : string;
  rcp_DeviceUID : string;
  rcp_NodeUID : string;
  rcp_PhysicalIdentity : string;
  rcp_DeviceGeneration : Z;
  rcp_CampaignUID : string;
  rcp_PlanHash : string;
  rcp_ManagedProtocolVersion : string;
  rcp_PolicyUID : string;
  rcp_PolicyResourceVersion : string;
  rcp_PolicyEpoch : Z;
  rcp_WorkerRevision : string;
  rcp_SourceDigest : string;
  rcp_SourceSize : Z;
  rcp_SourceIdentityHash : string;
  rcp_SourceSecretUID : string;
  rcp_TrustIdentityHash : string;
  rcp_ContentBinding : string;
  rcp_TargetVersion : string;
  rcp_ValidatedVersion : string;
  rcp_RunningVersion : string;
  rcp_IndividualSupervisorInstall : bool;
  rcp_PrimarySupervisorInstalled : bool;
  rcp_StandbySupervisorInstalled : bool;
  rcp_StandbySupervisorID : string;
  rcp_StandbyRunningVersion : string;
  rcp_InstallStartedAt : Time;
  rcp_StagingOperationID : string;
  rcp_ManagedMutationClaims : list UpgradeManagedMutationClaimStatus;
  rcp_PreparedAt : Time;
  rcp_ReceiptHash : string;
}.

(** The manager's request to retire a receipt, and the worker's proof. *)
Record UpgradePreparedInvalidationRequest := {
  inv_ReceiptHash : string;
  inv_PlanHash : string;
  inv_CampaignUID : string;
  inv_ControlRevision : Z;
  inv_RequestedBy : string;
  inv_RequestedAt : Time;
  inv_Reason : string;
}.

Record UpgradePreparedInvalidationStatus := {
  ivd_RequestHash : string;
  ivd_NativeEvidenceHash : string;
  ivd_ObservedAt : Time;
  ivd_WorkerRevision : string;
  ivd_WorkerPodUID : string;
  ivd_RunningVersion : string;
  ivd_TargetState : string;
}.

#[export] Instance UpgradeManagerAdmissionStatus_eq_dec : EqDecision UpgradeManagerAdmissionStatus.
Proof. solve_decision. Defined.
#[export] Instance UpgradeManagerControlStatus_eq_dec : EqDecision UpgradeManagerControlStatus.
Proof. solve_decision. Defined.
#[export] Instance UpgradeWorkerControlStatus_eq_dec : EqDecision UpgradeWorkerControlStatus.
Proof. solve_decision. Defined.
#[export] Instance UpgradeManagedMutationClaimStatus_eq_dec : EqDecision UpgradeManagedMutationClaimStatus.
Proof. solve_decision. Defined.

#[export] Instance UpgradePreparedReceiptStatus_eq_dec : EqDecision UpgradePreparedReceiptStatus.
Proof. solve_decision. Defined.
#[export] Instance UpgradePreparedInvalidationRequest_eq_dec : EqDecision UpgradePreparedInvalidationRequest.
Proof. solve_decision. Defined.
#[export] Instance UpgradePreparedInvalidationStatus_eq_dec : EqDecision UpgradePreparedInvalidationStatus.
Proof. solve_decision. Defined.

(** The fields of the spec; [spec_Preinstalled] tells that the pointer is set,
    [spec_URLSecretRef] is the name of the Secret. *)
Record UpgradeSpec := {
  spec_Strategy : string;
  spec_TargetVersion : string;
  spec_Preinstalled : bool;
  spec_RequireNetworkEvidence : bool;
  spec_MaxTransferBytesPerSecond : Z;
  spec_URL : string;
  spec_URLSecretRef : option string;
}.

(** The fields of the status that Quarantine.v does not have. *)
Record ManagedStatus := {
  ms_ManagerAdmission : option UpgradeManagerAdmissionStatus;
  ms_ManagerControl : option UpgradeManagerControlStatus;
  ms_WorkerControl : option UpgradeWorkerControlStatus;
  ms_ManagerDrain : option UpgradeManagerDrainStatus;
  ms_ManagedMutationClaims : list UpgradeManagedMutationClaimStatus;
  ms_ManagerInvalidation : option UpgradePreparedInvalidationRequest;
  ms_PreparedInvalidation : option UpgradePreparedInvalidationStatus;
  ms_PreparedReceipt : option UpgradePreparedReceiptStatus;
  ms_SourceDigest : string;
  ms_SourceSize : Z;
  ms_StagingOperationID : string;
  ms_RunningVersion : string;
  ms_PreviousVersion : string;
  ms_ValidatedVersion : string;
  ms_IndividualSupervisorInstall : bool;
  ms_ActivationControlStartTime : option Time;
  ms_ObservedGeneration : Z;
  ms_Message : string;
}.

(** An IOSXESoftwareUpgrade: the upgrade of Quarantine.v with what the managed protocol
    reads of it. *)
Record Leaf := {
  leaf_Upgrade : IOSXESoftwareUpgrade;
  leaf_Managed : ManagedStatus;
  leaf_Spec : UpgradeSpec;
  leaf_Annotations : gmap string string;
  leaf_Generation : Z;
  leaf_Deleting : bool;       (* DeletionTimestamp is set *)
  leaf_ResourceVersion : string;
}.

Definition leaf_UID (l : Leaf) : string := up_UID (leaf_Upgrade l).
Definition leaf_Status (l : Leaf) : IOSXESoftwareUpgradeStatus := up_Status (leaf_Upgrade l).
Definition leaf_Phase (l : Leaf) : string := us_Phase (leaf_Status l).
Definition leaf_key (l : Leaf) : string * string := (up_Namespace (leaf_Upgrade l), up_Name (leaf_Upgrade l)).

(** ** Phases and markers *)

Definition terminalFailurePhases : list string :=
  ["Failed"; "PreflightFailed"; "ValidationFailed"; "RolledBack"; "RebootTimeout"; "Cancelled"].

Definition isTerminalFailurePhase (phase : string) : bool := bool_decide (phase ∈ terminalFailurePhases).

Definition terminalUpgradePhase (phase : string) : bool :=
  (phase == "Succeeded") || (phase == "Prepared") || (phase == "PreparedInvalidated")
  || (phase == "StagedForNextBoot") || isTerminalFailurePhase phase.

Definition hasCondition (l : Leaf) (type : string) (reasons : list string) : bool :=
  existsb (λ c, (cond_Type c == type) && bool_decide (cond_Reason c ∈ reasons)) (us_Conditions (leaf_Status l)).

Definition stagingRequestSubmitted (l : Leaf) : bool :=
  us_StagingRequested (leaf_Status l) || hasCondition l "Staged" ["StagingRequested"].

Definition primaryActivationRequestSubmitted (l : Leaf) : bool :=
  us_PrimarySupervisorActivationRequested (leaf_Status l) || hasCondition l "Activated" ["ActivationRequested"].

Definition rollbackRequestSubmitted (l : Leaf) : bool :=
  us_RollbackActivationRequested (leaf_Status l)
  || hasCondition l "Rollback" ["RollbackRequested"; "RollbackDispatched"].

Definition installAttemptRequested (l : Leaf) (standby : bool) : bool :=
  if standby then us_StandbySupervisorInstallRequested (leaf_Status l)
  else us_PrimarySupervisorInstallRequested (leaf_Status l).

(** The entries of Go's map, in the order they are written. *)
Definition managedMutationMarkers (l : Leaf) : list (string * bool) :=
  [(UpgradeManagedMutationStaging, stagingRequestSubmitted l);
   (UpgradeManagedMutationPrimaryInstall, us_PrimarySupervisorInstallRequested (leaf_Status l));
   (UpgradeManagedMutationStandbyInstall, us_StandbySupervisorInstallRequested (leaf_Status l));
   (UpgradeManagedMutationStandbyActivation, us_StandbySupervisorActivationRequested (leaf_Status l));
   (UpgradeManagedMutationPrimaryActivation, primaryActivationRequestSubmitted l);
   (UpgradeManagedMutationRollbackActivation, rollbackRequestSubmitted l)].

Definition knownManagedMutationStage (stage : string) : bool :=
  bool_decide (stage ∈ [UpgradeManagedMutationStaging; UpgradeManagedMutationPrimaryInstall;
    UpgradeManagedMutationStandbyInstall; UpgradeManagedMutationStandbyActivation;
    UpgradeManagedMutationPrimaryActivation; UpgradeManagedMutationRollbackActivation]).

Definition managedMutationNeedsObservation (l : Leaf) : bool :=
  let st := leaf_Status l in
  let phase := us_Phase st in
  return_if (terminalUpgradePhase phase) false ;;
  return_if (bool_decide (phase ∈ ["Staging"; "Validating"])) (stagingRequestSubmitted l) ;;
  return_if (bool_decide (phase ∈ ["Transferring"; "TransferInterrupted"]))
    ((us_PrimarySupervisorInstallRequested st && negb (us_PrimarySupervisorInstalled st))
     || (us_StandbySupervisorInstallRequested st && negb (us_StandbySupervisorInstalled st))) ;;
  return_if (bool_decide (phase ∈ ["Activating"; "AwaitingReachability"; "Verifying"]))
    ((us_StandbySupervisorActivationRequested st && negb (us_StandbySupervisorActivated st))
     || primaryActivationRequestSubmitted l) ;;
  return_if (phase == "RollingBack") (rollbackRequestSubmitted l) ;;
  false.

(** ** internal/managedprotocol *)

Definition managedprotocol_Version : string := "rollout-v1".
Definition AnnotationManaged : string := "topology.cisco.vk/managed".
Definition AnnotationDeviceNamespace : string := "topology.cisco.vk/device-namespace".
Definition AnnotationDeviceName : string := "topology.cisco.vk/device-name".
Definition AnnotationDeviceUID : string := "topology.cisco.vk/device-uid".
Definition AnnotationDeviceGeneration : string := "topology.cisco.vk/device-generation".
Definition AnnotationNodeName : string := "topology.cisco.vk/node-name".
Definition AnnotationNodeUID : string := "topology.cisco.vk/node-uid".
Definition AnnotationWorkerUsername : string := "topology.cisco.vk/worker-username".
Definition AnnotationAppWorkerPodName : string := "topology.cisco.vk/app-worker-pod-name".
Definition AnnotationAppWorkerPodUID : string := "topology.cisco.vk/app-worker-pod-uid".
Definition AnnotationNetworkWorkerUsername : string := "topology.cisco.vk/network-worker-username".
Definition AnnotationNetworkWorkerPodName : string := "topology.cisco.vk/network-worker-pod-name".
Definition AnnotationNetworkWorkerPodUID : string := "topology.cisco.vk/network-worker-pod-uid".
Definition AnnotationWorkerProtocol : string := "topology.cisco.vk/worker-protocol".
Definition AnnotationWorkerObservedRevision : string := "topology.cisco.vk/worker-observed-revision".
Definition AnnotationCampaignUID : string := "topology.cisco.vk/campaign-uid".
Definition AnnotationPlanHash : string := "topology.cisco.vk/plan-hash".
Definition AnnotationLedgerUID : string := "topology.cisco.vk/ledger-uid".
Definition AnnotationReservationID : string := "topology.cisco.vk/reservation-id".
Definition AnnotationSourceSecretUID : string := "topology.cisco.vk/source-secret-uid".

Definition leafManaged (l : Leaf) : bool := mget (leaf_Annotations l) AnnotationManaged == "true".

Definition requireAnnotation (annotations : gmap string string) (key expected : string) : option goerror :=
  match annotations !! key with
  | Some actual =>
      return_if (actual != expected) (Some (EPlain "annotation has another value")) ;;
      None
  | None => Some (EPlain "annotation is missing")
  end.

(** ** The protocol version of a leaf *)

Definition ManagedUpgradeProtocolRolloutV1 : string := "rollout-v1".
Definition ManagedUpgradeProtocolRolloutBytePacingV1 : string := "rollout-byte-pacing-v1".
Definition ManagedUpgradeProtocolStagedActivationV1 : string := "rollout-staged-activation-v1".
Definition ManagedUpgradeProtocolNetworkEvidenceV1 : string := "rollout-network-evidence-v1".

Definition ExpectedManagedUpgradeProtocol (maxTransferBytesPerSecond : Z) : string :=
  if 0 <? maxTransferBytesPerSecond then ManagedUpgradeProtocolRolloutBytePacingV1
  else ManagedUpgradeProtocolRolloutV1.

Definition RequiredManagedUpgradeProtocol (spec : UpgradeSpec) : string :=
  return_if ((spec_Strategy spec == "PrepareOnly") || spec_Preinstalled spec)
    ManagedUpgradeProtocolStagedActivationV1 ;;
  return_if (spec_RequireNetworkEvidence spec) ManagedUpgradeProtocolNetworkEvidenceV1 ;;
  ExpectedManagedUpgradeProtocol (spec_MaxTransferBytesPerSecond spec).

Definition ManagedUpgradeProtocolMatches (l : Leaf) : bool :=
  match ms_ManagerAdmission (leaf_Managed l) with
  | None => false
  | Some admission =>
      let required := RequiredManagedUpgradeProtocol (leaf_Spec l) in
      return_if (adm_ProtocolVersion admission == required) true ;;
      (required == ManagedUpgradeProtocolStagedActivationV1)
      && (adm_ProtocolVersion admission
            == ExpectedManagedUpgradeProtocol (spec_MaxTransferBytesPerSecond (leaf_Spec l)))
      && (adm_State admission == UpgradeManagerAdmissionSettled)
      && match ms_WorkerControl (leaf_Managed l) with
         | None => false
         | Some worker => wc_EffectiveState worker == UpgradeWorkerControlSettled
         end
      && bool_decide (leaf_Phase l ∈ ["Prepared"; "PreparedInvalidated"; "Succeeded"])
  end.

(** ** Claims *)

(** The error of the first claim of the list that is not one of the admission; [seen]
    are the stages of the claims before it. *)
Fixpoint validateClaims (admission : UpgradeManagerAdmissionStatus) (currentRevision : Z)
    (seen : list string) (claims : list UpgradeManagedMutationClaimStatus) : option goerror :=
  match claims with
  | [] => None
  | claim :: claims =>
      return_if (bool_decide (clm_Stage claim ∈ seen))
        (Some (EPlain "duplicate managed mutation claim")) ;;
      return_if (negb (knownManagedMutationStage (clm_Stage claim)))
        (Some (EPlain "unknown managed mutation claim stage")) ;;
      return_if (clm_ReservationID claim != adm_ReservationID admission)
        (Some (EPlain "managed claim reservation does not match admission")) ;;
      return_if ((clm_PolicyEpoch claim <? 1) || negb (clm_PolicyEpoch claim =? adm_PolicyEpoch admission))
        (Some (EPlain "managed claim policy epoch does not match admission epoch")) ;;
      return_if ((clm_ControlRevision claim <? 0) || (currentRevision <? clm_ControlRevision claim))
        (Some (EPlain "managed claim revision is outside current manager revision")) ;;
      return_if (clm_ClaimedAt claim =? 0)
        (Some (EPlain "managed claim has no durable claim timestamp")) ;;
      validateClaims admission currentRevision (clm_Stage claim :: seen) claims
  end.

Definition hasClaim (l : Leaf) (stage : string) : bool :=
  bool_decide (stage ∈ (clm_Stage <$> ms_ManagedMutationClaims (leaf_Managed l))).

Definition validateManagedClaimCoverage (l : Leaf) (currentRevision : Z) : option goerror :=
  match ms_ManagerAdmission (leaf_Managed l) with
  | None => Some (EPlain "managed mutation claims have no manager admission")
  | Some admission =>
      propagate (validateClaims admission currentRevision [] (ms_ManagedMutationClaims (leaf_Managed l))) ;;
      first_error (λ marker, if eqb marker.2 (hasClaim l marker.1) then None
                             else Some (EPlain "managed durable marker/claim mismatch"))
        (managedMutationMarkers l)
  end.

(** [up.Status.ManagedMutationClaims = claims] and the other assignments to the managed
    part of the status. *)
Definition withManaged (l : Leaf) (m : ManagedStatus) : Leaf :=
  {| leaf_Upgrade := leaf_Upgrade l; leaf_Managed := m; leaf_Spec := leaf_Spec l;
     leaf_Annotations := leaf_Annotations l; leaf_Generation := leaf_Generation l;
     leaf_Deleting := leaf_Deleting l; leaf_ResourceVersion := leaf_ResourceVersion l |}.

Definition managedWith (m : ManagedStatus) (worker : option UpgradeWorkerControlStatus)
    (claims : list UpgradeManagedMutationClaimStatus) (validatedVersion : string)
    (observedGeneration : Z) (message : string) : ManagedStatus :=
  {| ms_ManagerAdmission := ms_ManagerAdmission m; ms_ManagerControl := ms_ManagerControl m;
     ms_WorkerControl := worker; ms_ManagerDrain := ms_ManagerDrain m;
     ms_ManagedMutationClaims := claims; ms_ManagerInvalidation := ms_ManagerInvalidation m;
     ms_PreparedInvalidation := ms_PreparedInvalidation m; ms_PreparedReceipt := ms_PreparedReceipt m;
     ms_SourceDigest := ms_SourceDigest m; ms_SourceSize := ms_SourceSize m;
     ms_StagingOperationID := ms_StagingOperationID m; ms_RunningVersion := ms_RunningVersion m;
     ms_PreviousVersion := ms_PreviousVersion m;
     ms_ValidatedVersion := validatedVersion;
     ms_IndividualSupervisorInstall := ms_IndividualSupervisorInstall m;
     ms_ActivationControlStartTime := ms_ActivationControlStartTime m;
     ms_ObservedGeneration := observedGeneration; ms_Message := message |}.

Definition withClaims (l : Leaf) (claims : list UpgradeManagedMutationClaimStatus) : Leaf :=
  let m := leaf_Managed l in
  withManaged l (managedWith m (ms_WorkerControl m) claims (ms_ValidatedVersion m)
                   (ms_ObservedGeneration m) (ms_Message m)).

Definition withWorkerControl (l : Leaf) (worker : option UpgradeWorkerControlStatus) : Leaf :=
  let m := leaf_Managed l in
  withManaged l (managedWith m worker (ms_ManagedMutationClaims m) (ms_ValidatedVersion m)
                   (ms_ObservedGeneration m) (ms_Message m)).

Definition addManagedMutationClaim (l : Leaf) (stage : string) (policyEpoch revision : Z) (now : Time)
  : Leaf + goerror :=
  match ms_ManagerAdmission (leaf_Managed l) with
  | None => inr (EPlain "managed claim has no admitted reservation")
  | Some admission =>
      return_if (TrimSpace (adm_ReservationID admission) == "")
        (inr (EPlain "managed claim has no admitted reservation")) ;;
      return_if (hasClaim l stage)
        (inr (EPlain "managed claim already exists without its durable mutation marker")) ;;
      inl (withClaims l
        (sort_by_keys (λ claim, [clm_Stage claim])
           (ms_ManagedMutationClaims (leaf_Managed l)
            ++ [{| clm_Stage := stage; clm_ReservationID := adm_ReservationID admission;
                   clm_PolicyEpoch := policyEpoch; clm_ControlRevision := revision;
                   clm_ClaimedAt := now |}])))
  end.

(** ** The compare-and-swap token *)

Definition casAnnotations : list string :=
  [AnnotationManaged; AnnotationDeviceNamespace; AnnotationDeviceName; AnnotationDeviceUID;
   AnnotationDeviceGeneration; AnnotationNodeName; AnnotationNodeUID; AnnotationWorkerUsername;
   AnnotationWorkerProtocol; AnnotationCampaignUID; AnnotationPlanHash; AnnotationLedgerUID;
   AnnotationReservationID; AnnotationSourceSecretUID].

Definition managedStatusCASMatches (expected current : Leaf) : bool :=
  return_if (leaf_UID expected != leaf_UID current) false ;;
  return_if (existsb (λ key, mget (leaf_Annotations expected) key != mget (leaf_Annotations current) key)
               casAnnotations) false ;;
  let e := leaf_Managed expected in
  let c := leaf_Managed current in
  (ms_ManagerAdmission e == ms_ManagerAdmission c) && (ms_ManagerControl e == ms_ManagerControl c)
  && (ms_WorkerControl e == ms_WorkerControl c)
  && (ms_ManagedMutationClaims e == ms_ManagedMutationClaims c).

Definition upgradeStatusCASMatches (expected current : Leaf) : bool :=
  return_if (negb (leaf_Generation expected =? leaf_Generation current)
             || (leaf_Phase expected != leaf_Phase current)
             || (us_ExecutionModel (leaf_Status expected) != us_ExecutionModel (leaf_Status current))
             || negb (managedStatusCASMatches expected current)) false ;;
  let e := leaf_Status expected in
  let c := leaf_Status current in
  let me := leaf_Managed expected in
  let mc := leaf_Managed current in
  (ms_SourceDigest me == ms_SourceDigest mc) && (ms_SourceSize me =? ms_SourceSize mc)
  && (ms_PreparedReceipt me == ms_PreparedReceipt mc)
  && (ms_ManagerInvalidation me == ms_ManagerInvalidation mc)
  && (ms_PreparedInvalidation me == ms_PreparedInvalidation mc)
  && (ms_StagingOperationID me == ms_StagingOperationID mc)
  && eqb (us_StagingRequested e) (us_StagingRequested c)
  && (ms_PreviousVersion me == ms_PreviousVersion mc)
  && (ms_ValidatedVersion me == ms_ValidatedVersion mc)
  && eqb (ms_IndividualSupervisorInstall me) (ms_IndividualSupervisorInstall mc)
  && eqb (us_PrimarySupervisorInstalled e) (us_PrimarySupervisorInstalled c)
  && eqb (us_PrimarySupervisorInstallRequested e) (us_PrimarySupervisorInstallRequested c)
  && eqb (us_StandbySupervisorInstalled e) (us_StandbySupervisorInstalled c)
  && eqb (us_StandbySupervisorInstallRequested e) (us_StandbySupervisorInstallRequested c)
  && eqb (us_PrimarySupervisorActivationRequested e) (us_PrimarySupervisorActivationRequested c)
  && eqb (us_StandbySupervisorActivationRequested e) (us_StandbySupervisorActivationRequested c)
  && eqb (us_StandbySupervisorActivated e) (us_StandbySupervisorActivated c)
  && eqb (us_RollbackActivationRequested e) (us_RollbackActivationRequested c)
  && eqb (us_NoRebootActivationAccepted e) (us_NoRebootActivationAccepted c)
  && eqb (bool_decide (us_InstallStartTime e = None)) (bool_decide (us_InstallStartTime c = None))
  && eqb (bool_decide (ms_ActivationControlStartTime me = None))
         (bool_decide (ms_ActivationControlStartTime mc = None)).

(** ** What the worker acknowledges *)

Record managedLeafDecision := {
  dec_applies : bool;
  dec_bindingDenied : bool;
  dec_allowProgress : bool;
  dec_allowClaim : bool;
  dec_admissionState : string;
  dec_policyEpoch : Z;
  dec_controlRevision : Z;
  dec_workerRevision : string;
  dec_effectiveState : string;
  dec_reason : string;
  dec_message : string;
}.

(** [managedLeafDecision{allowProgress: true, allowClaim: true}]. *)
Definition standaloneDecision : managedLeafDecision :=
  {| dec_applies := false; dec_bindingDenied := false; dec_allowProgress := true; dec_allowClaim := true;
     dec_admissionState := ""; dec_policyEpoch := 0; dec_controlRevision := 0; dec_workerRevision := "";
     dec_effectiveState := ""; dec_reason := ""; dec_message := "" |}.

(** The assignments to the last fields of a decision. *)
Definition decide_as (d : managedLeafDecision) (progress claim : bool) (state reason message : string)
  : managedLeafDecision :=
  {| dec_applies := dec_applies d; dec_bindingDenied := dec_bindingDenied d; dec_allowProgress := progress;
     dec_allowClaim := claim; dec_admissionState := dec_admissionState d;
     dec_policyEpoch := dec_policyEpoch d; dec_controlRevision := dec_controlRevision d;
     dec_workerRevision := dec_workerRevision d; dec_effectiveState := state; dec_reason := reason;
     dec_message := message |}.

Definition safeAdmissionState (admission : option UpgradeManagerAdmissionStatus) : string :=
  match admission with
  | None => UpgradeManagerAdmissionPending
  | Some admission =>
      return_if (bool_decide (adm_State admission
                   ∈ [UpgradeManagerAdmissionPending; UpgradeManagerAdmissionGranted;
                      UpgradeManagerAdmissionRevoked; UpgradeManagerAdmissionSettled]))
        (adm_State admission) ;;
      UpgradeManagerAdmissionPending
  end.

(** [[]rune(message)], each rune as its UTF-8 encoding; every round consumes a byte. *)
Fixpoint runes (fuel : nat) (l : list Ascii.ascii) : list (list Ascii.ascii) :=
  match fuel, l with
  | S fuel, c :: l' =>
      if byte_val c <? 128 then [c] :: runes fuel l'
      else match rune_size l with
           | Some n => take n l :: runes fuel (drop n l)
           | None => rune_bytes runeError :: runes fuel l'
           end
  | _, _ => []
  end.

Definition boundedWorkerMessage (message : string) : string :=
  let rs := runes (String.length message) (bytes_of message) in
  return_if (llen rs <=? 256) message ;;
  of_bytes (concat (take 256 rs)).

Definition workerControlForDecision (l : Leaf) (decision : managedLeafDecision) (now : Time)
  : UpgradeWorkerControlStatus :=
  let desired := {| wc_ObservedAdmissionState := dec_admissionState decision;
                    wc_ObservedPolicyEpoch := dec_policyEpoch decision;
                    wc_ObservedControlRevision := dec_controlRevision decision;
                    wc_ObservedWorkerConfigRevision := dec_workerRevision decision;
                    wc_EffectiveState := dec_effectiveState decision; wc_UpdatedAt := now;
                    wc_Message := boundedWorkerMessage (dec_message decision) |} in
  match ms_WorkerControl (leaf_Managed l) with
  | None => desired
  | Some existing =>
      return_if ((wc_ObservedAdmissionState existing == wc_ObservedAdmissionState desired)
                 && (wc_ObservedPolicyEpoch existing =? wc_ObservedPolicyEpoch desired)
                 && (wc_ObservedControlRevision existing =? wc_ObservedControlRevision desired)
                 && (wc_ObservedWorkerConfigRevision existing == wc_ObservedWorkerConfigRevision desired)
                 && (wc_EffectiveState existing == wc_EffectiveState desired)
                 && (wc_Message existing == wc_Message desired))
        existing ;;
      desired
  end.

(** The leaf, and whether it changed. *)
Definition applyWorkerControlDecision (l : Leaf) (decision : managedLeafDecision) (now : Time) : Leaf * bool :=
  let desired := workerControlForDecision l decision now in
  return_if (ms_WorkerControl (leaf_Managed l) == Some desired) (l, false) ;;
  (withWorkerControl l (Some desired), true).

(** A cancellation that the worker has acknowledged, before anything was claimed or
    submitted. *)
Definition managedCancellationCanReleaseMutationLease (l : Leaf) (decision : managedLeafDecision) : bool :=
  return_if (negb (dec_applies decision) || dec_allowProgress decision
             || (dec_effectiveState decision != UpgradeWorkerControlCancelled)
             || negb (llen (ms_ManagedMutationClaims (leaf_Managed l)) =? 0)
             || UpgradeMutationSubmitted (Some (leaf_Upgrade l))) false ;;
  match ms_ManagerAdmission (leaf_Managed l), ms_ManagerControl (leaf_Managed l),
        ms_WorkerControl (leaf_Managed l) with
  | Some admission, Some control, Some worker =>
      ctl_Cancel control && (dec_admissionState decision == adm_State admission)
      && (dec_policyEpoch decision =? adm_PolicyEpoch admission)
      && (dec_controlRevision decision =? ctl_Revision control)
      && (wc_ObservedAdmissionState worker == adm_State admission)
      && (wc_ObservedPolicyEpoch worker =? adm_PolicyEpoch admission)
      && (wc_ObservedControlRevision worker =? ctl_Revision control)
      && (wc_ObservedWorkerConfigRevision worker == dec_workerRevision decision)
      && (wc_EffectiveState worker == UpgradeWorkerControlCancelled)
  | _, _, _ => false
  end.

(** ** k8s.io/apimachinery's conditions *)

Class ConditionLib := {
  SetStatusCondition : list Condition → Condition → list Condition;
  IsStatusConditionTrue : list Condition → string → bool;
}.

(** Setting a condition changes those of its type at most, and none of them to anything
    but the new status and reason. *)
Class ConditionLibSpec (CL : ConditionLib) : Prop := {
  set_condition_kept cs c c' :
    c' ∈ cs → cond_Type c' ≠ cond_Type c → c' ∈ SetStatusCondition cs c;
  set_condition_found cs c :
    ∃ c', c' ∈ SetStatusCondition cs c ∧ cond_Type c' = cond_Type c ∧ cond_Reason c' = cond_Reason c;
  set_condition_only cs c c' :
    c' ∈ SetStatusCondition cs c →
    c' ∈ cs ∨ (cond_Type c' = cond_Type c ∧ cond_Reason c' = cond_Reason c);
}.

Section conditions.
Context `{ConditionLib}.

Definition setCondition (generation : Z) (cs : list Condition) (type status reason message : string) (now : Time)
  : list Condition :=
  SetStatusCondition cs {| cond_Type := type; cond_Status := status; cond_Reason := reason;
    cond_Message := message; cond_LastTransitionTime := now; cond_ObservedGeneration := generation |}.

Definition readyReason (cs : list Condition) : string :=
  match filter (λ c, cond_Type c = "Ready") cs with
  | c :: _ => cond_Reason c
  | [] => ""
  end.

Definition managedTerminalMutationSettled (l : Leaf) : bool :=
  terminalUpgradePhase (leaf_Phase l)
  && ((llen (ms_ManagedMutationClaims (leaf_Managed l)) =? 0)
      || IsStatusConditionTrue (us_Conditions (leaf_Status l)) "DeviceMutationSettled").
End conditions.
