(* ===== verification/LeafClaim.v ===== *)
(** * Claiming a device mutation

    src/internal/provider/softwareupgrade/managed.go and the claim functions of
    reconciler.go: before a worker asks a device for a mutation it records the request in
    the leaf, in one compare-and-swap with the proof that the manager's grant still holds.

    The functions run in a small state monad: the state is the API server's and the number
    of calls made; [env n] is what all others do on the server before call [n]. *)

From S2P Require Import Prelude GoLib GoTime Json Interfaces LedgerData Store AdminPolicyHash SortKeys Identity.
From S2P Require Import Quarantine TopologyLock Leaf.

(** ** Objects the binding is checked against *)

(** Status.WorkerRevision and Status.NetworkWorkerRevision; [wr_ReadyTime] is
    ReadyHeartbeatTime in the first and PodReadyTime in the second. *)
Record WorkerRevision := {
  wr_DesiredRevision : string;
  wr_ObservedRevision : string;
  wr_PodUID : string;
  wr_PodStartTime : option Time;
  wr_ReadyTime : option Time;
}.

(** Status.HealthObservation.AcceptedNetwork; [an_JSON] is its encoding. *)
Record AcceptedNetwork := {
  an_ProducerRevision : string;
  an_WorkerPodUID : string;
  an_SampleSequence : Z;
  an_JSON : string;
}.

(** The fields of a CiscoDevice that bind a worker.  The Secret names are those of
    Spec.CredentialSecretRef, Spec.GNOI.TLS.SecretRef, Spec.XE.GNOI.CertificateProvisioning
    and Spec.TLS.CASecretRef, [None] when a pointer on the way is nil. *)
Record BoundDevice := {
  bd_Namespace : string;
  bd_UID : string;
  bd_Generation : Z;
  bd_Driver : string;
  bd_PhysicalIdentity : string;
  bd_CredentialSecret : option string;
  bd_GNOITLSSecret : option string;
  bd_GNOIProvisioningSecret : option string;
  bd_TLSCASecret : option string;
  bd_NodeIdentity : option (DeviceNodeIdentityStatus * string);  (* with its PhysicalIdentity *)
  bd_WorkerRevision : option WorkerRevision;
  bd_NetworkWorkerRevision : option WorkerRevision;
  bd_AcceptedNetwork : option AcceptedNetwork;
}.

Record BoundNode := {
  bn_UID : string;
  bn_MachineID : string;
  bn_SystemUUID : string;
  bn_Annotations : gmap string string;
}.

Record Secret := { sec_UID : string; sec_ResourceVersion : string; sec_Data : gmap string string }.

Record Pod := { pod_NodeName : string; pod_Deleting : bool; pod_Phase : string }.

(** ** The API server's leaves *)

(** metav1.Time is stored to the second. *)
Definition stored_time (t : Time) : Time := t / nsPerSecond * nsPerSecond.

Definition stored_condition (c : Condition) : Condition :=
  {| cond_Type := cond_Type c; cond_Status := cond_Status c; cond_Reason := cond_Reason c;
     cond_Message := cond_Message c; cond_LastTransitionTime := stored_time (cond_LastTransitionTime c);
     cond_ObservedGeneration := cond_ObservedGeneration c |}.

Definition stored_claim (c : UpgradeManagedMutationClaimStatus) : UpgradeManagedMutationClaimStatus :=
  {| clm_Stage := clm_Stage c; clm_ReservationID := clm_ReservationID c; clm_PolicyEpoch := clm_PolicyEpoch c;
     clm_ControlRevision := clm_ControlRevision c; clm_ClaimedAt := stored_time (clm_ClaimedAt c) |}.

Definition stored_worker (w : UpgradeWorkerControlStatus) : UpgradeWorkerControlStatus :=
  {| wc_ObservedAdmissionState := wc_ObservedAdmissionState w;
     wc_ObservedPolicyEpoch := wc_ObservedPolicyEpoch w;
     wc_ObservedControlRevision := wc_ObservedControlRevision w;
     wc_ObservedWorkerConfigRevision := wc_ObservedWorkerConfigRevision w;
     wc_EffectiveState := wc_EffectiveState w; wc_UpdatedAt := stored_time (wc_UpdatedAt w);
     wc_Message := wc_Message w |}.

Definition stored_status (st : IOSXESoftwareUpgradeStatus) : IOSXESoftwareUpgradeStatus :=
  {| us_Phase := us_Phase st; us_ExecutionModel := us_ExecutionModel st; us_FailureReason := us_FailureReason st;
     us_StartTime := stored_time <$> us_StartTime st;
     us_InstallStartTime := stored_time <$> us_InstallStartTime st;
     us_ActivationStartTime := stored_time <$> us_ActivationStartTime st;
     us_RollbackStartTime := stored_time <$> us_RollbackStartTime st;
     us_CompletionTime := stored_time <$> us_CompletionTime st;
     us_TransferProgress := us_TransferProgress st; us_StagingRequested := us_StagingRequested st;
     us_PrimarySupervisorInstallRequested := us_PrimarySupervisorInstallRequested st;
     us_PrimarySupervisorInstalled := us_PrimarySupervisorInstalled st;
     us_StandbySupervisorInstallRequested := us_StandbySupervisorInstallRequested st;
     us_StandbySupervisorInstalled := us_StandbySupervisorInstalled st;
     us_StandbySupervisorActivationRequested := us_StandbySupervisorActivationRequested st;
     us_StandbySupervisorActivated := us_StandbySupervisorActivated st;
     us_PrimarySupervisorActivationRequested := us_PrimarySupervisorActivationRequested st;
     us_NoRebootActivationAccepted := us_NoRebootActivationAccepted st;
     us_RollbackActivationRequested := us_RollbackActivationRequested st;
     us_Conditions := stored_condition <$> us_Conditions st |}.

Definition stored_receipt (r : UpgradePreparedReceiptStatus) : UpgradePreparedReceiptStatus :=
  {| rcp_ProtocolVersion := rcp_ProtocolVersion r; rcp_UpgradeUID := rcp_UpgradeUID r;
     rcp_DeviceUID := rcp_DeviceUID r; rcp_NodeUID := rcp_NodeUID r; rcp_PhysicalIdentity := rcp_PhysicalIdentity r;
     rcp_DeviceGeneration := rcp_DeviceGeneration r; rcp_CampaignUID := rcp_CampaignUID r;
     rcp_PlanHash := rcp_PlanHash r; rcp_ManagedProtocolVersion := rcp_ManagedProtocolVersion r;
     rcp_PolicyUID := rcp_PolicyUID r; rcp_PolicyResourceVersion := rcp_PolicyResourceVersion r;
     rcp_PolicyEpoch := rcp_PolicyEpoch r; rcp_WorkerRevision := rcp_WorkerRevision r;
     rcp_SourceDigest := rcp_SourceDigest r; rcp_SourceSize := rcp_SourceSize r;
     rcp_SourceIdentityHash := rcp_SourceIdentityHash r; rcp_SourceSecretUID := rcp_SourceSecretUID r;
     rcp_TrustIdentityHash := rcp_TrustIdentityHash r; rcp_ContentBinding := rcp_ContentBinding r;
     rcp_TargetVersion := rcp_TargetVersion r; rcp_ValidatedVersion := rcp_ValidatedVersion r;
     rcp_RunningVersion := rcp_RunningVersion r;
     rcp_IndividualSupervisorInstall := rcp_IndividualSupervisorInstall r;
     rcp_PrimarySupervisorInstalled := rcp_PrimarySupervisorInstalled r;
     rcp_StandbySupervisorInstalled := rcp_StandbySupervisorInstalled r;
     rcp_StandbySupervisorID := rcp_StandbySupervisorID r; rcp_StandbyRunningVersion := rcp_StandbyRunningVersion r;
     rcp_InstallStartedAt := stored_time (rcp_InstallStartedAt r); rcp_StagingOperationID := rcp_StagingOperationID r;
     rcp_ManagedMutationClaims := stored_claim <$> rcp_ManagedMutationClaims r;
     rcp_PreparedAt := stored_time (rcp_PreparedAt r); rcp_ReceiptHash := rcp_ReceiptHash r |}.

Definition stored_request (i : UpgradePreparedInvalidationRequest) : UpgradePreparedInvalidationRequest :=
  {| inv_ReceiptHash := inv_ReceiptHash i; inv_PlanHash := inv_PlanHash i; inv_CampaignUID := inv_CampaignUID i;
     inv_ControlRevision := inv_ControlRevision i; inv_RequestedBy := inv_RequestedBy i;
     inv_RequestedAt := stored_time (inv_RequestedAt i); inv_Reason := inv_Reason i |}.

Definition stored_invalidation (i : UpgradePreparedInvalidationStatus) : UpgradePreparedInvalidationStatus :=
  {| ivd_RequestHash := ivd_RequestHash i; ivd_NativeEvidenceHash := ivd_NativeEvidenceHash i;
     ivd_ObservedAt := stored_time (ivd_ObservedAt i); ivd_WorkerRevision := ivd_WorkerRevision i;
     ivd_WorkerPodUID := ivd_WorkerPodUID i; ivd_RunningVersion := ivd_RunningVersion i;
     ivd_TargetState := ivd_TargetState i |}.

(** The times of the admission, the control and the drain, which the worker never writes,
    are as they were stored. *)
Definition stored_managed (m : ManagedStatus) : ManagedStatus :=
  {| ms_ManagerAdmission := ms_ManagerAdmission m; ms_ManagerControl := ms_ManagerControl m;
     ms_WorkerControl := stored_worker <$> ms_WorkerControl m; ms_ManagerDrain := ms_ManagerDrain m;
     ms_ManagedMutationClaims := stored_claim <$> ms_ManagedMutationClaims m;
     ms_ManagerInvalidation := stored_request <$> ms_ManagerInvalidation m;
     ms_PreparedInvalidation := stored_invalidation <$> ms_PreparedInvalidation m;
     ms_PreparedReceipt := stored_receipt <$> ms_PreparedReceipt m;
     ms_SourceDigest := ms_SourceDigest m; ms_SourceSize := ms_SourceSize m;
     ms_StagingOperationID := ms_StagingOperationID m; ms_RunningVersion := ms_RunningVersion m;
     ms_PreviousVersion := ms_PreviousVersion m;
     ms_ValidatedVersion := ms_ValidatedVersion m;
     ms_IndividualSupervisorInstall := ms_IndividualSupervisorInstall m;
     ms_ActivationControlStartTime := stored_time <$> ms_ActivationControlStartTime m;
     ms_ObservedGeneration := ms_ObservedGeneration m; ms_Message := ms_Message m |}.

Definition withStatus (up : IOSXESoftwareUpgrade) (st : IOSXESoftwareUpgradeStatus) : IOSXESoftwareUpgrade :=
  {| up_Namespace := up_Namespace up; up_Name := up_Name up; up_UID := up_UID up;
     up_CreationTimestamp := up_CreationTimestamp up; up_DeviceRef := up_DeviceRef up; up_Status := st |}.

(** [up.Status = *cur.Status.DeepCopy()]. *)
Definition copyStatus (up cur : Leaf) : Leaf :=
  {| leaf_Upgrade := withStatus (leaf_Upgrade up) (leaf_Status cur); leaf_Managed := leaf_Managed cur;
     leaf_Spec := leaf_Spec up; leaf_Annotations := leaf_Annotations up;
     leaf_Generation := leaf_Generation up; leaf_Deleting := leaf_Deleting up;
     leaf_ResourceVersion := leaf_ResourceVersion up |}.

Class LeafAPI `{KubeAPI} := {
  leaf_object : KubeState → NamespacedName → option Leaf;
  leaf_reader_Get : KubeState → NamespacedName → Leaf + goerror;
  leaf_client_Get : KubeState → NamespacedName → Leaf + goerror;
  (** [Status().Update]: the stored object, or the error. *)
  leaf_StatusUpdate : KubeState → NamespacedName → Leaf → KubeState * (Leaf + goerror);
  leaf_IsNotFound : goerror → bool;
  (** The uncached reader's [Get] and [List] of the other kinds. *)
  api_Device : KubeState → NamespacedName → BoundDevice + goerror;
  api_Node : KubeState → string → BoundNode + goerror;
  api_Secret : KubeState → NamespacedName → Secret + goerror;
  api_Leaves : KubeState → string → list Leaf + goerror;
  api_Pods : KubeState → string → list Pod + goerror;
}.

(** The requests that the leaf has on record. *)
Definition requested (stage : string) (l : Leaf) : bool :=
  let st := leaf_Status l in
  ((stage == UpgradeManagedMutationStaging) && us_StagingRequested st)
  || ((stage == UpgradeManagedMutationPrimaryInstall) && us_PrimarySupervisorInstallRequested st)
  || ((stage == UpgradeManagedMutationStandbyInstall) && us_StandbySupervisorInstallRequested st)
  || ((stage == UpgradeManagedMutationStandbyActivation) && us_StandbySupervisorActivationRequested st)
  || ((stage == UpgradeManagedMutationPrimaryActivation) && us_PrimarySupervisorActivationRequested st)
  || ((stage == UpgradeManagedMutationRollbackActivation) && us_RollbackActivationRequested st).

Definition cancelled (l : Leaf) : bool :=
  match ms_ManagerControl (leaf_Managed l) with Some control => ctl_Cancel control | None => false end.

(** What no writer of the leaf takes back: a request, a cancellation (which the CRD makes
    terminal), and that it is managed (which admission protects). *)
Definition leaf_kept (l l' : Leaf) : Prop :=
  (∀ stage, requested stage l = true → requested stage l' = true)
  ∧ (cancelled l = true → cancelled l' = true)
  ∧ (leafManaged l = true → leafManaged l' = true).

(** The server stores the status of an update, to the second, and nothing else of it, if
    the update is of the stored version. *)
Definition leaf_updated `{LeafAPI} (kube_after : KubeState → KubeState → Prop) (s : KubeState)
    (k : NamespacedName) (l : Leaf) (s' : KubeState) (new : Leaf) : Prop :=
  kube_after s s' ∧ leaf_object s' k = Some new
  ∧ ∃ cur, leaf_object s k = Some cur ∧ leaf_ResourceVersion cur = leaf_ResourceVersion l
    ∧ new = {| leaf_Upgrade := withStatus (leaf_Upgrade cur) (stored_status (leaf_Status l));
               leaf_Managed := stored_managed (leaf_Managed l); leaf_Spec := leaf_Spec cur;
               leaf_Annotations := leaf_Annotations cur; leaf_Generation := leaf_Generation cur;
               leaf_Deleting := leaf_Deleting cur; leaf_ResourceVersion := leaf_ResourceVersion new |}.

(** [kube_after s s']: the server may go from [s] to [s'] by writes that take nothing back
    ([leaf_after_kept]); an update is one if it takes nothing back either. *)
Class LeafAPISpec `{L : LeafAPI} (kube_after : KubeState → KubeState → Prop) : Prop := {
  leaf_after_preorder :: PreOrder kube_after;
  leaf_after_kept s s' k l l' :
    kube_after s s' → leaf_object s k = Some l → leaf_object s' k = Some l' →
    leaf_UID l = leaf_UID l' → leaf_kept l l';
  leaf_reader_current s k l : leaf_reader_Get s k = inl l → leaf_object s k = Some l;
  leaf_client_past s k l :
    leaf_client_Get s k = inl l → ∃ s0, kube_after s0 s ∧ leaf_object s0 k = Some l;
  leaf_version_unique s s' k l l' :
    kube_after s s' → leaf_object s k = Some l → leaf_object s' k = Some l' →
    leaf_ResourceVersion l = leaf_ResourceVersion l' → l = l';
  (** Objects are stored under their names. *)
  leaf_object_key s k l : leaf_object s k = Some l → leaf_key l = k;
  (** Times are stored to the second. *)
  leaf_stored s k l : leaf_object s k = Some l → stored_managed (leaf_Managed l) = leaf_Managed l;
  leaf_update_ok s k l s' new :
    (∀ cur, leaf_object s k = Some cur → leaf_ResourceVersion cur = leaf_ResourceVersion l → leaf_kept cur l) →
    leaf_StatusUpdate s k l = (s', inl new) → leaf_updated kube_after s k l s' new;
  leaf_update_error s k l s' e :
    (∀ cur, leaf_object s k = Some cur → leaf_ResourceVersion cur = leaf_ResourceVersion l → leaf_kept cur l) →
    leaf_StatusUpdate s k l = (s', inr e) →
    s' = s ∨ (IsConflict e = false ∧ ∃ new, leaf_updated kube_after s k l s' new);
}.

(** ** Calls *)

Record Calls `{KubeAPI} := { made : nat; server : KubeState }.

Definition API `{KubeAPI} (A : Type) : Type := Calls → Calls * A.

#[export] Instance API_ret `{KubeAPI} : MRet API := λ A a s, (s, a).
#[export] Instance API_bind `{KubeAPI} : MBind API := λ A B f m s, let '(s, a) := m s in f a s.

(** A call to the API server, before which the others act. *)
Definition call `{KubeAPI} {A} (env : nat → KubeState → KubeState) (f : KubeState → KubeState * A) : API A :=
  λ s, let '(k, a) := f (env (made s) (server s)) in ({| made := S (made s); server := k |}, a).

Definition read `{KubeAPI} {A} (env : nat → KubeState → KubeState) (f : KubeState → A) : API A :=
  call env (λ k, (k, f k)).

(** [try m ;; k] is [if err := m; err != nil { return err }] then [k]; [must x ← m ;; k] is
    [x, err := m; if err != nil { return err }] then [k]. *)
Notation "'try' m ';;' k" := (err ← m; match err with Some e => mret (Some e) | None => k end)
  (at level 10, m at level 9, k at level 200, only parsing) : go_scope.
Notation "'must' x ← m ';;' k" := (res ← m; match res with inr e => mret (Some e) | inl x => k end)
  (at level 10, x binder, m at level 9, k at level 200, only parsing) : go_scope.

Fixpoint first_failure `{KubeAPI} {A} (f : A → API (option goerror)) (l : list A) : API (option goerror) :=
  match l with
  | [] => mret None
  | x :: l => try (f x) ;; first_failure f l
  end.

(** [strconv.ParseInt(s, 10, 64)]. *)
Definition ParseInt10 (s : string) : option Z :=
  match bytes_of s with
  | c :: r => if c == byte_of 43 then
                match r with d :: _ => if d == byte_of 45 then None else ParseInt64 r | [] => None end
              else ParseInt64 (bytes_of s)
  | [] => None
  end.

(** ** The worker *)

(** The fields of a Reconciler.  A pod lister reads the device's inventory; the Booleans
    tell which of the returned pointers are not nil. *)
Record Reconciler `{KubeAPI} := {
  rc_Reader : bool;       (* Reader != nil *)
  rc_DeviceName : string;
  rc_DeviceNamespace : string;
  rc_DeviceUID : string;
  rc_NodeName : string;
  rc_ManagedTopology : bool;
  rc_WorkerRevision : string;
  rc_WorkerPodName : string;
  rc_WorkerPodUID : string;
  rc_CredentialSecretRevision : string;
  rc_GNOITLSSecretRevision : string;
  rc_GNOIProvisioningRevision : string;
  rc_DeviceTLSCARevision : string;
  rc_DevicePodLister : option (KubeState → list bool + goerror);
  rc_DrainDevicePodLister : option (KubeState → list bool + goerror);
}.

Definition managedUpgradeWorkerReady (device : BoundDevice) (revision podUID : string) : bool :=
  let ready (w : WorkerRevision) :=
    (wr_DesiredRevision w == revision) && (wr_ObservedRevision w == revision) && (wr_PodUID w == podUID)
    && match wr_PodStartTime w, wr_ReadyTime w with
       | Some start, Some ready => start <=? ready
       | _, _ => false
       end in
  match bd_NetworkWorkerRevision device with
  | Some network => ready network
  | None => match bd_WorkerRevision device with Some worker => ready worker | None => false end
  end.

Definition AcceptedNetworkDigest `{HashLib} (observation : AcceptedNetwork) : string :=
  "sha256:" +:+ hex_EncodeToString (Sum256 (an_JSON observation)).

Definition nonNilPodCount (pods : list bool) : Z := llen (filter (λ b, b = true) pods).

Section worker.
Context `{HL : HashLib, CL : ConditionLib}.
Context {KA : KubeAPI} {RL : @RetryLib KA} {LA : @LeafAPI KA}.
Context (env : nat → KubeState → KubeState) (r : Reconciler).
(** [ValidateURLSecretEndpoint] of source_policy.go: any check of the Secret and the URL. *)
Context (ValidateURLSecretEndpoint : Secret → string → option goerror).

Definition validateSecretRevision (namespace : string) (binding : option string * string)
  : API (option goerror) :=
  let '(name, expected) := binding in
  let name := default "" name in
  return_if (name == "")
    (mret (if expected != "" then Some (EPlain "runtime Secret revision is present without a live Secret reference")
           else None)) ;;
  return_if (expected == "") (mret (Some (EPlain "runtime Secret revision is empty"))) ;;
  must secret ← (read env (λ k, api_Secret k (namespace, name))) ;;
  return_if ((sec_ResourceVersion secret == "") || (sec_ResourceVersion secret != expected))
    (mret (Some (EPlain "live Secret resourceVersion does not match runtime revision"))) ;;
  mret None.

Definition validateManagedRuntimeSecretRevisions (device : BoundDevice) : API (option goerror) :=
  first_failure (validateSecretRevision (bd_Namespace device))
    [(bd_CredentialSecret device, rc_CredentialSecretRevision r);
     (bd_GNOITLSSecret device, rc_GNOITLSSecretRevision r);
     (bd_GNOIProvisioningSecret device, rc_GNOIProvisioningRevision r);
     (bd_TLSCASecret device, rc_DeviceTLSCARevision r)].

Definition validateManagedSourceSecret (l : Leaf) : API (option goerror) :=
  let uid := leaf_Annotations l !! AnnotationSourceSecretUID in
  match spec_URLSecretRef (leaf_Spec l) with
  | None =>
      mret (if bool_decide (is_Some uid)
            then Some (EPlain "source Secret identity annotation is present without imageSource.urlSecretRef")
            else None)
  | Some ref =>
      return_if (TrimSpace (default "" uid) == "")
        (mret (Some (EPlain "annotation is required with imageSource.urlSecretRef"))) ;;
      must secret ← (read env (λ k, api_Secret k (up_Namespace (leaf_Upgrade l), ref))) ;;
      return_if ((sec_UID secret == "") || (sec_UID secret != default "" uid))
        (mret (Some (EPlain "managed image source Secret UID does not match annotation"))) ;;
      mret (ValidateURLSecretEndpoint secret (spec_URL (leaf_Spec l)))
  end.

Definition requireAnnotations (annotations : gmap string string) (bindings : list (string * string))
  : option goerror :=
  first_error (λ b, requireAnnotation annotations b.1 b.2) bindings.

Definition annotatedBindings : list (string * string) :=
  [(AnnotationManaged, "true"); (AnnotationDeviceNamespace, rc_DeviceNamespace r);
   (AnnotationDeviceName, rc_DeviceName r); (AnnotationDeviceUID, rc_DeviceUID r)].

(** The checks of the leaf's admission and control, after the live objects. *)
Definition validateAdmissionBinding (l : Leaf) (generation : Z) (nodeUID physicalIdentity : string)
    (admission : UpgradeManagerAdmissionStatus) : option goerror :=
  return_if (negb (ManagedUpgradeProtocolMatches l))
    (Some (EPlain "manager protocol does not match required leaf protocol")) ;;
  return_if ((leaf_UID l == "") || (adm_LeafUID admission != leaf_UID l))
    (Some (EPlain "manager leaf UID does not match metadata.uid")) ;;
  return_if (adm_DeviceUID admission != rc_DeviceUID r)
    (Some (EPlain "manager device UID does not match runtime device UID")) ;;
  return_if (negb (adm_DeviceGeneration admission =? generation))
    (Some (EPlain "manager device generation does not match live generation")) ;;
  return_if (adm_NodeUID admission != nodeUID)
    (Some (EPlain "manager Node UID does not match bound Node UID")) ;;
  return_if (adm_PhysicalIdentity admission != physicalIdentity)
    (Some (EPlain "manager physical identity does not match the live bound identity")) ;;
  return_if (existsb (λ value, TrimSpace value == "")
               [adm_PolicyUID admission; adm_PolicyResourceVersion admission;
                adm_PhysicalIdentity admission; adm_TopologyLockID admission])
    (Some (EPlain "status.managerAdmission field is empty")) ;;
  return_if (negb (topologyLockAcquisitionIDValid (adm_TopologyLockID admission)))
    (Some (EPlain "status.managerAdmission topology lock acquisition ID is invalid")) ;;
  return_if (adm_UpdatedAt admission =? 0) (Some (EPlain "status.managerAdmission.updatedAt is absent")) ;;
  return_if (adm_PolicyEpoch admission <? 1) (Some (EPlain "status.managerAdmission.policyEpoch is invalid")) ;;
  propagate (first_error (λ b, return_if (TrimSpace b.2 == "")
                                 (Some (EPlain "status.managerAdmission binding is empty")) ;;
                               requireAnnotation (leaf_Annotations l) b.1 b.2)
               [(AnnotationCampaignUID, adm_CampaignUID admission); (AnnotationPlanHash, adm_PlanHash admission);
                (AnnotationLedgerUID, adm_LedgerUID admission);
                (AnnotationReservationID, adm_ReservationID admission)]) ;;
  match adm_ControlRevision admission with
  | None => Some (EPlain "status.managerAdmission.controlRevision is absent")
  | Some admitted =>
      return_if (admitted <? 0) (Some (EPlain "status.managerAdmission.controlRevision is negative")) ;;
      match ms_ManagerControl (leaf_Managed l) with
      | None => Some (EPlain "status.managerControl is absent")
      | Some control =>
          return_if ((ctl_Revision control <? 0) || (ctl_UpdatedAt control =? 0))
            (Some (EPlain "status.managerControl has invalid revision or updatedAt")) ;;
          return_if (ctl_Revision control <? admitted)
            (Some (EPlain "manager control revision is older than admitted revision")) ;;
          None
      end
  end.

(** The checks of the Node, which is read after the leaf's own annotations. *)
Definition validateNodeBinding (l : Leaf) (device : BoundDevice) (generation : Z) : API (option goerror) :=
  must node ← (read env (λ k, api_Node k (rc_NodeName r))) ;;
  return_if (bn_UID node == "") (mret (Some (EPlain "bound Node has no UID"))) ;;
  let nodeUID := bn_UID node in
  match bd_NodeIdentity device with
  | None => mret (Some (EPlain "live CiscoDevice manager-owned Node identity does not match the runtime binding"))
  | Some (bound, boundPhysical) =>
      return_if ((ni_DeviceUID bound != rc_DeviceUID r) || (ni_NodeName bound != rc_NodeName r)
                 || (ni_NodeUID bound != nodeUID))
        (mret (Some (EPlain "live CiscoDevice manager-owned Node identity does not match the runtime binding"))) ;;
      match ObservedPhysicalIdentity (bd_PhysicalIdentity device) (bn_MachineID node) (bn_SystemUUID node) with
      | inr e => mret (Some e)
      | inl physicalIdentity =>
          let observed := default "" (wr_ObservedRevision <$> bd_WorkerRevision device) in
          return_if (observed == "")
            (mret (Some (EPlain "live CiscoDevice has no observed app-hosting worker revision"))) ;;
          return_if (boundPhysical != physicalIdentity)
            (mret (Some (EPlain "live CiscoDevice manager-bound physical identity does not match"))) ;;
          try (mret (requireAnnotations (bn_Annotations node)
                 (annotatedBindings ++ [(AnnotationNodeUID, nodeUID); (AnnotationWorkerProtocol, managedprotocol_Version);
                                        (AnnotationWorkerObservedRevision, observed)]))) ;;
          let workerUsername := mget (bn_Annotations node)
            (match bd_NetworkWorkerRevision device with
             | Some _ => AnnotationNetworkWorkerUsername
             | None => AnnotationWorkerUsername
             end) in
          let prefix := "system:serviceaccount:" +:+ rc_DeviceNamespace r +:+ ":" in
          return_if (negb (HasPrefix workerUsername prefix) || (workerUsername == prefix))
            (mret (Some (EPlain "Node binding annotation does not name a worker ServiceAccount"))) ;;
          try (mret (requireAnnotations (leaf_Annotations l)
                 [(AnnotationWorkerUsername, workerUsername); (AnnotationNodeUID, nodeUID)])) ;;
          match ms_ManagerAdmission (leaf_Managed l) with
          | None => mret (Some (EPlain "status.managerAdmission is absent"))
          | Some admission =>
              try (mret (validateAdmissionBinding l generation nodeUID physicalIdentity admission)) ;;
              try (validateManagedSourceSecret l) ;;
              mret (validateManagedClaimCoverage l
                      (default 0 (ctl_Revision <$> ms_ManagerControl (leaf_Managed l))))
          end
      end
  end.

Definition validateManagedLeafBinding (l : Leaf) : API (option goerror) :=
  return_if (negb (rc_Reader r))
    (mret (Some (EPlain "managed topology requires an uncached Kubernetes API reader"))) ;;
  return_if (existsb (λ value, TrimSpace value == "")
               [rc_DeviceNamespace r; rc_DeviceName r; rc_DeviceUID r; rc_NodeName r; rc_WorkerRevision r;
                rc_WorkerPodName r; rc_WorkerPodUID r])
    (mret (Some (EPlain "runtime field is empty"))) ;;
  return_if ((up_Namespace (leaf_Upgrade l) != rc_DeviceNamespace r)
             || (up_DeviceRef (leaf_Upgrade l) != rc_DeviceName r))
    (mret (Some (EPlain "leaf target does not match runtime CiscoDevice"))) ;;
  match ParseInt10 (mget (leaf_Annotations l) AnnotationDeviceGeneration) with
  | None => mret (Some (EPlain "annotation is missing or invalid"))
  | Some annotatedGeneration =>
      return_if (annotatedGeneration <? 1) (mret (Some (EPlain "annotation is missing or invalid"))) ;;
      must device ← (read env (λ k, api_Device k (rc_DeviceNamespace r, rc_DeviceName r))) ;;
      return_if ((bd_UID device == "") || (bd_UID device != rc_DeviceUID r)
                 || negb (bd_Generation device =? annotatedGeneration) || (bd_Driver device != DeviceDriverXE))
        (mret (Some (EPlain "live CiscoDevice UID, generation, or driver no longer matches the managed grant"))) ;;
      return_if (negb (managedUpgradeWorkerReady device (rc_WorkerRevision r) (rc_WorkerPodUID r)))
        (mret (Some (EPlain "live CiscoDevice has no ready worker proof for runtime revision"))) ;;
      let '(podName, podUID) :=
        match bd_NetworkWorkerRevision device with
        | Some _ => (AnnotationNetworkWorkerPodName, AnnotationNetworkWorkerPodUID)
        | None => (AnnotationAppWorkerPodName, AnnotationAppWorkerPodUID)
        end in
      try (mret (requireAnnotations (leaf_Annotations l)
             [(podName, rc_WorkerPodName r); (podUID, rc_WorkerPodUID r)])) ;;
      try (validateManagedRuntimeSecretRevisions device) ;;
      try (mret (requireAnnotations (leaf_Annotations l)
             (annotatedBindings ++ [(AnnotationNodeName, rc_NodeName r);
                                    (AnnotationWorkerProtocol, managedprotocol_Version)]))) ;;
      validateNodeBinding l device annotatedGeneration
  end.

(** ** What the grant allows *)

(** The decision before any check: denied. *)
Definition deniedDecision (l : Leaf) (bindingDenied : bool) (message : string) : managedLeafDecision :=
  {| dec_applies := true; dec_bindingDenied := bindingDenied; dec_allowProgress := false;
     dec_allowClaim := false; dec_admissionState := safeAdmissionState (ms_ManagerAdmission (leaf_Managed l));
     dec_policyEpoch := default 0 (adm_PolicyEpoch <$> ms_ManagerAdmission (leaf_Managed l));
     dec_controlRevision := default 0 (ctl_Revision <$> ms_ManagerControl (leaf_Managed l));
     dec_workerRevision := rc_WorkerRevision r; dec_effectiveState := UpgradeWorkerControlDenied;
     dec_reason := "ManagedAdmissionDenied"; dec_message := message |}.

(** The decision of a leaf whose binding holds, so that it has an admission and a
    control. *)
Definition boundDecision (l : Leaf) (admission : UpgradeManagerAdmissionStatus)
    (control : UpgradeManagerControlStatus) : managedLeafDecision :=
  let decision := deniedDecision l false "" in
  return_if (terminalUpgradePhase (leaf_Phase l))
    (if managedTerminalMutationSettled l then
       decide_as decision true false UpgradeWorkerControlSettled "ManagedOutcomeSettled"
         "managed upgrade has a terminal and conclusively settled worker outcome"
     else
       decide_as decision true false UpgradeWorkerControlClaimed "ManagedOutcomeUnresolved"
         "managed upgrade is terminal but its claimed device mutation outcome remains unresolved") ;;
  let inFlight := managedMutationNeedsObservation l in
  let cancelled := decide_as decision false false UpgradeWorkerControlCancelled "ManagerCancelled" in
  let paused := decide_as decision false false UpgradeWorkerControlPaused "ManagerPaused" in
  let observing := decide_as decision true false UpgradeWorkerControlClaimed "ManagedClaimObservation" in
  return_if (adm_State admission != UpgradeManagerAdmissionGranted)
    (return_if (adm_State admission == UpgradeManagerAdmissionPending)
       (return_if (ctl_Cancel control)
          (cancelled "manager cancellation is effective while admission is pending") ;;
        return_if (ctl_Pause control) (paused "manager pause is effective while admission is pending") ;;
        decide_as decision false false UpgradeWorkerControlReady "ManagedAdmissionPending"
          "managed identity binding is ready; waiting for manager admission") ;;
     return_if ((adm_State admission == UpgradeManagerAdmissionRevoked) && inFlight)
       (observing "manager admission was revoked after a durable mutation claim; observing without authorizing another claim") ;;
     return_if ((adm_State admission == UpgradeManagerAdmissionRevoked) && ctl_Cancel control)
       (cancelled "manager cancelled and revoked admission before a durable mutation claim") ;;
     return_if (adm_State admission == UpgradeManagerAdmissionSettled)
       (decide_as decision false false UpgradeWorkerControlSettled "ManagerAdmissionSettled"
          "manager admission is settled; no further worker progress is authorized") ;;
     deniedDecision l false ("manager admission is " +:+ adm_State admission +:+ ", not Granted")) ;;
  return_if (ctl_Cancel control)
    (if inFlight
     then observing "manager cancellation is effective for new claims; observing the existing durable mutation claim"
     else cancelled "manager cancellation is effective; no new mutation claim is authorized") ;;
  return_if (ctl_Pause control)
    (if inFlight
     then observing "manager pause is effective for new claims; observing the existing durable mutation claim"
     else paused "manager pause is effective; no new mutation claim is authorized") ;;
  decide_as decision true true UpgradeWorkerControlReady "ManagedAdmissionReady"
    "manager grant and control revision are ready for worker progress".

Definition error_text (e : goerror) : string :=
  match e with EIs _ msg | EPlain msg | EPanic msg => msg end.

(** A leaf without admission or control fails the binding, so that the last case does
    not arise; the code would panic there. *)
Definition evaluateManagedLeaf (l : Leaf) : API managedLeafDecision :=
  return_if (negb (rc_ManagedTopology r) && negb (leafManaged l)) (mret standaloneDecision) ;;
  return_if (negb (rc_ManagedTopology r))
    (mret (deniedDecision l false "managed upgrade leaf cannot execute on a standalone worker")) ;;
  return_if (negb (leafManaged l))
    (mret (deniedDecision l false ("managed worker requires " +:+ AnnotationManaged +:+ "=true on every upgrade leaf"))) ;;
  err ← validateManagedLeafBinding l;
  match err with
  | Some e => mret (deniedDecision l true (boundedWorkerMessage ("managed upgrade binding denied: " +:+ error_text e)))
  | None =>
      match ms_ManagerAdmission (leaf_Managed l), ms_ManagerControl (leaf_Managed l) with
      | Some admission, Some control => mret (boundDecision l admission control)
      | _, _ => mret (deniedDecision l true "")
      end
  end.

(** ** The gates of a new claim *)

Definition validateManagedNetworkGrant (admission : UpgradeManagerAdmissionStatus) (now : Time)
  : API (option goerror) :=
  let present := adm_NetworkEvidenceHash admission != "" in
  return_if (existsb (λ p, negb (Bool.eqb p present))
               [adm_NetworkEvidenceProducerRevision admission != "";
                adm_NetworkEvidenceWorkerPodUID admission != "";
                bool_decide (is_Some (adm_NetworkEvidenceSampleSequence admission));
                bool_decide (is_Some (adm_NetworkEvidenceNotAfter admission))])
    (mret (Some (EPlain "manager network evidence authority is incomplete"))) ;;
  return_if (negb present) (mret None) ;;
  let sequence := default 0 (adm_NetworkEvidenceSampleSequence admission) in
  let notAfter := default 0 (adm_NetworkEvidenceNotAfter admission) in
  return_if ((sequence <? 1) || (notAfter =? 0))
    (mret (Some (EPlain "manager network evidence authority is invalid"))) ;;
  return_if (negb (now <? notAfter)) (mret (Some (EPlain "manager network evidence authority expired"))) ;;
  must device ← (read env (λ k, api_Device k (rc_DeviceNamespace r, rc_DeviceName r))) ;;
  return_if (negb match bd_NetworkWorkerRevision device with
                  | None => false
                  | Some w => (wr_DesiredRevision w == adm_NetworkEvidenceProducerRevision admission)
                              && (wr_ObservedRevision w == adm_NetworkEvidenceProducerRevision admission)
                              && (wr_PodUID w == adm_NetworkEvidenceWorkerPodUID admission)
                  end)
    (mret (Some (EPlain "current network worker no longer matches the manager grant"))) ;;
  match bd_AcceptedNetwork device with
  | None => mret (Some (EPlain "current manager-accepted network evidence is absent"))
  | Some sample =>
      return_if ((an_ProducerRevision sample != adm_NetworkEvidenceProducerRevision admission)
                 || (an_WorkerPodUID sample != adm_NetworkEvidenceWorkerPodUID admission)
                 || negb (an_SampleSequence sample =? sequence))
        (mret (Some (EPlain "current manager-accepted network evidence identity changed"))) ;;
      return_if (AcceptedNetworkDigest sample != adm_NetworkEvidenceHash admission)
        (mret (Some (EPlain "current manager-accepted network evidence digest changed"))) ;;
      mret None
  end.

(** The lister and the name of the gate, or the error of a drain without authority. *)
Definition managedClaimPodLister (l : Leaf) : option (KubeState → list bool + goerror) * string + goerror :=
  match ms_ManagerDrain (leaf_Managed l) with
  | None => inl (rc_DevicePodLister r, "BlockIfRunning")
  | Some drain =>
      match ms_ManagerAdmission (leaf_Managed l), ms_ManagerControl (leaf_Managed l) with
      | Some admission, Some control =>
          return_if (bool_decide (adm_ControlRevision admission = None)
                     || (drn_ProtocolVersion drain != ManagedDrainProtocolPDBV1)
                     || (drn_State drain != UpgradeManagerDrainPromoted)
                     || (drn_ReservationID drain != adm_ReservationID admission)
                     || negb (drn_PolicyEpoch drain =? adm_PolicyEpoch admission)
                     || negb (drn_ControlRevision drain =? ctl_Revision control)
                     || negb (drn_ControlRevision drain =? default 0 (adm_ControlRevision admission))
                     || (drn_NodeUID drain != adm_NodeUID admission) || (drn_SessionToken drain == ""))
            (inr (EPlain "managed Drain has no exact promoted session authority")) ;;
          match rc_DrainDevicePodLister r with
          | None => inr (EPlain "managed Drain requires complete device inventory support from the platform driver")
          | Some lister => inl (Some lister, "Drain")
          end
      | _, _ => inr (EPlain "managed Drain has no exact promoted session authority")
      end
  end.

Definition failedPeer (l : Leaf) (campaignUID : string) (peer : Leaf) : bool :=
  negb ((up_Name (leaf_Upgrade peer) == up_Name (leaf_Upgrade l)) && (leaf_UID peer == leaf_UID l))
  && leafManaged peer && (mget (leaf_Annotations peer) AnnotationCampaignUID == campaignUID)
  && isTerminalFailurePhase (leaf_Phase peer).

Definition ensureNoFailedCampaignPeer (l : Leaf) : API (option goerror) :=
  let campaignUID := TrimSpace (mget (leaf_Annotations l) AnnotationCampaignUID) in
  return_if (campaignUID == "") (mret (Some (EPlain "managed campaign UID is empty"))) ;;
  must leaves ← (read env (λ k, api_Leaves k (up_Namespace (leaf_Upgrade l)))) ;;
  return_if (existsb (failedPeer l campaignUID) leaves)
    (mret (Some (EPlain "campaign peer is terminal; no new device mutation is authorized"))) ;;
  mret None.

Definition boundActiveWorkloads : API (list Pod + goerror) :=
  res ← read env (λ k, api_Pods k (rc_NodeName r));
  match res with
  | inr e => mret (inr e)
  | inl pods =>
      mret (inl (filter (λ pod, pod_NodeName pod = rc_NodeName r
                                ∧ ¬ (pod_Deleting pod = false
                                     ∧ (pod_Phase pod = "Succeeded" ∨ pod_Phase pod = "Failed"))) pods))
  end.

(** [%d], and [%q] of a name that needs no escapes. *)
Definition format_d (n : Z) : string := of_bytes (FormatInt n).
Definition format_q (s : string) : string := of_bytes [quote] +:+ s +:+ of_bytes [quote].

(** [None], or the reason and message of the gate that refuses. *)
Definition workloadGate (l : Leaf) (stage : string) : API (option (string * string)) :=
  match managedClaimPodLister l with
  | inr e => mret (Some ("WorkloadGateUnavailable", boundedWorkerMessage (error_text e)))
  | inl (devicePodLister, gate) =>
      peers ← ensureNoFailedCampaignPeer l;
      match peers with
      | Some e => mret (Some ("CampaignTargetFailed", boundedWorkerMessage (error_text e)))
      | None =>
          active ← boundActiveWorkloads;
          match active with
          | inr e =>
              mret (Some ("WorkloadCheckFailed",
                boundedWorkerMessage (gate +:+ " could not list workloads for the bound Node: " +:+ error_text e)))
          | inl pods =>
              return_if (0 <? llen pods)
                (mret (Some ("WorkloadsRunning",
                   gate +:+ " denied " +:+ stage +:+ ": " +:+ format_d (llen pods)
                     +:+ " active workload Pod(s) remain bound to Node " +:+ format_q (rc_NodeName r)))) ;;
              match devicePodLister with
              | None =>
                  mret (Some ("DeviceWorkloadCheckFailed", gate +:+ " could not verify the device app-hosting inventory"))
              | Some lister =>
                  listed ← read env lister;
                  match listed with
                  | inr e =>
                      mret (Some ("DeviceWorkloadCheckFailed",
                        boundedWorkerMessage (gate +:+ " could not list the device app-hosting inventory: "
                                                +:+ error_text e)))
                  | inl devicePods =>
                      return_if (0 <? nonNilPodCount devicePods)
                        (mret (Some ("DeviceWorkloadsRunning",
                           gate +:+ " denied " +:+ stage +:+ ": device inventory still reports "
                             +:+ format_d (nonNilPodCount devicePods) +:+ " hosted workload Pod(s)"))) ;;
                      mret None
                  end
              end
          end
      end
  end.

Definition denyClaim (d : managedLeafDecision) (reason message : string) : managedLeafDecision :=
  decide_as d (dec_allowProgress d) false UpgradeWorkerControlDenied reason message.

(** The decision after the gates; a decision that allows no claim passes unchanged. *)
Definition claimDecision (l : Leaf) (stage : string) (decision : managedLeafDecision) (now : Time) : API managedLeafDecision :=
  return_if (negb (dec_allowClaim decision)) (mret decision) ;;
  evidenceErr ←
    match ms_ManagerAdmission (leaf_Managed l) with
    | None => mret (Some (EPlain "manager admission is absent"))
    | Some admission =>
        return_if (spec_RequireNetworkEvidence (leaf_Spec l) && (adm_NetworkEvidenceHash admission == ""))
          (mret (Some (EPlain "leaf requires network evidence but manager grant omits it"))) ;;
        validateManagedNetworkGrant admission now
    end;
  match evidenceErr with
  | Some e => mret (denyClaim decision "NetworkEvidenceAuthorityInvalid" (boundedWorkerMessage (error_text e)))
  | None =>
      gate ← workloadGate l stage;
      match gate with
      | Some (reason, message) => mret (denyClaim decision reason message)
      | None => mret decision
      end
  end.

(** ** Writing the leaf *)

(** The assignments of the claim functions to the status.  The marker of the stage is
    set, the others stay. *)
Definition statusWith (st : IOSXESoftwareUpgradeStatus) (stage phase failureReason : string)
    (installStart activationStart rollbackStart : option Time) (conditions : list Condition)
  : IOSXESoftwareUpgradeStatus :=
  {| us_Phase := phase; us_ExecutionModel := us_ExecutionModel st; us_FailureReason := failureReason;
     us_StartTime := us_StartTime st; us_InstallStartTime := installStart;
     us_ActivationStartTime := activationStart; us_RollbackStartTime := rollbackStart;
     us_CompletionTime := us_CompletionTime st; us_TransferProgress := us_TransferProgress st;
     us_StagingRequested := us_StagingRequested st || (stage == UpgradeManagedMutationStaging);
     us_PrimarySupervisorInstallRequested :=
       us_PrimarySupervisorInstallRequested st || (stage == UpgradeManagedMutationPrimaryInstall);
     us_PrimarySupervisorInstalled := us_PrimarySupervisorInstalled st;
     us_StandbySupervisorInstallRequested :=
       us_StandbySupervisorInstallRequested st || (stage == UpgradeManagedMutationStandbyInstall);
     us_StandbySupervisorInstalled := us_StandbySupervisorInstalled st;
     us_StandbySupervisorActivationRequested :=
       us_StandbySupervisorActivationRequested st || (stage == UpgradeManagedMutationStandbyActivation);
     us_StandbySupervisorActivated := us_StandbySupervisorActivated st;
     us_PrimarySupervisorActivationRequested :=
       us_PrimarySupervisorActivationRequested st || (stage == UpgradeManagedMutationPrimaryActivation);
     us_NoRebootActivationAccepted := us_NoRebootActivationAccepted st;
     us_RollbackActivationRequested :=
       us_RollbackActivationRequested st || (stage == UpgradeManagedMutationRollbackActivation);
     us_Conditions := conditions |}.

Definition withRequest (l : Leaf) (st : IOSXESoftwareUpgradeStatus) (validatedVersion message : string) : Leaf :=
  let m := leaf_Managed l in
  {| leaf_Upgrade := withStatus (leaf_Upgrade l) st;
     leaf_Managed := managedWith m (ms_WorkerControl m) (ms_ManagedMutationClaims m) validatedVersion
                       (leaf_Generation l) message;
     leaf_Spec := leaf_Spec l; leaf_Annotations := leaf_Annotations l; leaf_Generation := leaf_Generation l;
     leaf_Deleting := leaf_Deleting l; leaf_ResourceVersion := leaf_ResourceVersion l |}.

(** [if t == nil { t = &metav1.Time{Time: now} }]. *)
Definition startTime (t : option Time) (now : Time) : option Time := Some (default now t).

(** The conditions of a claim: the mutation is not settled, the stage's own condition,
    and not ready. *)
Definition claimConditions (l : Leaf) (type reason message : string) (now : Time) : list Condition :=
  let cs := us_Conditions (leaf_Status l) in
  let cs := setCondition (leaf_Generation l) cs "DeviceMutationSettled" "False" "MutationRequested" message now in
  setCondition (leaf_Generation l) cs type "False" reason message now.

Definition readyFalse (l : Leaf) (cs : list Condition) (reason message : string) (now : Time) : list Condition :=
  setCondition (leaf_Generation l) cs "Ready" "False" reason message now.

Definition recordStaging (message : string) (now : Time) (l : Leaf) : Leaf :=
  let st := leaf_Status l in
  let cs := claimConditions l "Staged" "StagingRequested" message now in
  withRequest l
    (statusWith st UpgradeManagedMutationStaging "Staging" "" (startTime (us_InstallStartTime st) now)
       (us_ActivationStartTime st) (us_RollbackStartTime st) (readyFalse l cs "StagingRequested" message now))
    (ms_ValidatedVersion (leaf_Managed l)) message.

Definition installStage (standby : bool) : string :=
  if standby then UpgradeManagedMutationStandbyInstall else UpgradeManagedMutationPrimaryInstall.

Definition recordInstall (standby : bool) (now : Time) (l : Leaf) : Leaf :=
  let st := leaf_Status l in
  let message := "gNOI OS.Install request durably recorded for the "
                   +:+ (if standby then "standby" else "primary") +:+ " supervisor" in
  let cs := claimConditions l "Transferred" "InstallRequested" message now in
  withRequest l
    (statusWith st (installStage standby) (us_Phase st) (us_FailureReason st)
       (startTime (us_InstallStartTime st) now) (us_ActivationStartTime st) (us_RollbackStartTime st)
       (readyFalse l cs "InstallRequested" message now))
    (ms_ValidatedVersion (leaf_Managed l)) (ms_Message (leaf_Managed l)).

Definition activationStage (standby : bool) : string :=
  if standby then UpgradeManagedMutationStandbyActivation else UpgradeManagedMutationPrimaryActivation.

(** The transition time of the first condition of the type and reason. *)
Fixpoint touchCondition (type reason : string) (now : Time) (cs : list Condition) : list Condition :=
  match cs with
  | [] => []
  | c :: cs =>
      if (cond_Type c == type) && (cond_Reason c == reason)
      then {| cond_Type := cond_Type c; cond_Status := cond_Status c; cond_Reason := cond_Reason c;
              cond_Message := cond_Message c; cond_LastTransitionTime := now;
              cond_ObservedGeneration := cond_ObservedGeneration c |} :: cs
      else c :: touchCondition type reason now cs
  end.

Definition recordActivation (standby : bool) (reason message : string) (now : Time) (l : Leaf) : Leaf :=
  let st := leaf_Status l in
  let cs := touchCondition "Activated" reason now (claimConditions l "Activated" reason message now) in
  withRequest l
    (statusWith st (activationStage standby) "Activating" "" (us_InstallStartTime st)
       (startTime (us_ActivationStartTime st) now) (us_RollbackStartTime st) (readyFalse l cs reason message now))
    (ms_ValidatedVersion (leaf_Managed l)) message.

Definition recordRollback (version message : string) (now : Time) (l : Leaf) : Leaf :=
  let st := leaf_Status l in
  let cs := claimConditions l "Rollback" "RollbackRequested" message now in
  withRequest l
    (statusWith st UpgradeManagedMutationRollbackActivation "RollingBack" "" (us_InstallStartTime st)
       (us_ActivationStartTime st) (startTime (us_RollbackStartTime st) now)
       (readyFalse l cs "RollbackRequested" message now))
    version message.

(** The leaf with the refusal of a claim, and whether it changed. *)
Definition recordDenial (l : Leaf) (decision : managedLeafDecision) (now : Time) : Leaf * bool :=
  let '(l, changed) := applyWorkerControlDecision l decision now in
  let m := leaf_Managed l in
  let cs := us_Conditions (leaf_Status l) in
  return_if ((ms_Message m == dec_message decision) && (readyReason cs == dec_reason decision)) (l, changed) ;;
  let st := leaf_Status l in
  (withRequest l
     (statusWith st "" (us_Phase st) (us_FailureReason st) (us_InstallStartTime st) (us_ActivationStartTime st)
        (us_RollbackStartTime st) (readyFalse l cs (dec_reason decision) (dec_message decision) now))
     (ms_ValidatedVersion m) (dec_message decision), true).

Definition missingUpgradeCleanupCandidate (up : Leaf) : option Leaf :=
  return_if (UpgradeMutationSubmitted (Some (leaf_Upgrade up))) None ;;
  Some {| leaf_Upgrade := leaf_Upgrade up; leaf_Managed := leaf_Managed up; leaf_Spec := leaf_Spec up;
          leaf_Annotations := leaf_Annotations up; leaf_Generation := leaf_Generation up;
          leaf_Deleting := true; leaf_ResourceVersion := leaf_ResourceVersion up |}.

(** ** Claims *)

Definition getLeaf (key : NamespacedName) : API (Leaf + goerror) :=
  read env (λ k, if rc_Reader r then leaf_reader_Get k key else leaf_client_Get k key).

(** [r.Client.Status().Update]. *)
Definition Status_Update (key : NamespacedName) (l : Leaf) : API (Leaf + goerror) :=
  call env (λ k, leaf_StatusUpdate k key l).

(** What [prepareManagedMutationClaim] leaves: a leaf to which the claim is added, or the
    caller's leaf with the status that was stored. *)
Inductive claimReadiness :=
  | ClaimReady (current : Leaf)
  | ClaimRefused (up : Leaf).

Definition prepareManagedMutationClaim (up current : Leaf) (stage : string) (now : Time)
  : API (claimReadiness + goerror) :=
  decision ← evaluateManagedLeaf current;
  return_if (negb (dec_applies decision)) (mret (inl (ClaimReady current))) ;;
  decision ← claimDecision current stage decision now;
  return_if (negb (dec_allowClaim decision))
    (let '(current, changed) := recordDenial current decision now in
     return_if (negb changed) (mret (inl (ClaimRefused (copyStatus up current)))) ;;
     res ← Status_Update (leaf_key current) current;
     match res with
     | inr e => mret (inr e)
     | inl new => mret (inl (ClaimRefused (copyStatus up new)))
     end) ;;
  match addManagedMutationClaim current stage (dec_policyEpoch decision) (dec_controlRevision decision) now with
  | inr e => mret (inr e)
  | inl current =>
      let decision := decide_as decision (dec_allowProgress decision) true UpgradeWorkerControlClaimed
                        "ManagedMutationClaimed"
                        ("claimed " +:+ stage +:+ " at manager control revision "
                           +:+ format_d (dec_controlRevision decision)) in
      mret (inl (ClaimReady (fst (applyWorkerControlDecision current decision now))))
  end.

(** The variables that the callbacks of the claim functions capture. *)
Record claimVars := {
  cv_claimed : bool;
  cv_deleting : option Leaf;
  cv_up : Leaf;
}.

(** The body that the claim functions share: [submitted] is their test for an earlier
    request, [record] what they write for this one. *)
Definition claimBody (submitted : Leaf → bool) (stage : string) (record : Leaf → Leaf) (now : Time)
    (vars : claimVars) : API (claimVars * option goerror) :=
  let up := cv_up vars in
  let key := leaf_key up in
  let deleting l := {| cv_claimed := cv_claimed vars; cv_deleting := l; cv_up := up |} in
  res ← getLeaf key;
  match res with
  | inr e =>
      return_if (leaf_IsNotFound e) (mret (deleting (missingUpgradeCleanupCandidate up), None)) ;;
      mret (vars, Some e)
  | inl cur =>
      return_if (leaf_Deleting cur) (mret (deleting (Some cur), None)) ;;
      return_if (negb (upgradeStatusCASMatches up cur)) (mret (vars, None)) ;;
      return_if (submitted cur || terminalUpgradePhase (leaf_Phase cur)) (mret (vars, None)) ;;
      ready ← prepareManagedMutationClaim up cur stage now;
      match ready with
      | inr e => mret (vars, Some e)
      | inl (ClaimRefused up) =>
          mret ({| cv_claimed := cv_claimed vars; cv_deleting := cv_deleting vars; cv_up := up |}, None)
      | inl (ClaimReady cur) =>
          res ← Status_Update key (record cur);
          match res with
          | inr e => mret (vars, Some e)
          | inl new =>
              mret ({| cv_claimed := true; cv_deleting := cv_deleting vars; cv_up := copyStatus up new |}, None)
          end
      end
  end.

(** The server, the caller's leaf, and whether the mutation was claimed or the leaf is
    being deleted. *)
Definition claimWith (submitted : Leaf → bool) (stage : string) (record : Leaf → Leaf) (now : Time)
    (up : Leaf) (s : Calls) : Calls * Leaf * ((bool * option Leaf) + goerror) :=
  let attempt (_ : nat) (state : Calls * claimVars) :=
    let '(s, vars) := state in
    let '(s, (vars, e)) := claimBody submitted stage record now vars s in
    ((s, vars), e) in
  match RetryOnConflict attempt (s, {| cv_claimed := false; cv_deleting := None; cv_up := up |}) with
  | ((s, vars), Some e) => (s, cv_up vars, inr e)
  | ((s, vars), None) => (s, cv_up vars, inl (cv_claimed vars, cv_deleting vars))
  end.

Definition claimStaging (up : Leaf) (message : string) (now : Time) :=
  claimWith stagingRequestSubmitted UpgradeManagedMutationStaging (recordStaging message now) now up.

Definition claimInstallAttempt (up : Leaf) (standby : bool) (now : Time) :=
  claimWith (λ l, installAttemptRequested l standby) (installStage standby) (recordInstall standby now) now up.

Definition claimActivation (up : Leaf) (standby : bool) (reason message : string) (now : Time) :=
  claimWith (λ l, if standby then us_StandbySupervisorActivationRequested (leaf_Status l)
                  else primaryActivationRequestSubmitted l)
    (activationStage standby) (recordActivation standby reason message now) now up.

Definition claimRollbackActivation (up : Leaf) (version message : string) (now : Time) :=
  claimWith rollbackRequestSubmitted UpgradeManagedMutationRollbackActivation (recordRollback version message now)
    now up.

(** ** Acknowledging the manager *)

Record gateVars := {
  gv_decision : managedLeafDecision;
  gv_updated : bool;
  gv_up : Leaf;
}.

Definition gateBody (now : Time) (vars : gateVars) : API (gateVars * option goerror) :=
  let up := gv_up vars in
  res ← getLeaf (leaf_key up);
  match res with
  | inr e => mret (vars, Some e)
  | inl current =>
      decision ← evaluateManagedLeaf current;
      let observed := {| gv_decision := decision; gv_updated := gv_updated vars; gv_up := current |} in
      return_if (dec_bindingDenied decision) (mret (observed, None)) ;;
      let desired := workerControlForDecision current decision now in
      return_if (ms_WorkerControl (leaf_Managed current) == Some desired) (mret (observed, None)) ;;
      res ← Status_Update (leaf_key up) (withWorkerControl current (Some desired));
      match res with
      | inr e => mret ({| gv_decision := decision; gv_updated := gv_updated vars; gv_up := up |}, Some e)
      | inl new => mret ({| gv_decision := decision; gv_updated := true; gv_up := new |}, None)
      end
  end.

(** The decision, whether the acknowledgement was written, and the error; with the
    caller's leaf. *)
Definition syncManagedLeafGate (up : Leaf) (now : Time) (s : Calls)
  : Calls * Leaf * (managedLeafDecision * bool * option goerror) :=
  return_if (negb (rc_ManagedTopology r) && negb (leafManaged up)) (s, up, (standaloneDecision, false, None)) ;;
  return_if (rc_ManagedTopology r && negb (leafManaged up))
    (let '(s, decision) := evaluateManagedLeaf up s in (s, up, (decision, false, None))) ;;
  let attempt (_ : nat) (state : Calls * gateVars) :=
    let '(s, vars) := state in
    let '(s, (vars, e)) := gateBody now vars s in
    ((s, vars), e) in
  let zero := {| dec_applies := false; dec_bindingDenied := false; dec_allowProgress := false;
                 dec_allowClaim := false; dec_admissionState := ""; dec_policyEpoch := 0;
                 dec_controlRevision := 0; dec_workerRevision := ""; dec_effectiveState := "";
                 dec_reason := ""; dec_message := "" |} in
  match RetryOnConflict attempt (s, {| gv_decision := zero; gv_updated := false; gv_up := up |}) with
  | ((s, vars), Some e) => (s, gv_up vars, (gv_decision vars, false, Some e))
  | ((s, vars), None) => (s, gv_up vars, (gv_decision vars, gv_updated vars, None))
  end.

(** ** The phase machine's writes *)

Record updateVars := {
  uv_beforePhase : string;
  uv_afterPhase : string;
  uv_afterReason : string;
  uv_afterMessage : string;
  uv_updated : bool;
}.

Definition observedGeneration (l : Leaf) : Leaf :=
  let m := leaf_Managed l in
  withManaged l (managedWith m (ms_WorkerControl m) (ms_ManagedMutationClaims m) (ms_ValidatedVersion m)
                   (leaf_Generation l) (ms_Message m)).

Definition updateBody (up : Leaf) (mutate : Leaf → Leaf) (vars : updateVars) : API (updateVars * option goerror) :=
  let seen before l updated :=
    {| uv_beforePhase := before; uv_afterPhase := leaf_Phase l; uv_afterReason := readyReason (us_Conditions (leaf_Status l));
       uv_afterMessage := ms_Message (leaf_Managed l); uv_updated := updated |} in
  res ← getLeaf (leaf_key up);
  match res with
  | inr e => mret (vars, Some e)
  | inl cur =>
      return_if (negb (upgradeStatusCASMatches up cur) || terminalUpgradePhase (leaf_Phase cur))
        (mret (seen (leaf_Phase cur) cur (uv_updated vars), None)) ;;
      let l := observedGeneration (mutate cur) in
      res ← Status_Update (leaf_key up) l;
      match res with
      | inr e => mret (seen (leaf_Phase cur) l (uv_updated vars), Some e)
      | inl _ => mret (seen (leaf_Phase cur) l true, None)
      end
  end.

(** The Event that is emitted: whether it is a warning, its reason and its message. *)
Definition updateStatus (up : Leaf) (mutate : Leaf → Leaf) (s : Calls)
  : Calls * (option (bool * string * string) + goerror) :=
  let attempt (_ : nat) (state : Calls * updateVars) :=
    let '(s, vars) := state in
    let '(s, (vars, e)) := updateBody up mutate vars s in
    ((s, vars), e) in
  let zero := {| uv_beforePhase := ""; uv_afterPhase := ""; uv_afterReason := ""; uv_afterMessage := "";
                 uv_updated := false |} in
  match RetryOnConflict attempt (s, zero) with
  | ((s, vars), Some e) => (s, inr e)
  | ((s, vars), None) =>
      return_if (uv_updated vars && (uv_afterPhase vars != "") && (uv_afterPhase vars != uv_beforePhase vars))
        (s, inl (Some (isTerminalFailurePhase (uv_afterPhase vars),
                       if uv_afterReason vars == "" then uv_afterPhase vars else uv_afterReason vars,
                       uv_afterMessage vars))) ;;
      (s, inl None)
  end.
End worker.
