(* ===== verification/LeafMarks.v ===== *)
(** * Managed leaves: markers and claims

    What the writes of the claim functions do to the markers of a leaf, to its claims and to
    the manager's part of it; a claim keeps claims and markers in step. *)

From S2P Require Import Prelude GoLib GoTime Json Interfaces LedgerData Store AdminPolicyHash SortKeys Identity.
From S2P Require Import Quarantine TopologyLock Leaf LeafClaim.

(** ** Markers *)

(** The six stages and their markers. *)
Ltac stages := unfold UpgradeManagedMutationStaging, UpgradeManagedMutationPrimaryInstall,
  UpgradeManagedMutationStandbyInstall, UpgradeManagedMutationStandbyActivation,
  UpgradeManagedMutationPrimaryActivation, UpgradeManagedMutationRollbackActivation in *.

Lemma kept_refl l : leaf_kept l l.
Proof. done. Qed.

Lemma kept_trans l1 l2 l3 : leaf_kept l1 l2 → leaf_kept l2 l3 → leaf_kept l1 l3.
Proof. intros (H1 & C1 & M1) (H2 & C2 & M2). split_and!; auto. Qed.

Lemma kept_status l l' :
  leaf_Status l' = leaf_Status l → cancelled l' = cancelled l → leaf_Annotations l' = leaf_Annotations l →
  leaf_kept l l'.
Proof.
  intros Hs Hc Ha. unfold leaf_kept, leafManaged. rewrite Hc, Ha. split; [|done]. intros stage. unfold requested.
  by rewrite Hs.
Qed.

Lemma requested_with l st stage phase failure t1 t2 t3 cs version message stage' :
  st = leaf_Status l →
  requested stage' (withRequest l (statusWith st stage phase failure t1 t2 t3 cs) version message)
  = requested stage' l || ((stage' == stage) && knownManagedMutationStage stage).
Proof.
  intros ->. unfold requested, withRequest, leaf_Status. cbn -[bool_decide]. set (st := up_Status (leaf_Upgrade l)).
  unfold knownManagedMutationStage. stages.
  destruct (decide (stage' = stage)) as [->|Hne].
  - rewrite (bool_decide_true (stage = stage)) by done. cbn [andb].
    repeat (case_bool_decide; subst; cbn [andb orb]; try done); rewrite ?orb_false_r, ?orb_true_r; try done.
    all: try set_solver.
  - rewrite (bool_decide_false (stage' = stage)) by done. cbn [andb]. rewrite orb_false_r.
    repeat (case_bool_decide; subst; cbn [andb orb]; try done); rewrite ?orb_false_r, ?orb_true_r; done.
Qed.

(** A claim function: its stage, its test and what it writes. *)
Inductive claim_op :=
  | ClaimStaging (message : string)
  | ClaimInstall (standby : bool)
  | ClaimActivation (standby : bool) (message : string)
  | ClaimRollback (version message : string).

(** The condition reason that the caller of [claimActivation] passes. *)
Definition activationReason (standby : bool) : string :=
  if standby then "StandbyActivationRequested" else "ActivationRequested".

Definition claim_stage (op : claim_op) : string :=
  match op with
  | ClaimStaging _ => UpgradeManagedMutationStaging
  | ClaimInstall standby => installStage standby
  | ClaimActivation standby _ => activationStage standby
  | ClaimRollback _ _ => UpgradeManagedMutationRollbackActivation
  end.

Definition claim_submitted (op : claim_op) (l : Leaf) : bool :=
  match op with
  | ClaimStaging _ => stagingRequestSubmitted l
  | ClaimInstall standby => installAttemptRequested l standby
  | ClaimActivation standby _ =>
      if standby then us_StandbySupervisorActivationRequested (leaf_Status l)
      else primaryActivationRequestSubmitted l
  | ClaimRollback _ _ => rollbackRequestSubmitted l
  end.

Definition claim_record `{ConditionLib} (op : claim_op) (now : Time) (l : Leaf) : Leaf :=
  match op with
  | ClaimStaging message => recordStaging message now l
  | ClaimInstall standby => recordInstall standby now l
  | ClaimActivation standby message => recordActivation standby (activationReason standby) message now l
  | ClaimRollback version message => recordRollback version message now l
  end.

Definition run_claim `{HL : HashLib, CL : ConditionLib} {KA : KubeAPI} {RL : @RetryLib KA} {LA : @LeafAPI KA}
    (env : nat → KubeState → KubeState) (r : Reconciler) (endpoint : Secret → string → option goerror)
    (op : claim_op) (now : Time) (up : Leaf) (s : Calls) : Calls * Leaf * ((bool * option Leaf) + goerror) :=
  match op with
  | ClaimStaging message => claimStaging env r endpoint up message now s
  | ClaimInstall standby => claimInstallAttempt env r endpoint up standby now s
  | ClaimActivation standby message =>
      claimActivation env r endpoint up standby (activationReason standby) message now s
  | ClaimRollback version message => claimRollbackActivation env r endpoint up version message now s
  end.

Lemma run_claim_with `{HL : HashLib, CL : ConditionLib} {KA : KubeAPI} {RL : @RetryLib KA} {LA : @LeafAPI KA}
    env r endpoint op now up s :
  run_claim env r endpoint op now up s
  = claimWith env r endpoint (claim_submitted op) (claim_stage op) (claim_record op now) now up s.
Proof. by destruct op. Qed.

Lemma claim_stage_known op : knownManagedMutationStage (claim_stage op) = true.
Proof. destruct op as [|[]|[]|]; reflexivity. Qed.

Lemma claim_record_requested `{ConditionLib} op now l stage :
  requested stage (claim_record op now l) = requested stage l || (stage == claim_stage op).
Proof.
  rewrite <- (andb_true_r (stage == claim_stage op)), <- (claim_stage_known op).
  destruct op; by apply requested_with.
Qed.

(** The test of a claim function includes its marker. *)
Lemma claim_not_requested op l : claim_submitted op l = false → requested (claim_stage op) l = false.
Proof.
  unfold requested. destruct op as [m|[]|[] m|v m]; cbn [claim_submitted claim_stage installStage activationStage].
  all: unfold stagingRequestSubmitted, primaryActivationRequestSubmitted, rollbackRequestSubmitted, installAttemptRequested.
  all: intros Hs; try apply orb_false_iff in Hs as [Hs _]; rewrite Hs, andb_false_r; stages; reflexivity.
Qed.

(** ** What a write keeps *)

(** A write by the worker: nothing of the manager's part changes. *)
Definition manager_same (l l' : Leaf) : Prop :=
  ms_ManagerAdmission (leaf_Managed l') = ms_ManagerAdmission (leaf_Managed l)
  ∧ ms_ManagerControl (leaf_Managed l') = ms_ManagerControl (leaf_Managed l)
  ∧ leaf_ResourceVersion l' = leaf_ResourceVersion l ∧ leaf_Annotations l' = leaf_Annotations l.

Lemma manager_same_trans l1 l2 l3 : manager_same l1 l2 → manager_same l2 l3 → manager_same l1 l3.
Proof. intros (? & ? & ? & ?) (? & ? & ? & ?). split_and!; congruence. Qed.

Lemma manager_same_cancelled l l' : manager_same l l' → cancelled l' = cancelled l.
Proof. intros (_ & Hc & _). unfold cancelled. by rewrite Hc. Qed.

Lemma manager_same_kept l l' : manager_same l l' → leaf_Status l' = leaf_Status l → leaf_kept l l'.
Proof. intros Hm Hs. apply kept_status; [done|by apply manager_same_cancelled|apply Hm]. Qed.

Lemma claim_record_manager `{ConditionLib} op now l : manager_same l (claim_record op now l).
Proof. by destruct op. Qed.

Lemma claim_record_claims `{ConditionLib} op now l :
  ms_ManagedMutationClaims (leaf_Managed (claim_record op now l)) = ms_ManagedMutationClaims (leaf_Managed l).
Proof. by destruct op. Qed.

Lemma claim_record_kept `{ConditionLib} op now l : leaf_kept l (claim_record op now l).
Proof.
  pose proof (claim_record_manager op now l) as Hm. split; [intros stage Hs; rewrite claim_record_requested, Hs; done|].
  rewrite (manager_same_cancelled _ _ Hm). unfold leafManaged. by destruct Hm as (_ & _ & _ & ->).
Qed.

Lemma worker_control_same l d now :
  let l' := (applyWorkerControlDecision l d now).1 in
  manager_same l l' ∧ leaf_Status l' = leaf_Status l
  ∧ ms_ManagedMutationClaims (leaf_Managed l') = ms_ManagedMutationClaims (leaf_Managed l)
  ∧ leaf_key l' = leaf_key l.
Proof. unfold applyWorkerControlDecision. by case_match. Qed.

Lemma recordDenial_kept `{ConditionLib} l d now :
  let l' := (recordDenial l d now).1 in
  leaf_kept l l' ∧ leaf_ResourceVersion l' = leaf_ResourceVersion l ∧ leaf_key l' = leaf_key l.
Proof.
  pose proof (worker_control_same l d now) as (Hm & Hs & _ & Hk). unfold recordDenial.
  destruct (applyWorkerControlDecision l d now) as [l1 changed]. cbn [fst] in *.
  assert (leaf_kept l l1) as Hkept by (by eapply manager_same_kept).
  destruct Hm as (Ha & Hc & Hv & _). case_match; cbn [fst]; [done|].
  split; [|done]. eapply kept_trans; [exact Hkept|]. split; [|done].
  intros stage Hst. rewrite requested_with by done. by rewrite Hst.
Qed.

(** ** Claims *)

Definition valid_claim (admission : UpgradeManagerAdmissionStatus) (currentRevision : Z)
    (claim : UpgradeManagedMutationClaimStatus) : Prop :=
  knownManagedMutationStage (clm_Stage claim) = true
  ∧ clm_ReservationID claim = adm_ReservationID admission
  ∧ 1 ≤ clm_PolicyEpoch claim ∧ clm_PolicyEpoch claim = adm_PolicyEpoch admission
  ∧ 0 ≤ clm_ControlRevision claim ≤ currentRevision ∧ clm_ClaimedAt claim ≠ 0.

Lemma validateClaims_None admission rev seen claims :
  (validateClaims admission rev seen claims = None) ↔
  NoDup (clm_Stage <$> claims) ∧ (∀ c, c ∈ claims → (clm_Stage c ∉ seen) ∧ valid_claim admission rev c).
Proof.
  revert seen. induction claims as [|c claims IH]; intros seen; cbn [validateClaims fmap list_fmap].
  { split; [|done]. intros _. split; [constructor|]. intros c Hc. by apply not_elem_of_nil in Hc. }
  split.
  - intros Hv. repeat (case_match; [done|]). apply IH in Hv as [Hnd Hall].
    assert (valid_claim admission rev c) as Hc by (go_bool; unfold valid_claim; naive_solver lia).
    split.
    + apply NoDup_cons. split; [|done]. intros (c' & Heq & Hin)%list_elem_of_fmap.
      apply (Hall c') in Hin as [Hin _]. apply Hin. rewrite <- Heq. by left.
    + intros c' [->|Hin]%elem_of_cons; [split; [by go_bool|done]|]. destruct (Hall c' Hin) as [Hs ?]. set_solver.
  - intros [[Hni Hnd]%NoDup_cons Hall].
    destruct (Hall c) as [Hs (Hk & Hr & He1 & He2 & [Hr1 Hr2] & Ht)]; [by left|].
    rewrite bool_decide_false, Hk, Hr, bool_decide_true by done. cbn [negb].
    rewrite (proj2 (Z.ltb_ge _ _)), (proj2 (Z.eqb_eq _ _)) by lia. cbn [negb orb].
    rewrite (proj2 (Z.ltb_ge _ _)), (proj2 (Z.ltb_ge rev _)), (proj2 (Z.eqb_neq _ _)) by lia. cbn [orb].
    apply IH. split; [done|]. intros c' Hin. destruct (Hall c') as [Hs' ?]; [by right|]. split; [|done].
    apply not_elem_of_cons. split; [|done]. intros Heq. apply Hni. rewrite <- Heq. by apply list_elem_of_fmap_2.
Qed.

(** ** Conditions *)

Lemma hasCondition_true l type reasons :
  hasCondition l type reasons = true ↔
  ∃ c, c ∈ us_Conditions (leaf_Status l) ∧ cond_Type c = type ∧ cond_Reason c ∈ reasons.
Proof.
  unfold hasCondition. rewrite existsb_exists. split.
  - intros (c & Hin & Hc). go_bool. destruct Hc. exists c. split; [by apply list_elem_of_In|done].
  - intros (c & Hin%list_elem_of_In & ? & ?). exists c. split; [done|]. by go_bool.
Qed.

(** A request that a condition tells of is on record. *)
Definition recorded (l : Leaf) : Prop :=
  (hasCondition l "Staged" ["StagingRequested"] = true → us_StagingRequested (leaf_Status l) = true)
  ∧ (hasCondition l "Activated" ["ActivationRequested"] = true →
     us_PrimarySupervisorActivationRequested (leaf_Status l) = true)
  ∧ (hasCondition l "Rollback" ["RollbackRequested"; "RollbackDispatched"] = true →
     us_RollbackActivationRequested (leaf_Status l) = true).

Lemma recorded_status l l' : leaf_Status l' = leaf_Status l → recorded l → recorded l'.
Proof. unfold recorded, hasCondition. by intros ->. Qed.

Definition allStages : list string :=
  [UpgradeManagedMutationStaging; UpgradeManagedMutationPrimaryInstall; UpgradeManagedMutationStandbyInstall;
   UpgradeManagedMutationStandbyActivation; UpgradeManagedMutationPrimaryActivation;
   UpgradeManagedMutationRollbackActivation].

Lemma requested_stages l :
  let st := leaf_Status l in
  requested UpgradeManagedMutationStaging l = us_StagingRequested st
  ∧ requested UpgradeManagedMutationPrimaryInstall l = us_PrimarySupervisorInstallRequested st
  ∧ requested UpgradeManagedMutationStandbyInstall l = us_StandbySupervisorInstallRequested st
  ∧ requested UpgradeManagedMutationStandbyActivation l = us_StandbySupervisorActivationRequested st
  ∧ requested UpgradeManagedMutationPrimaryActivation l = us_PrimarySupervisorActivationRequested st
  ∧ requested UpgradeManagedMutationRollbackActivation l = us_RollbackActivationRequested st.
Proof.
  unfold requested. stages. split_and!.
  all: repeat (rewrite bool_decide_true by done); repeat (rewrite bool_decide_false by done).
  all: cbn [andb orb]; by rewrite ?orb_false_r.
Qed.

Lemma orb_implied (a b : bool) : (b = true → a = true) → a || b = a.
Proof. destruct a, b; naive_solver. Qed.

Lemma recorded_markers l :
  recorded l → managedMutationMarkers l = (λ stage, (stage, requested stage l)) <$> allStages.
Proof.
  intros (H1 & H2 & H3). unfold managedMutationMarkers, stagingRequestSubmitted, primaryActivationRequestSubmitted,
    rollbackRequestSubmitted. rewrite !orb_implied by done.
  destruct (requested_stages l) as (E1 & E2 & E3 & E4 & E5 & E6). unfold allStages. cbn [fmap list_fmap].
  by rewrite E1, E2, E3, E4, E5, E6.
Qed.

(** On a recorded leaf, the coverage says: valid claims, one for every request. *)
Lemma coverage_recorded l admission rev :
  recorded l → ms_ManagerAdmission (leaf_Managed l) = Some admission →
  validateManagedClaimCoverage l rev = None ↔
  NoDup (clm_Stage <$> ms_ManagedMutationClaims (leaf_Managed l))
  ∧ (∀ c, c ∈ ms_ManagedMutationClaims (leaf_Managed l) → valid_claim admission rev c)
  ∧ (∀ stage, stage ∈ allStages → requested stage l = hasClaim l stage).
Proof.
  intros Hrec Hadm. unfold validateManagedClaimCoverage. rewrite Hadm, (recorded_markers _ Hrec).
  assert (first_error (λ marker : string * bool, if eqb marker.2 (hasClaim l marker.1) then None
      else Some (EPlain "managed durable marker/claim mismatch"))
      ((λ stage, (stage, requested stage l)) <$> allStages) = None ↔
    ∀ stage, stage ∈ allStages → requested stage l = hasClaim l stage) as Hfe.
  { rewrite first_error_None. split.
    - intros Hall stage Hin. specialize (Hall (stage, requested stage l)). cbn [fst snd] in Hall.
      destruct (eqb _ _) eqn:Heq; [by apply eqb_prop|]. discriminate Hall. by apply (list_elem_of_fmap_2 (λ s, (s, requested s l))).
    - intros Hall x (stage & -> & Hin)%list_elem_of_fmap. cbn [fst snd]. by rewrite Hall, eqb_reflx. }
  pose proof (validateClaims_None admission rev [] (ms_ManagedMutationClaims (leaf_Managed l))) as Hvc.
  destruct (validateClaims _ _ _ _) as [e|].
  - split; [done|]. intros (Hnd & Hall & _). apply Hvc. split; [done|]. intros c Hc. split; [apply not_elem_of_nil|by apply Hall].
  - rewrite Hfe. destruct (proj1 Hvc eq_refl) as [Hnd Hall]. split; [|by intros (_ & _ & ?)].
    intros Hm. split; [done|]. split; [intros c Hc; by apply Hall|done].
Qed.

(** ** A claim keeps claims and markers in step *)

(** The conditions that a claim adds tell of its own request at most. *)
Definition claim_conditions (op : claim_op) : list (string * string) :=
  [("DeviceMutationSettled", "MutationRequested");
   match op with
   | ClaimStaging _ => ("Staged", "StagingRequested")
   | ClaimInstall _ => ("Transferred", "InstallRequested")
   | ClaimActivation standby _ => ("Activated", activationReason standby)
   | ClaimRollback _ _ => ("Rollback", "RollbackRequested")
   end].

Section conditions.
Context `{CL : ConditionLib} {CS : ConditionLibSpec CL}.

Lemma setCondition_only generation cs type status reason message now c :
  c ∈ setCondition generation cs type status reason message now →
  c ∈ cs ∨ (cond_Type c = type ∧ cond_Reason c = reason).
Proof using CS. apply set_condition_only. Qed.

Lemma touchCondition_only type reason now cs c :
  c ∈ touchCondition type reason now cs → ∃ c0, c0 ∈ cs ∧ cond_Type c = cond_Type c0 ∧ cond_Reason c = cond_Reason c0.
Proof using.
  induction cs as [|c1 cs IH]; cbn [touchCondition]; [by intros ?%not_elem_of_nil|].
  case_match; intros [->|Hin]%elem_of_cons; try (eexists; split; [by left|done]).
  - exists c. split; [by right|done].
  - destruct (IH Hin) as (c0 & ? & ?). exists c0. split; [by right|done].
Qed.

Lemma claim_record_conditions op now l c :
  c ∈ us_Conditions (leaf_Status (claim_record op now l)) →
  (∃ c0, c0 ∈ us_Conditions (leaf_Status l) ∧ cond_Type c = cond_Type c0 ∧ cond_Reason c = cond_Reason c0)
  ∨ (cond_Type c, cond_Reason c) ∈ claim_conditions op ∨ cond_Type c = "Ready".
Proof using CS.
  assert (∀ type reason message c, c ∈ claimConditions l type reason message now →
    (∃ c0, c0 ∈ us_Conditions (leaf_Status l) ∧ cond_Type c = cond_Type c0 ∧ cond_Reason c = cond_Reason c0)
    ∨ (cond_Type c, cond_Reason c) ∈ [("DeviceMutationSettled", "MutationRequested"); (type, reason)]) as Hcc.
  { intros type reason message c1. unfold claimConditions.
    intros [[Hin|[-> ->]]%setCondition_only|[-> ->]]%setCondition_only; [left; by exists c1|right; by left|right; right; by left]. }
  destruct op as [message|standby|standby message|version message]; cbn [claim_record];
    intros [Hin|[-> _]]%setCondition_only; auto.
  1,2,4: by apply Hcc in Hin as [?|?]; auto.
  apply touchCondition_only in Hin as (c1 & Hin & -> & ->). by apply Hcc in Hin as [?|?]; auto.
Qed.

(** The leaf that is stored when a claim is written. *)
Lemma claim_record_recorded op now l l' :
  recorded l → us_Conditions (leaf_Status l') = stored_condition <$> us_Conditions (leaf_Status (claim_record op now l)) →
  (∀ stage, requested stage l' = requested stage (claim_record op now l)) → recorded l'.
Proof using CS.
  intros (H1 & H2 & H3) Hcs Hreq.
  assert (∀ type reasons, hasCondition l' type reasons = true → type ≠ "Ready" →
    hasCondition l type reasons = true ∨ ∃ reason, (type, reason) ∈ claim_conditions op ∧ reason ∈ reasons) as Hhas.
  { intros type reasons (c & Hin & <- & Hr)%hasCondition_true Hne. rewrite Hcs in Hin.
    apply list_elem_of_fmap in Hin as (c1 & -> & Hin). cbn [stored_condition cond_Type cond_Reason] in *.
    apply claim_record_conditions in Hin as [(c0 & Hin & Ht & Hre)|[Hin|Hre]]; [| |done].
    - left. apply hasCondition_true. exists c0. by rewrite <- Ht, <- Hre.
    - right. by exists (cond_Reason c1). }
  assert (∀ stage, requested stage l = true ∨ stage = claim_stage op → requested stage l' = true) as Hset.
  { intros stage Hs. rewrite Hreq, claim_record_requested. destruct Hs as [->| ->]; [done|].
    by rewrite (bool_decide_true (claim_stage op = _)), orb_true_r. }
  destruct (requested_stages l) as (E1 & _ & _ & _ & E5 & E6).
  unfold recorded. destruct (requested_stages l') as (<- & _ & _ & _ & <- & <-).
  split_and!.
  - intros [Hh%H1|(reason & Hin & _)]%Hhas; [| |done]; apply Hset; [left; by rewrite E1|right].
    destruct op as [|[]|[]|]; cbn in Hin; set_solver.
  - intros [Hh%H2|(reason & Hin & Hr)]%Hhas; [| |done]; apply Hset; [left; by rewrite E5|right].
    destruct op as [|[]|[]|]; cbn in Hin; set_solver.
  - intros [Hh%H3|(reason & Hin & _)]%Hhas; [| |done]; apply Hset; [left; by rewrite E6|right].
    destruct op as [|[]|[]|]; cbn in Hin; set_solver.
Qed.
End conditions.

(** Adding the claim of a request that was neither claimed nor recorded. *)
Lemma coverage_claimed l l' admission rev stage claim :
  recorded l → recorded l' →
  ms_ManagerAdmission (leaf_Managed l) = Some admission → ms_ManagerAdmission (leaf_Managed l') = Some admission →
  validateManagedClaimCoverage l rev = None → hasClaim l stage = false → clm_Stage claim = stage →
  valid_claim admission rev claim →
  ms_ManagedMutationClaims (leaf_Managed l') ≡ₚ claim :: ms_ManagedMutationClaims (leaf_Managed l) →
  (∀ stage', requested stage' l' = requested stage' l || (stage' == stage)) →
  validateManagedClaimCoverage l' rev = None.
Proof.
  intros Hr Hr' Ha Ha' (Hnd & Hall & Hm)%(coverage_recorded _ _ _ Hr Ha) Hno <- Hv Hcl Hreq.
  unfold hasClaim in Hno. apply bool_decide_eq_false in Hno.
  apply (coverage_recorded _ _ _ Hr' Ha'). split_and!.
  - rewrite Hcl. cbn. by apply NoDup_cons.
  - intros c. rewrite Hcl. intros [->|Hc]%elem_of_cons; auto.
  - intros stage Hin. rewrite Hreq, Hm by done. unfold hasClaim. apply eq_iff_eq_true.
    rewrite orb_true_iff, !bool_decide_eq_true, Hcl, fmap_cons, elem_of_cons. tauto.
Qed.
