(* ===== verification/LeafProofs.v ===== *)
(** * Managed leaves: what a claim writes

    The reads of the worker change nothing; what a claim function writes takes nothing back,
    and it reports a claim exactly for the write that records it. *)

From S2P Require Import Prelude GoLib GoTime Json Interfaces LedgerData Store AdminPolicyHash SortKeys Identity.
From S2P Require Import Quarantine TopologyLock Leaf LeafClaim LeafMarks.

(** ** Reads *)

Section worker.
Context `{HL : HashLib, CL : ConditionLib} {CS : ConditionLibSpec CL}.
Context {KA : KubeAPI} {RL : @RetryLib KA} {RS : RetryLibSpec RL} {LA : @LeafAPI KA}.
Context (kube_after : KubeState → KubeState → Prop) {LS : LeafAPISpec kube_after}.
Context (env : nat → KubeState → KubeState) (Henv : ∀ n k, kube_after k (env n k)).
Context (r : Reconciler) (endpoint : Secret → string → option goerror).

(** The program only lets the others act. *)
Definition reads {A} (m : API A) : Prop := ∀ s, kube_after (server s) (server (m s).1).

Lemma reads_ret {A} (a : A) : reads (mret a).
Proof using LS. intros s. reflexivity. Qed.

Lemma reads_bind {A B} (m : API A) (f : A → API B) : reads m → (∀ a, reads (f a)) → reads (m ≫= f).
Proof using LS.
  intros Hm Hf s. unfold mbind, API_bind. specialize (Hm s). destruct (m s) as [s1 a]. etrans; [exact Hm|apply Hf].
Qed.

Lemma reads_read {A} (f : KubeState → A) : reads (read env f).
Proof using Henv. intros s. unfold read, call. apply Henv. Qed.

(** Walk through a program of reads; [sub] are the programs it calls. *)
Tactic Notation "reads_with" tactic3(sub) :=
  repeat first [ sub | apply reads_read | apply reads_ret | apply reads_bind; [|intros] | case_match ].

Lemma reads_secret namespace b : reads (validateSecretRevision env namespace b).
Proof using LS Henv. destruct b. unfold validateSecretRevision. reads_with fail. Qed.

Lemma reads_runtime device : reads (validateManagedRuntimeSecretRevisions env r device).
Proof using LS Henv.
  unfold validateManagedRuntimeSecretRevisions. cbn [first_failure]. reads_with (apply reads_secret).
Qed.

Lemma reads_source l : reads (validateManagedSourceSecret env endpoint l).
Proof using LS Henv. unfold validateManagedSourceSecret. reads_with fail. Qed.

Lemma reads_node l d g : reads (validateNodeBinding env r endpoint l d g).
Proof using LS Henv. unfold validateNodeBinding. reads_with (apply reads_source). Qed.

Lemma reads_binding l : reads (validateManagedLeafBinding env r endpoint l).
Proof using LS Henv.
  unfold validateManagedLeafBinding. reads_with (first [apply reads_runtime|apply reads_node]).
Qed.

Lemma reads_evaluate l : reads (evaluateManagedLeaf env r endpoint l).
Proof using LS Henv. unfold evaluateManagedLeaf. reads_with (apply reads_binding). Qed.

Lemma reads_claimDecision l stage d now : reads (claimDecision env r l stage d now).
Proof using LS Henv.
  unfold claimDecision, validateManagedNetworkGrant, workloadGate, ensureNoFailedCampaignPeer, boundActiveWorkloads.
  reads_with fail.
Qed.

(** ** What the checks establish *)

Lemma bind_inv {A B} (m : API A) (f : A → API B) s s' b :
  (m ≫= f) s = (s', b) → ∃ s1 a, m s = (s1, a) ∧ f a s1 = (s', b).
Proof using. unfold mbind, API_bind. destruct (m s) as [s1 a] eqn:Hm. eauto. Qed.

Lemma ret_inv {A} (a b : A) (s s' : Calls) : (mret a : API A) s = (s', b) → s' = s ∧ b = a.
Proof using. by intros [= -> ->]. Qed.

(** Walk down the path on which a program that returned succeeded. *)
Ltac run_step H :=
  match type of H with
  | (mret _) _ = (_, _) => apply ret_inv in H as [? H]; simplify_eq
  | (_ ≫= _) _ = (_, _) =>
      let s := fresh "s" in let a := fresh "a" in let Hm := fresh "Hm" in
      apply bind_inv in H as (s & a & Hm & H); cbv beta in H
  | (if ?c then _ else _) _ = _ => destruct c eqn:?
  | (match ?c with _ => _ end) _ = _ => destruct c eqn:?
  end; simplify_eq/=; try done.

(** The manager's authority for a claim on the leaf as it is stored. *)
Definition authority (l : Leaf) (admission : UpgradeManagerAdmissionStatus)
    (control : UpgradeManagerControlStatus) : Prop :=
  ms_ManagerAdmission (leaf_Managed l) = Some admission
  ∧ ms_ManagerControl (leaf_Managed l) = Some control
  ∧ adm_LeafUID admission = leaf_UID l ∧ 1 ≤ adm_PolicyEpoch admission ∧ 0 ≤ ctl_Revision control
  ∧ validateManagedClaimCoverage l (ctl_Revision control) = None.

Lemma admission_binding l g n p admission :
  validateAdmissionBinding r l g n p admission = None →
  adm_LeafUID admission = leaf_UID l ∧ 1 ≤ adm_PolicyEpoch admission
  ∧ ∃ control, ms_ManagerControl (leaf_Managed l) = Some control ∧ 0 ≤ ctl_Revision control.
Proof using.
  unfold validateAdmissionBinding. intros Hb.
  repeat match type of Hb with
  | (if ?c then _ else _) = None => destruct c eqn:?; [done|]
  | match ?c with _ => _ end = None => destruct c eqn:?; try done
  end; go_bool; destruct_and?; split_and?; eauto; try lia.
  all: eexists; split; [done|lia].
Qed.

Lemma node_binding l d g s s' :
  validateNodeBinding env r endpoint l d g s = (s', None) → ∃ admission control, authority l admission control.
Proof using.
  unfold validateNodeBinding. intros Hb. repeat run_step Hb.
  all: repeat match goal with H : (mret _) _ = (_, _) |- _ => apply ret_inv in H as [-> H] end.
  all: symmetry in Hb.
  all: match goal with H : None = validateAdmissionBinding _ _ _ _ _ _ |- _ => symmetry in H; apply admission_binding in H
       end.
  all: match goal with H : _ ∧ _ ∧ ∃ _, _ |- _ => destruct H as (? & ? & control & Hc & ?) end.
  all: rewrite Hc in *; simpl in *; eexists _, control; by split_and!.
Qed.

Lemma leaf_binding l s s' :
  validateManagedLeafBinding env r endpoint l s = (s', None) → ∃ admission control, authority l admission control.
Proof using.
  unfold validateManagedLeafBinding. intros Hb. repeat run_step Hb; by eapply node_binding.
Qed.

(** A decision to allow a claim: of a standalone worker on a leaf that is not managed, or
    under a grant that is neither paused nor cancelled. *)
Lemma evaluate_allows l s s' d :
  evaluateManagedLeaf env r endpoint l s = (s', d) → dec_allowClaim d = true →
  (dec_applies d = false ∧ leafManaged l = false)
  ∨ (dec_applies d = true ∧ ∃ admission control, authority l admission control
       ∧ adm_State admission = UpgradeManagerAdmissionGranted
       ∧ ctl_Pause control = false ∧ ctl_Cancel control = false
       ∧ dec_policyEpoch d = adm_PolicyEpoch admission ∧ dec_controlRevision d = ctl_Revision control).
Proof using.
  unfold evaluateManagedLeaf. intros He Hd. run_step He.
  { apply ret_inv in He as [_ ->]. left. split; [done|]. go_bool. naive_solver. }
  do 2 (run_step He; [by apply ret_inv in He as [_ ->]|]). run_step He. run_step He.
  { by apply ret_inv in He as [_ ->]. }
  destruct (ms_ManagerAdmission (leaf_Managed l)) as [admission|] eqn:Hadm; [|by apply ret_inv in He as [_ ->]].
  destruct (ms_ManagerControl (leaf_Managed l)) as [control|] eqn:Hctl; [|by apply ret_inv in He as [_ ->]].
  apply ret_inv in He as [_ ->]. right. apply leaf_binding in Hm as (adm & ctl & Hauth).
  assert (adm = admission ∧ ctl = control) as [-> ->].
  { destruct Hauth as (? & ? & _). split; congruence. }
  unfold boundDecision in *. repeat case_match; try done. split; [done|]. exists admission, control.
  go_bool. split_and!; try done; simpl; by rewrite ?Hadm, ?Hctl.
Qed.

Lemma evaluate_applies l s s' d :
  evaluateManagedLeaf env r endpoint l s = (s', d) → dec_applies d = false → leafManaged l = false.
Proof using.
  unfold evaluateManagedLeaf. intros He Hd. run_step He; [go_bool; naive_solver|].
  repeat run_step He. unfold boundDecision in Hd. by repeat case_match.
Qed.

Lemma claimDecision_allows l stage d now s s' d' :
  claimDecision env r l stage d now s = (s', d') → dec_allowClaim d' = true → d' = d ∧ dec_allowClaim d = true.
Proof using.
  unfold claimDecision. intros Hc Hd. run_step Hc.
  { apply ret_inv in Hc as [_ ->]. by rewrite Hd in *. }
  run_step Hc. run_step Hc; [by apply ret_inv in Hc as [_ ->]|]. run_step Hc. run_step Hc.
  - case_match. by apply ret_inv in Hc as [_ ->].
  - apply ret_inv in Hc as [_ ->]. done.
Qed.

(** ** Writes *)

(** The leaf as it is stored by an update from [cur] with the status of [l]. *)
Definition stored_update (cur l : Leaf) (version : string) : Leaf :=
  {| leaf_Upgrade := withStatus (leaf_Upgrade cur) (stored_status (leaf_Status l));
     leaf_Managed := stored_managed (leaf_Managed l); leaf_Spec := leaf_Spec cur;
     leaf_Annotations := leaf_Annotations cur; leaf_Generation := leaf_Generation cur;
     leaf_Deleting := leaf_Deleting cur; leaf_ResourceVersion := version |}.

Lemma requested_stored stage cur l version : requested stage (stored_update cur l version) = requested stage l.
Proof using. done. Qed.

(** The object that a program read, at some time before. *)
Definition was_stored (key : NamespacedName) (cur : Leaf) (k : KubeState) : Prop :=
  ∃ k0, kube_after k0 k ∧ leaf_object k0 key = Some cur.

Lemma leaf_was_stored_after key cur k k' : was_stored key cur k → kube_after k k' → was_stored key cur k'.
Proof using LS. intros (k0 & Ha & Ho) Ha'. exists k0. split; [by etrans|done]. Qed.

Lemma update_follows key cur l s s' res :
  was_stored key cur (server s) → leaf_kept cur l → leaf_ResourceVersion l = leaf_ResourceVersion cur →
  Status_Update env key l s = (s', res) →
  kube_after (server s) (server s')
  ∧ ∀ new, res = inl new → ∃ k, kube_after (server s) k ∧ kube_after k (server s')
      ∧ leaf_object k key = Some cur ∧ leaf_object (server s') key = Some new
      ∧ new = stored_update cur l (leaf_ResourceVersion new).
Proof using LS Henv.
  intros Hwas Hkept Hv. unfold Status_Update, call. set (k := env (made s) (server s)).
  assert (kube_after (server s) k) as Hk by apply Henv.
  destruct (leaf_was_stored_after _ _ _ _ Hwas Hk) as (k0 & Hk0 & Hcur).
  assert (∀ cur', leaf_object k key = Some cur' → leaf_ResourceVersion cur' = leaf_ResourceVersion l → cur' = cur) as Hsame.
  { intros cur' Ho Hr. symmetry. eapply leaf_version_unique; [exact Hk0|done|done|congruence]. }
  destruct (leaf_StatusUpdate k key l) as [k' res'] eqn:Hu. intros [= <- <-]. cbn [server].
  assert (∀ cur', leaf_object k key = Some cur' → leaf_ResourceVersion cur' = leaf_ResourceVersion l → leaf_kept cur' l)
    as Hguard by (intros cur' Ho Hr; by rewrite (Hsame cur')).
  destruct res' as [new|e].
  - apply (leaf_update_ok _ _ _ _ _ Hguard) in Hu as (Ha & Hnew & cur' & Ho & Hr & Heq).
    assert (cur' = cur) as -> by auto. split; [by etrans; [exact Hk|]|].
    intros ? [= <-]. exists k. split_and!; [done|done|done|done|exact Heq].
  - split; [|done]. apply (leaf_update_error _ _ _ _ _ Hguard) in Hu as [->|(_ & new & Ha & _)]; [done|by etrans].
Qed.

(** The claim of a managed leaf: the one entry that it adds, which keeps claims and markers
    in step. *)
Definition claimed_under (stage : string) (l l' : Leaf) (admission : UpgradeManagerAdmissionStatus)
    (control : UpgradeManagerControlStatus) : Prop :=
  ∃ claim, clm_Stage claim = stage ∧ clm_ReservationID claim = adm_ReservationID admission
    ∧ clm_PolicyEpoch claim = adm_PolicyEpoch admission ∧ clm_ControlRevision claim = ctl_Revision control
    ∧ ms_ManagedMutationClaims (leaf_Managed l') ≡ₚ claim :: ms_ManagedMutationClaims (leaf_Managed l)
    ∧ (recorded l → clm_ClaimedAt claim ≠ 0 →
       recorded l' ∧ validateManagedClaimCoverage l' (ctl_Revision control) = None).

(** One write that records a request for the stage, on the leaf of that UID. *)
Definition claim_write (key : NamespacedName) (stage uid : string) (k k' : KubeState) : Prop :=
  ∃ l l', leaf_object k key = Some l ∧ leaf_object k' key = Some l' ∧ kube_after k k'
    ∧ leaf_UID l = uid ∧ leaf_UID l' = uid ∧ requested stage l = false ∧ requested stage l' = true
    ∧ (leafManaged l = true → ∃ admission control, authority l admission control
         ∧ adm_State admission = UpgradeManagerAdmissionGranted
         ∧ ctl_Pause control = false ∧ ctl_Cancel control = false
         ∧ claimed_under stage l l' admission control).

Lemma addClaim_spec l stage epoch revision now l' :
  addManagedMutationClaim l stage epoch revision now = inl l' →
  manager_same l l' ∧ leaf_Status l' = leaf_Status l ∧ leaf_key l' = leaf_key l ∧ hasClaim l stage = false
  ∧ ∃ admission, ms_ManagerAdmission (leaf_Managed l) = Some admission
      ∧ ms_ManagedMutationClaims (leaf_Managed l')
        ≡ₚ {| clm_Stage := stage; clm_ReservationID := adm_ReservationID admission; clm_PolicyEpoch := epoch;
              clm_ControlRevision := revision; clm_ClaimedAt := now |} :: ms_ManagedMutationClaims (leaf_Managed l).
Proof using.
  unfold addManagedMutationClaim. destruct (ms_ManagerAdmission _) as [admission|] eqn:Hadm; [|done].
  case_match; [done|]. case_match eqn:Hc; [done|]. intros [= <-]. split; [done|]. do 3 (split; [done|]).
  exists admission. split; [done|]. cbn. rewrite sort_by_keys_perm. by rewrite Permutation_app_comm.
Qed.

(** What [prepareManagedMutationClaim] leaves to write, given the leaf it read. *)
Definition prepared (stage : string) (now : Time) (cur l : Leaf) : Prop :=
  manager_same cur l ∧ leaf_Status l = leaf_Status cur
  ∧ (leafManaged cur = true → ∃ admission control, authority cur admission control
       ∧ adm_State admission = UpgradeManagerAdmissionGranted
       ∧ ctl_Pause control = false ∧ ctl_Cancel control = false ∧ hasClaim cur stage = false
       ∧ ms_ManagedMutationClaims (leaf_Managed l)
         ≡ₚ {| clm_Stage := stage; clm_ReservationID := adm_ReservationID admission;
               clm_PolicyEpoch := adm_PolicyEpoch admission; clm_ControlRevision := ctl_Revision control;
               clm_ClaimedAt := now |} :: ms_ManagedMutationClaims (leaf_Managed cur)).

Lemma prepare_follows key up cur stage now s s' res :
  was_stored key cur (server s) → leaf_key cur = key →
  prepareManagedMutationClaim env r endpoint up cur stage now s = (s', res) →
  kube_after (server s) (server s')
  ∧ (∀ l, res = inl (ClaimReady l) → prepared stage now cur l)
  ∧ (∀ up', res = inl (ClaimRefused up') → ∃ l, up' = copyStatus up l).
Proof using LS Henv.
  intros Hwas Hkey. unfold prepareManagedMutationClaim. intros Hp.
  apply bind_inv in Hp as (s1 & d & He & Hp). cbv beta in Hp.
  assert (kube_after (server s) (server s1)) as H1 by (pose proof (reads_evaluate cur s) as Hr; by rewrite He in Hr).
  destruct (dec_applies d) eqn:Hap; cbn [negb] in Hp.
  2: { apply ret_inv in Hp as [-> ->]. split; [done|]. split; [|done]. intros l [= <-]. split; [done|]. split; [done|].
       by rewrite (evaluate_applies _ _ _ _ He Hap). }
  apply bind_inv in Hp as (s2 & d' & Hc & Hp). cbv beta in Hp.
  assert (kube_after (server s) (server s2)) as H2.
  { etrans; [exact H1|]. pose proof (reads_claimDecision cur stage d now s1) as Hr. by rewrite Hc in Hr. }
  destruct (dec_allowClaim d') eqn:Hal; cbn [negb] in Hp.
  - destruct (claimDecision_allows _ _ _ _ _ _ _ Hc Hal) as [-> Had].
    destruct (addManagedMutationClaim _ _ _ _ _) as [l|e] eqn:Hadd; apply ret_inv in Hp as [-> ->]; [|done].
    split; [done|]. split; [|done]. intros l' [= <-].
    apply addClaim_spec in Hadd as (Hms & Hst & _ & Hno & adm' & Hadm' & Hcl).
    set (dc := decide_as d _ _ _ _ _). destruct (worker_control_same l dc now) as (Hms' & Hst' & Hcl' & _).
    split; [by eapply manager_same_trans|]. split; [by rewrite Hst'|]. intros Hman.
    destruct (evaluate_allows _ _ _ _ He Had) as [[_ Hm]|(_ & adm & ctl & Hauth & Hg & Hpa & Hca & Hep & Hrev)];
      [congruence|].
    exists adm, ctl. split_and!; try done. rewrite Hcl', Hcl, Hep, Hrev.
    destruct (Hauth) as (Hadm & _). rewrite Hadm in Hadm'. by injection Hadm' as <-.
  - pose proof (recordDenial_kept cur d' now) as Hden. destruct (recordDenial cur d' now) as [l changed].
    destruct Hden as (Hkept & Hver & Hk). cbn [fst] in *.
    destruct changed; cbn [negb] in Hp; [|apply ret_inv in Hp as [-> ->]; split_and!; [done|done|by intros ? [= <-]; exists l]].
    apply bind_inv in Hp as (s3 & res' & Hu & Hp). rewrite Hk, Hkey in Hu.
    apply (update_follows key cur) in Hu as [H3 _]; [|by eapply leaf_was_stored_after|done|done].
    destruct res' as [new|e]; apply ret_inv in Hp as [-> ->]; (split; [by etrans|]); split; try done.
    intros up' [= <-]. by exists new.
Qed.

(** What every attempt establishes from the invariant, and keeps after an error, the loop
    establishes. *)
Lemma retry_invariant {T} (f : nat → T → T * option goerror) (I : T → Prop) (Q : T → option goerror → Prop) t t' e :
  (∀ i t t' e, I t → f i t = (t', e) → Q t' e ∧ (e ≠ None → I t')) →
  RetryOnConflict f t = (t', e) → I t → Q t' e.
Proof using RS.
  intros Hstep Ha%retry_attempts. induction Ha as [i t t' e Hf|i t t1 e1 t' e Hf _ _ IH]; intros HI;
    destruct (Hstep _ _ _ _ HI Hf) as [HQ Hn]; [done|]. by apply IH, Hn.
Qed.

Lemma getLeaf_stored key s s' cur :
  getLeaf env r key s = (s', inl cur) → kube_after (server s) (server s') ∧ was_stored key cur (server s').
Proof using LS Henv.
  unfold getLeaf, read, call. intros [= <- Hg]. cbn [server]. split; [apply Henv|].
  case_match; [|by apply leaf_client_past]. eexists. split; [reflexivity|by apply leaf_reader_current].
Qed.

Lemma cas_uid up cur : upgradeStatusCASMatches up cur = true → leaf_UID cur = leaf_UID up.
Proof using.
  unfold upgradeStatusCASMatches. case_match eqn:Hc; [done|]. intros _. go_bool. destruct_and!.
  match goal with H : managedStatusCASMatches _ _ = true |- _ => unfold managedStatusCASMatches in H; revert H end.
  case_match eqn:Hu; [done|]. intros _. apply negb_false_iff, bool_decide_eq_true in Hu. done.
Qed.

(** The write of a claim that was prepared. *)
Lemma claim_written key op now cur l s s' new :
  was_stored key cur (server s) → claim_submitted op cur = false → prepared (claim_stage op) now cur l →
  Status_Update env key (claim_record op now l) s = (s', inl new) →
  ∃ k, kube_after (server s) k ∧ claim_write key (claim_stage op) (leaf_UID cur) k (server s').
Proof using CS LS Henv.
  intros Hwas Hsub (Hms & Hst & Hauth) Hu.
  destruct (claim_record_manager op now l) as (Ha & Hc & Hv & _).
  assert (leaf_kept cur (claim_record op now l)) as Hkept.
  { eapply kept_trans; [|apply claim_record_kept]. by apply manager_same_kept. }
  eapply update_follows in Hu as [_ Hw]; [|exact Hwas|exact Hkept|by rewrite Hv; destruct Hms as (_ & _ & -> & _)].
  destruct (Hw new eq_refl) as (k & Hk & Hk' & Hcur & Hnew & Heq). exists k. split; [done|].
  exists cur, new. split_and!; try done.
  - by rewrite Heq.
  - by apply claim_not_requested.
  - rewrite Heq, requested_stored, claim_record_requested, (bool_decide_true (claim_stage op = _)) by done.
    by rewrite orb_true_r.
  - intros Hman. destruct (Hauth Hman) as (adm & ctl & Hau & Hg & Hp & Hca & Hno & Hcl). exists adm, ctl.
    split_and!; try done.
    assert (ms_ManagedMutationClaims (leaf_Managed new) ≡ₚ
      {| clm_Stage := claim_stage op; clm_ReservationID := adm_ReservationID adm; clm_PolicyEpoch := adm_PolicyEpoch adm;
         clm_ControlRevision := ctl_Revision ctl; clm_ClaimedAt := stored_time now |}
      :: ms_ManagedMutationClaims (leaf_Managed cur)) as Hnewcl.
    { rewrite Heq. cbn [stored_update leaf_Managed stored_managed ms_ManagedMutationClaims].
      rewrite claim_record_claims, Hcl, fmap_cons.
      destruct Hwas as (k0 & _ & Ho). apply leaf_stored in Ho. apply (f_equal ms_ManagedMutationClaims) in Ho.
      cbn in Ho. by rewrite Ho. }
    eexists. split_and!; [| | | |exact Hnewcl|]; try done. intros Hrec Hat. cbn [clm_ClaimedAt] in Hat.
    assert (recorded new) as Hrec'.
    { apply (claim_record_recorded op now l); [by eapply recorded_status|by rewrite Heq|].
      intros stage. by rewrite Heq, requested_stored. }
    split; [done|]. destruct Hau as (Hadm & _ & _ & Hep & Hrev & Hcov).
    eapply (coverage_claimed cur new adm _ (claim_stage op)); [done|done|done| |done|done| | |exact Hnewcl|].
    + rewrite Heq. cbn. rewrite Ha. by destruct Hms as (-> & _).
    + done.
    + unfold valid_claim; cbn. split_and!; try done; try lia. by rewrite claim_stage_known.
    + intros stage. rewrite Heq, requested_stored, claim_record_requested. unfold requested. by rewrite Hst.
Qed.

(** What one attempt leaves. *)
Definition attempted (op : claim_op) (key : NamespacedName) (uid : string) (k : KubeState) (vars : claimVars)
    (k' : KubeState) : Prop :=
  kube_after k k' ∧ leaf_key (cv_up vars) = key ∧ leaf_UID (cv_up vars) = uid
  ∧ (cv_claimed vars = true →
     ∃ k1 k2, kube_after k k1 ∧ claim_write key (claim_stage op) uid k1 k2 ∧ kube_after k2 k').

Lemma claimBody_follows op key now vars s s' vars' e :
  leaf_key (cv_up vars) = key → cv_claimed vars = false →
  claimBody env r endpoint (claim_submitted op) (claim_stage op) (claim_record op now) now vars s = (s', (vars', e)) →
  attempted op key (leaf_UID (cv_up vars)) (server s) vars' (server s') ∧ (e ≠ None → cv_claimed vars' = false).
Proof using CS LS Henv.
  intros Hkey Hcl. unfold claimBody. intros Hb. apply bind_inv in Hb as (s1 & res & Hg & Hb).
  assert (∀ vars1 s2 e2, kube_after (server s) (server s2) → cv_claimed vars1 = false → leaf_key (cv_up vars1) = key →
    leaf_UID (cv_up vars1) = leaf_UID (cv_up vars) → (s2, (vars1, e2)) = (s', (vars', e)) →
    attempted op key (leaf_UID (cv_up vars)) (server s) vars' (server s') ∧ (e ≠ None → cv_claimed vars' = false)) as Hstop.
  { intros vars1 s2 e2 Ha Hc Hk Hu [= -> -> ->]. split; [|done]. split_and!; try done. by rewrite Hc. }
  assert (kube_after (server s) (server s1)) as H1.
  { unfold getLeaf, read, call in Hg. injection Hg as <- _. apply Henv. }
  destruct res as [cur|e1]; cbv beta in Hb.
  2: { case_match; (eapply (Hstop _ s1); [done| | | |exact Hb]); done. }
  rewrite Hkey in Hg. destruct (getLeaf_stored _ _ _ _ Hg) as [_ Hwas].
  assert (leaf_key cur = key) as Hck by (destruct Hwas as (k0 & _ & Ho); by eapply leaf_object_key).
  case_match; [(eapply (Hstop _ s1); [done| | | |exact Hb]); done|].
  destruct (upgradeStatusCASMatches _ _) eqn:Hcas; cbn [negb] in Hb;
    [|(eapply (Hstop _ s1); [done| | | |exact Hb]); done].
  destruct (claim_submitted op cur) eqn:Hsub; cbn [orb] in Hb; [(eapply (Hstop _ s1); [done| | | |exact Hb]); done|].
  case_match; [(eapply (Hstop _ s1); [done| | | |exact Hb]); done|].
  apply bind_inv in Hb as (s2 & ready & Hp & Hb). cbv beta in Hb.
  eapply prepare_follows in Hp as (H2 & Hready & Href); [|exact Hwas|exact Hck].
  assert (kube_after (server s) (server s2)) as H12 by (by etrans).
  destruct ready as [[l|up']|e2].
  - apply bind_inv in Hb as (s3 & res & Hu & Hb). cbv beta in Hb. rewrite Hkey in Hu.
    specialize (Hready l eq_refl). assert (was_stored key cur (server s2)) as Hwas2 by (by eapply leaf_was_stored_after).
    assert (kube_after (server s2) (server s3)) as H3.
    { destruct Hready as (Hms & Hst & _). eapply (update_follows key cur) in Hu as [? _]; try done.
      - eapply kept_trans; [by apply manager_same_kept|apply claim_record_kept].
      - destruct (claim_record_manager op now l) as (_ & _ & -> & _). by destruct Hms as (_ & _ & -> & _). }
    destruct res as [new|e3]; [|(eapply (Hstop _ s3); [by etrans| | | |exact Hb]); done].
    apply ret_inv in Hb as [-> [= -> ->]]. split; [|done]. split_and!; [by etrans|done|done|]. intros _.
    destruct (claim_written key op now cur l s2 s3 new) as (k & Hk & Hw); [done|done|done|done|].
    rewrite <- (cas_uid _ _ Hcas). exists k, (server s3). split_and!; [by etrans|done|reflexivity].
  - destruct (Href up' eq_refl) as [l ->]. (eapply (Hstop _ s2); [done| | | |exact Hb]); done.
  - (eapply (Hstop _ s2); [done| | | |exact Hb]); done.
Qed.

Lemma run_claim_follows op now up s s' up' res :
  run_claim env r endpoint op now up s = (s', up', res) →
  kube_after (server s) (server s') ∧ leaf_key up' = leaf_key up ∧ leaf_UID up' = leaf_UID up
  ∧ ∀ deleting, res = inl (true, deleting) →
      ∃ k k', kube_after (server s) k ∧ claim_write (leaf_key up) (claim_stage op) (leaf_UID up) k k'
        ∧ kube_after k' (server s').
Proof using CS LS Henv RS.
  rewrite run_claim_with. unfold claimWith. set (f := λ _ _, _). set (vars0 := {| cv_claimed := _ |}).
  destruct (RetryOnConflict f (s, vars0)) as [[s1 vars] e] eqn:Hr. intros Hres.
  eapply (retry_invariant f
    (λ st, attempted op (leaf_key up) (leaf_UID up) (server s) st.2 (server st.1) ∧ cv_claimed st.2 = false)
    (λ st _, attempted op (leaf_key up) (leaf_UID up) (server s) st.2 (server st.1))) in Hr as (Ha & Hk & Hu & Hc).
  2: { intros j [t1 v1] st2 e2 [(Hka & Hkey & Huid & _) Hcl]. unfold f. cbn [fst snd] in *.
       destruct (claimBody _ _ _ _ _ _ _ _ _) as [t2 [v2 e3]] eqn:Hb. intros [= <- <-]. cbn [fst snd].
       eapply claimBody_follows in Hb as [(Ha & Hk & Hu & Hc) He]; [|exact Hkey|exact Hcl]. rewrite Huid in *.
       assert (attempted op (leaf_key up) (leaf_UID up) (server s) v2 (server t2)) as Hat; [|auto].
       split_and!; try done; [by etrans|]. intros Ht. destruct (Hc Ht) as (k1 & k2 & ? & ? & ?).
       exists k1, k2. split_and!; [by etrans|done|done]. }
  2: { split; [|done]. split_and!; try done. }
  destruct e as [e|]; injection Hres as <- <- <-; split_and!; try done.
  intros deleting [= Hcl _]. by apply Hc.
Qed.

(** ** The other writes of the worker *)

Lemma gateBody_follows now vars s s' vars' e :
  gateBody env r endpoint now vars s = (s', (vars', e)) →
  kube_after (server s) (server s') ∧ (e ≠ None → leaf_key (gv_up vars') = leaf_key (gv_up vars)).
Proof using LS Henv.
  unfold gateBody. intros Hb. apply bind_inv in Hb as (s1 & res & Hg & Hb). cbv beta in Hb.
  assert (kube_after (server s) (server s1)) as H1.
  { unfold getLeaf, read, call in Hg. injection Hg as <- _. apply Henv. }
  destruct res as [cur|e1]; [|by apply ret_inv in Hb as [-> [= -> ->]]].
  destruct (getLeaf_stored _ _ _ _ Hg) as [_ Hwas]. apply bind_inv in Hb as (s2 & d & He & Hb). cbv beta in Hb.
  assert (kube_after (server s1) (server s2)) as H2 by (pose proof (reads_evaluate cur s1) as Hr; by rewrite He in Hr).
  assert (kube_after (server s) (server s2)) as H12 by (by etrans).
  do 2 (case_match; [by apply ret_inv in Hb as [-> [= -> ->]]|]).
  apply bind_inv in Hb as (s3 & res & Hu & Hb). cbv beta in Hb.
  eapply (update_follows (leaf_key (gv_up vars)) cur) in Hu as [H3 _]; [|by eapply leaf_was_stored_after| |done].
  - destruct res; apply ret_inv in Hb as [-> [= -> ->]]; (split; [by etrans|done]).
  - by apply manager_same_kept.
Qed.

Lemma gate_follows up now s s' up' res :
  syncManagedLeafGate env r endpoint up now s = (s', up', res) → kube_after (server s) (server s').
Proof using LS Henv RS.
  unfold syncManagedLeafGate. case_match; [by intros [= <- _ _]|]. case_match.
  { destruct (evaluateManagedLeaf _ _ _ _ _) as [s1 d] eqn:He. intros [= <- _ _].
    pose proof (reads_evaluate up s) as Hr. by rewrite He in Hr. }
  set (f := λ _ _, _). set (vars0 := {| gv_up := up |}).
  destruct (RetryOnConflict f (s, vars0)) as [[s1 vars] e] eqn:Hr. intros Hres.
  eapply (retry_invariant f (λ st, kube_after (server s) (server st.1)) (λ st _, kube_after (server s) (server st.1))) in Hr.
  - destruct e; injection Hres as <- _ _; done.
  - intros j [t1 v1] st2 e2 Ha. unfold f. destruct (gateBody _ _ _ _ _ _) as [t2 [v2 e3]] eqn:Hb. intros [= <- <-].
    apply gateBody_follows in Hb as [Hb _]. assert (kube_after (server s) (server t2)) by (by etrans). done.
  - simpl. reflexivity.
Qed.

(** What a write of the phase machine changed: a leaf that matched the caller's token and
    was not terminal. *)
Definition phase_write (up : Leaf) (mutate : Leaf → Leaf) (k k' : KubeState) : Prop :=
  ∃ l l', leaf_object k (leaf_key up) = Some l ∧ leaf_object k' (leaf_key up) = Some l' ∧ kube_after k k'
    ∧ upgradeStatusCASMatches up l = true ∧ terminalUpgradePhase (leaf_Phase l) = false
    ∧ l' = stored_update l (observedGeneration (mutate l)) (leaf_ResourceVersion l').

(** What an attempt leaves in the variables. *)
Definition updated_as (up : Leaf) (mutate : Leaf → Leaf) (k : KubeState) (vars : updateVars) (k' : KubeState) : Prop :=
  kube_after k k'
  ∧ (uv_updated vars = true → ∃ k1 k2 l, kube_after k k1 ∧ phase_write up mutate k1 k2 ∧ kube_after k2 k'
       ∧ leaf_object k1 (leaf_key up) = Some l ∧ uv_beforePhase vars = leaf_Phase up
       ∧ uv_afterPhase vars = leaf_Phase (mutate l)).

Lemma updateBody_follows up mutate vars s s' vars' e :
  (∀ l, leaf_kept l (mutate l) ∧ leaf_ResourceVersion (mutate l) = leaf_ResourceVersion l) →
  uv_updated vars = false →
  updateBody env r up mutate vars s = (s', (vars', e)) →
  updated_as up mutate (server s) vars' (server s') ∧ (e ≠ None → uv_updated vars' = false).
Proof using LS Henv.
  intros Hmut Hv. unfold updateBody. intros Hb. apply bind_inv in Hb as (s1 & res & Hg & Hb). cbv beta in Hb.
  assert (kube_after (server s) (server s1)) as H1.
  { unfold getLeaf, read, call in Hg. injection Hg as <- _. apply Henv. }
  destruct res as [cur|e1]; [|apply ret_inv in Hb as [-> [= -> ->]]; unfold updated_as; by rewrite Hv].
  destruct (getLeaf_stored _ _ _ _ Hg) as [_ Hwas].
  case_match eqn:Hskip; [apply ret_inv in Hb as [-> [= -> ->]]; unfold updated_as; cbn; by rewrite Hv|].
  apply orb_false_iff in Hskip as [Hcas Hterm]. apply negb_false_iff in Hcas.
  apply bind_inv in Hb as (s2 & res & Hu & Hb). cbv beta in Hb. destruct (Hmut cur) as [Hkept Hver].
  eapply (update_follows (leaf_key up) cur) in Hu as [H2 Hw]; [|done| |done].
  - destruct res as [new|e2]; apply ret_inv in Hb as [-> [= -> ->]]; unfold updated_as; cbn.
    2: { rewrite Hv. split; [|done]. split; [by etrans|done]. }
    split; [|done]. split; [by etrans|]. intros _.
    destruct (Hw new eq_refl) as (k & Hk & Hk' & Ho & Ho' & Heq). exists k, (server s2), cur.
    split_and!; [by etrans| |reflexivity|done| |done].
    + by exists cur, new.
    + unfold upgradeStatusCASMatches in Hcas. case_match eqn:Hc; [done|]. go_bool. by destruct_and!.
  - eapply kept_trans; [exact Hkept|]. by apply manager_same_kept.
Qed.

Lemma updateStatus_follows up mutate s s' res :
  (∀ l, leaf_kept l (mutate l) ∧ leaf_ResourceVersion (mutate l) = leaf_ResourceVersion l) →
  updateStatus env r up mutate s = (s', res) →
  kube_after (server s) (server s')
  ∧ ∀ warning reason message, res = inl (Some (warning, reason, message)) →
      ∃ k k' l, kube_after (server s) k ∧ phase_write up mutate k k' ∧ kube_after k' (server s')
        ∧ leaf_object k (leaf_key up) = Some l ∧ leaf_Phase (mutate l) ≠ leaf_Phase up
        ∧ warning = isTerminalFailurePhase (leaf_Phase (mutate l)).
Proof using LS Henv RS.
  intros Hmut. unfold updateStatus. set (f := λ _ _, _). set (vars0 := {| uv_updated := false |}).
  destruct (RetryOnConflict f (s, vars0)) as [[s1 vars] e] eqn:Hr. intros Hres.
  eapply (retry_invariant f (λ st, kube_after (server s) (server st.1) ∧ uv_updated st.2 = false)
    (λ st _, updated_as up mutate (server s) st.2 (server st.1))) in Hr as [Ha Hw].
  2: { intros j [t1 v1] st2 e2 [Ha Hv]. unfold f. destruct (updateBody _ _ _ _ _ _) as [t2 [v2 e3]] eqn:Hb.
       intros [= <- <-]. apply (updateBody_follows up mutate v1) in Hb as [[Hb Hw] He]; [|done|done].
       assert (kube_after (server s) (server t2)) as Ha2 by (by etrans). split; [|auto]. split; [done|].
       intros Ht. destruct (Hw Ht) as (k1 & k2 & l & Hk1 & ?). exists k1, k2, l. split; [etrans; [exact Ha|exact Hk1]|done]. }
  2: { split; [reflexivity|done]. }
  destruct e as [e|]; [by injection Hres as <- <-|].
  case_match eqn:Hemit; injection Hres as <- <-; split; try done.
  intros warning reason message [= <- _ _]. rewrite !andb_true_iff in Hemit. destruct Hemit as [[Hu _] Hne].
  destruct (Hw Hu) as (k1 & k2 & l & H1 & Hpw & H2 & Ho & Hb & Haf). exists k1, k2, l.
  cbn [snd] in Hb, Haf. rewrite Hb, Haf in Hne. rewrite Haf. go_bool. by split_and!.
Qed.
End worker.
