(* ===== verification/LeafTheorems.v ===== *)
(** * Managed leaves: properties

    What the claim functions of reconciler.go and managed.go promise: a mutation is
    claimed in one write, under the manager's grant, at most once, and never after a
    cancellation. *)

From S2P Require Import Prelude GoLib GoTime Json Interfaces LedgerData Store AdminPolicyHash SortKeys Identity.
From S2P Require Import Quarantine TopologyLock Leaf LeafClaim LeafMarks LeafProofs.

(** ** The claims of an execution *)

Section execution.
Context {KA : KubeAPI} {LA : @LeafAPI KA}.
Context (kube_after : KubeState → KubeState → Prop) {LS : LeafAPISpec kube_after}.

(** What happens to the leaf of the key on the server: the others write, and workers
    claim, each claim a stage on the leaf of one UID. *)
Inductive execution (key : NamespacedName) : KubeState → list (string * string) → KubeState → Prop :=
  | exec_done k : execution key k [] k
  | exec_other k k1 events k' :
      kube_after k k1 → execution key k1 events k' → execution key k events k'
  | exec_claim k k1 stage uid events k' :
      claim_write kube_after key stage uid k k1 → execution key k1 events k' →
      execution key k ((stage, uid) :: events) k'.

Lemma claim_write_after key stage uid k k' : claim_write kube_after key stage uid k k' → kube_after k k'.
Proof using. by intros (l & l' & _ & _ & ? & _). Qed.

Lemma execution_after key k events k' : execution key k events k' → kube_after k k'.
Proof using LS.
  induction 1 as [|???????IH|?????????IH]; [reflexivity|by etrans|].
  etrans; [by eapply claim_write_after|done].
Qed.

Lemma execution_app key k1 events1 k2 events2 k3 :
  execution key k1 events1 k2 → execution key k2 events2 k3 → execution key k1 (events1 ++ events2) k3.
Proof using. induction 1; intros; [done|eapply exec_other; eauto|eapply exec_claim; eauto]. Qed.

(** The write of a claim that an execution has. *)
Lemma execution_claims key k events k' stage uid :
  execution key k events k' → (stage, uid) ∈ events →
  ∃ k1 k2, kube_after k k1 ∧ claim_write kube_after key stage uid k1 k2.
Proof using LS.
  induction 1 as [k|k k1 events k' Ha _ IH|k k1 stage' uid' events k' Hw _ IH]; intros Hin.
  - by apply not_elem_of_nil in Hin.
  - destruct (IH Hin) as (k2 & k3 & ? & ?). exists k2, k3. split; [by etrans|done].
  - apply elem_of_cons in Hin as [[= -> ->]|Hin]; [exists k, k1; split; [reflexivity|done]|].
    destruct (IH Hin) as (k2 & k3 & ? & ?). exists k2, k3. split; [|done].
    etrans; [by eapply claim_write_after|done].
Qed.

(** The leaf that a claim finds has everything that any earlier one had. *)
Lemma claim_finds key stage uid k l k1 k2 :
  leaf_object k key = Some l → leaf_UID l = uid → kube_after k k1 → claim_write kube_after key stage uid k1 k2 →
  ∃ l1, leaf_kept l l1 ∧ requested stage l1 = false
    ∧ (leafManaged l1 = true → cancelled l1 = false).
Proof using LS.
  intros Hl Hu Ha (l1 & l2 & H1 & _ & _ & Hu1 & _ & Hno & _ & Hauth). exists l1.
  split; [eapply leaf_after_kept; [exact Ha|done|done|congruence]|]. split; [done|].
  intros Hm. destruct (Hauth Hm) as (admission & control & (_ & Hc & _) & _ & _ & Hcancel & _).
  unfold cancelled. by rewrite Hc.
Qed.

Lemma requested_not_claimed key k events k' stage l :
  execution key k events k' → leaf_object k key = Some l → requested stage l = true →
  (stage, leaf_UID l) ∉ events.
Proof using LS.
  intros He Hl Hr Hin. destruct (execution_claims _ _ _ _ _ _ He Hin) as (k1 & k2 & Ha & Hw).
  destruct (claim_finds _ _ _ _ _ _ _ Hl eq_refl Ha Hw) as (l1 & (Hk & _) & Hno & _). specialize (Hk _ Hr). congruence.
Qed.

Lemma cancelled_not_claimed key k events k' stage l :
  execution key k events k' → leaf_object k key = Some l → leafManaged l = true → cancelled l = true →
  (stage, leaf_UID l) ∉ events.
Proof using LS.
  intros He Hl Hm Hc Hin. destruct (execution_claims _ _ _ _ _ _ He Hin) as (k1 & k2 & Ha & Hw).
  destruct (claim_finds _ _ _ _ _ _ _ Hl eq_refl Ha Hw) as (l1 & (_ & Hkc & Hkm) & _ & Hno).
  rewrite Hkc in Hno by done. by specialize (Hno (Hkm Hm)).
Qed.
End execution.

Lemma execution_once {KA : KubeAPI} {LA : @LeafAPI KA} (kube_after : KubeState → KubeState → Prop)
    {LS : LeafAPISpec kube_after} key k events k' :
  execution kube_after key k events k' → NoDup events.
Proof.
  induction 1 as [k|k k1 events k' Ha _ IH|k k1 stage uid events k' Hw He IH]; [constructor|done|].
  apply NoDup_cons. split; [|done]. destruct Hw as (l & l' & _ & Hl' & _ & _ & <- & _ & Hr & _).
  by eapply requested_not_claimed.
Qed.

Section calls.
Context `{HL : HashLib, CL : ConditionLib} {CS : ConditionLibSpec CL}.
Context {KA : KubeAPI} {RL : @RetryLib KA} {RS : RetryLibSpec RL} {LA : @LeafAPI KA}.
Context (kube_after : KubeState → KubeState → Prop) {LS : LeafAPISpec kube_after}.

(** The claims that the claim functions report for the leaf of the key: any workers call
    them, one after the other or while other workers' claims ([calls_write]) and other
    writes ([calls_other] and [env]) come between. *)
Inductive claim_calls (key : NamespacedName) : KubeState → list (string * string) → KubeState → Prop :=
  | calls_done k : claim_calls key k [] k
  | calls_other k k1 events k' :
      kube_after k k1 → claim_calls key k1 events k' → claim_calls key k events k'
  | calls_write k k1 stage uid events k' :
      claim_write kube_after key stage uid k k1 → claim_calls key k1 events k' →
      claim_calls key k ((stage, uid) :: events) k'
  | calls_call env r endpoint op now up s s' up' res events k' :
      (∀ n k, kube_after k (env n k)) → leaf_key up = key →
      run_claim env r endpoint op now up s = (s', up', res) →
      claim_calls key (server s') events k' →
      claim_calls key (server s)
        (match res with inl (true, _) => [(claim_stage op, leaf_UID up)] | _ => [] end ++ events) k'.

(** A call is the write of its claim, or none. *)
Lemma call_executes env r endpoint op now up s s' up' res :
  (∀ n k, kube_after k (env n k)) →
  run_claim env r endpoint op now up s = (s', up', res) →
  execution kube_after (leaf_key up) (server s)
    match res with inl (true, _) => [(claim_stage op, leaf_UID up)] | _ => [] end (server s')
  ∧ leaf_key up' = leaf_key up ∧ leaf_UID up' = leaf_UID up.
Proof using CS LS RS.
  intros Henv Hrun. apply (run_claim_follows kube_after env Henv) in Hrun as (Ha & Hk & Hu & Hc).
  split; [|done]. assert (execution kube_after (leaf_key up) (server s) [] (server s')) as Hnone.
  { eapply exec_other; [exact Ha|constructor]. }
  destruct res as [[[] deleting]|e]; [|done|done].
  destruct (Hc deleting eq_refl) as (k & k' & H1 & Hw & H2).
  eapply exec_other; [exact H1|]. eapply exec_claim; [exact Hw|]. eapply exec_other; [exact H2|constructor].
Qed.

Lemma calls_execute key k events k' : claim_calls key k events k' → execution kube_after key k events k'.
Proof using CS LS RS.
  induction 1 as [k|k k1 events k' Ha _ IH|k k1 stage uid events k' Hw _ IH|env r endpoint op now up s s' up' res events k' Henv <- Hrun _ IH].
  - constructor.
  - by eapply exec_other.
  - by eapply exec_claim.
  - eapply execution_app; [by eapply call_executes|done].
Qed.
End calls.

(** C20: a device mutation is claimed at most once.  However many workers call the claim
    functions for a leaf, and whatever they and the other writers do in between, as long
    as those take nothing back: no stage is claimed twice for one UID; a stage that the
    leaf had on record is not claimed again; and once a managed leaf is cancelled,
    nothing is ever claimed for it. *)
Theorem claims_at_most_once `{HL : HashLib, CL : ConditionLib} {CS : ConditionLibSpec CL}
    {KA : KubeAPI} {RL : @RetryLib KA} {RS : RetryLibSpec RL} {LA : @LeafAPI KA}
    (kube_after : KubeState → KubeState → Prop) {LS : LeafAPISpec kube_after} key k events k' :
  claim_calls kube_after key k events k' →
  NoDup events
  ∧ ∀ l, leaf_object k key = Some l →
      (∀ stage, requested stage l = true → (stage, leaf_UID l) ∉ events)
      ∧ (leafManaged l = true → cancelled l = true → ∀ stage, (stage, leaf_UID l) ∉ events).
Proof.
  intros Hc. pose proof (calls_execute kube_after key k events k' Hc) as He. split; [by eapply execution_once|].
  intros l Hl. split; intros; [by eapply requested_not_claimed|by eapply cancelled_not_claimed].
Qed.

(** C26: the worker's writes follow that protocol.  Whatever the others do between any
    two calls to the API server, and whatever conflicts and lost answers there are, each
    of [claimStaging], [claimInstallAttempt], [claimActivation] and
    [claimRollbackActivation] that reports a claim has written it exactly once: on the
    leaf of the caller's UID, from a state without the request to one with it, and for a
    managed leaf under a Granted admission that was neither paused nor cancelled in the
    state that was written, adding the one claim of its reservation, policy epoch and
    control revision, and keeping claims and markers in step.  A call that does not
    report a claim takes nothing back, nor does acknowledging the manager, nor a status
    update of the phase machine whose callback takes nothing back; when that one reports
    a new phase, it has written what the callback makes of a leaf that matched the
    caller's compare-and-swap token and was not terminal, and warns exactly of the
    failure phases. *)
Theorem claim_is_one_write `{HL : HashLib, CL : ConditionLib} {CS : ConditionLibSpec CL}
    {KA : KubeAPI} {RL : @RetryLib KA} {RS : RetryLibSpec RL} {LA : @LeafAPI KA}
    (kube_after : KubeState → KubeState → Prop) {LS : LeafAPISpec kube_after} env r endpoint :
  (∀ n k, kube_after k (env n k)) →
  (∀ op now up s s' up' res,
     run_claim env r endpoint op now up s = (s', up', res) →
     execution kube_after (leaf_key up) (server s)
       match res with inl (true, _) => [(claim_stage op, leaf_UID up)] | _ => [] end (server s')
     ∧ leaf_key up' = leaf_key up ∧ leaf_UID up' = leaf_UID up)
  ∧ (∀ up now s s' up' res,
       syncManagedLeafGate env r endpoint up now s = (s', up', res) → kube_after (server s) (server s'))
  ∧ (∀ up mutate s s' res,
       (∀ l, leaf_kept l (mutate l) ∧ leaf_ResourceVersion (mutate l) = leaf_ResourceVersion l) →
       updateStatus env r up mutate s = (s', res) →
       kube_after (server s) (server s')
       ∧ ∀ warning reason message, res = inl (Some (warning, reason, message)) →
           ∃ k k' l, kube_after (server s) k ∧ phase_write kube_after up mutate k k' ∧ kube_after k' (server s')
             ∧ leaf_object k (leaf_key up) = Some l ∧ leaf_Phase (mutate l) ≠ leaf_Phase up
             ∧ warning = isTerminalFailurePhase (leaf_Phase (mutate l))).
Proof.
  intros Henv. split_and!.
  - intros op now up s s' up' res. by apply call_executes.
  - intros up now s s' up' res. by apply gate_follows.
  - intros up mutate s s' res. by apply updateStatus_follows.
Qed.

(** ** Decisions *)

(** The grant lets a worker that is bound to the leaf claim. *)
Definition claimable (l : Leaf) (admission : UpgradeManagerAdmissionStatus) (control : UpgradeManagerControlStatus)
  : Prop :=
  terminalUpgradePhase (leaf_Phase l) = false ∧ adm_State admission = UpgradeManagerAdmissionGranted
  ∧ ctl_Cancel control = false ∧ ctl_Pause control = false.

(** The worker keeps observing what it has asked the device for. *)
Definition observing (l : Leaf) (admission : UpgradeManagerAdmissionStatus) : Prop :=
  managedMutationNeedsObservation l = true
  ∧ (adm_State admission = UpgradeManagerAdmissionGranted ∨ adm_State admission = UpgradeManagerAdmissionRevoked).

Lemma boundDecision_table `{ConditionLib} {KA : KubeAPI} (r : Reconciler) l admission control :
  let d := boundDecision r l admission control in
  let terminal := terminalUpgradePhase (leaf_Phase l) = true in
  let inFlight := managedMutationNeedsObservation l = true in
  (dec_allowClaim d = true ↔ claimable l admission control)
  ∧ (dec_allowProgress d = true ↔ terminal ∨ claimable l admission control ∨ observing l admission)
  ∧ (dec_effectiveState d = UpgradeWorkerControlCancelled ↔
       ¬ terminal ∧ ctl_Cancel control = true
       ∧ (adm_State admission = UpgradeManagerAdmissionPending
          ∨ ¬ inFlight ∧ (adm_State admission = UpgradeManagerAdmissionGranted
                          ∨ adm_State admission = UpgradeManagerAdmissionRevoked))).
Proof.
  unfold claimable, observing, boundDecision.
  destruct (terminalUpgradePhase (leaf_Phase l)) eqn:Ht.
  { destruct (managedTerminalMutationSettled l); cbn; naive_solver. }
  unfold UpgradeManagerAdmissionGranted, UpgradeManagerAdmissionPending, UpgradeManagerAdmissionRevoked,
    UpgradeManagerAdmissionSettled, UpgradeWorkerControlCancelled. generalize (adm_State admission). intros state.
  destruct (ctl_Cancel control), (ctl_Pause control), (managedMutationNeedsObservation l); cbn [andb orb].
  all: destruct (decide (state = "Granted")) as [->|?]; [vm_compute; naive_solver|].
  all: destruct (decide (state = "Pending")) as [->|?]; [vm_compute; naive_solver|].
  all: destruct (decide (state = "Revoked")) as [->|?]; [vm_compute; naive_solver|].
  all: rewrite !(bool_decide_false (state = _)) by done; cbn; case_bool_decide; cbn; naive_solver.
Qed.

(** A request on record is a mutation that was submitted. *)
Lemma submitted_requested l stage : UpgradeMutationSubmitted (Some (leaf_Upgrade l)) = false → requested stage l = false.
Proof.
  unfold UpgradeMutationSubmitted. do 3 (match goal with |- (if ?c then _ else _) = _ → _ => destruct c; [done|] end).
  match goal with |- (if ?c then _ else _) = _ → _ => destruct c eqn:Hor; [done|] end. intros _.
  rewrite !orb_false_iff in Hor. destruct_and!.
  unfold requested, leaf_Status. repeat match goal with H : _ = false |- _ => rewrite H; clear H end.
  by rewrite !andb_false_r.
Qed.

Lemma releasable l d :
  managedCancellationCanReleaseMutationLease l d = true →
  dec_applies d = true ∧ dec_effectiveState d = UpgradeWorkerControlCancelled ∧ cancelled l = true
  ∧ ms_ManagedMutationClaims (leaf_Managed l) = [] ∧ ∀ stage, requested stage l = false.
Proof.
  unfold managedCancellationCanReleaseMutationLease. case_match eqn:Hg; [done|].
  rewrite !orb_false_iff, !negb_false_iff in Hg. destruct Hg as [[[[Ha _] He] Hc] Hs]. go_bool.
  unfold cancelled. repeat case_match; try done. intros Hr. rewrite !andb_true_iff in Hr. destruct_and!.
  split_and!; try done; [|intros; by apply submitted_requested].
  apply Z.eqb_eq in Hc. by destruct (ms_ManagedMutationClaims _).
Qed.

Section decisions.
Context `{HL : HashLib, CL : ConditionLib} {KA : KubeAPI} {LA : @LeafAPI KA}.
Context (env : nat → KubeState → KubeState) (r : Reconciler) (endpoint : Secret → string → option goerror).

(** A managed worker and a managed leaf, and the binding between the leaf, its grant and
    the live objects holds. *)
Definition bound_to (l : Leaf) (s : Calls) (admission : UpgradeManagerAdmissionStatus)
    (control : UpgradeManagerControlStatus) : Prop :=
  rc_ManagedTopology r = true ∧ leafManaged l = true
  ∧ (validateManagedLeafBinding env r endpoint l s).2 = None
  ∧ ms_ManagerAdmission (leaf_Managed l) = Some admission ∧ ms_ManagerControl (leaf_Managed l) = Some control.

(** The decision is the one on a binding, that of a standalone worker, or a denial. *)
Lemma evaluate_cases l s d :
  (evaluateManagedLeaf env r endpoint l s).2 = d →
  (∃ admission control, bound_to l s admission control ∧ d = boundDecision r l admission control)
  ∨ ((∀ admission control, ¬ bound_to l s admission control)
     ∧ ((rc_ManagedTopology r = false ∧ leafManaged l = false ∧ d = standaloneDecision)
        ∨ ((rc_ManagedTopology r = true ∨ leafManaged l = true)
           ∧ ∃ denied message, d = deniedDecision r l denied message))).
Proof using.
  unfold evaluateManagedLeaf, bound_to. intros <-.
  destruct (rc_ManagedTopology r) eqn:Hm, (leafManaged l) eqn:Hl; cbn [negb andb].
  2,3,4: right; split; [naive_solver|cbn; eauto 8].
  unfold mbind, API_bind. destruct (validateManagedLeafBinding env r endpoint l s) as [s1 err] eqn:Hb. cbn [snd].
  destruct err as [e|]; [right; split; [naive_solver|cbn; eauto 8]|].
  destruct (leaf_binding env r endpoint _ _ _ Hb) as (admission & control & Ha & Hc & _). rewrite Ha, Hc.
  left. by exists admission, control.
Qed.

Lemma bound_only l s admission control (Q : UpgradeManagerAdmissionStatus → UpgradeManagerControlStatus → Prop) :
  bound_to l s admission control →
  (∃ admission control, bound_to l s admission control ∧ Q admission control) ↔ Q admission control.
Proof using.
  intros Hb. split; [|by eauto]. intros (a & c & (_ & _ & _ & Ha & Hc) & HQ).
  destruct Hb as (_ & _ & _ & Ha' & Hc'). assert (a = admission ∧ c = control) as [-> ->] by (split; congruence). done.
Qed.

Lemma bound_none l s (Q : UpgradeManagerAdmissionStatus → UpgradeManagerControlStatus → Prop) :
  (∀ admission control, ¬ bound_to l s admission control) →
  ¬ ∃ admission control, bound_to l s admission control ∧ Q admission control.
Proof using. intros Hno (a & c & Hb & _). by eapply Hno. Qed.

(** C29: what the manager's grant lets a worker do.  A claim is allowed exactly on a leaf
    that neither the manager nor the worker takes for managed, or under a binding that
    holds, with a Granted admission, neither paused nor cancelled, before the leaf is
    terminal; progress is allowed beyond that exactly to report a terminal leaf and to
    observe a mutation that is under way when the grant was paused, cancelled or
    revoked; a cancellation that the manager asked for is acknowledged exactly under a
    binding that holds, before the leaf is terminal, when the admission is Pending, or when
    it is Granted or Revoked and no mutation is under way.  The worker gives its mutation lease back on
    cancellation only for a managed leaf that is cancelled, without claims and without any
    request on record. *)
Theorem worker_decisions l s d :
  (evaluateManagedLeaf env r endpoint l s).2 = d →
  let standalone := rc_ManagedTopology r = false ∧ leafManaged l = false in
  let terminal := terminalUpgradePhase (leaf_Phase l) = true in
  let inFlight := managedMutationNeedsObservation l = true in
  (dec_allowClaim d = true ↔
     standalone ∨ ∃ admission control, bound_to l s admission control ∧ claimable l admission control)
  ∧ (dec_allowProgress d = true ↔
       standalone ∨ ∃ admission control, bound_to l s admission control
         ∧ (terminal ∨ claimable l admission control ∨ observing l admission))
  ∧ (dec_effectiveState d = UpgradeWorkerControlCancelled ↔
       ∃ admission control, bound_to l s admission control ∧ ¬ terminal ∧ ctl_Cancel control = true
         ∧ (adm_State admission = UpgradeManagerAdmissionPending
            ∨ ¬ inFlight ∧ (adm_State admission = UpgradeManagerAdmissionGranted
                            ∨ adm_State admission = UpgradeManagerAdmissionRevoked)))
  ∧ (managedCancellationCanReleaseMutationLease l d = true →
       leafManaged l = true ∧ cancelled l = true
       ∧ ms_ManagedMutationClaims (leaf_Managed l) = [] ∧ ∀ stage, requested stage l = false).
Proof using.
  intros Hd standalone terminal inFlight.
  destruct (evaluate_cases _ _ _ Hd) as [(adm & ctl & Hb & ->)|(Hno & Hcase)].
  - assert (¬ standalone) as Hst by (unfold standalone; destruct Hb as (-> & _); by intros []).
    destruct (boundDecision_table r l adm ctl) as (T1 & T2 & T3). rewrite T1, T2, T3.
    split_and!; [by rewrite (bound_only _ _ _ _ _ Hb); tauto..|].
    intros (_ & _ & ? & ? & ?)%releasable. split_and!; try done. apply Hb.
  - pose proof (λ Q, bound_none _ _ Q Hno) as Hnone.
    destruct Hcase as [(Hm & Hl & ->)|(Hs & b & msg & ->)]; cbn.
    + split_and!; [by split; [left|]..| |done]. by split; [|intros ?%Hnone].
    + assert (¬ standalone) as Hst by (unfold standalone; destruct Hs as [->| ->]; by intros []).
      split_and!; [by split; [|intros [?|?%Hnone]]..| |by intros (_ & ? & _)%releasable]. by split; [|intros ?%Hnone].
Qed.
End decisions.
