(* ===== verification/LeafExamples.v ===== *)
(** * Managed leaves: a reference server

    A server of leaves: a log of writes, newest first, that takes nothing back; and
    reference conditions.  The witnesses claim the staging of a managed leaf on it. *)

From S2P Require Import Prelude GoLib GoTime Json Interfaces LedgerData LedgerExamples Store StoreTheorems.
From S2P Require Import AdminPolicyHash PolicyExamples SortKeys Identity Quarantine TopologyLock.
From S2P Require Import Leaf LeafClaim LeafMarks LeafProofs LeafTheorems.

(** ** Conditions *)

(** The first condition of the type is updated; the transition time is that of the last
    change of status. *)
Fixpoint ref_set_condition (cs : list Condition) (c : Condition) : list Condition :=
  match cs with
  | [] => [c]
  | c0 :: cs =>
      if cond_Type c0 == cond_Type c
      then {| cond_Type := cond_Type c; cond_Status := cond_Status c; cond_Reason := cond_Reason c;
              cond_Message := cond_Message c;
              cond_LastTransitionTime := if cond_Status c0 == cond_Status c then cond_LastTransitionTime c0
                                         else cond_LastTransitionTime c;
              cond_ObservedGeneration := cond_ObservedGeneration c |} :: cs
      else c0 :: ref_set_condition cs c
  end.

Definition ref_condition_true (cs : list Condition) (type : string) : bool :=
  match filter (λ c, cond_Type c = type) cs with
  | c :: _ => cond_Status c == "True"
  | [] => false
  end.

#[export] Instance condition_reference : ConditionLib :=
  {| SetStatusCondition := ref_set_condition; IsStatusConditionTrue := ref_condition_true |}.

#[export] Instance condition_reference_spec : ConditionLibSpec condition_reference.
Proof.
  split; simpl; intros cs c.
  - intros c'. induction cs as [|c0 cs IH]; simpl; [by intros ?%not_elem_of_nil|].
    intros [->|Hin]%elem_of_cons Hne; [rewrite bool_decide_false by done; by left|].
    case_match; right; auto.
  - induction cs as [|c0 cs (c' & Hin & ?)]; simpl; [exists c; split; [by left|done]|].
    case_match; [eexists; split; [by left|done]|]. exists c'. split; [by right|done].
  - intros c'. induction cs as [|c0 cs IH]; simpl.
    + intros ->%list_elem_of_singleton. by right.
    + case_match; (intros [->|Hin]%elem_of_cons); [by right|left; by right|left; by left|].
      destruct (IH Hin); [left; by right|by right].
Qed.

(** ** Leaves *)

#[export] Instance UpgradeDrainObjectReference_eq_dec : EqDecision UpgradeDrainObjectReference.
Proof. solve_decision. Defined.
#[export] Instance UpgradeDrainPDBStatus_eq_dec : EqDecision UpgradeDrainPDBStatus.
Proof. solve_decision. Defined.
#[export] Instance UpgradeDrainPodStatus_eq_dec : EqDecision UpgradeDrainPodStatus.
Proof. solve_decision. Defined.
#[export] Instance UpgradeManagerDrainStatus_eq_dec : EqDecision UpgradeManagerDrainStatus.
Proof. solve_decision. Defined.
#[export] Instance ManagedStatus_eq_dec : EqDecision ManagedStatus.
Proof. solve_decision. Defined.

Definition leaf_log : Type := list (NamespacedName * Leaf).

Fixpoint leaflog_latest (log : leaf_log) (k : NamespacedName) : option (Leaf * nat) :=
  match log with
  | [] => None
  | (k', l) :: log => if k == k' then Some (l, length log) else leaflog_latest log k
  end.

Definition leaf_typed (k : NamespacedName) (l : Leaf) : bool :=
  (leaf_key l == k) && (stored_managed (leaf_Managed l) == leaf_Managed l).

Definition leaf_version (l : Leaf) (version : string) : Leaf :=
  {| leaf_Upgrade := leaf_Upgrade l; leaf_Managed := leaf_Managed l; leaf_Spec := leaf_Spec l;
     leaf_Annotations := leaf_Annotations l; leaf_Generation := leaf_Generation l;
     leaf_Deleting := leaf_Deleting l; leaf_ResourceVersion := version |}.

(** Writes that are not in their stored form are not shown. *)
Definition leaflog_object (log : leaf_log) (k : NamespacedName) : option Leaf :=
  '(l, n) ← leaflog_latest log k;
  if leaf_typed k l then Some (leaf_version l (unary (S n))) else None.

Definition leafMissing : goerror := EPlain "not found".

Definition leaflog_get (log : leaf_log) (k : NamespacedName) : Leaf + goerror :=
  match leaflog_object log k with Some l => inl l | None => inr leafMissing end.

Definition leaflog_update (log : leaf_log) (k : NamespacedName) (l : Leaf) : leaf_log * (Leaf + goerror) :=
  match leaflog_object log k with
  | None => (log, inr leafMissing)
  | Some cur =>
      return_if (leaf_ResourceVersion cur != leaf_ResourceVersion l) (log, inr (EPlain "conflict")) ;;
      let new := stored_update cur l (unary (S (length log))) in
      ((k, new) :: log, inl new)
  end.

(** A write of a leaf takes nothing back from the one before. *)
Definition leaflog_step (log log' : leaf_log) : Prop :=
  ∃ k l, log' = (k, l) :: log
    ∧ ∀ l0 n, leaflog_latest log k = Some (l0, n) → leaf_UID l0 = leaf_UID l ∧ leaf_kept l0 l.

Definition leaflog_after : leaf_log → leaf_log → Prop := rtc leaflog_step.

Lemma leaflog_latest_bound log k l n : leaflog_latest log k = Some (l, n) → (n < length log)%nat.
Proof.
  induction log as [|[k' l'] log IH]; simpl; [done|]. case_match; intros Hl; simplify_eq; [lia|].
  apply IH in Hl. lia.
Qed.

(** Later writes keep what an earlier one has; the write of a version is one. *)
Lemma leaflog_after_latest log log' k l n :
  leaflog_after log log' → leaflog_latest log k = Some (l, n) →
  ∃ l' n', leaflog_latest log' k = Some (l', n') ∧ leaf_UID l = leaf_UID l' ∧ leaf_kept l l'
    ∧ (n ≤ n')%nat ∧ (n = n' → l = l').
Proof.
  intros Ha. revert l n. induction Ha as [log|log log1 log' (k1 & l1 & -> & Hstep) _ IH]; intros l n Hl.
  { exists l, n. split_and!; [done|done|apply kept_refl|lia|done]. }
  pose proof (leaflog_latest_bound _ _ _ _ Hl) as Hn.
  destruct (decide (k = k1)) as [->|Hne].
  - destruct (Hstep _ _ Hl) as [Hu Hk].
    destruct (IH l1 (length log)) as (l' & n' & H1 & H2 & H3 & H4 & _); [simpl; by rewrite bool_decide_true|].
    exists l', n'. split_and!; [done|congruence|by eapply kept_trans|lia|lia].
  - apply IH. simpl. by rewrite bool_decide_false.
Qed.

(** ** The server *)

Definition leaf_reference : KubeAPI := {|
  KubeState := leaf_log;
  kube_object _ _ := None;
  kube_reader_Get _ _ := inr leafMissing;
  kube_client_Get _ _ := inr leafMissing;
  kube_Patch s _ _ _ := (s, inr leafMissing);
  IsConflict e := e == EPlain "conflict";
|}.

Definition leaf_retry : @RetryLib leaf_reference :=
  @Build_RetryLib leaf_reference (λ T f s, @ref_retry leaf_reference T 3 0 f s).

#[export] Instance leaf_retry_spec : @RetryLibSpec leaf_reference leaf_retry.
Proof. split. intros T f s s' e. apply (@ref_retry_attempts leaf_reference). Qed.

(** One device, its Node and its credentials, and no Pods. *)
Definition leaf_server (device : BoundDevice) (node : BoundNode) (secret : Secret) : @LeafAPI leaf_reference :=
  {| leaf_object (s : @KubeState leaf_reference) := leaflog_object s;
     leaf_reader_Get (s : @KubeState leaf_reference) := leaflog_get s;
     leaf_client_Get (s : @KubeState leaf_reference) := leaflog_get s;
     leaf_StatusUpdate (s : @KubeState leaf_reference) k l :=
       let '(log, res) := leaflog_update s k l in (log : @KubeState leaf_reference, res);
     leaf_IsNotFound e := e == leafMissing;
     api_Device _ _ := inl device;
     api_Node _ _ := inl node;
     api_Secret _ _ := inl secret;
     api_Leaves (s : @KubeState leaf_reference) _ := inl (s.*2);
     api_Pods _ _ := inl [] |}.

Lemma stored_time_idemp t : stored_time (stored_time t) = stored_time t.
Proof. unfold stored_time. by rewrite Z.div_mul. Qed.

Lemma stored_claims_idemp (cs : list UpgradeManagedMutationClaimStatus) : stored_claim <$> (stored_claim <$> cs) = stored_claim <$> cs.
Proof.
  rewrite <- list_fmap_compose. apply list_fmap_ext. intros _ c _. unfold stored_claim. cbn. by rewrite stored_time_idemp.
Qed.

Lemma fmap_idemp {A} (f : A → A) (o : option A) : (∀ a, f (f a) = f a) → f <$> (f <$> o) = f <$> o.
Proof. intros Hf. destruct o as [a|]; [|done]. cbn. by rewrite Hf. Qed.

Lemma stored_managed_idemp m : stored_managed (stored_managed m) = stored_managed m.
Proof.
  unfold stored_managed. cbn. f_equal; try (apply fmap_idemp; intros a; cbn).
  - unfold stored_worker. cbn. by rewrite stored_time_idemp.
  - apply stored_claims_idemp.
  - unfold stored_request. cbn. by rewrite stored_time_idemp.
  - unfold stored_invalidation. cbn. by rewrite stored_time_idemp.
  - unfold stored_receipt. cbn. by rewrite !stored_time_idemp, stored_claims_idemp.
  - apply stored_time_idemp.
Qed.

Lemma leaflog_object_latest log k l :
  leaflog_object log k = Some l →
  ∃ l0 n, leaflog_latest log k = Some (l0, n) ∧ leaf_typed k l0 = true ∧ l = leaf_version l0 (unary (S n)).
Proof.
  unfold leaflog_object. destruct (leaflog_latest log k) as [[l0 n]|]; [|done]. simpl. case_match; [|done].
  intros [= <-]. by exists l0, n.
Qed.

(** An update that takes nothing back. *)
Lemma leaflog_update_ok log k l log' new :
  (∀ cur, leaflog_object log k = Some cur → leaf_ResourceVersion cur = leaf_ResourceVersion l → leaf_kept cur l) →
  leaflog_update log k l = (log', inl new) →
  leaflog_after log log' ∧ leaflog_object log' k = Some new
  ∧ ∃ cur, leaflog_object log k = Some cur ∧ leaf_ResourceVersion cur = leaf_ResourceVersion l
      ∧ new = stored_update cur l (leaf_ResourceVersion new).
Proof.
  unfold leaflog_update. intros Hkept. destruct (leaflog_object log k) as [cur|] eqn:Hcur; [|done].
  case_match eqn:Hv; [done|]. apply negb_false_iff, bool_decide_eq_true in Hv. intros [= <- <-].
  destruct (leaflog_object_latest _ _ _ Hcur) as (l0 & n & Hl & Ht & Heq).
  unfold leaf_typed in Ht. apply andb_true_iff in Ht as [Hk Hs]. go_bool.
  destruct (Hkept cur eq_refl Hv) as (Hr & Hc & _). split_and!.
  - apply rtc_once. exists k, (stored_update cur l (unary (S (length log)))). split; [done|].
    intros l0' n' Hl'. rewrite Hl in Hl'. injection Hl' as <- <-. subst cur. split; [done|]. split_and!; [exact Hr|exact Hc|done].
  - unfold leaflog_object. simpl. rewrite bool_decide_true by done. cbn [mbind option_bind].
    unfold leaf_typed. cbn [stored_update leaf_Managed]. rewrite stored_managed_idemp, (bool_decide_true (_ = stored_managed _)) by done.
    rewrite bool_decide_true; [done|]. by subst cur.
  - by exists cur.
Qed.

#[export] Instance leaf_server_spec device node secret :
  @LeafAPISpec leaf_reference (leaf_server device node secret) leaflog_after.
Proof.
  split; cbn [leaf_object leaf_reader_Get leaf_client_Get leaf_StatusUpdate leaf_server].
  - unfold leaflog_after. apply _.
  - intros s s' k l l' Ha Hl Hl' _.
    apply leaflog_object_latest in Hl as (l0 & n & Hl & _ & ->), Hl' as (l0' & n' & Hl' & _ & ->).
    destruct (leaflog_after_latest _ _ _ _ _ Ha Hl) as (l1 & n1 & H1 & _ & Hk & _).
    rewrite Hl' in H1. by injection H1 as <- <-.
  - intros s k l. unfold leaflog_get. case_match; [|done]. by intros [= ->].
  - intros s k l. unfold leaflog_get. case_match; [|done]. intros [= ->]. exists s. split; [apply rtc_refl|done].
  - intros s s' k l l' Ha Hl Hl' Hv.
    apply leaflog_object_latest in Hl as (l0 & n & Hl & _ & ->), Hl' as (l0' & n' & Hl' & _ & ->).
    apply unary_inj in Hv as [= ->].
    destruct (leaflog_after_latest _ _ _ _ _ Ha Hl) as (l1 & n1 & H1 & _ & _ & _ & Heq).
    rewrite Hl' in H1. injection H1 as <- <-. by rewrite Heq.
  - intros s k l (l0 & n & _ & Ht & ->)%leaflog_object_latest. unfold leaf_typed in Ht. go_bool. by destruct Ht.
  - intros s k l (l0 & n & _ & Ht & ->)%leaflog_object_latest. unfold leaf_typed in Ht. go_bool. by destruct Ht.
  - intros s k l s' new Hkept. destruct (leaflog_update s k l) as [log res] eqn:Hu. intros [= <- ->].
    by apply leaflog_update_ok in Hu.
  - intros s k l s' e _. destruct (leaflog_update s k l) as [log res] eqn:Hu. intros [= <- ->]. left.
    unfold leaflog_update in Hu. by repeat case_match; simplify_eq/=.
Qed.

(** ** A leaf of a campaign, and its worker *)

Definition exWorker : @Reconciler leaf_reference := {|
  rc_Reader := true; rc_DeviceName := "sw-1"; rc_DeviceNamespace := "fleet"; rc_DeviceUID := "dev-1";
  rc_NodeName := "node-1"; rc_ManagedTopology := true; rc_WorkerRevision := "rev-2"; rc_WorkerPodName := "worker-1";
  rc_WorkerPodUID := "pod-1"; rc_CredentialSecretRevision := "41"; rc_GNOITLSSecretRevision := "";
  rc_GNOIProvisioningRevision := ""; rc_DeviceTLSCARevision := "";
  rc_DevicePodLister := Some (λ _, inl [false]); rc_DrainDevicePodLister := None |}.

Definition exBoundDevice : BoundDevice := {|
  bd_Namespace := "fleet"; bd_UID := "dev-1"; bd_Generation := 4; bd_Driver := DeviceDriverXE;
  bd_PhysicalIdentity := "fcw2233a1b2"; bd_CredentialSecret := Some "login"; bd_GNOITLSSecret := None;
  bd_GNOIProvisioningSecret := None; bd_TLSCASecret := None;
  bd_NodeIdentity := Some ({| ni_DeviceUID := "dev-1"; ni_NodeName := "node-1"; ni_NodeUID := "node-uid" |},
                           "fcw2233a1b2");
  bd_WorkerRevision := Some {| wr_DesiredRevision := "rev-2"; wr_ObservedRevision := "rev-2"; wr_PodUID := "pod-1";
                               wr_PodStartTime := Some (2 * nsPerSecond); wr_ReadyTime := Some (3 * nsPerSecond) |};
  bd_NetworkWorkerRevision := None; bd_AcceptedNetwork := None |}.

Definition exWorkerAccount : string := "system:serviceaccount:fleet:worker".

Definition exBoundNode : BoundNode := {|
  bn_UID := "node-uid"; bn_MachineID := "FCW2233A1B2"; bn_SystemUUID := "";
  bn_Annotations := list_to_map
    [(AnnotationManaged, "true"); (AnnotationDeviceNamespace, "fleet"); (AnnotationDeviceName, "sw-1");
     (AnnotationDeviceUID, "dev-1"); (AnnotationNodeUID, "node-uid");
     (AnnotationWorkerProtocol, managedprotocol_Version); (AnnotationWorkerObservedRevision, "rev-2");
     (AnnotationWorkerUsername, exWorkerAccount)] |}.

Definition exSecret : Secret := {| sec_UID := "secret-uid"; sec_ResourceVersion := "41"; sec_Data := ∅ |}.

Definition exAdmission (state : string) : UpgradeManagerAdmissionStatus := {|
  adm_ProtocolVersion := ManagedUpgradeProtocolRolloutV1; adm_State := state; adm_CampaignUID := "campaign";
  adm_PlanHash := exHash; adm_PolicyUID := "policy-uid"; adm_PolicyResourceVersion := "v7"; adm_PolicyEpoch := 3;
  adm_RevocationReason := ""; adm_LedgerUID := "ledger-uid"; adm_ReservationID := "rsv-1";
  adm_TopologyLockID := exLock; adm_LeafUID := "leaf-1"; adm_DeviceUID := "dev-1"; adm_DeviceGeneration := 4;
  adm_PhysicalIdentity := "fcw2233a1b2"; adm_NodeUID := "node-uid"; adm_ControlRevision := Some 1;
  adm_NetworkEvidenceHash := ""; adm_NetworkEvidenceProducerRevision := "";
  adm_NetworkEvidenceWorkerPodUID := ""; adm_NetworkEvidenceSampleSequence := None;
  adm_NetworkEvidenceNotAfter := None; adm_UpdatedAt := 4 * nsPerSecond |}.

Definition exControl (cancel : bool) : UpgradeManagerControlStatus :=
  {| ctl_Revision := 1; ctl_Pause := false; ctl_Cancel := cancel; ctl_UpdatedAt := 4 * nsPerSecond; ctl_Reason := "" |}.

Definition exManaged (state : string) (cancel : bool) : ManagedStatus := {|
  ms_ManagerAdmission := Some (exAdmission state); ms_ManagerControl := Some (exControl cancel);
  ms_WorkerControl := None; ms_ManagerDrain := None; ms_ManagedMutationClaims := [];
  ms_ManagerInvalidation := None; ms_PreparedInvalidation := None; ms_PreparedReceipt := None;
  ms_SourceDigest := ""; ms_SourceSize := 0; ms_StagingOperationID := "op-1"; ms_RunningVersion := "17.15.1"; ms_PreviousVersion := "17.15.1";
  ms_ValidatedVersion := ""; ms_IndividualSupervisorInstall := false; ms_ActivationControlStartTime := None;
  ms_ObservedGeneration := 1; ms_Message := "" |}.

Definition exStatus : IOSXESoftwareUpgradeStatus := {|
  us_Phase := "Staging"; us_ExecutionModel := UpgradeExecutionModelAtMostOnceV1; us_FailureReason := "";
  us_StartTime := Some (4 * nsPerSecond); us_InstallStartTime := None; us_ActivationStartTime := None;
  us_RollbackStartTime := None; us_CompletionTime := None; us_TransferProgress := false;
  us_StagingRequested := false; us_PrimarySupervisorInstallRequested := false;
  us_PrimarySupervisorInstalled := false; us_StandbySupervisorInstallRequested := false;
  us_StandbySupervisorInstalled := false; us_StandbySupervisorActivationRequested := false;
  us_StandbySupervisorActivated := false; us_PrimarySupervisorActivationRequested := false;
  us_NoRebootActivationAccepted := false; us_RollbackActivationRequested := false; us_Conditions := [] |}.

Definition exLeaf (state : string) (cancel : bool) : Leaf := {|
  leaf_Upgrade := {| up_Namespace := "fleet"; up_Name := "leaf"; up_UID := "leaf-1"; up_CreationTimestamp := nsPerSecond;
                     up_DeviceRef := "sw-1"; up_Status := exStatus |};
  leaf_Managed := exManaged state cancel;
  leaf_Spec := {| spec_Strategy := "Rolling"; spec_TargetVersion := "17.18.2"; spec_Preinstalled := false; spec_RequireNetworkEvidence := false;
                  spec_MaxTransferBytesPerSecond := 0; spec_URL := "https://images/cat9k.bin"; spec_URLSecretRef := None |};
  leaf_Annotations := list_to_map
    [(AnnotationManaged, "true"); (AnnotationDeviceNamespace, "fleet"); (AnnotationDeviceName, "sw-1");
     (AnnotationDeviceUID, "dev-1"); (AnnotationDeviceGeneration, "4"); (AnnotationNodeName, "node-1");
     (AnnotationNodeUID, "node-uid"); (AnnotationWorkerUsername, exWorkerAccount);
     (AnnotationAppWorkerPodName, "worker-1"); (AnnotationAppWorkerPodUID, "pod-1");
     (AnnotationWorkerProtocol, managedprotocol_Version); (AnnotationCampaignUID, "campaign");
     (AnnotationPlanHash, exHash); (AnnotationLedgerUID, "ledger-uid"); (AnnotationReservationID, "rsv-1")];
  leaf_Generation := 1; leaf_Deleting := false; leaf_ResourceVersion := unary 1 |}.

Definition exLeafAPI : @LeafAPI leaf_reference := leaf_server exBoundDevice exBoundNode exSecret.
Definition exLeafKey : NamespacedName := ("fleet", "leaf").

(** The server with a leaf, before the worker's first call. *)
Definition exCalls (l : Leaf) : @Calls leaf_reference :=
  {| made := 0; server := [(exLeafKey, l)] : @KubeState leaf_reference |}.

Definition exClaim (l : Leaf) : @Calls leaf_reference * Leaf * ((bool * option Leaf) + goerror) :=
  run_claim (LA := exLeafAPI) (RL := leaf_retry) (λ _ k, k) exWorker (λ _ _, None)
    (ClaimStaging "stage the image") (5 * nsPerSecond) l (exCalls l).

Definition exGranted : Leaf := exLeaf "Granted" false.
Definition exCancelled : Leaf := exLeaf "Granted" true.

(** The granted leaf is claimed once; the cancelled one is not. *)
Example exClaim_once :
  (exClaim exGranted).2 = inl (true, None)
  ∧ (clm_Stage <$> ms_ManagedMutationClaims (leaf_Managed (exClaim exGranted).1.2)) = ["Staging"]
  ∧ (exClaim (exClaim exGranted).1.2).2 = inl (false, None)
  ∧ (exClaim exCancelled).2 = inl (false, None).
Proof. vm_compute. split_and!; reflexivity. Qed.

(** ** Witnesses *)

Definition exClaimed : @KubeState leaf_reference := server (exClaim exGranted).1.1.

(** The worker calls again, with the leaf that the first call left it. *)
Definition exClaimAgain : @Calls leaf_reference * Leaf * ((bool * option Leaf) + goerror) :=
  run_claim (LA := exLeafAPI) (RL := leaf_retry) (λ _ k, k) exWorker (λ _ _, None)
    (ClaimStaging "stage the image") (6 * nsPerSecond) (exClaim exGranted).1.2 (exClaim exGranted).1.1.

Lemma claim_is_one_write_witness :
  execution (LA := exLeafAPI) leaflog_after exLeafKey (server (exCalls exGranted)) [("Staging", "leaf-1")] exClaimed.
Proof.
  destruct (claim_is_one_write (LA := exLeafAPI) (RL := leaf_retry) leaflog_after (λ _ k, k) exWorker (λ _ _, None))
    as (Hc & _); [intros n k; apply rtc_refl|].
  apply (Hc (ClaimStaging "stage the image") (5 * nsPerSecond) exGranted (exCalls exGranted) (exClaim exGranted).1.1
    (exClaim exGranted).1.2 (inl (true, None))).
  vm_compute. reflexivity.
Defined.

(** The staging of the granted leaf, twice. *)
Lemma claims_at_most_once_witness : NoDup [("Staging", "leaf-1")].
Proof.
  apply (claims_at_most_once (LA := exLeafAPI) (RL := leaf_retry) leaflog_after exLeafKey (server (exCalls exGranted))
    [("Staging", "leaf-1")] (server exClaimAgain.1.1)).
  apply (calls_call (LA := exLeafAPI) (RL := leaf_retry) leaflog_after exLeafKey (λ _ k, k) exWorker (λ _ _, None)
    (ClaimStaging "stage the image") (5 * nsPerSecond) exGranted (exCalls exGranted) (exClaim exGranted).1.1
    (exClaim exGranted).1.2 (inl (true, None)) []); [intros n k; apply rtc_refl|reflexivity|vm_compute; reflexivity|].
  apply (calls_call (LA := exLeafAPI) (RL := leaf_retry) leaflog_after exLeafKey (λ _ k, k) exWorker (λ _ _, None)
    (ClaimStaging "stage the image") (6 * nsPerSecond) (exClaim exGranted).1.2 (exClaim exGranted).1.1
    exClaimAgain.1.1 exClaimAgain.1.2 (inl (false, None)) []);
    [intros n k; apply rtc_refl|vm_compute; reflexivity|vm_compute; reflexivity|constructor].
Defined.

(** The cancelled leaf, when its worker has acknowledged the cancellation. *)
Definition exDecision (l : Leaf) : managedLeafDecision :=
  (evaluateManagedLeaf (LA := exLeafAPI) (λ _ k, k) exWorker (λ _ _, None) l (exCalls l)).2.
Definition exAcknowledged : Leaf :=
  (applyWorkerControlDecision exCancelled (exDecision exCancelled) (6 * nsPerSecond)).1.

Lemma worker_decisions_witness :
  managedCancellationCanReleaseMutationLease exAcknowledged (exDecision exAcknowledged) = true
  ∧ cancelled exAcknowledged = true ∧ (∀ stage, requested stage exAcknowledged = false)
  ∧ dec_allowClaim (exDecision exGranted) = true.
Proof.
  destruct (worker_decisions (LA := exLeafAPI) (λ _ k, k) exWorker (λ _ _, None) exAcknowledged (exCalls exAcknowledged)
    (exDecision exAcknowledged)) as (_ & _ & _ & Hr); [reflexivity|].
  split; [vm_compute; reflexivity|]. destruct Hr as (_ & Hc & _ & Hq); [vm_compute; reflexivity|].
  split; [exact Hc|]. split; [exact Hq|]. vm_compute. reflexivity.
Defined.
