(* ===== verification/JsonFields.v ===== *)
(** * Fields of JSON objects

    [omitempty] fields of the struct types, that the text of an object determines the
    values of its fields, and that the hash of a text determines the text unless SHA-256
    collides. *)

From S2P Require Import Prelude GoLib GoTime Json JsonProofs Interfaces LedgerData LedgerCodec AdminPolicyHash SortKeys.
From S2P Require Import AdminPolicyHashProofs.

(** [omitempty] fields of type int64, bool and slice. *)
Definition optint (n : Z) : option json := if n =? 0 then None else Some (jint n).
Definition optbool (b : bool) : option json := if b then Some (JBool true) else None.
Definition optlist (l : list json) : option json := match l with [] => None | _ => Some (JArr l) end.

(** ** Objects by field *)

Lemma members_key k j fs : (k, j) ∈ members fs → k ∈ map fst fs.
Proof.
  induction fs as [|[k' [j'|]] fs IH]; cbn; [by intros ?%not_elem_of_nil| |].
  - intros [[= -> _]|Hin]%elem_of_cons; [by left|right; auto].
  - intros Hin. right. auto.
Qed.

(** The members of an object determine the values of its fields. *)
Lemma members_inj fs fs' :
  map fst fs = map fst fs' → NoDup (map fst fs) → members fs = members fs' → fs = fs'.
Proof.
  revert fs'. induction fs as [|[k o] fs IH]; intros [|[k' o'] fs'] Hk Hnd Hm; try done.
  cbn in Hk. injection Hk as <- Hk. cbn [map fst] in Hnd. apply NoDup_cons in Hnd as [Hni Hnd].
  destruct o as [j|], o' as [j'|]; cbn in Hm.
  - injection Hm as <- Hm. f_equal. by apply IH.
  - destruct Hni. rewrite Hk. apply (members_key _ j). rewrite <- Hm. by left.
  - destruct Hni. apply (members_key _ j'). rewrite Hm. by left.
  - f_equal. by apply IH.
Qed.

Lemma clean_fields fs :
  (∀ k o, (k, o) ∈ fs → ascii_string k ∧ ∀ j, o = Some j → clean j) → clean (JObj (members fs)).
Proof.
  induction fs as [|[k [j|]] fs IH]; intros Hall; [done| |].
  - destruct (Hall k (Some j)) as [Hk Hj]; [by left|]. split; [by split; [|apply Hj]|].
    apply IH. intros. apply Hall. by right.
  - apply IH. intros. apply Hall. by right.
Qed.

(** ** Values *)

Lemma jint_inj n n' : 0 ≤ n → 0 ≤ n' → jint n = jint n' → n = n'.
Proof.
  intros Hn Hn' [= He]. destruct (FormatInt_spec n Hn) as [_ <-], (FormatInt_spec n' Hn') as [_ <-]. by rewrite He.
Qed.

Lemma optstr_inj s s' : optstr s = optstr s' → s = s'.
Proof. unfold optstr. repeat case_bool_decide; naive_solver. Qed.

Lemma optint_inj n n' : 0 ≤ n → 0 ≤ n' → optint n = optint n' → n = n'.
Proof.
  intros Hn Hn'. unfold optint. destruct (Z.eqb_spec n 0), (Z.eqb_spec n' 0); try done; [congruence|].
  intros [= He]. apply jint_inj; [done|done|]. unfold jint. by rewrite He.
Qed.

Lemma optbool_inj b b' : optbool b = optbool b' → b = b'.
Proof. by destruct b, b'. Qed.

(** The numbers of two JSON texts agree. *)
Lemma number_inj n n' : 0 ≤ n → 0 ≤ n' → FormatInt n = FormatInt n' → n = n'.
Proof. intros ?? He. apply jint_inj; [done|done|]. unfold jint. by rewrite He. Qed.

Lemma optlist_inj l l' : optlist l = optlist l' → l = l'.
Proof. destruct l, l'; naive_solver. Qed.

(** Lists of elements with injective texts. *)
Lemma map_json_inj {A B} (js : A → json) (g : A → B) (P : A → Prop) l l' :
  (∀ a a', P a → P a' → js a = js a' → g a = g a') →
  Forall P l → Forall P l' → map js l = map js l' → map g l = map g l'.
Proof.
  intros Hinj Hl. revert l'. induction Hl as [|a l Ha Hl IH]; intros [|a' l'] Hl' He; try done.
  apply Forall_cons in Hl' as [Ha' Hl']. injection He as He1 He2. cbn. f_equal; auto.
Qed.

Lemma clean_str s j : ascii_string s → Some (JStr s) = Some j → clean j.
Proof. by intros ? [= <-]. Qed.

Lemma clean_optint n j : 0 ≤ n → optint n = Some j → clean j.
Proof. unfold optint. case_match; [done|]. intros Hn [= <-]. by apply clean_jint. Qed.

Lemma clean_optbool b j : optbool b = Some j → clean j.
Proof. destruct b; [by intros [= <-]|done]. Qed.

(** One goal for each field of an object; the fields of strings and numbers are clean, and
    those of the hint database. *)
Create HintDb clean.
Ltac clean_object :=
  repeat match goal with H : Forall _ (_ :: _) |- _ => apply Forall_cons in H as [? H] end;
  let Hin := fresh "Hin" in
  apply clean_fields; intros k o Hin;
  repeat (apply elem_of_cons in Hin as [[= -> ->]|Hin]; [split; [by repeat constructor|intros j Hj]|]);
  try (by apply not_elem_of_nil in Hin);
  try (by eauto using clean_str, clean_optstr, clean_optint, clean_optbool);
  try (match goal with H : Some _ = Some _ |- _ => injection H as <- end;
       first [done|by constructor|by apply clean_jint|by auto with clean]).

(** ** Sorting and maps *)

(** Sorting commutes with a map that keeps the keys. *)
Section sort_map.
Context {A B : Type} (f : A → B) (R : relation A) (R' : relation B) `{!RelDecision R, !RelDecision R'}.
Context (HR : ∀ a b, R a b ↔ R' (f a) (f b)).

Abbreviation fstack := (fmap (M := list) (fmap (M := option) (fmap (M := list) f))).

Lemma list_merge_fmap (l1 l2 : list A) : list_merge R' (f <$> l1) (f <$> l2) = f <$> list_merge R l1 l2.
Proof using HR.
  revert l2. induction l1 as [|x1 l1 IH1]; intros l2; [by rewrite fmap_nil, !list_merge_nil_l|].
  induction l2 as [|x2 l2 IH2]; [by rewrite fmap_nil, !list_merge_nil_r|].
  rewrite !fmap_cons, !list_merge_cons. rewrite (decide_ext (R' (f x1) (f x2)) (R x1 x2)) by (symmetry; apply HR).
  case_decide; rewrite fmap_cons; f_equal; [apply (IH1 (x2 :: l2))|apply IH2].
Qed.

Lemma merge_list_to_stack_fmap (st : list (option (list A))) (l : list A) :
  merge_list_to_stack R' (fstack st) (f <$> l) = fstack (merge_list_to_stack R st l).
Proof using HR.
  revert l. induction st as [|[l'|] st IH]; intros l; [done| |done].
  rewrite fmap_cons. cbn [merge_list_to_stack]. rewrite fmap_cons. cbn. f_equal. by rewrite list_merge_fmap, IH.
Qed.

Lemma merge_stack_fmap (st : list (option (list A))) : merge_stack R' (fstack st) = f <$> merge_stack R st.
Proof using HR.
  induction st as [|[l|] st IH]; [done| |done]. rewrite fmap_cons. cbn. by rewrite IH, list_merge_fmap.
Qed.

Lemma merge_sort_fmap (l : list A) : merge_sort R' (f <$> l) = f <$> merge_sort R l.
Proof using HR.
  unfold merge_sort. change (@nil (option (list B))) with (fstack []).
  generalize (@nil (option (list A))). induction l as [|x l IH]; intros st; cbn; [apply merge_stack_fmap|].
  rewrite <- IH. f_equal. apply (merge_list_to_stack_fmap st [x]).
Qed.
End sort_map.

Lemma sort_by_keys_fmap {A B} (f : A → B) (keys : A → list string) (keys' : B → list string) (l : list A) :
  (∀ a, keys' (f a) = keys a) → sort_by_keys keys' (f <$> l) = f <$> sort_by_keys keys l.
Proof. intros Hk. apply merge_sort_fmap. intros a b. unfold keys_le. by rewrite !Hk. Qed.

(** ** Hashes of texts *)

Lemma fromHexChar_digit n : 0 ≤ n < 16 → fromHexChar (hex_digit n) = Some n.
Proof.
  intros Hn. assert (Forall (λ n, fromHexChar (hex_digit n) = Some n) (seqZ 0 16)) as Hall by by repeat constructor.
  rewrite Forall_forall in Hall. apply Hall, elem_of_seqZ. lia.
Qed.

(** [hex.DecodeString] inverts [hex.EncodeToString]. *)
Lemma hex_DecodeString_Encode bs :
  Forall (λ b, 0 ≤ b < 256) bs → hex_DecodeString (hex_EncodeToString bs) = Some bs.
Proof.
  intros Hb. unfold hex_DecodeString, hex_EncodeToString. rewrite bytes_of_of.
  induction Hb as [|b l Hb _ IH]; csimpl; [done|].
  rewrite !fromHexChar_digit, IH by (Z.to_euclidean_division_equations; lia). do 2 f_equal.
  Z.to_euclidean_division_equations; lia.
Qed.

(** Two texts on which SHA-256 collides. *)
Definition collides `{HashLib} (s s' : string) : Prop := s ≠ s' ∧ Sum256 s = Sum256 s'.

(** Equal hashes: equal texts, or texts on which SHA-256 collides. *)
Lemma hash_inj `{HL : HashLib, HS : !HashLibSpec HL} s s' :
  "sha256:" +:+ hex_EncodeToString (Sum256 s) = "sha256:" +:+ hex_EncodeToString (Sum256 s') →
  s = s' ∨ collides s s'.
Proof.
  intros [= He]. change (hex_EncodeToString (Sum256 s) = hex_EncodeToString (Sum256 s')) in He.
  apply (f_equal hex_DecodeString) in He. rewrite !hex_DecodeString_Encode in He by apply Sum256_bytes.
  destruct (decide (s = s')); [by left|]. right. split; [done|congruence].
Qed.
