(* ===== verification/GraphDoc.v ===== *)
(** * The graph policy document

    src/internal/topologygraph/graph_policy.go: the administrator's graph.json is decoded
    strictly, validated and put into a canonical form, whose text is hashed. *)

From S2P Require Import Prelude GoLib GoTime Json JsonProofs Interfaces LedgerData LedgerCodec AdminPolicyHash.
From S2P Require Import AdminPolicyHashProofs SortKeys JsonFields Identity Graph GraphProofs GraphEdges GraphText.

Definition GraphPolicyVersion : string := "v1".
Definition MaxGraphPolicyBytes : Z := 256 * 1024.

Record GraphPolicyDocument := {
  gpd_Version : string;
  gpd_PeerMappings : list PeerIdentityMapping;
  gpd_DeclaredLinks : list DeclaredLink;
}.

(** ** JSON *)

Definition mapping_members (m : PeerIdentityMapping) : list (string * option json) :=
  [("source", Some (JStr (pim_Source m))); ("observedPeer", Some (JStr (pim_ObservedPeer m)));
   ("routingDomain", optstr (pim_RoutingDomain m)); ("physicalID", Some (JStr (pim_PhysicalID m)));
   ("external", optbool (pim_External m))].

Definition mapping_json (m : PeerIdentityMapping) : json := JObj (members (mapping_members m)).

Definition link_members (l : DeclaredLink) : list (string * option json) :=
  [("local", Some (JStr (dl_Local l))); ("peer", Some (JStr (dl_Peer l))); ("source", optstr (dl_Source l));
   ("interface", Some (JStr (dl_Interface l))); ("remoteInterface", Some (JStr (dl_RemoteInterface l)));
   ("routingDomain", optstr (dl_RoutingDomain l))].

Definition link_json (l : DeclaredLink) : json := JObj (members (link_members l)).

Definition document_members (d : GraphPolicyDocument) : list (string * option json) :=
  [("version", Some (JStr (gpd_Version d))); ("peerMappings", optlist (map mapping_json (gpd_PeerMappings d)));
   ("declaredLinks", optlist (map link_json (gpd_DeclaredLinks d)))].

Definition document_json (d : GraphPolicyDocument) : json := JObj (members (document_members d)).

(** A struct: [null] leaves it as it is, an object fills the fields that it names. *)
Definition dec_mapping (cur : PeerIdentityMapping) (j : json) : option PeerIdentityMapping :=
  match j with
  | JNull => Some cur
  | JObj ms =>
      return_if (negb (known_fields ["source"; "observedPeer"; "routingDomain"; "physicalID"; "external"] ms)) None ;;
      source ← dec_field dec_string "source" (pim_Source cur) ms;
      peer ← dec_field dec_string "observedPeer" (pim_ObservedPeer cur) ms;
      domain ← dec_field dec_string "routingDomain" (pim_RoutingDomain cur) ms;
      physical ← dec_field dec_string "physicalID" (pim_PhysicalID cur) ms;
      external ← dec_field dec_bool "external" (pim_External cur) ms;
      Some {| pim_Source := source; pim_ObservedPeer := peer; pim_RoutingDomain := domain;
              pim_PhysicalID := physical; pim_External := external |}
  | _ => None
  end.

Definition dec_link (cur : DeclaredLink) (j : json) : option DeclaredLink :=
  match j with
  | JNull => Some cur
  | JObj ms =>
      return_if (negb (known_fields ["local"; "peer"; "source"; "interface"; "remoteInterface"; "routingDomain"] ms))
        None ;;
      local ← dec_field dec_string "local" (dl_Local cur) ms;
      peer ← dec_field dec_string "peer" (dl_Peer cur) ms;
      source ← dec_field dec_string "source" (dl_Source cur) ms;
      iface ← dec_field dec_string "interface" (dl_Interface cur) ms;
      remote ← dec_field dec_string "remoteInterface" (dl_RemoteInterface cur) ms;
      domain ← dec_field dec_string "routingDomain" (dl_RoutingDomain cur) ms;
      Some {| dl_Local := local; dl_Peer := peer; dl_Source := source; dl_Interface := iface;
              dl_RemoteInterface := remote; dl_RoutingDomain := domain |}
  | _ => None
  end.

Definition zeroMapping : PeerIdentityMapping :=
  {| pim_Source := ""; pim_ObservedPeer := ""; pim_RoutingDomain := ""; pim_PhysicalID := ""; pim_External := false |}.

Definition zeroLink : DeclaredLink :=
  {| dl_Local := ""; dl_Peer := ""; dl_Source := ""; dl_Interface := ""; dl_RemoteInterface := ""; dl_RoutingDomain := "" |}.

Definition dec_document (j : json) : option GraphPolicyDocument :=
  match j with
  | JNull => Some {| gpd_Version := ""; gpd_PeerMappings := []; gpd_DeclaredLinks := [] |}
  | JObj ms =>
      return_if (negb (known_fields ["version"; "peerMappings"; "declaredLinks"] ms)) None ;;
      version ← dec_field dec_string "version" "" ms;
      mappings ← dec_field (dec_slice dec_mapping zeroMapping) "peerMappings" ([], 0%nat) ms;
      links ← dec_field (dec_slice dec_link zeroLink) "declaredLinks" ([], 0%nat) ms;
      Some {| gpd_Version := version; gpd_PeerMappings := take mappings.2 mappings.1;
              gpd_DeclaredLinks := take links.2 links.1 |}
  | _ => None
  end.

(** ** The canonical form *)

(** The loop over the mappings: an identity that is not one would become empty. *)
Definition normalizeMapping (m : PeerIdentityMapping) : PeerIdentityMapping := {|
  pim_Source := TrimSpace (pim_Source m); pim_ObservedPeer := TrimSpace (pim_ObservedPeer m);
  pim_RoutingDomain := TrimSpace (pim_RoutingDomain m);
  pim_PhysicalID := match CanonicalPhysicalIdentity (pim_PhysicalID m) with inl id => id | inr _ => "" end;
  pim_External := pim_External m |}.

Definition mapping_text (m : PeerIdentityMapping) : string := Marshal (mapping_json m).
Definition link_text (l : DeclaredLink) : string := Marshal (link_json l).

Definition ParseGraphPolicyDocument (raw : string) : GraphPolicyDocument + goerror :=
  return_if (TrimSpace raw == "") (inr (EPlain "graph.json is empty")) ;;
  return_if (MaxGraphPolicyBytes <? slen raw) (inr (EPlain "graph.json exceeds its bound")) ;;
  match parse_document raw ≫= dec_document with
  | None => inr (EPlain "decode graph.json")
  | Some document =>
      return_if (gpd_Version document != GraphPolicyVersion)
        (inr (EPlain "unsupported topology graph policy version")) ;;
      match validatedPeerMappings (gpd_PeerMappings document) DefaultGraphMaxPeerMappings with
      | inr e => inr e
      | inl _ =>
          match validatedDeclaredLinks (gpd_DeclaredLinks document) DefaultGraphMaxDeclaredLinks with
          | inr e => inr e
          | inl declared =>
              inl {| gpd_Version := gpd_Version document;
                     gpd_PeerMappings := sort_Slice mapping_text (map normalizeMapping (gpd_PeerMappings document));
                     gpd_DeclaredLinks := sort_Slice link_text declared |}
          end
      end
  end.

Definition CanonicalGraphPolicyJSON (document : GraphPolicyDocument) : string + goerror :=
  match ParseGraphPolicyDocument (Marshal (document_json document)) with
  | inr e => inr e
  | inl canonical => inl (Marshal (document_json canonical))
  end.

Definition GraphPolicyHash `{HashLib} (document : GraphPolicyDocument) : string + goerror :=
  match CanonicalGraphPolicyJSON document with
  | inr e => inr e
  | inl canonical => inl ("sha256:" +:+ hex_EncodeToString (Sum256 canonical))
  end.
