(* ===== verification/GraphDocProofs.v ===== *)
(** * The graph policy document: its canonical form *)

From S2P Require Import Prelude GoLib GoTime Json JsonProofs Interfaces LedgerData LedgerCodec AdminPolicyHash.
From S2P Require Import AdminPolicyHashProofs SortKeys JsonFields Identity Graph GraphProofs GraphEdges GraphText GraphDoc.
From S2P Require Import BootstrapProofs PolicyExamples.

(** ** Trimming twice *)

Lemma strip_prefix_app_r p k m l : strip_prefix p k = Some l → strip_prefix p (k ++ m) = Some (l ++ m).
Proof.
  revert k. induction p as [|a p IH]; intros [|b k]; cbn; try done; [by intros [= <-]..|].
  case_bool_decide; [|done]. apply IH.
Qed.

Lemma strip_any_app_r ps k m : strip_any ps (k ++ m) = None → strip_any ps k = None.
Proof.
  induction ps as [|p ps IH]; cbn; [done|]. destruct (strip_prefix p k) eqn:Hp.
  - by rewrite (strip_prefix_app_r _ _ _ _ Hp).
  - destruct (strip_prefix p (k ++ m)); [done|]. apply IH.
Qed.

Lemma strip_any_shorter ps l l' : [] ∉ ps → strip_any ps l = Some l' → (length l' < length l)%nat.
Proof.
  induction ps as [|p ps IH]; cbn; [done|]. intros [Hp Hps]%not_elem_of_cons.
  destruct (strip_prefix p l) as [k|] eqn:Hs; [|by apply IH]. intros [= ->].
  apply strip_prefix_app in Hs as ->. rewrite length_app. destruct p; [done|cbn; lia].
Qed.

Lemma trim_front_done n ps l : [] ∉ ps → (length l ≤ n)%nat → strip_any ps (trim_front n ps l) = None.
Proof.
  intros Hps. revert l. induction n as [|n IH]; intros l Hn; cbn [trim_front].
  - destruct l; [|cbn in Hn; lia]. destruct (strip_any ps []) eqn:Hs; [|done].
    apply strip_any_shorter in Hs; [cbn in Hs; lia|done].
  - destruct (strip_any ps l) as [l'|] eqn:Hs; [|done]. apply IH.
    apply strip_any_shorter in Hs; [lia|done].
Qed.

Lemma trim_front_stop n ps l : strip_any ps l = None → trim_front n ps l = l.
Proof. destruct n; cbn; [done|]. by intros ->. Qed.

Lemma runes_nonnil : ([] ∉ space_runes) ∧ ([] ∉ map (@rev _) space_runes).
Proof. split; apply (bool_decide_eq_true_1 _); vm_compute; reflexivity. Qed.

Lemma TrimSpace_idemp s : TrimSpace (TrimSpace s) = TrimSpace s.
Proof.
  destruct runes_nonnil. unfold TrimSpace. rewrite !bytes_of_of. set (f := trim_front (length (bytes_of s)) space_runes (bytes_of s)).
  set (u := trim_front (length (rev f)) (map (@rev _) space_runes) (rev f)).
  assert (strip_any space_runes f = None) as Hf by (by apply trim_front_done).
  assert (strip_any (map (@rev _) space_runes) u = None) as Hu by (by apply trim_front_done).
  assert (strip_any space_runes (rev u) = None) as Hr.
  { destruct (trim_front_suffix (length (rev f)) (map (@rev _) space_runes) (rev f)) as [k Hk]. fold u in Hk.
    apply (f_equal (@rev _)) in Hk. rewrite rev_involutive, rev_app_distr in Hk. rewrite Hk in Hf.
    by eapply strip_any_app_r. }
  rewrite (trim_front_stop _ _ (rev u)) by done. rewrite rev_involutive. by rewrite (trim_front_stop _ _ u).
Qed.

(** ** Valid mappings *)

(** A valid mapping, by its normal form. *)
Definition mapping_ok (m : PeerIdentityMapping) : Prop :=
  pim_Source m ≠ "" ∧ pim_ObservedPeer m ≠ "" ∧ pim_PhysicalID m ≠ ""
  ∧ slen (pim_Source m) ≤ MaxGraphFieldLength ∧ slen (pim_ObservedPeer m) ≤ MaxGraphFieldLength
  ∧ slen (pim_RoutingDomain m) ≤ MaxGraphFieldLength.

Lemma normalizeMapping_id m id :
  CanonicalPhysicalIdentity (pim_PhysicalID m) = inl id → normalizeMapping m = normalMapping m id.
Proof. unfold normalizeMapping, normalMapping. by intros ->. Qed.

Lemma mappingKey_normal m : mappingKey (normalizeMapping m) = mappingKey m.
Proof. unfold mappingKey. cbn -[TrimSpace peerMappingKey]. by rewrite !TrimSpace_idemp. Qed.

Lemma normalizeMapping_idemp m :
  pim_PhysicalID (normalizeMapping m) ≠ "" → normalizeMapping (normalizeMapping m) = normalizeMapping m.
Proof.
  unfold normalizeMapping. cbn -[TrimSpace CanonicalPhysicalIdentity]. rewrite !TrimSpace_idemp.
  destruct (CanonicalPhysicalIdentity (pim_PhysicalID m)) as [id|] eqn:Hc; [|done].
  by rewrite (Canonical_idemp _ _ Hc).
Qed.

Lemma peerMappingStep_iff result m :
  (∃ result', peerMappingStep result m = inl result') ↔ mapping_ok (normalizeMapping m) ∧ result !! mappingKey m = None.
Proof.
  unfold peerMappingStep, mapping_ok, normalizeMapping. fold (mappingKey m).
  cbn -[TrimSpace CanonicalPhysicalIdentity slen mappingKey].
  destruct (bool_decide_reflect (TrimSpace (pim_Source m) = "")); [naive_solver|].
  destruct (bool_decide_reflect (TrimSpace (pim_ObservedPeer m) = "")); [naive_solver|]. cbn [orb].
  destruct (Z.ltb_spec MaxGraphFieldLength (slen (TrimSpace (pim_Source m)))); [naive_solver lia|].
  destruct (Z.ltb_spec MaxGraphFieldLength (slen (TrimSpace (pim_ObservedPeer m)))); [naive_solver lia|].
  destruct (Z.ltb_spec MaxGraphFieldLength (slen (TrimSpace (pim_RoutingDomain m)))); [naive_solver lia|]. cbn [orb].
  destruct (CanonicalPhysicalIdentity (pim_PhysicalID m)) as [id|] eqn:Hc; [|naive_solver].
  apply Canonical_nonempty in Hc. destruct (result !! mappingKey m); naive_solver.
Qed.

Lemma fold_mappings_iff ms result :
  (∃ pm, fold_err peerMappingStep result ms = inl pm) ↔
  Forall mapping_ok (map normalizeMapping ms) ∧ NoDup (map mappingKey ms)
  ∧ ∀ m, m ∈ ms → result !! mappingKey m = None.
Proof.
  revert result. induction ms as [|m ms IH]; intros result; cbn [fold_err map].
  { split; [|eauto]. intros _. split_and!; [constructor|constructor|]. intros m Hm. by apply not_elem_of_nil in Hm. }
  rewrite Forall_cons, NoDup_cons. pose proof (peerMappingStep_iff result m) as Hs.
  destruct (peerMappingStep result m) as [result'|e] eqn:Hm.
  - destruct (proj1 Hs) as [Hok Hnone]; [eauto|]. rewrite IH.
    apply peerMappingStep_inv in Hm as (id & _ & _ & ->). split.
    + intros (Hall & Hnd & Hres). split_and!; [done|done| |done|].
      * intros (m' & Hk & Hin)%list_elem_of_fmap. specialize (Hres m' Hin). by rewrite Hk, lookup_insert_eq in Hres.
      * intros m' [->|Hin]%elem_of_cons; [done|]. specialize (Hres m' Hin).
        by apply lookup_insert_None in Hres as [? _].
    + intros ([_ Hall] & [Hni Hnd] & Hres). split_and!; [done|done|]. intros m' Hin.
      rewrite lookup_insert_ne; [apply Hres; by right|]. intros Hk. apply Hni. rewrite Hk. by apply list_elem_of_fmap_2.
  - split; [intros [? ?]; done|]. intros ([Hok _] & _ & Hres). destruct (proj2 Hs) as [? ?]; [|done].
    split; [done|]. apply Hres. by left.
Qed.

(** A list of mappings is accepted by its normal forms. *)
Lemma validatedPeerMappings_iff ms limit :
  (∃ pm, validatedPeerMappings ms limit = inl pm) ↔
  llen ms ≤ limit ∧ Forall mapping_ok (map normalizeMapping ms) ∧ NoDup (map mappingKey (map normalizeMapping ms)).
Proof.
  rewrite List.map_map, (List.map_ext (λ m, mappingKey (normalizeMapping m)) mappingKey) by apply mappingKey_normal.
  unfold validatedPeerMappings. destruct (Z.ltb_spec limit (llen ms)) as [Hl|Hl]; [naive_solver lia|].
  rewrite fold_mappings_iff. split; [naive_solver|]. intros (_ & ? & ?). split_and!; [done|done|]. intros. apply lookup_empty.
Qed.

(** ** Valid links *)

Definition canonicalOr (v : string) : string :=
  match CanonicalPhysicalIdentity v with inl id => id | inr _ => "" end.

Definition normalizeLink (l : DeclaredLink) : DeclaredLink := {|
  dl_Local := canonicalOr (TrimSpace (dl_Local l)); dl_Peer := canonicalOr (TrimSpace (dl_Peer l));
  dl_Source := TrimSpace (dl_Source l); dl_Interface := TrimSpace (dl_Interface l);
  dl_RemoteInterface := TrimSpace (dl_RemoteInterface l); dl_RoutingDomain := TrimSpace (dl_RoutingDomain l) |}.

Definition link_ok (l : DeclaredLink) : Prop :=
  dl_Local l ≠ "" ∧ dl_Peer l ≠ "" ∧ dl_Interface l ≠ "" ∧ dl_RemoteInterface l ≠ ""
  ∧ slen (dl_Source l) ≤ MaxGraphFieldLength ∧ slen (dl_Interface l) ≤ MaxGraphFieldLength
  ∧ slen (dl_RemoteInterface l) ≤ MaxGraphFieldLength ∧ slen (dl_RoutingDomain l) ≤ MaxGraphFieldLength.

Lemma canonicalOr_idemp v : canonicalOr (TrimSpace (canonicalOr v)) = canonicalOr v.
Proof.
  unfold canonicalOr. destruct (CanonicalPhysicalIdentity v) as [id|] eqn:Hc; [|by rewrite TrimSpace_empty].
  apply Canonical_idemp in Hc as Hi. pose proof Hi as [Hs _]%CanonicalPhysicalIdentity_spec.
  rewrite TrimSpace_printable by (by apply identity_shape_printable). by rewrite Hi.
Qed.

Lemma normalizeLink_idemp l : normalizeLink (normalizeLink l) = normalizeLink l.
Proof.
  unfold normalizeLink. cbn -[TrimSpace canonicalOr]. by rewrite !canonicalOr_idemp, !TrimSpace_idemp.
Qed.

Lemma declaredLinkStep_iff acc seen l s :
  declaredLinkStep (acc, seen) l = inl s ↔
  link_ok (normalizeLink l) ∧ (link_key (normalizeLink l) ∉ seen)
  ∧ s = (acc ++ [normalizeLink l], {[link_key (normalizeLink l)]} ∪ seen).
Proof.
  unfold declaredLinkStep, link_ok. set (n := normalizeLink l).
  destruct (CanonicalPhysicalIdentity (TrimSpace (dl_Local l))) as [local|] eqn:Hl.
  2:{ split; [done|]. intros ((Hne & _) & _). destruct Hne. subst n. cbn [normalizeLink dl_Local]. unfold canonicalOr. by rewrite Hl. }
  destruct (CanonicalPhysicalIdentity (TrimSpace (dl_Peer l))) as [peer|] eqn:Hp.
  2:{ split; [done|]. intros ((_ & Hne & _) & _). destruct Hne. subst n. cbn [normalizeLink dl_Peer]. unfold canonicalOr. by rewrite Hp. }
  assert (n = {| dl_Local := local; dl_Peer := peer; dl_Source := TrimSpace (dl_Source l);
    dl_Interface := TrimSpace (dl_Interface l); dl_RemoteInterface := TrimSpace (dl_RemoteInterface l);
    dl_RoutingDomain := TrimSpace (dl_RoutingDomain l) |}) as Hn.
  { subst n. unfold normalizeLink, canonicalOr. by rewrite Hl, Hp. }
  rewrite <- Hn. apply Canonical_nonempty in Hl, Hp.
  replace local with (dl_Local n) in Hl by (by rewrite Hn). replace peer with (dl_Peer n) in Hp by (by rewrite Hn).
  clearbody n. clear Hn. cbn [existsb fst snd]. rewrite orb_false_r.
  case_match eqn:H1; [split; [done|]; go_bool; naive_solver|].
  case_match eqn:H2; [split; [done|]; go_bool; intuition lia|].
  case_match eqn:H3; [split; [done|]; go_bool; naive_solver|].
  go_bool. naive_solver.
Qed.

Lemma fold_links_iff ls acc seen out :
  (∃ seen', fold_err declaredLinkStep (acc, seen) ls = inl (out, seen')) ↔
  Forall link_ok (map normalizeLink ls) ∧ NoDup (map link_key (map normalizeLink ls))
  ∧ (∀ l, l ∈ map normalizeLink ls → link_key l ∉ seen) ∧ out = acc ++ map normalizeLink ls.
Proof.
  revert acc seen. induction ls as [|l ls IH]; intros acc seen; cbn [fold_err map].
  { rewrite app_nil_r. split.
    - intros [? [= <- <-]]. split_and!; [constructor|constructor|by intros ? ?%not_elem_of_nil|done].
    - intros (_ & _ & _ & ->). eauto. }
  rewrite Forall_cons, NoDup_cons. destruct (declaredLinkStep (acc, seen) l) as [s|e] eqn:Hs.
  - apply declaredLinkStep_iff in Hs as (Hok & Hni & ->). rewrite IH, <- (assoc_L (++)). split.
    + intros (Hall & Hnd & Hres & ->). split_and!; [done|done| |done| |done].
      * intros (l' & Hk & Hin)%list_elem_of_fmap. apply (Hres l' Hin). rewrite <- Hk. apply elem_of_union_l. by apply elem_of_singleton.
      * intros l' [->|Hin]%elem_of_cons; [done|].
        by apply Hres, not_elem_of_union in Hin as [_ ?].
    + intros ([_ Hall] & [Hk Hnd] & Hres & ->). split_and!; [done|done| |done]. intros l' Hin.
      assert (link_key l' ≠ link_key (normalizeLink l)) by (intros He; apply Hk; rewrite <- He; by apply list_elem_of_fmap_2).
      apply not_elem_of_union. split; [by apply not_elem_of_singleton|apply Hres; by right].
  - split; [intros [? ?]; done|]. intros ([Hok _] & _ & Hres & _).
    assert (declaredLinkStep (acc, seen) l = inl (acc ++ [normalizeLink l], {[link_key (normalizeLink l)]} ∪ seen)) as Hi
      by (apply declaredLinkStep_iff; split_and!; [done|apply Hres; by left|done]). congruence.
Qed.

(** A list of links is accepted by its normal forms, which it becomes. *)
Lemma validatedDeclaredLinks_iff ls limit out :
  validatedDeclaredLinks ls limit = inl out ↔
  llen ls ≤ limit ∧ Forall link_ok (map normalizeLink ls) ∧ NoDup (map link_key (map normalizeLink ls))
  ∧ out = map normalizeLink ls.
Proof.
  unfold validatedDeclaredLinks. destruct (Z.ltb_spec limit (llen ls)) as [Hl|Hl]; [naive_solver lia|].
  pose proof (fold_links_iff ls [] ∅ out) as Hf. cbn [app] in Hf.
  destruct (fold_err declaredLinkStep ([], ∅) ls) as [[out' seen']|e].
  - split.
    + intros [= <-]. destruct (proj1 Hf) as (? & ? & _ & ?); [eauto|]. done.
    + intros (_ & Hok & Hnd & Ho). destruct (proj2 Hf) as [? [= -> _]]; [|done]. split_and!; [done|done|intros; apply not_elem_of_empty|done].
  - split; [done|]. intros (_ & Hok & Hnd & Ho). destruct (proj2 Hf) as [? ?]; [|done]. split_and!; [done|done|intros; apply not_elem_of_empty|done].
Qed.

(** ** JSON *)

Lemma mapping_keys : distinct_keys ["source"; "observedPeer"; "routingDomain"; "physicalID"; "external"] = true.
Proof. vm_compute. reflexivity. Qed.

Lemma link_keys : distinct_keys ["local"; "peer"; "source"; "interface"; "remoteInterface"; "routingDomain"] = true.
Proof. vm_compute. reflexivity. Qed.

Lemma document_keys : distinct_keys ["version"; "peerMappings"; "declaredLinks"] = true.
Proof. vm_compute. reflexivity. Qed.

Lemma optbool_read b : match optbool b with Some j => dec_bool false j | None => Some false end = Some b.
Proof. by destruct b. Qed.

Lemma dec_mapping_json m : dec_mapping zeroMapping (mapping_json m) = Some m.
Proof.
  unfold dec_mapping, mapping_json. rewrite known_members by (by vm_compute). cbn [negb]. set (fs := mapping_members m).
  cbn [zeroMapping pim_Source pim_ObservedPeer pim_RoutingDomain pim_PhysicalID pim_External].
  read mapping_keys fs "source" (str_read (pim_Source m)). read mapping_keys fs "observedPeer" (str_read (pim_ObservedPeer m)).
  read mapping_keys fs "routingDomain" (optstr_read (pim_RoutingDomain m)).
  read mapping_keys fs "physicalID" (str_read (pim_PhysicalID m)).
  read mapping_keys fs "external" (optbool_read (pim_External m)). by destruct m.
Qed.

Lemma dec_link_json l : dec_link zeroLink (link_json l) = Some l.
Proof.
  unfold dec_link, link_json. rewrite known_members by (by vm_compute). cbn [negb]. set (fs := link_members l).
  cbn [zeroLink dl_Local dl_Peer dl_Source dl_Interface dl_RemoteInterface dl_RoutingDomain].
  read link_keys fs "local" (str_read (dl_Local l)). read link_keys fs "peer" (str_read (dl_Peer l)).
  read link_keys fs "source" (optstr_read (dl_Source l)). read link_keys fs "interface" (str_read (dl_Interface l)).
  read link_keys fs "remoteInterface" (str_read (dl_RemoteInterface l)).
  read link_keys fs "routingDomain" (optstr_read (dl_RoutingDomain l)). by destruct l.
Qed.

(** A slice of elements that decode from a zero element. *)
Lemma slice_read {A} (dec : A → json → option A) zero (js : A → json) l :
  (∀ a, dec zero (js a) = Some a) →
  match optlist (map js l) with Some j => dec_slice dec zero ([], 0%nat) j | None => Some ([], 0%nat) end
  = Some (l, length l).
Proof.
  intros Hd. assert (∀ l, dec_slots dec zero [] (map js l) = Some l) as Hs.
  { clear l. induction l as [|a l IH]; [done|]. cbn. by rewrite Hd; cbn; rewrite IH. }
  destruct l as [|a l]; [done|]. unfold optlist. cbn [map dec_slice fst]. 
  change (js a :: map js l) with (map js (a :: l)). rewrite Hs. cbn. by rewrite length_map.
Qed.

Lemma dec_document_json d : dec_document (document_json d) = Some d.
Proof.
  unfold dec_document, document_json. rewrite known_members by (by vm_compute). cbn [negb]. set (fs := document_members d).
  read document_keys fs "version" (str_read (gpd_Version d)).
  read document_keys fs "peerMappings" (slice_read dec_mapping zeroMapping mapping_json (gpd_PeerMappings d) dec_mapping_json).
  read document_keys fs "declaredLinks" (slice_read dec_link zeroLink link_json (gpd_DeclaredLinks d) dec_link_json).
  cbn [fst snd]. rewrite !firstn_all. by destruct d.
Qed.

(** ** ASCII documents *)

Definition mapping_ascii (m : PeerIdentityMapping) : Prop :=
  Forall ascii_string [pim_Source m; pim_ObservedPeer m; pim_RoutingDomain m; pim_PhysicalID m].

Definition link_ascii (l : DeclaredLink) : Prop :=
  Forall ascii_string
    [dl_Local l; dl_Peer l; dl_Source l; dl_Interface l; dl_RemoteInterface l; dl_RoutingDomain l].

Record document_ascii (d : GraphPolicyDocument) : Prop := {
  da_version : ascii_string (gpd_Version d);
  da_mappings : Forall mapping_ascii (gpd_PeerMappings d);
  da_links : Forall link_ascii (gpd_DeclaredLinks d);
}.

Lemma TrimSpace_ascii s : ascii_string s → ascii_string (TrimSpace s).
Proof.
  unfold ascii_string, TrimSpace. rewrite bytes_of_of. intros Hs. apply Forall_rev.
  assert (∀ fuel ps l, Forall ascii_byte l → Forall ascii_byte (trim_front fuel ps l)) as Ht.
  { intros fuel ps l Hl. destruct (trim_front_suffix fuel ps l) as [k Hk].
    rewrite Hk in Hl. by apply Forall_app in Hl as [_ ?]. }
  by apply Ht, Forall_rev, Ht.
Qed.

Lemma canonicalOr_ascii v : ascii_string (canonicalOr v).
Proof.
  unfold canonicalOr. destruct (CanonicalPhysicalIdentity v) as [id|] eqn:Hc; [|constructor].
  by eapply plain_ascii, Canonical_plain.
Qed.

Lemma normalizeMapping_ascii m : mapping_ascii m → mapping_ascii (normalizeMapping m).
Proof.
  unfold mapping_ascii. rewrite !Forall_cons. intros (? & ? & ? & ? & _). cbn -[TrimSpace CanonicalPhysicalIdentity].
  split_and!; [by apply TrimSpace_ascii..|apply (canonicalOr_ascii (pim_PhysicalID m))|constructor].
Qed.

Lemma normalizeLink_ascii l : link_ascii l → link_ascii (normalizeLink l).
Proof.
  unfold link_ascii. rewrite !Forall_cons. intros (? & ? & ? & ? & ? & ? & _). cbn -[TrimSpace canonicalOr].
  split_and!; first [apply canonicalOr_ascii|by apply TrimSpace_ascii|constructor].
Qed.

Lemma mapping_clean m : mapping_ascii m → clean (mapping_json m).
Proof. unfold mapping_ascii, mapping_json, mapping_members. intros. clean_object. Qed.

Lemma link_clean l : link_ascii l → clean (link_json l).
Proof. unfold link_ascii, link_json, link_members. intros. clean_object. Qed.

Lemma clean_optlist {A} (js : A → json) (P : A → Prop) l j :
  (∀ a, P a → clean (js a)) → Forall P l → optlist (map js l) = Some j → clean j.
Proof.
  intros Hjs Hl. destruct l as [|a l]; [done|]. intros [= <-]. apply (clean_elems (map js (a :: l))).
  intros j (b & -> & Hb)%list_elem_of_fmap. apply Hjs. rewrite Forall_forall in Hl. by apply Hl.
Qed.

Lemma document_clean d : document_ascii d → clean (document_json d).
Proof.
  intros []. unfold document_json, document_members. clean_object.
  - by eapply (clean_optlist mapping_json mapping_ascii); [apply mapping_clean| |].
  - by eapply (clean_optlist link_json link_ascii); [apply link_clean| |].
Qed.

Lemma mapping_text_inj m m' : mapping_ascii m → mapping_ascii m' → mapping_text m = mapping_text m' → m = m'.
Proof.
  intros Hm Hm' He%Marshal_inj; [|by apply mapping_clean..]. apply (f_equal (dec_mapping zeroMapping)) in He.
  rewrite !dec_mapping_json in He. congruence.
Qed.

Lemma link_text_inj l l' : link_ascii l → link_ascii l' → link_text l = link_text l' → l = l'.
Proof.
  intros Hl Hl' He%Marshal_inj; [|by apply link_clean..]. apply (f_equal (dec_link zeroLink)) in He.
  rewrite !dec_link_json in He. congruence.
Qed.

Lemma document_text_inj d d' :
  document_ascii d → document_ascii d' → Marshal (document_json d) = Marshal (document_json d') → d = d'.
Proof.
  intros Hd Hd' He%Marshal_inj; [|by apply document_clean..]. apply (f_equal dec_document) in He.
  rewrite !dec_document_json in He. congruence.
Qed.

(** Sorting by a text that determines the element depends on the elements only. *)
Lemma sort_Slice_perm_eq {A} (key : A → string) (P : A → Prop) l l' :
  (∀ a b, P a → P b → key a = key b → a = b) → Forall P l → l ≡ₚ l' → sort_Slice key l = sort_Slice key l'.
Proof.
  intros Hinj Hl Hp. rewrite <- (map_id (sort_Slice key l)), <- (map_id (sort_Slice key l')).
  apply (sort_Slice_image key id key); [done|by rewrite !map_id|].
  rewrite Forall_forall in Hl. intros x y. rewrite !map_id. auto.
Qed.

(** ** Accepted documents *)

(** What the parser asks of a document, by the normal forms of its entries. *)
Record accepted (d : GraphPolicyDocument) : Prop := {
  ac_version : gpd_Version d = GraphPolicyVersion;
  ac_mappings_bound : llen (gpd_PeerMappings d) ≤ DefaultGraphMaxPeerMappings;
  ac_links_bound : llen (gpd_DeclaredLinks d) ≤ DefaultGraphMaxDeclaredLinks;
  ac_mappings : Forall mapping_ok (map normalizeMapping (gpd_PeerMappings d));
  ac_links : Forall link_ok (map normalizeLink (gpd_DeclaredLinks d));
  ac_mapping_keys : NoDup (map mappingKey (map normalizeMapping (gpd_PeerMappings d)));
  ac_link_keys : NoDup (map link_key (map normalizeLink (gpd_DeclaredLinks d)));
}.

Definition canonicalDocument (d : GraphPolicyDocument) : GraphPolicyDocument := {|
  gpd_Version := gpd_Version d;
  gpd_PeerMappings := sort_Slice mapping_text (map normalizeMapping (gpd_PeerMappings d));
  gpd_DeclaredLinks := sort_Slice link_text (map normalizeLink (gpd_DeclaredLinks d)) |}.

(** The same entries, in whatever order and however they are written. *)
Definition same_document (d d' : GraphPolicyDocument) : Prop :=
  gpd_Version d = gpd_Version d'
  ∧ map normalizeMapping (gpd_PeerMappings d) ≡ₚ map normalizeMapping (gpd_PeerMappings d')
  ∧ map normalizeLink (gpd_DeclaredLinks d) ≡ₚ map normalizeLink (gpd_DeclaredLinks d').

Lemma llen_map {A B} (f : A → B) l : llen (map f l) = llen l.
Proof. unfold llen. by rewrite length_map. Qed.

Lemma llen_perm {A} (l l' : list A) : l ≡ₚ l' → llen l = llen l'.
Proof. unfold llen. by intros ->. Qed.

Lemma accepted_same d d' : same_document d d' → accepted d → accepted d'.
Proof.
  intros (Hv & Hm & Hl) []. split.
  - congruence.
  - by rewrite <- (llen_map normalizeMapping), <- (llen_perm _ _ Hm), llen_map.
  - by rewrite <- (llen_map normalizeLink), <- (llen_perm _ _ Hl), llen_map.
  - by rewrite <- Hm.
  - by rewrite <- Hl.
  - by rewrite <- (fmap_Permutation mappingKey _ _ Hm : map _ _ ≡ₚ map _ _).
  - by rewrite <- (fmap_Permutation link_key _ _ Hl : map _ _ ≡ₚ map _ _).
Qed.

Lemma normal_mappings ms : Forall mapping_ok (map normalizeMapping ms) → map normalizeMapping (map normalizeMapping ms) = map normalizeMapping ms.
Proof.
  induction ms as [|m ms IH]; [done|]. cbn [map]. rewrite Forall_cons. intros [(_ & _ & Hid & _) Hall].
  by rewrite normalizeMapping_idemp, IH.
Qed.

Lemma normal_links ls : map normalizeLink (map normalizeLink ls) = map normalizeLink ls.
Proof. rewrite List.map_map. apply List.map_ext, normalizeLink_idemp. Qed.

(** An accepted document and its canonical form are the same. *)
Lemma canonical_same d : accepted d → same_document d (canonicalDocument d).
Proof.
  intros []. split_and!; [done| |]; cbn [canonicalDocument gpd_PeerMappings gpd_DeclaredLinks].
  - rewrite (fmap_Permutation normalizeMapping _ _ (sort_Slice_perm mapping_text _) : map _ _ ≡ₚ map _ _).
    by rewrite normal_mappings.
  - rewrite (fmap_Permutation normalizeLink _ _ (sort_Slice_perm link_text _) : map _ _ ≡ₚ map _ _).
    by rewrite normal_links.
Qed.

Lemma canonical_ascii_document d : document_ascii d → document_ascii (canonicalDocument d).
Proof.
  intros []. split; cbn [canonicalDocument gpd_Version gpd_PeerMappings gpd_DeclaredLinks]; [done| |];
    rewrite sort_Slice_perm; apply Forall_map; (eapply Forall_impl; [eassumption|]);
    [apply normalizeMapping_ascii|apply normalizeLink_ascii].
Qed.

(** The canonical form depends on the entries only. *)
Lemma canonical_unique d d' : document_ascii d → same_document d d' → canonicalDocument d = canonicalDocument d'.
Proof.
  intros [] (Hv & Hm & Hl). unfold canonicalDocument. f_equal; [done| |].
  - apply (sort_Slice_perm_eq mapping_text mapping_ascii); [apply mapping_text_inj| |done].
    apply Forall_map. eapply Forall_impl; [eassumption|apply normalizeMapping_ascii].
  - apply (sort_Slice_perm_eq link_text link_ascii); [apply link_text_inj| |done].
    apply Forall_map. eapply Forall_impl; [eassumption|apply normalizeLink_ascii].
Qed.

(** ** Parsing *)

Lemma Parse_accepts raw d :
  ParseGraphPolicyDocument raw = inl d ↔
  TrimSpace raw ≠ "" ∧ slen raw ≤ MaxGraphPolicyBytes
  ∧ ∃ d0, parse_document raw ≫= dec_document = Some d0 ∧ accepted d0 ∧ d = canonicalDocument d0.
Proof.
  unfold ParseGraphPolicyDocument. destruct (bool_decide_reflect (TrimSpace raw = "")); [naive_solver|].
  destruct (Z.ltb_spec MaxGraphPolicyBytes (slen raw)); [naive_solver lia|].
  destruct (parse_document raw ≫= dec_document) as [d0|]; [|naive_solver].
  destruct (bool_decide_reflect (gpd_Version d0 = GraphPolicyVersion)) as [Hv|Hv].
  2:{ split; [done|]. intros (_ & _ & d' & [= <-] & [] & _). done. }
  cbn [negb]. pose proof (validatedPeerMappings_iff (gpd_PeerMappings d0) DefaultGraphMaxPeerMappings) as Hm.
  destruct (validatedPeerMappings _ _) as [pm|e].
  2:{ split; [done|]. intros (_ & _ & d' & [= <-] & [] & _). destruct (proj2 Hm) as [? ?]; [by split_and!|done]. }
  destruct (proj1 Hm) as (Hmb & Hmo & Hmk); [eauto|].
  destruct (validatedDeclaredLinks _ _) as [out|e] eqn:Hl.
  - apply validatedDeclaredLinks_iff in Hl as (Hlb & Hlo & Hlk & ->). split.
    + intros [= <-]. split_and!; [done|lia|]. exists d0. by split_and!; [|split|].
    + by intros (_ & _ & d' & [= <-] & _ & ->).
  - split; [done|]. intros (_ & _ & d' & [= <-] & [] & _).
    rewrite (proj2 (validatedDeclaredLinks_iff _ _ _)) in Hl by (by split_and!). done.
Qed.

Lemma Parse_text d d' :
  document_ascii d → slen (Marshal (document_json d)) ≤ MaxGraphPolicyBytes →
  ParseGraphPolicyDocument (Marshal (document_json d)) = inl d' ↔ accepted d ∧ d' = canonicalDocument d.
Proof.
  intros Hd Hs. rewrite Parse_accepts, parse_document_Marshal by (by apply document_clean).
  cbn [mbind option_bind]. rewrite dec_document_json.
  assert (TrimSpace (Marshal (document_json d)) ≠ "") as Ht.
  { assert (TrimSpace (Marshal (document_json d)) = Marshal (document_json d)) as ->; [|done].
    unfold Marshal, document_json. apply TrimSpace_ends; reflexivity. }
  split; [by intros (_ & _ & d0 & [= <-] & ? & ?)|]. intros [Ha ->]. split_and!; [done|done|]. by exists d.
Qed.

Lemma CanonicalJSON_text d t :
  document_ascii d → slen (Marshal (document_json d)) ≤ MaxGraphPolicyBytes →
  CanonicalGraphPolicyJSON d = inl t ↔ accepted d ∧ t = Marshal (document_json (canonicalDocument d)).
Proof.
  intros Hd Hs. unfold CanonicalGraphPolicyJSON.
  destruct (ParseGraphPolicyDocument (Marshal (document_json d))) as [d'|e] eqn:Hp.
  - apply Parse_text in Hp as [Ha ->]; [|done|done]. split; [by intros [= <-]|]. by intros [_ ->].
  - split; [done|]. intros [Ha ->]. rewrite (proj2 (Parse_text d (canonicalDocument d) Hd Hs)) in Hp; done.
Qed.

Lemma same_sym d d' : same_document d d' → same_document d' d.
Proof. intros (Hv & Hm & Hl). split_and!; by symmetry. Qed.

Lemma canonical_equal_same d d' : canonicalDocument d = canonicalDocument d' → same_document d d'.
Proof.
  intros [= Hv Hm Hl]. split_and!; [done| |].
  - by rewrite <- (sort_Slice_perm mapping_text), Hm, sort_Slice_perm.
  - by rewrite <- (sort_Slice_perm link_text), Hl, sort_Slice_perm.
Qed.

(** The links of a canonical form are in normal form. *)
Lemma canonical_links d :
  map normalizeLink (gpd_DeclaredLinks (canonicalDocument d)) = gpd_DeclaredLinks (canonicalDocument d).
Proof.
  cbn [canonicalDocument gpd_DeclaredLinks]. rewrite <- (map_id (sort_Slice _ _)) at 2. apply List.map_ext_in.
  intros l Hin. apply list_elem_of_In in Hin. rewrite sort_Slice_perm in Hin.
  apply list_elem_of_fmap in Hin as (l0 & -> & _). apply normalizeLink_idemp.
Qed.

Lemma Parse_valid raw d :
  ParseGraphPolicyDocument raw = inl d →
  (∃ pm, validatedPeerMappings (gpd_PeerMappings d) DefaultGraphMaxPeerMappings = inl pm)
  ∧ ∃ links, validatedDeclaredLinks (gpd_DeclaredLinks d) DefaultGraphMaxDeclaredLinks = inl links
      ∧ links = gpd_DeclaredLinks d.
Proof.
  intros (_ & _ & d0 & _ & Ha & ->)%Parse_accepts.
  destruct (accepted_same _ _ (canonical_same d0 Ha) Ha). split.
  - apply validatedPeerMappings_iff. by split_and!.
  - eexists. split; [|done]. apply validatedDeclaredLinks_iff. split_and!; [done..|]. by rewrite canonical_links.
Qed.

(** ** Theorem *)

(** What [GraphPolicyHash] hashes. *)
Lemma GraphPolicyHash_text `{HashLib} d h :
  GraphPolicyHash d = inl h ↔
  ∃ t, CanonicalGraphPolicyJSON d = inl t ∧ h = "sha256:" +:+ hex_EncodeToString (Sum256 t).
Proof. unfold GraphPolicyHash. destruct (CanonicalGraphPolicyJSON d); naive_solver. Qed.

(** One canonical text for the documents that say the same. *)
Lemma canonical_text_iff d d' t :
  document_ascii d → document_ascii d' →
  slen (Marshal (document_json d)) ≤ MaxGraphPolicyBytes →
  slen (Marshal (document_json d')) ≤ MaxGraphPolicyBytes →
  CanonicalGraphPolicyJSON d = inl t → CanonicalGraphPolicyJSON d' = inl t ↔ same_document d d'.
Proof.
  intros Hd Hd' Hs Hs' [Ha ->]%CanonicalJSON_text; [|done|done]. rewrite CanonicalJSON_text by done. split.
  - intros [Ha' He]. apply canonical_equal_same. by apply document_text_inj; [apply canonical_ascii_document..|].
  - intros Hsame. split; [by eapply accepted_same|]. by rewrite (canonical_unique d d').
Qed.

(** C7: the graph policy document has one canonical form.  What the parser accepts, the
    graph accepts with the same links and its mappings; printed, it is parsed back to
    itself and is its own canonical text.  Two documents have the same canonical text
    exactly when they have the same entries up to their order, surrounding space and the
    case of identities; documents that are the same in this sense have the same
    [GraphPolicyHash], and documents with the same hash are the same, unless SHA-256
    collides on their canonical texts.  (Documents of ASCII text that fit the bound when
    they are printed.) *)
Theorem graph_policy_canonical `{HL : HashLib, HS : !HashLibSpec HL} :
  (∀ raw d, ParseGraphPolicyDocument raw = inl d →
     (∃ pm, validatedPeerMappings (gpd_PeerMappings d) DefaultGraphMaxPeerMappings = inl pm)
     ∧ ∃ links, validatedDeclaredLinks (gpd_DeclaredLinks d) DefaultGraphMaxDeclaredLinks = inl links
         ∧ links = gpd_DeclaredLinks d)
  ∧ (∀ raw d, ParseGraphPolicyDocument raw = inl d → document_ascii d →
       slen (Marshal (document_json d)) ≤ MaxGraphPolicyBytes →
       ParseGraphPolicyDocument (Marshal (document_json d)) = inl d
       ∧ CanonicalGraphPolicyJSON d = inl (Marshal (document_json d)))
  ∧ (∀ d d' t, document_ascii d → document_ascii d' →
       slen (Marshal (document_json d)) ≤ MaxGraphPolicyBytes →
       slen (Marshal (document_json d')) ≤ MaxGraphPolicyBytes →
       CanonicalGraphPolicyJSON d = inl t → CanonicalGraphPolicyJSON d' = inl t ↔ same_document d d')
  ∧ (∀ d d' h, document_ascii d → document_ascii d' →
       slen (Marshal (document_json d)) ≤ MaxGraphPolicyBytes →
       slen (Marshal (document_json d')) ≤ MaxGraphPolicyBytes →
       GraphPolicyHash d = inl h →
       (same_document d d' → GraphPolicyHash d' = inl h)
       ∧ (GraphPolicyHash d' = inl h → same_document d d'
          ∨ ∃ t t', CanonicalGraphPolicyJSON d = inl t ∧ CanonicalGraphPolicyJSON d' = inl t' ∧ collides t t')).
Proof.
  split; [apply Parse_valid|]. split; [|split; [apply canonical_text_iff|]].
  - intros raw d (_ & _ & d0 & _ & Ha & ->)%Parse_accepts Hd Hs. pose proof (canonical_same d0 Ha) as Hsame.
    assert (accepted (canonicalDocument d0)) as Ha' by (by eapply accepted_same).
    pose proof (canonical_unique _ _ Hd (same_sym _ _ Hsame)) as Hi. split.
    + by apply Parse_text.
    + apply CanonicalJSON_text; [done|done|]. by rewrite Hi.
  - intros d d' h Hd Hd' Hs Hs' (t & Ht & ->)%GraphPolicyHash_text. split.
    + intros Hsame. apply GraphPolicyHash_text. exists t. split; [|done]. by apply (canonical_text_iff d d').
    + intros (t' & Ht' & He)%GraphPolicyHash_text. apply hash_inj in He as [<-|Hc]; [left|right; eauto].
      by apply (canonical_text_iff d d' t).
Qed.

(** Two documents with the same entries, written differently. *)
Definition exMapping (peer physical : string) : PeerIdentityMapping := {|
  pim_Source := "bgp"; pim_ObservedPeer := peer; pim_RoutingDomain := ""; pim_PhysicalID := physical;
  pim_External := false |}.

Definition exDeclared (local peer : string) : DeclaredLink := {|
  dl_Local := local; dl_Peer := peer; dl_Source := ""; dl_Interface := "Gi1/0/1"; dl_RemoteInterface := "Gi1/0/2";
  dl_RoutingDomain := "" |}.

Definition exDocument : GraphPolicyDocument := {|
  gpd_Version := "v1"; gpd_PeerMappings := [exMapping "10.0.0.1" "fcw1"; exMapping "10.0.0.2" "fcw2"];
  gpd_DeclaredLinks := [exDeclared "fcw1" "fcw2"] |}.

Definition exDocument' : GraphPolicyDocument := {|
  gpd_Version := "v1"; gpd_PeerMappings := [exMapping " 10.0.0.2" "FCW2"; exMapping "10.0.0.1" "FCW1"];
  gpd_DeclaredLinks := [exDeclared "FCW1 " "fcw2"] |}.

Lemma graph_policy_canonical_witness :
  ∃ h, GraphPolicyHash (H := hash_reference) exDocument = inl h
    ∧ GraphPolicyHash (H := hash_reference) exDocument' = inl h.
Proof.
  destruct (graph_policy_canonical (HL := hash_reference)) as (_ & _ & _ & Hc).
  destruct (GraphPolicyHash (H := hash_reference) exDocument) as [h|e] eqn:Hh; [|vm_compute in Hh; discriminate].
  exists h. split; [reflexivity|]. apply (Hc exDocument exDocument' h); try exact Hh.
  - split; repeat constructor.
  - split; repeat constructor.
  - vm_compute. discriminate.
  - vm_compute. discriminate.
  - split_and!; [reflexivity| |vm_compute; reflexivity]. vm_compute. apply Permutation_swap.
Defined.
