(* ===== verification/Receipt.v ===== *)
(** * Receipts of staged preparations

    src/internal/provider/softwareupgrade/prepared_receipt.go, prepared_invalidation.go, the
    activation functions of managed.go, and src/internal/workloaddrain/evidence.go: an
    upgrade may install an image and stop; the receipt of that preparation authorises one
    activation later, or is retired. *)

From S2P Require Import Prelude GoLib GoTime Json Interfaces LedgerData LedgerCodec Store AdminPolicyHash SortKeys.
From S2P Require Import JsonFields Identity Quarantine TopologyLock Leaf LeafClaim.

(** ** JSON *)

(** [metav1.Time.MarshalJSON]: RFC 3339 to the second. *)
Definition jtime (t : Time) : json := if t =? 0 then JNull else JStr (FormatRFC3339Nano (stored_time t)).

Definition claim_members (c : UpgradeManagedMutationClaimStatus) : list (string * option json) :=
  [("stage", Some (JStr (clm_Stage c))); ("reservationID", Some (JStr (clm_ReservationID c)));
   ("policyEpoch", Some (jint (clm_PolicyEpoch c))); ("controlRevision", Some (jint (clm_ControlRevision c)));
   ("claimedAt", Some (jtime (clm_ClaimedAt c)))].

Definition claim_json (c : UpgradeManagedMutationClaimStatus) : json := JObj (members (claim_members c)).

(** The fields of a receipt as they are hashed: the claims in order of their stages, and
    no hash. *)
Definition receipt_members (r : UpgradePreparedReceiptStatus) : list (string * option json) :=
  [("protocolVersion", Some (JStr (rcp_ProtocolVersion r))); ("upgradeUID", Some (JStr (rcp_UpgradeUID r)));
   ("deviceUID", Some (JStr (rcp_DeviceUID r))); ("nodeUID", optstr (rcp_NodeUID r));
   ("physicalIdentity", optstr (rcp_PhysicalIdentity r)); ("deviceGeneration", optint (rcp_DeviceGeneration r));
   ("campaignUID", optstr (rcp_CampaignUID r)); ("planHash", optstr (rcp_PlanHash r));
   ("managedProtocolVersion", optstr (rcp_ManagedProtocolVersion r)); ("policyUID", optstr (rcp_PolicyUID r));
   ("policyResourceVersion", optstr (rcp_PolicyResourceVersion r)); ("policyEpoch", optint (rcp_PolicyEpoch r));
   ("workerRevision", optstr (rcp_WorkerRevision r)); ("sourceDigest", Some (JStr (rcp_SourceDigest r)));
   ("sourceSize", optint (rcp_SourceSize r)); ("sourceIdentityHash", Some (JStr (rcp_SourceIdentityHash r)));
   ("sourceSecretUID", optstr (rcp_SourceSecretUID r)); ("trustIdentityHash", optstr (rcp_TrustIdentityHash r));
   ("contentBinding", Some (JStr (rcp_ContentBinding r))); ("targetVersion", Some (JStr (rcp_TargetVersion r)));
   ("validatedVersion", Some (JStr (rcp_ValidatedVersion r))); ("runningVersion", Some (JStr (rcp_RunningVersion r)));
   ("individualSupervisorInstall", optbool (rcp_IndividualSupervisorInstall r));
   ("primarySupervisorInstalled", Some (JBool (rcp_PrimarySupervisorInstalled r)));
   ("standbySupervisorInstalled", optbool (rcp_StandbySupervisorInstalled r));
   ("standbySupervisorID", optstr (rcp_StandbySupervisorID r));
   ("standbyRunningVersion", optstr (rcp_StandbyRunningVersion r));
   ("installStartedAt", Some (jtime (rcp_InstallStartedAt r)));
   ("stagingOperationID", optstr (rcp_StagingOperationID r));
   ("managedMutationClaims",
      optlist (map claim_json (sort_by_keys (λ c, [clm_Stage c]) (rcp_ManagedMutationClaims r))));
   ("preparedAt", Some (jtime (rcp_PreparedAt r))); ("receiptHash", Some (JStr ""))].

Definition receiptText (r : UpgradePreparedReceiptStatus) : string := Marshal (JObj (members (receipt_members r))).

(** ** Hashes *)

(** [canonicalPreparedHash], whose encoding does not fail on these types. *)
Definition canonicalPreparedHash `{HashLib} (value : json) : string :=
  "sha256:" +:+ hex_EncodeToString (Sum256 (Marshal value)).

Definition PreparedReceiptHash `{HashLib} (r : UpgradePreparedReceiptStatus) : string :=
  "sha256:" +:+ hex_EncodeToString (Sum256 (receiptText r)).

(** The fields of an image source; references by name, [None] for nil. *)
Record UpgradeImageSource := {
  src_URL : string;
  src_SHA256 : string;
  src_URLSecretRef : option string;
  src_ConfigMapRef : option string;
  src_Preinstalled : bool;
  src_DeviceFile : option (string * string);   (* Path and SHA256 *)
  src_LocalPath : string;
  src_LocalPathSHA256 : string;
}.

Definition source_members (source : UpgradeImageSource) : list (string * option json) :=
  [("url", optstr (src_URL source)); ("sha256", optstr (src_SHA256 source));
   ("urlSecretName", optstr (default "" (src_URLSecretRef source)));
   ("configMapName", optstr (default "" (src_ConfigMapRef source)));
   ("deviceFilePath", optstr (default "" (fst <$> src_DeviceFile source)));
   ("deviceFileSHA256", optstr (default "" (snd <$> src_DeviceFile source)));
   ("legacyLocalPath", optstr (src_LocalPath source)); ("legacyLocalSHA256", optstr (src_LocalPathSHA256 source));
   ("preinstalledIntent", optbool (src_Preinstalled source))].

Definition PreparedSourceIdentityHash `{HashLib} (source : UpgradeImageSource) : string :=
  canonicalPreparedHash (JObj (members (source_members source))).

Definition trust_members (credential tls provisioning deviceCA : string) : list (string * option json) :=
  [("credential", Some (JStr credential)); ("tls", Some (JStr tls)); ("provisioning", Some (JStr provisioning));
   ("deviceCA", optstr deviceCA)].

Definition PreparedTrustIdentityHash `{HashLib} (credential tls provisioning deviceCA : string) : string :=
  canonicalPreparedHash (JObj (members (trust_members credential tls provisioning deviceCA))).

Definition invalidation_request_members (i : UpgradePreparedInvalidationRequest) : list (string * option json) :=
  [("receiptHash", Some (JStr (inv_ReceiptHash i))); ("planHash", Some (JStr (inv_PlanHash i)));
   ("campaignUID", Some (JStr (inv_CampaignUID i))); ("controlRevision", Some (jint (inv_ControlRevision i)));
   ("requestedBy", Some (JStr (inv_RequestedBy i))); ("requestedAt", Some (jtime (inv_RequestedAt i)));
   ("reason", Some (JStr (inv_Reason i)))].

Definition PreparedInvalidationRequestHash `{HashLib} (i : UpgradePreparedInvalidationRequest) : string :=
  canonicalPreparedHash (JObj (members (invalidation_request_members i))).

(** ** Digests and versions *)

Definition lowerHexByte (b : Z) : bool := ((48 <=? b) && (b <=? 57)) || ((97 <=? b) && (b <=? 102)).

(** A byte beyond ASCII is part of a rune that is no digit. *)
Definition validSHA256Hex (value : string) : bool :=
  return_if (negb (slen value =? 64)) false ;;
  forallb (λ c, lowerHexByte (byte_val c)) (bytes_of value).

(** [url.Parse]: whether the URL has user information, [None] for an error. *)
Class UrlLib := { url_Parse : string → option bool }.

Definition validateImageSource `{UrlLib} (src : UpgradeImageSource) : option goerror :=
  let count := llen (filter (λ b, b = true)
    [src_URL src != ""; bool_decide (is_Some (src_ConfigMapRef src)); src_Preinstalled src;
     bool_decide (is_Some (src_DeviceFile src)); src_LocalPath src != ""]) in
  return_if (count =? 0) (Some (EPlain "imageSource: exactly one of url, configMapRef, preinstalled, deviceFile, or localPath is required")) ;;
  return_if (1 <? count) (Some (EPlain "imageSource: only one of url, configMapRef, preinstalled, deviceFile, or localPath may be set")) ;;
  return_if (negb (eqb (src_URL src == "") (src_SHA256 src == "")))
    (Some (EPlain "imageSource.sha256 must be set if and only if imageSource.url is set")) ;;
  propagate (if src_URL src != "" then
               match url_Parse (src_URL src) with
               | None => Some (EPlain "imageSource.url must be a valid URL")
               | Some true => Some (EPlain "imageSource.url must not contain user information; use an endpoint-bound urlSecretRef")
               | Some false => None
               end
             else None) ;;
  propagate (match src_URLSecretRef src with
             | None => None
             | Some name =>
                 return_if (src_URL src == "")
                   (Some (EPlain "imageSource.urlSecretRef may be set only when imageSource.url is set")) ;;
                 return_if (TrimSpace name == "") (Some (EPlain "imageSource.urlSecretRef.name must not be empty")) ;;
                 return_if (negb (HasPrefix (src_URL src) "ftp://") && negb (HasPrefix (src_URL src) "scp://")
                            && negb (HasPrefix (src_URL src) "sftp://"))
                   (Some (EPlain "imageSource.urlSecretRef is supported only for ftp, scp, or sftp URLs")) ;;
                 None
             end) ;;
  propagate (match src_ConfigMapRef src with
             | None => None
             | Some name =>
                 return_if (TrimSpace name == "") (Some (EPlain "imageSource.configMapRef.name must not be empty")) ;;
                 None
             end) ;;
  return_if ((src_LocalPathSHA256 src != "") && (src_LocalPath src == ""))
    (Some (EPlain "imageSource.localPathSHA256 may be set only when imageSource.localPath is set")) ;;
  propagate (match src_DeviceFile src with
             | None => None
             | Some (path, sha) =>
                 return_if (TrimSpace path == "") (Some (EPlain "imageSource.deviceFile.path must not be empty")) ;;
                 return_if (negb (validSHA256Hex sha))
                   (Some (EPlain "imageSource.deviceFile.sha256 must be 64 lowercase hexadecimal characters")) ;;
                 None
             end) ;;
  return_if ((src_SHA256 src != "") && negb (validSHA256Hex (src_SHA256 src)))
    (Some (EPlain "imageSource.sha256 must be 64 lowercase hexadecimal characters")) ;;
  return_if ((src_LocalPathSHA256 src != "") && negb (validSHA256Hex (src_LocalPathSHA256 src)))
    (Some (EPlain "imageSource.localPathSHA256 must be 64 lowercase hexadecimal characters")) ;;
  None.

Definition dropPrefix (n : nat) (s : string) : string := of_bytes (drop n (bytes_of s)).

Definition validContentDigest (value : string) : bool :=
  HasPrefix value "sha256:" && validSHA256Hex (dropPrefix 7 value).

Definition validManagedSHA256 (value : string) : bool :=
  return_if (negb (slen value =? 71) || negb (HasPrefix value "sha256:") || (ToLower value != value)) false ;;
  match hex_DecodeString (dropPrefix 7 value) with Some _ => true | None => false end.

Definition versionMatches (deviceVersion target : string) : bool :=
  return_if (deviceVersion == target) true ;;
  HasPrefix deviceVersion (target +:+ ".").

(** ** Receipts *)

Definition preparedReceiptProtocolV1 : string := "prepare-v1".
Definition preparedContentBindingV1 : string := "source-digest-install-claim-v1".

Definition blank (s : string) : bool := TrimSpace s == "".

Definition installStages : list string :=
  [UpgradeManagedMutationStaging; UpgradeManagedMutationPrimaryInstall; UpgradeManagedMutationStandbyInstall].

Definition validateReceiptClaim (epoch : Z) (claim : UpgradeManagedMutationClaimStatus) : option goerror :=
  return_if (negb (bool_decide (clm_Stage claim ∈ installStages)))
    (Some (EPlain "prepared receipt contains non-install mutation claim")) ;;
  return_if ((clm_ReservationID claim == "") || negb (clm_PolicyEpoch claim =? epoch) || (clm_ClaimedAt claim =? 0))
    (Some (EPlain "prepared receipt mutation claim identity is incomplete")) ;;
  None.

(** The checks of a receipt that a campaign's worker made. *)
Definition validateManagedReceipt (r : UpgradePreparedReceiptStatus) : option goerror :=
  let claims := rcp_ManagedMutationClaims r in
  let claimed stage := existsb (λ c, clm_Stage c == stage) claims in
  return_if (blank (rcp_NodeUID r) || blank (rcp_PhysicalIdentity r) || (rcp_DeviceGeneration r <? 1)
             || (rcp_ManagedProtocolVersion r == "") || blank (rcp_PolicyUID r)
             || blank (rcp_PolicyResourceVersion r) || (rcp_PolicyEpoch r <? 1)
             || negb (validContentDigest (rcp_WorkerRevision r))
             || negb (validContentDigest (rcp_TrustIdentityHash r)) || (llen claims =? 0))
    (Some (EPlain "prepared receipt managed identity is incomplete")) ;;
  propagate (first_error (validateReceiptClaim (rcp_PolicyEpoch r)) claims) ;;
  return_if (negb (claimed UpgradeManagedMutationStaging) && negb (claimed UpgradeManagedMutationPrimaryInstall))
    (Some (EPlain "prepared receipt lacks a primary install or staging claim")) ;;
  return_if (rcp_IndividualSupervisorInstall r && negb (claimed UpgradeManagedMutationStandbyInstall))
    (Some (EPlain "prepared receipt lacks a standby install claim")) ;;
  None.

Definition ValidatePreparedReceipt `{HashLib} (r : UpgradePreparedReceiptStatus) : option goerror :=
  return_if ((rcp_ProtocolVersion r != preparedReceiptProtocolV1) || blank (rcp_UpgradeUID r)
             || blank (rcp_DeviceUID r) || blank (rcp_SourceDigest r) || blank (rcp_SourceIdentityHash r)
             || (rcp_ContentBinding r != preparedContentBindingV1) || blank (rcp_TargetVersion r)
             || blank (rcp_ValidatedVersion r) || blank (rcp_RunningVersion r)
             || (rcp_InstallStartedAt r =? 0) || (rcp_PreparedAt r =? 0) || negb (rcp_PrimarySupervisorInstalled r))
    (Some (EPlain "prepared receipt identity is incomplete")) ;;
  return_if (negb (validContentDigest (rcp_SourceDigest r)))
    (Some (EPlain "prepared receipt source digest is invalid")) ;;
  return_if (rcp_SourceSize r <? 0) (Some (EPlain "prepared receipt source size is invalid")) ;;
  return_if (rcp_PreparedAt r <? rcp_InstallStartedAt r)
    (Some (EPlain "prepared receipt predates its install claim")) ;;
  return_if (negb (versionMatches (rcp_ValidatedVersion r) (rcp_TargetVersion r))
             || versionMatches (rcp_RunningVersion r) (rcp_TargetVersion r))
    (Some (EPlain "prepared receipt version boundary is invalid")) ;;
  return_if (negb (eqb (rcp_CampaignUID r == "") (rcp_PlanHash r == "")))
    (Some (EPlain "prepared receipt campaign identity is incomplete")) ;;
  return_if ((rcp_PlanHash r != "") && negb (validContentDigest (rcp_PlanHash r)))
    (Some (EPlain "prepared receipt plan hash is invalid")) ;;
  return_if (negb (validContentDigest (rcp_SourceIdentityHash r)))
    (Some (EPlain "prepared receipt source identity hash is invalid")) ;;
  return_if ((rcp_TrustIdentityHash r != "") && negb (validContentDigest (rcp_TrustIdentityHash r)))
    (Some (EPlain "prepared receipt trust identity hash is invalid")) ;;
  return_if (rcp_IndividualSupervisorInstall r
             && (negb (rcp_StandbySupervisorInstalled r) || blank (rcp_StandbySupervisorID r)
                 || blank (rcp_StandbyRunningVersion r)))
    (Some (EPlain "prepared receipt standby supervisor evidence is incomplete")) ;;
  return_if (negb (rcp_IndividualSupervisorInstall r)
             && (rcp_StandbySupervisorInstalled r || (rcp_StandbySupervisorID r != "")
                 || (rcp_StandbyRunningVersion r != "")))
    (Some (EPlain "prepared receipt has unexpected standby supervisor evidence")) ;;
  propagate (if rcp_CampaignUID r != "" then validateManagedReceipt r else None) ;;
  return_if (rcp_ReceiptHash r != PreparedReceiptHash r) (Some (EPlain "prepared receipt hash mismatch")) ;;
  None.

(** ** Activation of a preparation *)

Definition AnnotationActivationApprovalHash : string := "topology.cisco.vk/activation-approval-hash".
Definition AnnotationPreparedReceiptHash : string := "topology.cisco.vk/prepared-receipt-hash".
Definition AnnotationPreparedUpgradeName : string := "topology.cisco.vk/prepared-upgrade-name".
Definition AnnotationPreparedUpgradeUID : string := "topology.cisco.vk/prepared-upgrade-uid".
Definition AnnotationPreparedTrustHash : string := "topology.cisco.vk/prepared-trust-hash".
Definition AnnotationPreparedSourceDigest : string := "topology.cisco.vk/prepared-source-digest".

Section activation.
Context `{HL : HashLib, CL : ConditionLib} {KA : KubeAPI}.

Definition validateManagedActivationBinding (r : Reconciler) (up : Leaf) : option goerror :=
  let annotation := mget (leaf_Annotations up) in
  return_if (negb (leafManaged up)) None ;;
  return_if (negb (spec_Preinstalled (leaf_Spec up)))
    (if annotation AnnotationActivationApprovalHash != ""
     then Some (EPlain "activation authorization is present on a non-preinstalled image source") else None) ;;
  return_if (existsb (λ key, negb (validManagedSHA256 (annotation key)))
               [AnnotationActivationApprovalHash; AnnotationPreparedReceiptHash; AnnotationPreparedSourceDigest])
    (Some (EPlain "annotation is missing or is not a canonical sha256 identity")) ;;
  return_if (blank (annotation AnnotationPreparedUpgradeUID)) (Some (EPlain "annotation is missing")) ;;
  return_if (blank (annotation AnnotationPreparedUpgradeName)) (Some (EPlain "annotation is missing")) ;;
  let currentTrust :=
    if (rc_CredentialSecretRevision r != "") || (rc_GNOITLSSecretRevision r != "")
       || (rc_GNOIProvisioningRevision r != "") || (rc_DeviceTLSCARevision r != "")
    then PreparedTrustIdentityHash (rc_CredentialSecretRevision r) (rc_GNOITLSSecretRevision r)
           (rc_GNOIProvisioningRevision r) (rc_DeviceTLSCARevision r)
    else "" in
  return_if (currentTrust != annotation AnnotationPreparedTrustHash)
    (Some (EPlain "current device trust identity does not match the prepared receipt")) ;;
  None.

Definition validatePreparedActivationParent (up prepared : Leaf) : option goerror :=
  let annotation := mget (leaf_Annotations up) in
  return_if (negb (leafManaged up) || negb (spec_Preinstalled (leaf_Spec up))
             || existsb (λ key, negb (validManagedSHA256 (annotation key)))
                  [AnnotationActivationApprovalHash; AnnotationPreparedReceiptHash; AnnotationPreparedSourceDigest;
                   AnnotationPreparedTrustHash; AnnotationPlanHash]
             || blank (annotation AnnotationCampaignUID) || blank (annotation AnnotationDeviceUID))
    (Some (EPlain "activation leaf authority binding is incomplete")) ;;
  let changed := Some (EPlain "authorized prepared leaf identity or phase changed") in
  match ms_PreparedReceipt (leaf_Managed prepared) with
  | None => changed
  | Some receipt =>
      return_if ((leaf_UID prepared != annotation AnnotationPreparedUpgradeUID)
                 || (up_Name (leaf_Upgrade prepared) != annotation AnnotationPreparedUpgradeName)
                 || (up_Namespace (leaf_Upgrade prepared) != up_Namespace (leaf_Upgrade up))
                 || (leaf_Phase prepared != "Prepared")) changed ;;
      return_if (bool_decide (ValidatePreparedReceipt receipt ≠ None))
        (Some (EPlain "authorized prepared receipt is invalid")) ;;
      return_if ((rcp_ReceiptHash receipt != annotation AnnotationPreparedReceiptHash)
                 || (rcp_UpgradeUID receipt != annotation AnnotationPreparedUpgradeUID)
                 || (rcp_DeviceUID receipt != annotation AnnotationDeviceUID)
                 || (rcp_CampaignUID receipt != annotation AnnotationCampaignUID)
                 || (rcp_PlanHash receipt != annotation AnnotationPlanHash)
                 || (rcp_TargetVersion receipt != spec_TargetVersion (leaf_Spec up))
                 || (rcp_SourceDigest receipt != annotation AnnotationPreparedSourceDigest)
                 || (rcp_TrustIdentityHash receipt != annotation AnnotationPreparedTrustHash))
        (Some (EPlain "authorized prepared receipt no longer matches the activation leaf binding")) ;;
      None
  end.

(** The candidate is the settled, verified successor of the preparation. *)
Definition consumes (prepared : Leaf) (receipt : UpgradePreparedReceiptStatus) (consumer : Leaf) : bool :=
  let st := leaf_Status consumer in
  let running := ms_RunningVersion (leaf_Managed consumer) in
  (leaf_UID consumer != leaf_UID prepared)
  && bool_decide (validatePreparedActivationParent consumer prepared = None)
  && (leaf_Phase consumer == "Succeeded") && bool_decide (is_Some (us_CompletionTime st))
  && ((running == rcp_TargetVersion receipt) || HasPrefix running (rcp_TargetVersion receipt +:+ "."))
  && IsStatusConditionTrue (us_Conditions st) "Verified"
  && IsStatusConditionTrue (us_Conditions st) "DeviceMutationSettled"
  && match ms_ManagerAdmission (leaf_Managed consumer) with
     | None => false
     | Some admission =>
         ((adm_ProtocolVersion admission == rcp_ManagedProtocolVersion receipt)
          || (adm_ProtocolVersion admission == RequiredManagedUpgradeProtocol (leaf_Spec consumer)))
         && (adm_State admission == UpgradeManagerAdmissionSettled) && (adm_LeafUID admission == leaf_UID consumer)
         && (adm_DeviceUID admission == rcp_DeviceUID receipt) && (adm_NodeUID admission == rcp_NodeUID receipt)
         && (adm_DeviceGeneration admission =? rcp_DeviceGeneration receipt)
         && (adm_PhysicalIdentity admission == rcp_PhysicalIdentity receipt)
         && (adm_CampaignUID admission == rcp_CampaignUID receipt) && (adm_PlanHash admission == rcp_PlanHash receipt)
         && (adm_PolicyUID admission == rcp_PolicyUID receipt) && (adm_PolicyEpoch admission =? rcp_PolicyEpoch receipt)
     end.

Definition PreparedReceiptConsumed (prepared : Leaf) (candidates : list Leaf) : bool :=
  return_if (leaf_Phase prepared != "Prepared") false ;;
  match ms_PreparedReceipt (leaf_Managed prepared) with
  | None => false
  | Some receipt =>
      return_if (bool_decide (ValidatePreparedReceipt receipt ≠ None)) false ;;
      existsb (consumes prepared receipt) candidates
  end.

(** The prepared leaf, when the activation has one; [Some] in the second case is the error. *)
Definition validatedPreparedActivationParent {LA : @LeafAPI KA} (env : nat → KubeState → KubeState) (r : Reconciler)
    (up : Leaf) : API (option Leaf + goerror) :=
  match validateManagedActivationBinding r up with
  | Some e => mret (inr e)
  | None =>
      return_if (negb (leafManaged up) || negb (spec_Preinstalled (leaf_Spec up))) (mret (inl None)) ;;
      res ← getLeaf env r (up_Namespace (leaf_Upgrade up), mget (leaf_Annotations up) AnnotationPreparedUpgradeName);
      match res with
      | inr e => mret (inr e)
      | inl prepared =>
          match validatePreparedActivationParent up prepared with
          | Some e => mret (inr e)
          | None => mret (inl (Some prepared))
          end
      end
  end.

(** ** Evidence of a drained Pod *)

Definition eligibilityDomain : string := "cisco.vk/workload-drain-eligibility/v1".
Definition UpgradeDrainPodComplete : string := "Complete".

Definition reference_members (r : UpgradeDrainObjectReference) : list (string * option json) :=
  [("apiVersion", Some (JStr (ref_APIVersion r))); ("kind", Some (JStr (ref_Kind r)));
   ("namespace", Some (JStr (ref_Namespace r))); ("name", Some (JStr (ref_Name r)));
   ("uid", Some (JStr (ref_UID r))); ("generation", Some (jint (ref_Generation r)))].

Definition reference_json (r : UpgradeDrainObjectReference) : json := JObj (members (reference_members r)).

Definition pdb_members (p : UpgradeDrainPDBStatus) : list (string * option json) :=
  reference_members (pdb_Reference p)
  ++ [("observedGeneration", Some (jint (pdb_ObservedGeneration p)));
      ("disruptionsAllowed", Some (jint (pdb_DisruptionsAllowed p)));
      ("currentHealthy", Some (jint (pdb_CurrentHealthy p))); ("desiredHealthy", Some (jint (pdb_DesiredHealthy p)));
      ("expectedPods", Some (jint (pdb_ExpectedPods p)))].

Definition pdb_json (p : UpgradeDrainPDBStatus) : json := JObj (members (pdb_members p)).

Definition pdbKeys (p : UpgradeDrainPDBStatus) : list string :=
  [ref_UID (pdb_Reference p); ref_Namespace (pdb_Reference p); ref_Name (pdb_Reference p)].

Definition sortedPDBs (pod : UpgradeDrainPodStatus) : list UpgradeDrainPDBStatus :=
  sort_by_keys pdbKeys (dpod_PDBs pod).

Definition eligibility_members (pod : UpgradeDrainPodStatus) : list (string * option json) :=
  [("domain", Some (JStr eligibilityDomain)); ("namespace", Some (JStr (dpod_Namespace pod)));
   ("name", Some (JStr (dpod_Name pod))); ("uid", Some (JStr (dpod_UID pod)));
   ("controller", Some (reference_json (dpod_Controller pod)));
   ("workloadController", reference_json <$> dpod_WorkloadController pod);
   ("pdbs", Some match sortedPDBs pod with [] => JNull | pdbs => JArr (map pdb_json pdbs) end);
   ("terminationGracePeriodSeconds", Some (jint (dpod_TerminationGracePeriodSeconds pod)));
   ("placementHash", optstr (dpod_PlacementHash pod))].

Definition eligibilityText (pod : UpgradeDrainPodStatus) : string := Marshal (JObj (members (eligibility_members pod))).

Definition EligibilityHash (pod : UpgradeDrainPodStatus) : string :=
  "sha256:" +:+ hex_EncodeToString (Sum256 (eligibilityText pod)).

Definition VerifyEligibilityHash (pod : UpgradeDrainPodStatus) : option goerror :=
  return_if (dpod_EligibilityHash pod != EligibilityHash pod)
    (Some (EPlain "drain Pod eligibility hash does not match its snapshot")) ;;
  None.

(** ** Retirement of a preparation *)

Definition UpgradeManagerDrainSettled : string := "Settled".
Definition InventoryStateAbsent : string := "Absent".
Definition InventoryStateInstalled : string := "Installed".

(** The drain of the preparation has settled. *)
Definition validateSettledDrain (admission : UpgradeManagerAdmissionStatus) (control : UpgradeManagerControlStatus)
    (drain : UpgradeManagerDrainStatus) : option goerror :=
  return_if ((drn_ProtocolVersion drain != ManagedDrainProtocolPDBV1) || (drn_State drain != UpgradeManagerDrainSettled)
             || (drn_SessionToken drain == "") || (drn_NodeUID drain != adm_NodeUID admission)
             || (drn_ReservationID drain != adm_ReservationID admission)
             || negb (drn_PolicyEpoch drain =? adm_PolicyEpoch admission)
             || negb (drn_ControlRevision drain =? ctl_Revision control)
             || negb (bool_decide (adm_ControlRevision admission = Some (drn_ControlRevision drain)))
             || (drn_StartedAt drain =? 0) || (drn_UpdatedAt drain <? drn_StartedAt drain)
             || match drn_RecoveryDeadline drain with None => true | Some d => negb (drn_StartedAt drain <? d) end)
    (Some (EPlain "invalidation requires exact settled drain authority")) ;;
  return_if (existsb (λ pod, (dpod_UID pod == "") || (dpod_Phase pod != UpgradeDrainPodComplete)
                             || bool_decide (VerifyEligibilityHash pod ≠ None)) (drn_Pods drain))
    (Some (EPlain "invalidation requires complete immutable drain Pod evidence")) ;;
  None.

(** What the request must name. *)
Definition requestBinds (up : Leaf) (receipt : UpgradePreparedReceiptStatus) (request : UpgradePreparedInvalidationRequest)
    (admission : UpgradeManagerAdmissionStatus) : bool :=
  (rcp_UpgradeUID receipt == leaf_UID up) && (adm_LeafUID admission == leaf_UID up)
  && (rcp_DeviceUID receipt == adm_DeviceUID admission) && (rcp_NodeUID receipt == adm_NodeUID admission)
  && (rcp_PhysicalIdentity receipt == adm_PhysicalIdentity admission)
  && (rcp_DeviceGeneration receipt =? adm_DeviceGeneration admission)
  && (rcp_CampaignUID receipt == adm_CampaignUID admission) && (rcp_PlanHash receipt == adm_PlanHash admission)
  && (inv_ReceiptHash request == rcp_ReceiptHash receipt) && (inv_PlanHash request == rcp_PlanHash receipt)
  && (inv_CampaignUID request == rcp_CampaignUID receipt) && (1 <=? inv_ControlRevision request)
  && negb (inv_RequestedAt request =? 0) && (rcp_PreparedAt receipt <=? inv_RequestedAt request)
  && negb (blank (inv_RequestedBy request)) && negb (blank (inv_Reason request)).

(** [reflect.DeepEqual] of the claims: both lists were read from the API server, which gives
    equal times the same representation. *)
Definition ValidatePreparedInvalidationRequest (up : Leaf) : option goerror :=
  let st := leaf_Status up in
  let m := leaf_Managed up in
  let incomplete := Some (EPlain "invalidation requires an exact, completed preparation receipt") in
  let unsettled := Some (EPlain "invalidation requires acknowledged cancellation and conclusively settled preparation-only claims") in
  return_if ((spec_Strategy (leaf_Spec up) != "PrepareOnly")
             || ((leaf_Phase up != "Prepared") && (leaf_Phase up != "PreparedInvalidated"))
             || (us_ExecutionModel st != UpgradeExecutionModelAtMostOnceV1)
             || bool_decide (us_CompletionTime st = None)) incomplete ;;
  match ms_ManagerInvalidation m, ms_PreparedReceipt m with
  | Some request, Some receipt =>
      return_if (bool_decide (ValidatePreparedReceipt receipt ≠ None)) incomplete ;;
      return_if (negb (ManagedUpgradeProtocolMatches up)) unsettled ;;
      match ms_ManagerAdmission m, ms_ManagerControl m, ms_WorkerControl m with
      | Some admission, Some control, Some worker =>
          return_if ((adm_State admission != UpgradeManagerAdmissionSettled) || ctl_Pause control
                     || (wc_EffectiveState worker != UpgradeWorkerControlSettled)
                     || (wc_ObservedAdmissionState worker != adm_State admission)
                     || negb (wc_ObservedControlRevision worker =? ctl_Revision control)
                     || negb (wc_ObservedPolicyEpoch worker =? adm_PolicyEpoch admission)
                     || negb (IsStatusConditionTrue (us_Conditions st) "DeviceMutationSettled")
                     || us_PrimarySupervisorActivationRequested st || us_StandbySupervisorActivationRequested st
                     || us_RollbackActivationRequested st || us_NoRebootActivationAccepted st
                     || bool_decide (is_Some (us_ActivationStartTime st))
                     || bool_decide (is_Some (ms_ActivationControlStartTime m))
                     || bool_decide (is_Some (us_RollbackStartTime st)) || us_StandbySupervisorActivated st
                     || negb (us_PrimarySupervisorInstalled st)
                     || (rcp_ManagedMutationClaims receipt != ms_ManagedMutationClaims m)) unsettled ;;
          let authorized := ctl_Cancel control && (inv_ControlRevision request <=? ctl_Revision control) in
          propagate (match ms_ManagerDrain m with
                     | None => None
                     | Some drain => validateSettledDrain admission control drain
                     end) ;;
          return_if (negb (authorized || (bool_decide (is_Some (ms_ManagerDrain m))
                                          && (ctl_Revision control <? inv_ControlRevision request))))
            (Some (EPlain "invalidation requires cancelled control or separately authorized retirement of an exact settled drain")) ;;
          return_if (negb (requestBinds up receipt request admission))
            (Some (EPlain "invalidation authority does not bind this receipt and cancelled control revision")) ;;
          validateManagedClaimCoverage up (ctl_Revision control)
      | _, _, _ => unsettled
      end
  | _, _ => incomplete
  end.

Definition PreparedReceiptInvalidated (up : Leaf) : bool :=
  return_if (bool_decide (ValidatePreparedInvalidationRequest up ≠ None)) false ;;
  return_if (leaf_Phase up != "PreparedInvalidated") false ;;
  match ms_PreparedInvalidation (leaf_Managed up), ms_ManagerInvalidation (leaf_Managed up),
        ms_PreparedReceipt (leaf_Managed up) with
  | Some proof, Some request, Some receipt =>
      (ivd_RequestHash proof == PreparedInvalidationRequestHash request)
      && validManagedSHA256 (ivd_NativeEvidenceHash proof) && validManagedSHA256 (ivd_WorkerRevision proof)
      && negb (blank (ivd_WorkerPodUID proof)) && negb (ivd_ObservedAt proof =? 0)
      && (inv_RequestedAt request <=? ivd_ObservedAt proof)
      && (ivd_RunningVersion proof == rcp_RunningVersion receipt)
      && ((ivd_TargetState proof == InventoryStateAbsent) || (ivd_TargetState proof == InventoryStateInstalled))
  | _, _, _ => false
  end.
End activation.
