(* ===== verification/Lifecycle.v ===== *)
(** * Versions

    [ValidateTargetVersion] of src/internal/softwarelifecycle/backend.go, and what
    [versionMatches] of the upgrade worker decides. *)

From S2P Require Import Prelude GoLib Interfaces LedgerData LedgerSpec GraphText Receipt.

Definition dot : Ascii.ascii := byte_of 46.

(** ** The code *)

(** [strings.Split(s, ".")] *)
Fixpoint splitDots (l : list Ascii.ascii) : list (list Ascii.ascii) :=
  match l with
  | [] => [[]]
  | c :: l =>
      if c == dot then [] :: splitDots l
      else match splitDots l with seg :: segs => (c :: seg) :: segs | [] => [[c]] end
  end.

Definition segments (s : string) : list (list Ascii.ascii) := splitDots (bytes_of s).

Definition isDigit (c : Ascii.ascii) : bool := (48 <=? byte_val c) && (byte_val c <=? 57).
Definition isLower (c : Ascii.ascii) : bool := (97 <=? byte_val c) && (byte_val c <=? 122).

(** The characters of a segment from [charIndex] on; a byte beyond ASCII is part of a rune
    that is neither a digit nor a letter. *)
Fixpoint validateChars (final : bool) (charIndex : nat) (l : list Ascii.ascii) : option goerror :=
  match l with
  | [] => None
  | c :: l =>
      propagate (if isDigit c then None
                 else if final && (l == []) && (0 <? charIndex)%nat && isLower c then None
                 else Some (EPlain "target version contains unsupported characters")) ;;
      validateChars final (S charIndex) l
  end.

Fixpoint validateSegments (segs : list (list Ascii.ascii)) : option goerror :=
  match segs with
  | [] => None
  | segment :: segs =>
      return_if (segment == []) (Some (EPlain "target version contains an empty segment")) ;;
      propagate (validateChars (segs == []) 0 segment) ;;
      validateSegments segs
  end.

Definition ValidateTargetVersion (target : string) : option goerror :=
  return_if ((target == "") || (128 <? slen target) || (TrimSpace target != target))
    (Some (EPlain "target version has invalid length or surrounding whitespace")) ;;
  return_if (llen (segments target) <? 2)
    (Some (EPlain "target version must contain at least two numeric segments")) ;;
  validateSegments (segments target).

(** ** The grammar *)

Definition number (l : list Ascii.ascii) : Prop := l ≠ [] ∧ Forall (λ c, isDigit c = true) l.

(** The last segment may end in one lower-case letter. *)
Definition release (l : list Ascii.ascii) : Prop :=
  number l ∨ ∃ n c, l = n ++ [c] ∧ number n ∧ isLower c = true.

Fixpoint joinDots (segs : list (list Ascii.ascii)) : list Ascii.ascii :=
  match segs with
  | [] => []
  | [seg] => seg
  | seg :: segs => seg ++ dot :: joinDots segs
  end.

(** ** Splitting and joining *)

Lemma splitDots_nonnil l : splitDots l ≠ [].
Proof. destruct l; cbn; [done|]. repeat case_match; done. Qed.

Lemma joinDots_cons seg segs : segs ≠ [] → joinDots (seg :: segs) = seg ++ dot :: joinDots segs.
Proof. by destruct segs. Qed.

Lemma joinDots_split l : joinDots (splitDots l) = l.
Proof.
  induction l as [|c l IH]; [done|]. cbn [splitDots]. case_bool_decide as Hc.
  - rewrite joinDots_cons by apply splitDots_nonnil. by rewrite IH, Hc.
  - destruct (splitDots l) as [|seg segs] eqn:Hs; [by destruct (splitDots_nonnil l)|].
    rewrite <- IH. by destruct segs.
Qed.

Lemma splitDots_app a b : splitDots (a ++ dot :: b) = splitDots a ++ splitDots b.
Proof.
  induction a as [|c a IH]; [cbn; by rewrite bool_decide_true|]. cbn [app splitDots]. rewrite IH.
  case_bool_decide; [done|]. destruct (splitDots a) eqn:Hs; [by destruct (splitDots_nonnil a)|done].
Qed.

Lemma splitDots_plain l : dot ∉ l → splitDots l = [l].
Proof.
  induction l as [|c l IH]; [done|]. intros [Hc Hl]%not_elem_of_cons. cbn [splitDots].
  rewrite bool_decide_false by congruence. by rewrite IH.
Qed.

Lemma splitDots_join segs : segs ≠ [] → Forall (λ seg, dot ∉ seg) segs → splitDots (joinDots segs) = segs.
Proof.
  induction segs as [|seg segs IH]; [done|]. intros _ [Hs Hall]%Forall_cons.
  destruct segs as [|seg' segs]; [by apply splitDots_plain|].
  rewrite joinDots_cons by done. rewrite splitDots_app, IH by done. by rewrite splitDots_plain.
Qed.

Lemma joinDots_app a b : a ≠ [] → b ≠ [] → joinDots (a ++ b) = joinDots a ++ dot :: joinDots b.
Proof.
  intros Ha Hb. induction a as [|seg a IH]; [done|]. destruct a as [|seg' a].
  - by apply joinDots_cons.
  - change ((seg :: seg' :: a) ++ b) with (seg :: ((seg' :: a) ++ b)).
    rewrite !joinDots_cons by done. rewrite IH by done. by rewrite <- (assoc_L (++)).
Qed.

(** ** The validation *)

Lemma validateChars_None final i l :
  validateChars final i l = None ↔
  Forall (λ c, isDigit c = true) l
  ∨ final = true ∧ ∃ n c, l = n ++ [c] ∧ Forall (λ c, isDigit c = true) n ∧ isLower c = true ∧ (0 < i + length n)%nat.
Proof.
  revert i. induction l as [|c l IH]; intros i; cbn [validateChars]; [split; [by left|done]|].
  rewrite propagate_None, IH. split.
  - intros [Hc Hl]. destruct (isDigit c) eqn:Hd.
    + destruct Hl as [Hl|(Hf & n & c' & -> & Hn & Hlow & _)]; [left; by constructor|].
      right. split; [done|]. exists (c :: n), c'. split_and!; [done|by constructor|done|cbn; lia].
    + rewrite ret_ok_None in Hc. go_bool. destruct Hc as (((Hf & Hl0) & Hi) & Hlow). apply Nat.ltb_lt in Hi.
      right. split; [done|]. exists [], c. rewrite Hl0. split_and!; [done|constructor|done|cbn; lia].
  - intros [Hd|(Hf & n & c' & He & Hn & Hlow & Hi)].
    + apply Forall_cons in Hd as [Hd Hl]. rewrite Hd. split; [done|by left].
    + destruct n as [|d n]; cbn in He; injection He as -> ->.
      * destruct (isDigit c') eqn:Hd; [split; [done|by left]|]. split; [|by left].
        rewrite ret_ok_None. cbn in Hi. rewrite Hf, Hlow, bool_decide_true by done.
        destruct i; [lia|done].
      * apply Forall_cons in Hn as [Hd Hn]. rewrite Hd. split; [done|]. right. split; [done|].
        exists n, c'. split_and!; [done|done|done|cbn in *; lia].
Qed.

Lemma validate_number segment : segment ≠ [] → validateChars false 0 segment = None ↔ number segment.
Proof. intros Hne. rewrite validateChars_None. unfold number. naive_solver. Qed.

Lemma validate_release segment : segment ≠ [] → validateChars true 0 segment = None ↔ release segment.
Proof.
  intros Hne. rewrite validateChars_None. unfold release, number. split.
  - intros [Hd|(_ & n & c & -> & Hn & Hc & Hi)]; [by left|]. right. exists n, c.
    split_and!; try done. destruct n; [cbn in Hi; lia|done].
  - intros [[_ Hd]|(n & c & -> & [Hn0 Hn] & Hc)]; [by left|]. right. split; [done|]. exists n, c.
    split_and!; try done. destruct n; [done|cbn; lia].
Qed.

Lemma release_nonnil l : release l → l ≠ [].
Proof. intros [[]|(n & c & -> & _)]; [done|by destruct n]. Qed.

Lemma validateSegments_None segs last :
  validateSegments (segs ++ [last]) = None ↔ Forall number segs ∧ release last.
Proof.
  induction segs as [|seg segs IH]; cbn [app validateSegments].
  - rewrite ret_if_None, propagate_None. go_bool. split.
    + intros (Hne & Hv & _). split; [constructor|]. by apply validate_release.
    + intros [_ Hr]. pose proof (release_nonnil _ Hr). split_and!; [done|by apply validate_release|done].
  - rewrite ret_if_None, propagate_None, IH, Forall_cons. go_bool.
    rewrite (bool_decide_false (segs ++ [last] = [])) by (by destruct segs). split.
    + intros (Hne & Hv & Hn & Hr). split; [|done]. split; [by apply validate_number|done].
    + intros [[Hs Hn] Hr]. split_and!; [apply Hs|by apply validate_number; [apply Hs|]|done|done].
Qed.

(** The bytes of a version are neither spaces nor dots, but for the dots that separate. *)
Definition version_byte (c : Ascii.ascii) : bool := isDigit c || isLower c.

Lemma number_bytes l : number l → Forall (λ c, version_byte c = true) l.
Proof. intros [_ Hd]. eapply Forall_impl; [exact Hd|]. unfold version_byte. intros c ->. done. Qed.

Lemma release_bytes l : release l → Forall (λ c, version_byte c = true) l.
Proof.
  intros [Hn|(n & c & -> & Hn & Hc)]; [by apply number_bytes|]. apply Forall_app. split; [by apply number_bytes|].
  constructor; [|constructor]. unfold version_byte. rewrite Hc. apply orb_true_r.
Qed.

Lemma version_bytes_plain l : Forall (λ c, version_byte c = true) l → dot ∉ l.
Proof. rewrite Forall_forall. intros H Hin. by specialize (H _ Hin). Qed.

Lemma joinDots_bytes segs c :
  Forall (λ l, Forall (λ c, version_byte c = true) l) segs → c ∈ joinDots segs → version_byte c = true ∨ c = dot.
Proof.
  induction segs as [|seg segs IH]; [by intros _ ?%not_elem_of_nil|]. intros [Hs Hall]%Forall_cons.
  rewrite Forall_forall in Hs. destruct segs as [|seg' segs]; [left; by apply Hs|].
  rewrite joinDots_cons by done. intros [Hin|[->|Hin]%elem_of_cons]%elem_of_app; auto.
Qed.

Lemma release_version segs last :
  Forall number segs → release last →
  Forall (λ l, Forall (λ c, version_byte c = true) l) (segs ++ [last]).
Proof.
  intros Hn Hr. apply Forall_app. split; [eapply Forall_impl; [exact Hn|apply number_bytes]|].
  constructor; [by apply release_bytes|constructor].
Qed.

(** Text of the grammar is printable. *)
Lemma version_trimmed t segs last :
  Forall number segs → release last → bytes_of t = joinDots (segs ++ [last]) → TrimSpace t = t.
Proof.
  intros Hn Hr Ht. apply TrimSpace_printable, all_bytes_spec. intros c. rewrite Ht. intros Hin.
  destruct (joinDots_bytes _ c (release_version _ _ Hn Hr) Hin) as [Hc| ->]; [|done].
  unfold version_byte, isDigit, isLower, printable in *. go_bool. lia.
Qed.

Lemma ValidateTargetVersion_grammar t :
  ValidateTargetVersion t = None ↔
  slen t ≤ 128 ∧ ∃ segs last, segs ≠ [] ∧ Forall number segs ∧ release last ∧ bytes_of t = joinDots (segs ++ [last]).
Proof.
  unfold ValidateTargetVersion. rewrite !ret_if_None. go_bool. split.
  - intros (((_ & Hlen) & _) & H2 & Hv). split; [done|].
    pose proof (joinDots_split (bytes_of t)) as Hj. fold (segments t) in Hj.
    destruct (segments t) as [|last segs _] using rev_ind; [by cbn in H2|].
    apply validateSegments_None in Hv as [Hn Hr]. exists segs, last. split_and!; try done.
    unfold llen in H2. rewrite length_app in H2. destruct segs; [cbn in H2; lia|done].
  - intros (Hlen & segs & last & Hne & Hn & Hr & Ht).
    assert (segments t = segs ++ [last]) as Hs.
    { unfold segments. rewrite Ht. apply splitDots_join; [by destruct segs|].
      eapply Forall_impl; [by apply release_version|apply version_bytes_plain]. }
    rewrite Hs. split_and!; [|done|by eapply version_trimmed| |by apply validateSegments_None].
    + intros ->. cbn in Hs. destruct segs as [|seg [|]]; done.
    + unfold llen. rewrite length_app. destruct segs; [done|cbn; lia].
Qed.

Lemma HasPrefix_bytes s p : HasPrefix s p = true ↔ bytes_of p `prefix_of` bytes_of s.
Proof.
  unfold HasPrefix. revert s. induction p as [|c p IH]; intros s; cbn; [split; [intros; apply prefix_nil|by destruct s]|].
  destruct s as [|c' s]; cbn; [split; [done|by intros ?%prefix_nil_not]|].
  destruct (Ascii.ascii_dec c c') as [->|Hne]; [rewrite IH; split; [apply prefix_cons|apply prefix_cons_inv_2]|].
  split; [done|]. by intros ?%prefix_cons_inv_1.
Qed.

Lemma versionMatches_segments v t : versionMatches v t = true ↔ segments t `prefix_of` segments v.
Proof.
  unfold versionMatches, segments. case_bool_decide as He; [subst; split; [done|intros; done]|].
  rewrite HasPrefix_bytes, bytes_of_app. split.
  - intros [k Hk]. change (bytes_of ".") with [dot] in Hk. rewrite <- (assoc_L (++)) in Hk. rewrite Hk.
    cbn [app]. rewrite splitDots_app. by eexists.
  - intros [k Hk]. apply (f_equal joinDots) in Hk. rewrite joinDots_split in Hk.
    destruct (decide (k = [])) as [->|Hk0].
    + rewrite app_nil_r, joinDots_split in Hk. destruct He. by rewrite <- (of_bytes_of v), Hk, of_bytes_of.
    + rewrite joinDots_app, joinDots_split in Hk by (done || apply splitDots_nonnil). rewrite Hk.
      exists (joinDots k). by rewrite <- (assoc_L (++)).
Qed.

Lemma segments_inj t t' : segments t = segments t' → t = t'.
Proof.
  intros H%(f_equal joinDots). unfold segments in H. rewrite !joinDots_split in H.
  by rewrite <- (of_bytes_of t), H, of_bytes_of.
Qed.

(** ** Theorem *)

(** C8: versions.  [ValidateTargetVersion] accepts exactly at most 128 bytes of two or
    more numbers separated by dots, the last of which may end in one lower-case letter (no
    such text has space around it).  A device's version matches a target exactly when the
    segments of the target are its first segments, so that of the targets with some number
    of segments a device runs at most one. *)
Theorem target_versions :
  (∀ t, ValidateTargetVersion t = None ↔
     slen t ≤ 128 ∧ ∃ segs last,
       segs ≠ [] ∧ Forall number segs ∧ release last ∧ bytes_of t = joinDots (segs ++ [last]))
  ∧ (∀ v t, versionMatches v t = true ↔ segments t `prefix_of` segments v)
  ∧ (∀ v t t', versionMatches v t = true → versionMatches v t' = true →
       length (segments t) = length (segments t') → t = t').
Proof.
  split; [apply ValidateTargetVersion_grammar|]. split; [apply versionMatches_segments|].
  intros v t t' Ht%versionMatches_segments Ht'%versionMatches_segments Hlen. apply segments_inj.
  destruct Ht as [k Hk], Ht' as [k' Hk']. rewrite Hk in Hk'. by apply app_inj_1 in Hk' as [-> _].
Qed.

(** A short target, a full version and a version of another release. *)
Lemma target_versions_witness :
  ValidateTargetVersion "26.01.01a" = None ∧ versionMatches "26.01.01.0.340" "26.01.01" = true
  ∧ segments "26.01.01" `prefix_of` segments "26.01.01.0.340" ∧ ¬ segments "26.01.01" `prefix_of` segments "26.01.011".
Proof.
  destruct target_versions as (_ & Hm & _). split_and!; [vm_compute; reflexivity|vm_compute; reflexivity| |].
  - apply Hm. vm_compute. reflexivity.
  - intros Hp%Hm. vm_compute in Hp. discriminate.
Defined.
