(* ===== verification/ReceiptProofs.v ===== *)
(** * Receipts: what their text determines

    The JSON text that is hashed determines every field; storing a receipt changes neither
    the text nor its validity. *)

From S2P Require Import Prelude GoLib GoTime Json JsonProofs Interfaces LedgerData LedgerCodec Store AdminPolicyHash.
From S2P Require Import AdminPolicyHashProofs SortKeys JsonFields Identity Quarantine TopologyLock Leaf LeafClaim Receipt.

(** ** Fields *)

Definition timely (t : Time) : Prop := t = 0 ∨ nsPerSecond ≤ t < endOfYear9999.

Lemma stored_timely t : timely t → 0 ≤ stored_time t < endOfYear9999.
Proof. unfold timely, stored_time, endOfYear9999, nsPerDay, nsPerSecond. intros [->|Ht]; [done|].
  Z.to_euclidean_division_equations. lia. Qed.

Lemma jtime_inj t t' : timely t → timely t' → jtime t = jtime t' → stored_time t = stored_time t'.
Proof.
  intros Ht Ht'. unfold jtime. destruct (Z.eqb_spec t 0) as [->|], (Z.eqb_spec t' 0) as [->|]; try done.
  intros [= He]. apply (f_equal ParseRFC3339Nano) in He.
  rewrite !ParseRFC3339Nano_Format in He by (by apply stored_timely). congruence.
Qed.

(** A time is printed as it is stored. *)
Lemma jtime_stored t : timely t → jtime (stored_time t) = jtime t.
Proof.
  unfold jtime, timely, stored_time, nsPerSecond. intros [->|[Ht _]]; [done|].
  rewrite (proj2 (Z.eqb_neq t 0)), (proj2 (Z.eqb_neq (t / _ * _) 0)) by (Z.to_euclidean_division_equations; lia). by rewrite Z.div_mul.
Qed.

Lemma stored_nonzero t : timely t → t ≠ 0 → stored_time t ≠ 0.
Proof. unfold timely, stored_time, nsPerSecond. intros [->|[Ht _]] ?; [done|].
  Z.to_euclidean_division_equations. lia. Qed.

Lemma stored_mono t t' : t ≤ t' → stored_time t ≤ stored_time t'.
Proof. unfold stored_time, nsPerSecond. intros Ht. pose proof (Z.div_le_mono t t' 1000000000). lia. Qed.

Lemma clean_time t : clean (jtime t).
Proof. unfold jtime. case_match; [done|]. apply FormatRFC3339Nano_ascii. Qed.

#[export] Hint Resolve clean_time : clean.

(** ** Claims *)

Record claim_typed (c : UpgradeManagedMutationClaimStatus) : Prop := {
  ct_stage : ascii_string (clm_Stage c);
  ct_reservation : ascii_string (clm_ReservationID c);
  ct_epoch : 0 ≤ clm_PolicyEpoch c;
  ct_revision : 0 ≤ clm_ControlRevision c;
  ct_time : timely (clm_ClaimedAt c);
}.

Lemma claim_json_inj c c' :
  claim_typed c → claim_typed c' → claim_json c = claim_json c' → stored_claim c = stored_claim c'.
Proof.
  intros [] []. unfold claim_json. intros [= Hs Hr He Hv Ht].
  unfold stored_claim. f_equal; [done|done| | |by apply jtime_inj].
  - apply jint_inj; [done|done|]. unfold jint. by rewrite He.
  - apply jint_inj; [done|done|]. unfold jint. by rewrite Hv.
Qed.

Lemma claim_json_stored c : claim_typed c → claim_json (stored_claim c) = claim_json c.
Proof. intros []. unfold claim_json, claim_members, stored_claim. cbn. by rewrite jtime_stored. Qed.

Lemma claim_json_clean c : claim_typed c → clean (claim_json c).
Proof. intros []. unfold claim_json, claim_members. clean_object. Qed.

(** ** Receipts *)

(** The strings and numbers that the CRD and the worker put into a receipt. *)
Record receipt_typed (r : UpgradePreparedReceiptStatus) : Prop := {
  rt_strings : Forall ascii_string
    [rcp_ProtocolVersion r; rcp_UpgradeUID r; rcp_DeviceUID r; rcp_NodeUID r; rcp_PhysicalIdentity r;
     rcp_CampaignUID r; rcp_PlanHash r; rcp_ManagedProtocolVersion r; rcp_PolicyUID r; rcp_PolicyResourceVersion r;
     rcp_WorkerRevision r; rcp_SourceDigest r; rcp_SourceIdentityHash r; rcp_SourceSecretUID r;
     rcp_TrustIdentityHash r; rcp_ContentBinding r; rcp_TargetVersion r; rcp_ValidatedVersion r; rcp_RunningVersion r;
     rcp_StandbySupervisorID r; rcp_StandbyRunningVersion r; rcp_StagingOperationID r];
  rt_generation : 0 ≤ rcp_DeviceGeneration r;
  rt_epoch : 0 ≤ rcp_PolicyEpoch r;
  rt_size : 0 ≤ rcp_SourceSize r;
  rt_started : timely (rcp_InstallStartedAt r);
  rt_prepared : timely (rcp_PreparedAt r);
  rt_claims : Forall claim_typed (rcp_ManagedMutationClaims r);
}.

(** What a receipt says, in whatever order its claims are: as it is stored, with the
    claims in order of their stages and without its hash. *)
Definition receiptContent (r : UpgradePreparedReceiptStatus) : UpgradePreparedReceiptStatus :=
  let s := stored_receipt r in
  {| rcp_ProtocolVersion := rcp_ProtocolVersion s; rcp_UpgradeUID := rcp_UpgradeUID s;
     rcp_DeviceUID := rcp_DeviceUID s; rcp_NodeUID := rcp_NodeUID s; rcp_PhysicalIdentity := rcp_PhysicalIdentity s;
     rcp_DeviceGeneration := rcp_DeviceGeneration s; rcp_CampaignUID := rcp_CampaignUID s;
     rcp_PlanHash := rcp_PlanHash s; rcp_ManagedProtocolVersion := rcp_ManagedProtocolVersion s;
     rcp_PolicyUID := rcp_PolicyUID s; rcp_PolicyResourceVersion := rcp_PolicyResourceVersion s;
     rcp_PolicyEpoch := rcp_PolicyEpoch s; rcp_WorkerRevision := rcp_WorkerRevision s;
     rcp_SourceDigest := rcp_SourceDigest s; rcp_SourceSize := rcp_SourceSize s;
     rcp_SourceIdentityHash := rcp_SourceIdentityHash s; rcp_SourceSecretUID := rcp_SourceSecretUID s;
     rcp_TrustIdentityHash := rcp_TrustIdentityHash s; rcp_ContentBinding := rcp_ContentBinding s;
     rcp_TargetVersion := rcp_TargetVersion s; rcp_ValidatedVersion := rcp_ValidatedVersion s;
     rcp_RunningVersion := rcp_RunningVersion s;
     rcp_IndividualSupervisorInstall := rcp_IndividualSupervisorInstall s;
     rcp_PrimarySupervisorInstalled := rcp_PrimarySupervisorInstalled s;
     rcp_StandbySupervisorInstalled := rcp_StandbySupervisorInstalled s;
     rcp_StandbySupervisorID := rcp_StandbySupervisorID s; rcp_StandbyRunningVersion := rcp_StandbyRunningVersion s;
     rcp_InstallStartedAt := rcp_InstallStartedAt s; rcp_StagingOperationID := rcp_StagingOperationID s;
     rcp_ManagedMutationClaims := sort_by_keys (λ c, [clm_Stage c]) (rcp_ManagedMutationClaims s);
     rcp_PreparedAt := rcp_PreparedAt s; rcp_ReceiptHash := "" |}.

Lemma sorted_claims_stored cs :
  sort_by_keys (λ c, [clm_Stage c]) (stored_claim <$> cs) = stored_claim <$> sort_by_keys (λ c, [clm_Stage c]) cs.
Proof. by apply sort_by_keys_fmap. Qed.

Lemma sorted_claims_typed cs : Forall claim_typed cs → Forall claim_typed (sort_by_keys (λ c, [clm_Stage c]) cs).
Proof. by rewrite sort_by_keys_perm. Qed.

Lemma receipt_keys r : NoDup (map fst (receipt_members r)).
Proof. apply (bool_decide_eq_true_1 _). vm_compute. reflexivity. Qed.

Lemma receipt_clean r : receipt_typed r → clean (JObj (members (receipt_members r))).
Proof.
  intros [Hs ? ? ? ? ? Hc]. unfold receipt_members. clean_object.
  unfold optlist in Hj. case_match eqn:Hl; [done|]. injection Hj as <-. rewrite <- Hl.
  apply clean_elems. intros j (c & -> & Hin)%list_elem_of_fmap. apply claim_json_clean.
  apply sorted_claims_typed in Hc. rewrite Forall_forall in Hc. by apply Hc.
Qed.

(** The text determines the content. *)
Lemma receiptText_inj r r' :
  receipt_typed r → receipt_typed r' → receiptText r = receiptText r' → receiptContent r = receiptContent r'.
Proof.
  intros Hr Hr' He. apply Marshal_inj in He; [|by apply receipt_clean..].
  assert (members (receipt_members r) = members (receipt_members r')) as Hm by congruence.
  apply members_inj in Hm; [|done|apply receipt_keys]. clear He.
  destruct Hr as [_ ? ? ? ? ? Hc], Hr' as [_ ? ? ? ? ? Hc']. unfold receipt_members in Hm. 
  injection Hm; clear Hm; intros.
  unfold receiptContent, stored_receipt. cbn -[sort_by_keys]. f_equal; eauto using optstr_inj, optint_inj, optbool_inj, jtime_inj.
  rewrite !sorted_claims_stored.
  apply (map_json_inj claim_json stored_claim claim_typed);
    [apply claim_json_inj|by apply sorted_claims_typed..|by apply optlist_inj].
Qed.

(** Neither storing a receipt nor the order of its claims changes its text. *)
Lemma sorted_claims_json cs :
  Forall claim_typed cs →
  map claim_json (sort_by_keys (λ c, [clm_Stage c]) (stored_claim <$> cs))
  = map claim_json (sort_by_keys (λ c, [clm_Stage c]) cs).
Proof.
  intros Hc%sorted_claims_typed. rewrite sorted_claims_stored.
  induction Hc as [|c l Hc _ IH]; [done|]. csimpl. by rewrite IH, claim_json_stored.
Qed.

Lemma receiptText_stored r : receipt_typed r → receiptText (stored_receipt r) = receiptText r.
Proof.
  intros []. unfold receiptText, receipt_members, stored_receipt. cbn -[sort_by_keys members Marshal].
  by rewrite sorted_claims_json, !jtime_stored.
Qed.

(** The receipt with its claims in another order. *)
Definition with_claims (r : UpgradePreparedReceiptStatus) (cs : list UpgradeManagedMutationClaimStatus) :
    UpgradePreparedReceiptStatus :=
  {| rcp_ProtocolVersion := rcp_ProtocolVersion r; rcp_UpgradeUID := rcp_UpgradeUID r;
     rcp_DeviceUID := rcp_DeviceUID r; rcp_NodeUID := rcp_NodeUID r; rcp_PhysicalIdentity := rcp_PhysicalIdentity r;
     rcp_DeviceGeneration := rcp_DeviceGeneration r; rcp_CampaignUID := rcp_CampaignUID r;
     rcp_PlanHash := rcp_PlanHash r; rcp_ManagedProtocolVersion := rcp_ManagedProtocolVersion r;
     rcp_PolicyUID := rcp_PolicyUID r; rcp_PolicyResourceVersion := rcp_PolicyResourceVersion r;
     rcp_PolicyEpoch := rcp_PolicyEpoch r; rcp_WorkerRevision := rcp_WorkerRevision r;
     rcp_SourceDigest := rcp_SourceDigest r; rcp_SourceSize := rcp_SourceSize r;
     rcp_SourceIdentityHash := rcp_SourceIdentityHash r; rcp_SourceSecretUID := rcp_SourceSecretUID r;
     rcp_TrustIdentityHash := rcp_TrustIdentityHash r; rcp_ContentBinding := rcp_ContentBinding r;
     rcp_TargetVersion := rcp_TargetVersion r; rcp_ValidatedVersion := rcp_ValidatedVersion r;
     rcp_RunningVersion := rcp_RunningVersion r;
     rcp_IndividualSupervisorInstall := rcp_IndividualSupervisorInstall r;
     rcp_PrimarySupervisorInstalled := rcp_PrimarySupervisorInstalled r;
     rcp_StandbySupervisorInstalled := rcp_StandbySupervisorInstalled r;
     rcp_StandbySupervisorID := rcp_StandbySupervisorID r; rcp_StandbyRunningVersion := rcp_StandbyRunningVersion r;
     rcp_InstallStartedAt := rcp_InstallStartedAt r; rcp_StagingOperationID := rcp_StagingOperationID r;
     rcp_ManagedMutationClaims := cs; rcp_PreparedAt := rcp_PreparedAt r; rcp_ReceiptHash := rcp_ReceiptHash r |}.

Lemma receiptText_order r cs :
  NoDup (map clm_Stage (rcp_ManagedMutationClaims r)) → rcp_ManagedMutationClaims r ≡ₚ cs →
  receiptText (with_claims r cs) = receiptText r.
Proof.
  intros Hnd Hp. unfold receiptText, receipt_members, with_claims. cbn -[sort_by_keys members Marshal].
  rewrite (sort_by_keys_perm_eq _ (rcp_ManagedMutationClaims r) cs); [done| |done].
  change (λ c, [clm_Stage c]) with ((λ s, [s]) ∘ clm_Stage). rewrite <- (List.map_map clm_Stage (λ s, [s])).
  apply NoDup_fmap_2; [|done]. by intros ?? [= ->].
Qed.

(** ** Hashes *)

Section hash.
Context `{HL : HashLib, HS : !HashLibSpec HL}.

Lemma PreparedReceiptHash_inj r r' :
  receipt_typed r → receipt_typed r' → PreparedReceiptHash r = PreparedReceiptHash r' →
  receiptContent r = receiptContent r' ∨ collides (receiptText r) (receiptText r').
Proof using HS. intros Hr Hr' [He|?]%hash_inj; [left; by apply receiptText_inj|by right]. Qed.

Lemma PreparedReceiptHash_stored r :
  receipt_typed r → PreparedReceiptHash (stored_receipt r) = PreparedReceiptHash r.
Proof. intros Hr. unfold PreparedReceiptHash. by rewrite receiptText_stored. Qed.

(** ** Storing a receipt keeps it valid *)

Lemma stored_zero t : timely t → (stored_time t =? 0) = (t =? 0).
Proof.
  intros Ht. destruct (Z.eqb_spec t 0) as [->|Hn]; [done|]. apply Z.eqb_neq. by apply stored_nonzero.
Qed.

Lemma validateReceiptClaim_stored e c :
  claim_typed c → validateReceiptClaim e (stored_claim c) = validateReceiptClaim e c.
Proof. intros []. unfold validateReceiptClaim, stored_claim. cbn. by rewrite stored_zero. Qed.

Lemma first_claim_stored e cs :
  Forall claim_typed cs →
  first_error (validateReceiptClaim e) (stored_claim <$> cs) = first_error (validateReceiptClaim e) cs.
Proof.
  induction 1 as [|c l Hc _ IH]; [done|]. rewrite fmap_cons. cbn [first_error].
  by rewrite IH, validateReceiptClaim_stored.
Qed.

Lemma claimed_stored stage cs :
  existsb (λ c, clm_Stage c == stage) (stored_claim <$> cs) = existsb (λ c, clm_Stage c == stage) cs.
Proof. induction cs as [|c l IH]; [done|]. csimpl. by rewrite IH. Qed.

Lemma validateManagedReceipt_stored r :
  receipt_typed r → validateManagedReceipt (stored_receipt r) = validateManagedReceipt r.
Proof.
  intros []. unfold validateManagedReceipt, stored_receipt. cbn -[existsb validContentDigest blank].
  unfold llen. by rewrite !claimed_stored, first_claim_stored, length_fmap.
Qed.

Lemma ValidatePreparedReceipt_stored r :
  receipt_typed r → ValidatePreparedReceipt r = None → ValidatePreparedReceipt (stored_receipt r) = None.
Proof.
  intros Hr. pose proof (validateManagedReceipt_stored r Hr) as Hm.
  pose proof (PreparedReceiptHash_stored r Hr) as Hh. destruct Hr. unfold ValidatePreparedReceipt.
  rewrite Hh, Hm. clear Hh Hm. unfold stored_receipt. cbn -[blank validContentDigest versionMatches PreparedReceiptHash validateManagedReceipt].
  rewrite !stored_zero by done. pose proof (stored_mono (rcp_InstallStartedAt r) (rcp_PreparedAt r)) as Hle.
  destruct (Z.ltb_spec (rcp_PreparedAt r) (rcp_InstallStartedAt r)) as [|Hp].
  - by repeat case_match.
  - by rewrite (proj2 (Z.ltb_ge _ _) (Hle Hp)).
Qed.
End hash.

(** ** Sources and trust *)

(** The names of a valid source are not empty. *)
Lemma valid_source `{UrlLib} src :
  validateImageSource src = None →
  src_URLSecretRef src ≠ Some "" ∧ src_ConfigMapRef src ≠ Some "" ∧ (∀ sha, src_DeviceFile src ≠ Some ("", sha)).
Proof.
  unfold validateImageSource. intros Hv. go_none.
  destruct Hv as (_ & _ & _ & _ & Hs & Hc & _ & Hd & _). split_and!.
  - intros E. rewrite E in Hs. by repeat case_match.
  - intros E. by rewrite E in Hc.
  - intros sha E. by rewrite E in Hd.
Qed.

Lemma default_inj (o o' : option string) : o ≠ Some "" → o' ≠ Some "" → default "" o = default "" o' → o = o'.
Proof. destruct o, o'; cbn; naive_solver. Qed.

Definition source_typed (src : UpgradeImageSource) : Prop :=
  Forall ascii_string
    [src_URL src; src_SHA256 src; default "" (src_URLSecretRef src); default "" (src_ConfigMapRef src);
     default "" (fst <$> src_DeviceFile src); default "" (snd <$> src_DeviceFile src);
     src_LocalPath src; src_LocalPathSHA256 src].

Lemma source_clean src : source_typed src → clean (JObj (members (source_members src))).
Proof. unfold source_typed, source_members. intros. clean_object. Qed.

Lemma trust_clean a b c d : Forall ascii_string [a; b; c; d] → clean (JObj (members (trust_members a b c d))).
Proof. unfold trust_members. intros. clean_object. Qed.

Definition sourceText (src : UpgradeImageSource) : string := Marshal (JObj (members (source_members src))).
Definition trustText (a b c d : string) : string := Marshal (JObj (members (trust_members a b c d))).

Section identities.
Context `{HL : HashLib, HS : !HashLibSpec HL}.

Lemma canonicalPreparedHash_inj j j' :
  clean j → clean j' → canonicalPreparedHash j = canonicalPreparedHash j' →
  j = j' ∨ collides (Marshal j) (Marshal j').
Proof using HS. intros Hj Hj' [He|?]%hash_inj; [left; by apply Marshal_inj|by right]. Qed.

(** Of valid sources, the hash determines every field. *)
Lemma PreparedSourceIdentityHash_inj `{UrlLib} src src' :
  source_typed src → source_typed src' → validateImageSource src = None → validateImageSource src' = None →
  PreparedSourceIdentityHash src = PreparedSourceIdentityHash src' →
  src = src' ∨ collides (sourceText src) (sourceText src').
Proof using HS.
  intros Ht Ht' (Hs & Hc & Hd)%valid_source (Hs' & Hc' & Hd')%valid_source.
  intros [He|?]%canonicalPreparedHash_inj; [left|by right|by apply source_clean..].
  assert (members (source_members src) = members (source_members src')) as Hm by congruence.
  apply members_inj in Hm; [|done|apply (bool_decide_eq_true_1 _); vm_compute; reflexivity]. clear He.
  unfold source_members in Hm. injection Hm; clear Hm; intros.
  destruct src as [????? f], src' as [????? f']. cbn in *.
  f_equal; eauto using optstr_inj, optbool_inj, default_inj.
  destruct f as [[path sha]|], f' as [[path' sha']|]; cbn in *; try done.
  all: repeat match goal with H : optstr _ = optstr _ |- _ => apply optstr_inj in H end; naive_solver.
Qed.

(** The hash of the trust inputs determines each of them. *)
Lemma PreparedTrustIdentityHash_inj a b c d a' b' c' d' :
  Forall ascii_string [a; b; c; d] → Forall ascii_string [a'; b'; c'; d'] →
  PreparedTrustIdentityHash a b c d = PreparedTrustIdentityHash a' b' c' d' →
  (a, b, c, d) = (a', b', c', d') ∨ collides (trustText a b c d) (trustText a' b' c' d').
Proof using HS.
  intros Ht Ht' [He|?]%canonicalPreparedHash_inj; [left|by right|by apply trust_clean..].
  assert (members (trust_members a b c d) = members (trust_members a' b' c' d')) as Hm by congruence.
  apply members_inj in Hm; [|done|apply (bool_decide_eq_true_1 _); vm_compute; reflexivity].
  unfold trust_members in Hm. injection Hm. intros. repeat f_equal; eauto using optstr_inj.
Qed.
End identities.

(** ** Evidence of a drained Pod *)

Record reference_typed (r : UpgradeDrainObjectReference) : Prop := {
  rf_strings : Forall ascii_string [ref_APIVersion r; ref_Kind r; ref_Namespace r; ref_Name r; ref_UID r];
  rf_generation : 0 ≤ ref_Generation r;
}.

Record pdb_typed (p : UpgradeDrainPDBStatus) : Prop := {
  pt_reference : reference_typed (pdb_Reference p);
  pt_observed : 0 ≤ pdb_ObservedGeneration p;
  pt_allowed : 0 ≤ pdb_DisruptionsAllowed p;
  pt_current : 0 ≤ pdb_CurrentHealthy p;
  pt_desired : 0 ≤ pdb_DesiredHealthy p;
  pt_expected : 0 ≤ pdb_ExpectedPods p;
}.

Record pod_typed (pod : UpgradeDrainPodStatus) : Prop := {
  dt_strings : Forall ascii_string [dpod_Namespace pod; dpod_Name pod; dpod_UID pod; dpod_PlacementHash pod];
  dt_controller : reference_typed (dpod_Controller pod);
  dt_workload : ∀ r, dpod_WorkloadController pod = Some r → reference_typed r;
  dt_pdbs : Forall pdb_typed (dpod_PDBs pod);
  dt_grace : 0 ≤ dpod_TerminationGracePeriodSeconds pod;
}.

Lemma reference_json_inj r r' :
  reference_typed r → reference_typed r' → reference_json r = reference_json r' → r = r'.
Proof.
  intros [] []. destruct r, r'. cbn in *. unfold reference_json, reference_members. cbn.
  injection 1. intros. subst. f_equal. by apply number_inj.
Qed.

Lemma pdb_json_inj p p' : pdb_typed p → pdb_typed p' → pdb_json p = pdb_json p' → p = p'.
Proof.
  intros [] []. destruct p as [r], p' as [r']. cbn in *. unfold pdb_json, pdb_members. cbn. injection 1. intros.
  f_equal; try (by apply number_inj). apply reference_json_inj; [done|done|].
  unfold reference_json, reference_members, jint. cbn. congruence.
Qed.

Lemma reference_clean r : reference_typed r → clean (reference_json r).
Proof. intros []. unfold reference_json, reference_members. clean_object. Qed.

Lemma pdb_clean p : pdb_typed p → clean (pdb_json p).
Proof. intros [[]]. unfold pdb_json, pdb_members, reference_members. cbn [app]. clean_object. Qed.

Lemma sorted_pdbs_typed pod : pod_typed pod → Forall pdb_typed (sortedPDBs pod).
Proof. intros []. unfold sortedPDBs. by rewrite sort_by_keys_perm. Qed.

Lemma eligibility_clean pod : pod_typed pod → clean (JObj (members (eligibility_members pod))).
Proof.
  intros Hp. pose proof (sorted_pdbs_typed pod Hp) as Hd. destruct Hp as [Hs Hc Hw _ Hg].
  unfold eligibility_members. clean_object.
  - injection Hj as <-. by repeat constructor.
  - injection Hj as <-. by apply reference_clean.
  - apply fmap_Some in Hj as (r & Hr & ->). by apply reference_clean, Hw.
  - injection Hj as <-. destruct (sortedPDBs pod) as [|p l]; [done|]. apply (clean_elems (map pdb_json (p :: l))).
    intros j (q & -> & Hin)%list_elem_of_fmap. apply pdb_clean. rewrite Forall_forall in Hd. by apply Hd.
Qed.

(** What the evidence says, in whatever order its budgets are. *)
Definition eligibilityContent (pod : UpgradeDrainPodStatus) :=
  (dpod_Namespace pod, dpod_Name pod, dpod_UID pod, dpod_Controller pod, dpod_WorkloadController pod, sortedPDBs pod,
   dpod_TerminationGracePeriodSeconds pod, dpod_PlacementHash pod).

Lemma pdbs_json_inj l l' :
  match l with [] => JNull | p :: l => JArr (map pdb_json (p :: l)) end
  = match l' with [] => JNull | p :: l => JArr (map pdb_json (p :: l)) end → map pdb_json l = map pdb_json l'.
Proof. destruct l, l'; congruence. Qed.

Lemma workload_json_inj o o' :
  (∀ r, o = Some r → reference_typed r) → (∀ r, o' = Some r → reference_typed r) →
  reference_json <$> o = reference_json <$> o' → o = o'.
Proof.
  destruct o, o'; try done. intros H H' He. f_equal. apply reference_json_inj; auto. by apply (inj Some) in He.
Qed.

(** The text of the evidence determines every field of it, and does not depend on the order
    of the budgets. *)
Lemma eligibilityText_inj pod pod' :
  pod_typed pod → pod_typed pod' → eligibilityText pod = eligibilityText pod' →
  eligibilityContent pod = eligibilityContent pod'.
Proof.
  intros Hp Hp' He. apply Marshal_inj in He; [|by apply eligibility_clean..].
  assert (members (eligibility_members pod) = members (eligibility_members pod')) as Hm by congruence.
  apply members_inj in Hm; [|done|apply (bool_decide_eq_true_1 _); vm_compute; reflexivity]. clear He.
  pose proof (sorted_pdbs_typed pod Hp). pose proof (sorted_pdbs_typed pod' Hp').
  destruct Hp, Hp'. unfold eligibility_members in Hm. injection Hm; clear Hm; intros.
  assert (dpod_Controller pod = dpod_Controller pod') as Hc.
  { apply reference_json_inj; [done|done|]. unfold reference_json, reference_members, jint. cbn. congruence. }
  assert (sortedPDBs pod = sortedPDBs pod') as Hb.
  { rewrite <- (map_id (sortedPDBs pod)), <- (map_id (sortedPDBs pod')).
    apply (map_json_inj pdb_json id pdb_typed); [apply pdb_json_inj|done|done|by apply pdbs_json_inj]. }
  assert (dpod_TerminationGracePeriodSeconds pod = dpod_TerminationGracePeriodSeconds pod') by by apply number_inj.
  assert (dpod_PlacementHash pod = dpod_PlacementHash pod') by by apply optstr_inj.
  assert (dpod_WorkloadController pod = dpod_WorkloadController pod') by by apply workload_json_inj.
  unfold eligibilityContent. congruence.
Qed.

Definition with_pdbs (pod : UpgradeDrainPodStatus) (pdbs : list UpgradeDrainPDBStatus) : UpgradeDrainPodStatus :=
  {| dpod_Namespace := dpod_Namespace pod; dpod_Name := dpod_Name pod; dpod_UID := dpod_UID pod;
     dpod_EligibilityHash := dpod_EligibilityHash pod; dpod_PlacementHash := dpod_PlacementHash pod;
     dpod_Controller := dpod_Controller pod; dpod_WorkloadController := dpod_WorkloadController pod;
     dpod_PDBs := pdbs; dpod_TerminationGracePeriodSeconds := dpod_TerminationGracePeriodSeconds pod;
     dpod_Phase := dpod_Phase pod |}.

Lemma eligibilityText_order pod pdbs :
  NoDup (map pdbKeys (dpod_PDBs pod)) → dpod_PDBs pod ≡ₚ pdbs →
  eligibilityText (with_pdbs pod pdbs) = eligibilityText pod.
Proof.
  intros Hnd Hp. unfold eligibilityText, eligibility_members, sortedPDBs. cbn -[sort_by_keys members Marshal].
  by rewrite (sort_by_keys_perm_eq pdbKeys (dpod_PDBs pod) pdbs).
Qed.
