(* ===== verification/ReceiptTheorems.v ===== *)
(** * Receipts: theorems *)

From S2P Require Import Prelude GoLib GoTime Json JsonProofs Interfaces LedgerData LedgerCodec Store AdminPolicyHash SortKeys JsonFields.
From S2P Require Import Identity Quarantine TopologyLock Leaf LeafClaim LeafMarks Receipt ReceiptProofs.

Section theorems.
Context `{HL : HashLib, CL : ConditionLib} {KA : KubeAPI}.

(** ** What the checks say *)

Lemma valid_receipt r :
  ValidatePreparedReceipt r = None →
  rcp_ReceiptHash r = PreparedReceiptHash r ∧ (rcp_CampaignUID r ≠ "" → validateManagedReceipt r = None)
  ∧ versionMatches (rcp_ValidatedVersion r) (rcp_TargetVersion r) = true
  ∧ versionMatches (rcp_RunningVersion r) (rcp_TargetVersion r) = false.
Proof.
  unfold ValidatePreparedReceipt. intros Hv. go_none. destruct_and! Hv. go_bool. split_and!; try naive_solver.
  intros Hne. by rewrite bool_decide_false in * by done.
Qed.

(** The claims of a campaign's receipt are those of installing the image. *)
Lemma receipt_claims r c :
  ValidatePreparedReceipt r = None → rcp_CampaignUID r ≠ "" → c ∈ rcp_ManagedMutationClaims r →
  clm_Stage c ∈ installStages ∧ clm_PolicyEpoch c = rcp_PolicyEpoch r.
Proof.
  intros (_ & Hm & _)%valid_receipt Hne Hin. specialize (Hm Hne). unfold validateManagedReceipt in Hm.
  go_none. destruct Hm as (_ & Hall & _). specialize (Hall c Hin). unfold validateReceiptClaim in Hall.
  go_none. destruct_and! Hall. go_bool. naive_solver.
Qed.

Lemma activation_parent up prepared :
  validatePreparedActivationParent up prepared = None →
  let annotation := mget (leaf_Annotations up) in
  leafManaged up = true ∧ spec_Preinstalled (leaf_Spec up) = true
  ∧ leaf_UID prepared = annotation AnnotationPreparedUpgradeUID
  ∧ up_Name (leaf_Upgrade prepared) = annotation AnnotationPreparedUpgradeName
  ∧ up_Namespace (leaf_Upgrade prepared) = up_Namespace (leaf_Upgrade up)
  ∧ leaf_Phase prepared = "Prepared"
  ∧ ∃ receipt, ms_PreparedReceipt (leaf_Managed prepared) = Some receipt
      ∧ ValidatePreparedReceipt receipt = None
      ∧ rcp_ReceiptHash receipt = annotation AnnotationPreparedReceiptHash
      ∧ rcp_UpgradeUID receipt = leaf_UID prepared
      ∧ rcp_DeviceUID receipt = annotation AnnotationDeviceUID
      ∧ rcp_CampaignUID receipt = annotation AnnotationCampaignUID ∧ rcp_CampaignUID receipt ≠ ""
      ∧ rcp_PlanHash receipt = annotation AnnotationPlanHash
      ∧ rcp_TargetVersion receipt = spec_TargetVersion (leaf_Spec up).
Proof.
  intros Hv annotation. unfold validatePreparedActivationParent in Hv. fold annotation in Hv.
  rewrite ret_if_None in Hv. destruct Hv as [Hb Hv].
  destruct (ms_PreparedReceipt (leaf_Managed prepared)) as [receipt|]; [|done].
  go_none. destruct_and! Hv. go_bool. destruct_and!. split_and!; try done.
  exists receipt. split_and!; try congruence; try done.
  all: try (by apply dec_stable).
  intros Hz. by replace (annotation AnnotationCampaignUID) with "" in * by congruence.
Qed.

(** The parent that the worker reads passes the check. *)
Lemma parent_read {LA : @LeafAPI KA} env r up s s' res :
  validatedPreparedActivationParent env r up s = (s', inl res) →
  match res with
  | Some found => validatePreparedActivationParent up found = None
  | None => leafManaged up = false ∨ spec_Preinstalled (leaf_Spec up) = false
  end.
Proof.
  unfold validatedPreparedActivationParent. destruct (validateManagedActivationBinding r up); [done|].
  destruct (_ || _) eqn:Hm; [intros [= <- <-]; by go_bool|]. unfold mbind, API_bind.
  destruct (getLeaf env _ _ _) as [s1 [l|e]]; [|done].
  destruct (validatePreparedActivationParent up l) eqn:Hp; [done|]. by intros [= <- <-].
Qed.

(** The parts of a valid request to retire a preparation. *)
Lemma invalidation_request up :
  ValidatePreparedInvalidationRequest up = None →
  ∃ receipt request admission control,
    ms_PreparedReceipt (leaf_Managed up) = Some receipt ∧ ms_ManagerInvalidation (leaf_Managed up) = Some request
    ∧ ms_ManagerAdmission (leaf_Managed up) = Some admission ∧ ms_ManagerControl (leaf_Managed up) = Some control
    ∧ ValidatePreparedReceipt receipt = None ∧ adm_State admission = UpgradeManagerAdmissionSettled
    ∧ requestBinds up receipt request admission = true
    ∧ rcp_ManagedMutationClaims receipt = ms_ManagedMutationClaims (leaf_Managed up)
    ∧ (ctl_Cancel control = true ∧ inv_ControlRevision request ≤ ctl_Revision control
       ∨ is_Some (ms_ManagerDrain (leaf_Managed up)) ∧ ctl_Revision control < inv_ControlRevision request)
    ∧ (∀ drain, ms_ManagerDrain (leaf_Managed up) = Some drain → validateSettledDrain admission control drain = None)
    ∧ validateManagedClaimCoverage up (ctl_Revision control) = None.
Proof.
  intros Hv. unfold ValidatePreparedInvalidationRequest in Hv. rewrite ret_if_None in Hv. destruct Hv as [Hb Hv].
  destruct (ms_ManagerInvalidation (leaf_Managed up)) as [request|]; [|done].
  destruct (ms_PreparedReceipt (leaf_Managed up)) as [receipt|]; [|done].
  rewrite !ret_if_None in Hv. destruct Hv as (Hr & Hp & Hv).
  destruct (ms_ManagerAdmission (leaf_Managed up)) as [admission|]; [|done].
  destruct (ms_ManagerControl (leaf_Managed up)) as [control|]; [|done].
  destruct (ms_WorkerControl (leaf_Managed up)) as [worker|]; [|done].
  go_none. destruct Hv as (Hs & Hd & Ha & Hq & Hc). go_bool. destruct_and! Hs.
  exists receipt, request, admission, control. split_and!; try done.
  - by apply dec_stable.
  - intros drain Hdr. by rewrite Hdr in Hd.
Qed.

(** A mark of the leaf that no claim stands for. *)
Lemma coverage_unclaimed up rev stage mark :
  validateManagedClaimCoverage up rev = None → (stage, mark) ∈ managedMutationMarkers up →
  (∀ c, c ∈ ms_ManagedMutationClaims (leaf_Managed up) → clm_Stage c ≠ stage) → mark = false.
Proof.
  unfold validateManagedClaimCoverage. destruct (ms_ManagerAdmission (leaf_Managed up)); [|done].
  intros Hc Hin Hno. go_none. destruct Hc as [_ Hc]. specialize (Hc _ Hin). cbn [fst snd] in Hc.
  destruct (eqb mark (hasClaim up stage)) eqn:He; [|done]. apply eqb_prop in He. rewrite He.
  unfold hasClaim. apply bool_decide_eq_false. intros (c & -> & Hcl)%list_elem_of_fmap. by apply (Hno c).
Qed.

Lemma coverage_claims up rev admission c :
  validateManagedClaimCoverage up rev = None → ms_ManagerAdmission (leaf_Managed up) = Some admission →
  c ∈ ms_ManagedMutationClaims (leaf_Managed up) → valid_claim admission rev c.
Proof.
  unfold validateManagedClaimCoverage. intros Hc Ha Hin. rewrite Ha in Hc. go_none.
  destruct Hc as [(_ & Hall)%validateClaims_None _]. by apply Hall.
Qed.

Lemma install_not_activation stage :
  stage ∈ installStages →
  stage ≠ UpgradeManagedMutationStandbyActivation ∧ stage ≠ UpgradeManagedMutationPrimaryActivation
  ∧ stage ≠ UpgradeManagedMutationRollbackActivation.
Proof.
  unfold installStages. intros H. repeat (apply elem_of_cons in H as [->|H]; [done|]). by apply not_elem_of_nil in H.
Qed.

Lemma install_only up rev :
  validateManagedClaimCoverage up rev = None →
  (∀ c, c ∈ ms_ManagedMutationClaims (leaf_Managed up) → clm_Stage c ∈ installStages) →
  us_StandbySupervisorActivationRequested (leaf_Status up) = false
  ∧ primaryActivationRequestSubmitted up = false ∧ rollbackRequestSubmitted up = false.
Proof.
  intros Hc Hin. split_and!;
    [apply (coverage_unclaimed up rev UpgradeManagedMutationStandbyActivation)
    |apply (coverage_unclaimed up rev UpgradeManagedMutationPrimaryActivation)
    |apply (coverage_unclaimed up rev UpgradeManagedMutationRollbackActivation)];
    try done; try (by repeat constructor);
    intros c Hcc; by apply install_not_activation, Hin.
Qed.

Lemma settled_drain admission control drain :
  validateSettledDrain admission control drain = None →
  drn_State drain = UpgradeManagerDrainSettled ∧ drn_ReservationID drain = adm_ReservationID admission
  ∧ drn_ControlRevision drain = ctl_Revision control
  ∧ ∀ pod, pod ∈ drn_Pods drain → dpod_Phase pod = UpgradeDrainPodComplete ∧ dpod_EligibilityHash pod = EligibilityHash pod.
Proof.
  unfold validateSettledDrain. intros Hv. go_none. destruct Hv as (Hd & Hp & _). go_bool. destruct_and! Hd.
  split_and!; [done..|]. intros pod Hin. apply not_true_iff_false in Hp. rewrite existsb_exists in Hp.
  assert (¬ ((dpod_UID pod == "") || (dpod_Phase pod != UpgradeDrainPodComplete)
             || bool_decide (VerifyEligibilityHash pod ≠ None)) = true) as Hn.
  { intros Ht. apply Hp. exists pod. by rewrite <- list_elem_of_In. }
  apply not_true_iff_false in Hn. go_bool. destruct Hn as [[_ Hph] Hv]. split; [done|].
  apply dec_stable in Hv. unfold VerifyEligibilityHash in Hv. go_none. go_bool. by destruct Hv.
Qed.

(** ** Theorems *)

(** C14: what the hashes of the upgrade workers bind.  Two receipts with the same hash say
    the same, field by field, to the second of their times and up to the order of their
    claims; two snapshots of a drained Pod with the same hash agree on everything but
    their progress, up to the order of their disruption budgets; two valid image sources
    with the same identity are the same source, and equal trust hashes are of the same
    four Secret revisions; unless SHA-256 collides on the two texts.  Storing a receipt
    does not change its hash, and a valid receipt is valid when it is read back.  All this
    is for values that JSON keeps apart, as [receipt_typed], [pod_typed] and [source_typed]
    say: every string is ASCII text (JSON replaces invalid UTF-8), numbers are not
    negative, and a time is zero or a second or more after zero and before the year 10000.  The
    order of the claims does not change a receipt's hash when their stages are distinct,
    nor does the order of the budgets a snapshot's when no two have the same UID,
    namespace and name. *)
Theorem evidence_hashes_bind {HS : HashLibSpec HL} {UL : UrlLib} :
  (∀ r r', receipt_typed r → receipt_typed r' → PreparedReceiptHash r = PreparedReceiptHash r' →
     receiptContent r = receiptContent r' ∨ collides (receiptText r) (receiptText r'))
  ∧ (∀ r, receipt_typed r →
       PreparedReceiptHash (stored_receipt r) = PreparedReceiptHash r
       ∧ (ValidatePreparedReceipt r = None → ValidatePreparedReceipt (stored_receipt r) = None))
  ∧ (∀ r cs, NoDup (map clm_Stage (rcp_ManagedMutationClaims r)) → rcp_ManagedMutationClaims r ≡ₚ cs →
       PreparedReceiptHash (with_claims r cs) = PreparedReceiptHash r)
  ∧ (∀ pod pod', pod_typed pod → pod_typed pod' → EligibilityHash pod = EligibilityHash pod' →
       eligibilityContent pod = eligibilityContent pod' ∨ collides (eligibilityText pod) (eligibilityText pod'))
  ∧ (∀ pod pdbs, NoDup (map pdbKeys (dpod_PDBs pod)) → dpod_PDBs pod ≡ₚ pdbs →
       EligibilityHash (with_pdbs pod pdbs) = EligibilityHash pod)
  ∧ (∀ src src', source_typed src → source_typed src' →
       validateImageSource src = None → validateImageSource src' = None →
       PreparedSourceIdentityHash src = PreparedSourceIdentityHash src' →
       src = src' ∨ collides (sourceText src) (sourceText src'))
  ∧ (∀ a b c d a' b' c' d', Forall ascii_string [a; b; c; d] → Forall ascii_string [a'; b'; c'; d'] →
       PreparedTrustIdentityHash a b c d = PreparedTrustIdentityHash a' b' c' d' →
       (a, b, c, d) = (a', b', c', d') ∨ collides (trustText a b c d) (trustText a' b' c' d')).
Proof using.
  split_and!.
  - intros r r'. apply PreparedReceiptHash_inj.
  - intros r Hr. split; [by apply PreparedReceiptHash_stored|by apply ValidatePreparedReceipt_stored].
  - intros r cs Hnd Hp. unfold PreparedReceiptHash. by rewrite receiptText_order.
  - intros pod pod' Hp Hp' [He|Hc]%hash_inj; [left; by apply eligibilityText_inj|by right].
  - intros pod pdbs Hnd Hp. unfold EligibilityHash. by rewrite eligibilityText_order.
  - intros src src'. apply PreparedSourceIdentityHash_inj.
  - intros *. apply PreparedTrustIdentityHash_inj.
Qed.

(** The receipt of a leaf, when it has one, has the fields of its types. *)
Definition leaf_receipt_typed (l : Leaf) : Prop :=
  ∀ receipt, ms_PreparedReceipt (leaf_Managed l) = Some receipt → receipt_typed receipt.

(** C15: an activation has the authority of one preparation.  Two leaves that the same
    activation accepts as its preparation are the same object, with receipts of the same
    hashed text unless SHA-256 collides on the two texts; and when the strings of both
    receipts are ASCII, their numbers not negative and their times in the range of
    [receipt_typed], the same text means the same receipt, field by field, to the second
    of its times and up to the order of its claims.  That receipt is of the campaign,
    plan, device and target version of the activation, holds claims of install stages
    only, and says that the device did not run the target version.  A preparation that was
    retired authorises no activation and is not taken for consumed; one that is taken for
    consumed has a settled successor of the same device and plan that it authorised.  The
    worker goes on with a preparation that it read only when it passes this check, and
    with none only for a leaf that is not a managed activation. *)
Theorem activation_authority {HS : HashLibSpec HL} {LA : @LeafAPI KA} up prepared :
  (validatePreparedActivationParent up prepared = None →
     ∃ receipt, ms_PreparedReceipt (leaf_Managed prepared) = Some receipt
       ∧ rcp_CampaignUID receipt = mget (leaf_Annotations up) AnnotationCampaignUID
       ∧ rcp_PlanHash receipt = mget (leaf_Annotations up) AnnotationPlanHash
       ∧ rcp_DeviceUID receipt = mget (leaf_Annotations up) AnnotationDeviceUID
       ∧ rcp_TargetVersion receipt = spec_TargetVersion (leaf_Spec up)
       ∧ versionMatches (rcp_RunningVersion receipt) (spec_TargetVersion (leaf_Spec up)) = false
       ∧ (∀ c, c ∈ rcp_ManagedMutationClaims receipt → clm_Stage c ∈ installStages)
       ∧ ∀ prepared', validatePreparedActivationParent up prepared' = None →
           leaf_key prepared' = leaf_key prepared ∧ leaf_UID prepared' = leaf_UID prepared
           ∧ ∃ receipt', ms_PreparedReceipt (leaf_Managed prepared') = Some receipt'
               ∧ (receiptText receipt' = receiptText receipt
                  ∨ collides (receiptText receipt') (receiptText receipt))
               ∧ (leaf_receipt_typed prepared → leaf_receipt_typed prepared' →
                  receiptContent receipt' = receiptContent receipt
                  ∨ collides (receiptText receipt') (receiptText receipt)))
  ∧ (PreparedReceiptInvalidated prepared = true →
       validatePreparedActivationParent up prepared ≠ None
       ∧ ∀ candidates, PreparedReceiptConsumed prepared candidates = false)
  ∧ (∀ candidates, PreparedReceiptConsumed prepared candidates = true →
       ∃ consumer admission receipt, consumer ∈ candidates ∧ leaf_UID consumer ≠ leaf_UID prepared
         ∧ validatePreparedActivationParent consumer prepared = None ∧ leaf_Phase consumer = "Succeeded"
         ∧ ms_PreparedReceipt (leaf_Managed prepared) = Some receipt
         ∧ ms_ManagerAdmission (leaf_Managed consumer) = Some admission
         ∧ adm_State admission = UpgradeManagerAdmissionSettled ∧ adm_LeafUID admission = leaf_UID consumer
         ∧ adm_DeviceUID admission = rcp_DeviceUID receipt ∧ adm_PlanHash admission = rcp_PlanHash receipt)
  ∧ (∀ env r s s' res, validatedPreparedActivationParent env r up s = (s', inl res) →
       match res with
       | Some found => validatePreparedActivationParent up found = None
       | None => leafManaged up = false ∨ spec_Preinstalled (leaf_Spec up) = false
       end).
Proof using.
  split_and!.
  - intros (_ & _ & Hu & Hn & Hns & _ & r & Hr & Hv & Hh & _ & Hd & Hcu & Hne & Hp & Ht)%activation_parent.
    pose proof (valid_receipt r Hv) as (He & _ & _ & Hver). exists r. rewrite <- Ht.
    split_and!; try done; [intros c Hc; by eapply receipt_claims|].
    intros prepared' (_ & _ & Hu' & Hn' & Hns' & _ & r' & Hr' & Hv' & Hh' & _)%activation_parent.
    assert (PreparedReceiptHash r' = PreparedReceiptHash r) as Hhash
      by (destruct (valid_receipt r' Hv') as (He' & _); congruence).
    split_and!; [unfold leaf_key; congruence|congruence|]. exists r'.
    split_and!; [done|by apply hash_inj|]. intros Hty Hty'.
    apply PreparedReceiptHash_inj; [by apply Hty'|by apply Hty|done].
  - unfold PreparedReceiptInvalidated. case_match; [done|]. case_match eqn:Hph; [done|]. intros _.
    go_bool. split; [|intros cs; unfold PreparedReceiptConsumed; by rewrite Hph].
    intros (_ & _ & _ & _ & _ & Hph' & _)%activation_parent. congruence.
  - intros candidates. unfold PreparedReceiptConsumed. case_match; [done|].
    destruct (ms_PreparedReceipt (leaf_Managed prepared)) as [r|] eqn:Hr; [|done].
    case_match; [done|]. rewrite existsb_exists. intros (consumer & Hin & Hc).
    rewrite <- list_elem_of_In in Hin. unfold consumes in Hc.
    destruct (ms_ManagerAdmission (leaf_Managed consumer)) as [adm|] eqn:Ha; [|by rewrite andb_false_r in Hc].
    go_bool. destruct_and! Hc. exists consumer, adm, r. by split_and!.
  - intros env r s s' res. apply parent_read.
Qed.

(** C24: a preparation is retired only when nothing was activated.  A valid request names
    the leaf's own valid receipt and comes under a settled admission, from a cancelled
    control or after a settled drain whose Pods are complete, with evidence that matches
    its hash; the receipt's claims are the leaf's, each under the admission's reservation
    and policy epoch; and in a campaign they are of install stages only, and no
    activation or rollback was requested, not even by the conditions of the leaf.  What is
    recorded as retired had such a request. *)
Theorem invalidation_is_safe up :
  (PreparedReceiptInvalidated up = true → ValidatePreparedInvalidationRequest up = None)
  ∧ (ValidatePreparedInvalidationRequest up = None →
     ∃ receipt request admission control,
       ms_PreparedReceipt (leaf_Managed up) = Some receipt ∧ ms_ManagerInvalidation (leaf_Managed up) = Some request
       ∧ ms_ManagerAdmission (leaf_Managed up) = Some admission ∧ ms_ManagerControl (leaf_Managed up) = Some control
       ∧ rcp_UpgradeUID receipt = leaf_UID up ∧ inv_ReceiptHash request = PreparedReceiptHash receipt
       ∧ adm_State admission = UpgradeManagerAdmissionSettled
       ∧ (ctl_Cancel control = true ∨ is_Some (ms_ManagerDrain (leaf_Managed up)))
       ∧ (∀ drain, ms_ManagerDrain (leaf_Managed up) = Some drain →
            drn_State drain = UpgradeManagerDrainSettled ∧ drn_ReservationID drain = adm_ReservationID admission
            ∧ drn_ControlRevision drain = ctl_Revision control
            ∧ ∀ pod, pod ∈ drn_Pods drain →
                dpod_Phase pod = UpgradeDrainPodComplete ∧ dpod_EligibilityHash pod = EligibilityHash pod)
       ∧ rcp_ManagedMutationClaims receipt = ms_ManagedMutationClaims (leaf_Managed up)
       ∧ (∀ c, c ∈ ms_ManagedMutationClaims (leaf_Managed up) → valid_claim admission (ctl_Revision control) c)
       ∧ (rcp_CampaignUID receipt ≠ "" →
            (∀ c, c ∈ ms_ManagedMutationClaims (leaf_Managed up) → clm_Stage c ∈ installStages)
            ∧ us_StandbySupervisorActivationRequested (leaf_Status up) = false
            ∧ primaryActivationRequestSubmitted up = false ∧ rollbackRequestSubmitted up = false)).
Proof using.
  split.
  { unfold PreparedReceiptInvalidated. case_match eqn:Hv; [done|]. intros _. go_bool. by apply dec_stable. }
  intros (r & q & adm & ctl & Hr & Hq & Ha & Hc & Hv & Hs & Hb & Hcl & Hauth & Hd & Hcov)%invalidation_request.
  exists r, q, adm, ctl. unfold requestBinds in Hb. go_bool. destruct_and! Hb.
  destruct (valid_receipt r Hv) as (He & _). split_and!; try done; try congruence.
  - naive_solver.
  - intros drain Hdr. eapply settled_drain; auto.
  - intros c. by apply coverage_claims.
  - intros Hne. assert (∀ c, c ∈ ms_ManagedMutationClaims (leaf_Managed up) → clm_Stage c ∈ installStages) as Hin.
    { intros c Hin. rewrite <- Hcl in Hin. by eapply receipt_claims. }
    split; [done|]. by eapply install_only.
Qed.
End theorems.
