(* ===== verification/ReceiptExamples.v ===== *)
(** * Receipts: a preparation, its activation and its retirement

    The witnesses of ReceiptTheorems.v. *)

From S2P Require Import Prelude GoLib GoTime Json JsonProofs Interfaces LedgerData LedgerExamples Store AdminPolicyHash.
From S2P Require Import PolicyExamples SortKeys Identity Quarantine TopologyLock Leaf LeafClaim LeafMarks LeafExamples.
From S2P Require Import Receipt ReceiptProofs ReceiptTheorems.

(** ** A preparation *)

Definition exPreparedClaim (stage : string) : UpgradeManagedMutationClaimStatus := {|
  clm_Stage := stage; clm_ReservationID := "rsv-1"; clm_PolicyEpoch := 3; clm_ControlRevision := 1;
  clm_ClaimedAt := 5 * nsPerSecond + 17 |}.

Definition exPreparedClaims : list UpgradeManagedMutationClaimStatus :=
  [exPreparedClaim UpgradeManagedMutationStaging; exPreparedClaim UpgradeManagedMutationPrimaryInstall].

Definition unsealed : UpgradePreparedReceiptStatus := {|
  rcp_ProtocolVersion := preparedReceiptProtocolV1; rcp_UpgradeUID := "leaf-1"; rcp_DeviceUID := "dev-1";
  rcp_NodeUID := "node-uid"; rcp_PhysicalIdentity := "fcw2233a1b2"; rcp_DeviceGeneration := 4;
  rcp_CampaignUID := "campaign"; rcp_PlanHash := exHash;
  rcp_ManagedProtocolVersion := ManagedUpgradeProtocolRolloutV1; rcp_PolicyUID := "policy-uid";
  rcp_PolicyResourceVersion := "v7"; rcp_PolicyEpoch := 3; rcp_WorkerRevision := exHash; rcp_SourceDigest := exHash;
  rcp_SourceSize := 1200; rcp_SourceIdentityHash := exHash; rcp_SourceSecretUID := ""; rcp_TrustIdentityHash := exHash;
  rcp_ContentBinding := preparedContentBindingV1; rcp_TargetVersion := "17.18.2"; rcp_ValidatedVersion := "17.18.2.0";
  rcp_RunningVersion := "17.15.1"; rcp_IndividualSupervisorInstall := false; rcp_PrimarySupervisorInstalled := true;
  rcp_StandbySupervisorInstalled := false; rcp_StandbySupervisorID := ""; rcp_StandbyRunningVersion := "";
  rcp_InstallStartedAt := 6 * nsPerSecond; rcp_StagingOperationID := "op-1";
  rcp_ManagedMutationClaims := exPreparedClaims; rcp_PreparedAt := 7 * nsPerSecond + 5; rcp_ReceiptHash := "" |}.

Definition sealed (r : UpgradePreparedReceiptStatus) : UpgradePreparedReceiptStatus := {|
  rcp_ProtocolVersion := rcp_ProtocolVersion r; rcp_UpgradeUID := rcp_UpgradeUID r;
  rcp_DeviceUID := rcp_DeviceUID r; rcp_NodeUID := rcp_NodeUID r; rcp_PhysicalIdentity := rcp_PhysicalIdentity r;
  rcp_DeviceGeneration := rcp_DeviceGeneration r; rcp_CampaignUID := rcp_CampaignUID r;
  rcp_PlanHash := rcp_PlanHash r; rcp_ManagedProtocolVersion := rcp_ManagedProtocolVersion r;
  rcp_PolicyUID := rcp_PolicyUID r; rcp_PolicyResourceVersion := rcp_PolicyResourceVersion r;
  rcp_PolicyEpoch := rcp_PolicyEpoch r; rcp_WorkerRevision := rcp_WorkerRevision r;
  rcp_SourceDigest := rcp_SourceDigest r; rcp_SourceSize := rcp_SourceSize r;
  rcp_SourceIdentityHash := rcp_SourceIdentityHash r; rcp_SourceSecretUID := rcp_SourceSecretUID r;
  rcp_TrustIdentityHash := rcp_TrustIdentityHash r; rcp_ContentBinding := rcp_ContentBinding r;
  rcp_TargetVersion := rcp_TargetVersion r; rcp_ValidatedVersion := rcp_ValidatedVersion r;
  rcp_RunningVersion := rcp_RunningVersion r; rcp_IndividualSupervisorInstall := rcp_IndividualSupervisorInstall r;
  rcp_PrimarySupervisorInstalled := rcp_PrimarySupervisorInstalled r;
  rcp_StandbySupervisorInstalled := rcp_StandbySupervisorInstalled r;
  rcp_StandbySupervisorID := rcp_StandbySupervisorID r; rcp_StandbyRunningVersion := rcp_StandbyRunningVersion r;
  rcp_InstallStartedAt := rcp_InstallStartedAt r; rcp_StagingOperationID := rcp_StagingOperationID r;
  rcp_ManagedMutationClaims := rcp_ManagedMutationClaims r; rcp_PreparedAt := rcp_PreparedAt r;
  rcp_ReceiptHash := PreparedReceiptHash r |}.

Definition exReceipt : UpgradePreparedReceiptStatus := sealed unsealed.

Example exReceipt_valid : ValidatePreparedReceipt exReceipt = None.
Proof. vm_compute. reflexivity. Qed.

Lemma exReceipt_typed : receipt_typed exReceipt.
Proof.
  split; try (vm_compute; done).
  - repeat constructor.
  - right. vm_compute. done.
  - right. vm_compute. done.
  - repeat constructor; try (vm_compute; done); right; vm_compute; done.
Qed.

Definition exSettled : Condition := {|
  cond_Type := "DeviceMutationSettled"; cond_Status := "True"; cond_Reason := "Settled"; cond_Message := "";
  cond_LastTransitionTime := 7 * nsPerSecond; cond_ObservedGeneration := 1 |}.

Definition exVerified : Condition := {|
  cond_Type := "Verified"; cond_Status := "True"; cond_Reason := "Verified"; cond_Message := "";
  cond_LastTransitionTime := 7 * nsPerSecond; cond_ObservedGeneration := 1 |}.

(** The status of a leaf that has installed its image and is done. *)
Definition exDone (phase : string) (activated : bool) : IOSXESoftwareUpgradeStatus := {|
  us_Phase := phase; us_ExecutionModel := UpgradeExecutionModelAtMostOnceV1; us_FailureReason := "";
  us_StartTime := Some (4 * nsPerSecond); us_InstallStartTime := Some (6 * nsPerSecond);
  us_ActivationStartTime := None; us_RollbackStartTime := None; us_CompletionTime := Some (7 * nsPerSecond);
  us_TransferProgress := false; us_StagingRequested := negb activated;
  us_PrimarySupervisorInstallRequested := negb activated; us_PrimarySupervisorInstalled := true;
  us_StandbySupervisorInstallRequested := false; us_StandbySupervisorInstalled := false;
  us_StandbySupervisorActivationRequested := false; us_StandbySupervisorActivated := false;
  us_PrimarySupervisorActivationRequested := activated; us_NoRebootActivationAccepted := false;
  us_RollbackActivationRequested := false; us_Conditions := [exVerified; exSettled] |}.

Definition exRequest : UpgradePreparedInvalidationRequest := {|
  inv_ReceiptHash := rcp_ReceiptHash exReceipt; inv_PlanHash := exHash; inv_CampaignUID := "campaign";
  inv_ControlRevision := 1; inv_RequestedBy := "operator"; inv_RequestedAt := 8 * nsPerSecond;
  inv_Reason := "image withdrawn" |}.

Definition exProof : UpgradePreparedInvalidationStatus := {|
  ivd_RequestHash := PreparedInvalidationRequestHash exRequest; ivd_NativeEvidenceHash := exHash;
  ivd_ObservedAt := 9 * nsPerSecond; ivd_WorkerRevision := exHash; ivd_WorkerPodUID := "pod-1";
  ivd_RunningVersion := "17.15.1"; ivd_TargetState := InventoryStateInstalled |}.

Definition exAdmitted (uid : string) : UpgradeManagerAdmissionStatus :=
  let a := exAdmission UpgradeManagerAdmissionSettled in
  {| adm_ProtocolVersion := adm_ProtocolVersion a; adm_State := adm_State a; adm_CampaignUID := adm_CampaignUID a;
     adm_PlanHash := adm_PlanHash a; adm_PolicyUID := adm_PolicyUID a;
     adm_PolicyResourceVersion := adm_PolicyResourceVersion a; adm_PolicyEpoch := adm_PolicyEpoch a;
     adm_RevocationReason := adm_RevocationReason a; adm_LedgerUID := adm_LedgerUID a;
     adm_ReservationID := adm_ReservationID a; adm_TopologyLockID := adm_TopologyLockID a; adm_LeafUID := uid;
     adm_DeviceUID := adm_DeviceUID a; adm_DeviceGeneration := adm_DeviceGeneration a;
     adm_PhysicalIdentity := adm_PhysicalIdentity a; adm_NodeUID := adm_NodeUID a;
     adm_ControlRevision := adm_ControlRevision a; adm_NetworkEvidenceHash := adm_NetworkEvidenceHash a;
     adm_NetworkEvidenceProducerRevision := adm_NetworkEvidenceProducerRevision a;
     adm_NetworkEvidenceWorkerPodUID := adm_NetworkEvidenceWorkerPodUID a;
     adm_NetworkEvidenceSampleSequence := adm_NetworkEvidenceSampleSequence a;
     adm_NetworkEvidenceNotAfter := adm_NetworkEvidenceNotAfter a; adm_UpdatedAt := adm_UpdatedAt a |}.

Definition exWorkerSettled : UpgradeWorkerControlStatus := {|
  wc_ObservedAdmissionState := UpgradeManagerAdmissionSettled; wc_ObservedPolicyEpoch := 3;
  wc_ObservedControlRevision := 1; wc_ObservedWorkerConfigRevision := "rev-2";
  wc_EffectiveState := UpgradeWorkerControlSettled; wc_UpdatedAt := 7 * nsPerSecond; wc_Message := "" |}.

Definition exManagedDone (uid running : string) (cancel : bool) (claims : list UpgradeManagedMutationClaimStatus)
    (receipt : option UpgradePreparedReceiptStatus) (request : option UpgradePreparedInvalidationRequest)
    (proof : option UpgradePreparedInvalidationStatus) : ManagedStatus := {|
  ms_ManagerAdmission := Some (exAdmitted uid); ms_ManagerControl := Some (exControl cancel);
  ms_WorkerControl := Some exWorkerSettled; ms_ManagerDrain := None; ms_ManagedMutationClaims := claims;
  ms_ManagerInvalidation := request; ms_PreparedInvalidation := proof; ms_PreparedReceipt := receipt;
  ms_SourceDigest := exHash; ms_SourceSize := 1200; ms_StagingOperationID := "op-1"; ms_RunningVersion := running;
  ms_PreviousVersion := "17.15.1"; ms_ValidatedVersion := "17.18.2.0"; ms_IndividualSupervisorInstall := false;
  ms_ActivationControlStartTime := None; ms_ObservedGeneration := 1; ms_Message := "" |}.

Definition exSpec (strategy : string) (preinstalled : bool) : UpgradeSpec := {|
  spec_Strategy := strategy; spec_TargetVersion := "17.18.2"; spec_Preinstalled := preinstalled;
  spec_RequireNetworkEvidence := false; spec_MaxTransferBytesPerSecond := 0; spec_URL := "https://images/cat9k.bin";
  spec_URLSecretRef := None |}.

Definition exUpgrade (name uid : string) (st : IOSXESoftwareUpgradeStatus) : IOSXESoftwareUpgrade := {|
  up_Namespace := "fleet"; up_Name := name; up_UID := uid; up_CreationTimestamp := nsPerSecond;
  up_DeviceRef := "sw-1"; up_Status := st |}.

(** The prepared leaf; the same, retired; and the leaf that activates the preparation. *)
Definition exPrepared : Leaf := {|
  leaf_Upgrade := exUpgrade "leaf" "leaf-1" (exDone "Prepared" false);
  leaf_Managed := exManagedDone "leaf-1" "17.15.1" false exPreparedClaims (Some exReceipt) None None;
  leaf_Spec := exSpec "PrepareOnly" false; leaf_Annotations := leaf_Annotations exGranted; leaf_Generation := 1;
  leaf_Deleting := false; leaf_ResourceVersion := "1" |}.

Definition exRetired : Leaf := {|
  leaf_Upgrade := exUpgrade "leaf" "leaf-1" (exDone "PreparedInvalidated" false);
  leaf_Managed := exManagedDone "leaf-1" "17.15.1" true exPreparedClaims (Some exReceipt) (Some exRequest) (Some exProof);
  leaf_Spec := exSpec "PrepareOnly" false; leaf_Annotations := leaf_Annotations exGranted; leaf_Generation := 1;
  leaf_Deleting := false; leaf_ResourceVersion := "1" |}.

Definition exActivation : Leaf := {|
  leaf_Upgrade := exUpgrade "activate" "leaf-2" (exDone "Succeeded" true);
  leaf_Managed := exManagedDone "leaf-2" "17.18.2" false [exPreparedClaim UpgradeManagedMutationPrimaryActivation] None None None;
  leaf_Spec := exSpec "Rolling" true;
  leaf_Annotations := list_to_map
    [(AnnotationManaged, "true"); (AnnotationDeviceUID, "dev-1"); (AnnotationCampaignUID, "campaign");
     (AnnotationPlanHash, exHash); (AnnotationActivationApprovalHash, exHash);
     (AnnotationPreparedReceiptHash, rcp_ReceiptHash exReceipt); (AnnotationPreparedSourceDigest, exHash);
     (AnnotationPreparedTrustHash, exHash); (AnnotationPreparedUpgradeUID, "leaf-1");
     (AnnotationPreparedUpgradeName, "leaf")];
  leaf_Generation := 1; leaf_Deleting := false; leaf_ResourceVersion := "1" |}.

Example exPreparation :
  validatePreparedActivationParent exActivation exPrepared = None
  ∧ PreparedReceiptConsumed exPrepared [exGranted; exActivation] = true
  ∧ PreparedReceiptConsumed exPrepared [exGranted] = false
  ∧ PreparedReceiptInvalidated exRetired = true.
Proof. vm_compute. split_and!; reflexivity. Qed.

(** ** Witnesses *)

(** A URL without user information, for evaluation. *)
Definition url_reference : UrlLib := {| url_Parse url := if url == "" then None else Some false |}.

(** The receipt, read back with its claims in the other order. *)
Lemma evidence_hashes_bind_witness :
  ValidatePreparedReceipt (stored_receipt exReceipt) = None
  ∧ PreparedReceiptHash (with_claims exReceipt (reverse exPreparedClaims)) = PreparedReceiptHash exReceipt.
Proof.
  destruct (evidence_hashes_bind (HL := hash_reference) (UL := url_reference)) as (_ & Hs & Ho & _). split.
  - apply (Hs exReceipt); [exact exReceipt_typed|vm_compute; reflexivity].
  - apply Ho; [vm_compute; apply (bool_decide_eq_true_1 _); vm_compute; reflexivity|].
    symmetry. apply reverse_Permutation.
Defined.

Lemma activation_authority_witness :
  (∀ prepared', validatePreparedActivationParent exActivation prepared' = None →
     leaf_UID prepared' = "leaf-1")
  ∧ validatePreparedActivationParent exActivation exRetired ≠ None.
Proof.
  split.
  - intros prepared' Hp.
    destruct (proj1 (activation_authority (HL := hash_reference) (LA := exLeafAPI) exActivation exPrepared))
      as (r & _ & _ & _ & _ & _ & _ & _ & Hone); [vm_compute; reflexivity|].
    apply (Hone prepared' Hp).
  - apply (activation_authority (HL := hash_reference) (LA := exLeafAPI) exActivation exRetired). vm_compute. reflexivity.
Defined.

Lemma invalidation_is_safe_witness :
  primaryActivationRequestSubmitted exRetired = false ∧ rollbackRequestSubmitted exRetired = false.
Proof.
  destruct (invalidation_is_safe (HL := hash_reference) exRetired) as [Hi Hs].
  destruct Hs as (r & q & a & c & Hr & _ & _ & _ & _ & _ & _ & _ & _ & _ & _ & Hc).
  { apply Hi. vm_compute. reflexivity. }
  apply Hc. vm_compute in Hr. injection Hr as <-. discriminate.
Defined.
